(* ===== verification/_CoqProject ===== *)
-Q . S2P
Prelude.v
Double.v
Net.v
Hash.v
Text.v
Kernel.v
RawSocket.v
Arp.v
Config.v
Getopt.v
Maglev.v
Conntrack.v
ConntrackSpec.v
Stats.v
BackendManager.v
TableGenerator.v
Reclamation.v
Datapath.v
HealthChecker.v
HealthCheckerSpec.v
DatapathRun.v
Metrics.v
RemapReport.v
Startup.v
System.v
Tui.v
Main.v
Python.v
Schema.v
Reconciler.v
ReconcilerInv.v
ReconcilerSpec.v
ServiceServer.v
LbMetrics.v
Bridge.v
HttpApi.v
LoadClient.v
Publisher.v
Windows.v
LiveBridge.v
Snapshot.v
