(* ===== verification/Prelude.v ===== *)
(** * l4-maglev-lb: a verified model

    The program is a layer-4 load balancer in C.  One thread, the datapath,
    receives Ethernet frames on a raw socket, finds for each TCP or UDP flow over
    IPv4 the backend it is pinned to, or picks one from a Maglev lookup table and
    pins it, wraps the packet in GRE and sends it on.  A second thread probes the
    backends and takes administrative commands from a FIFO; whatever it changes
    makes the lookup table be rebuilt and published to the datapath.  A third
    serves counters over HTTP, and a dashboard may run in the terminal.  [main]
    starts all of this, and gives everything back at the end.

    Beside the daemon runs the bridge, in Python, for a demonstration in the
    browser: it starts the daemon, keeps as many backend and client processes as
    the browser asks for (the reconciler), drains and undrains them in the daemon
    through the FIFO, and shows what the daemon and the processes report.

    ** How C is modelled

    Integers are [Z] with the conversions to their width written out ([u8] to
    [u64], [s32], [s64]).  Code returns in the monad [out]: [Val], [Undef] for
    undefined behaviour (an access outside an array, a division by zero, a double
    free or double close, an access through NULL), [NoFuel] for a loop that has
    not ended when its fuel or its list of kernel answers is used up.  A theorem
    that a call equals [Val _] states memory safety and termination at once.
    Loops over arrays are structural.  The others have fuel that is proved to be
    enough: the square root for trial division ([Maglev.prime_loop]), the table
    size for [Maglev.populate] and [Maglev.probe], 65 doublings for
    [Conntrack.next_pow2], the slab size for the chains ([find_entry],
    [reap_chain]), the length of the data for the checksum.  System calls, clocks and
    [malloc] are oracles: records of functions, or lists of answers for the calls
    made in a loop.  Loops that wait consume such a list, and their theorems
    assume that the event which ends them (a deadline, a signal, a wake-up) is in
    it.  Descriptors are tracked in [Kernel.kernel], heap snapshots in
    [TableGenerator.snap_heap], components of [main] in [Startup.proc].  The host
    is little-endian and LP64.  Doubles are rounded as IEEE 754 says ([Double]).

    ** How Python is modelled

    Integers are unbounded, dictionaries keep the order of insertion, strings are
    lists of code points, and a call returns [Ok] or [Raise] with the exception
    ([Python]).  Code that changes state runs in a state monad, in [ServiceServer]
    one whose state survives an exception, as it does in a handler.  Coroutines are
    cut at their awaits: an event resumes them, and any order of events is
    possible.  Other processes, clocks and random numbers are inputs of the events.
    Numbers of JSON documents are exact ([Schema.num]); what [int] and [float] make
    of text that is not a plain number is a parameter (class [LbMetrics.Numerals]).

    ** The files

    - [Prelude]: the monad, array accesses, arithmetic, hint databases and
      tactics.
    - [Net] (src/src/net: eth, ipv4, tcp_udp, gre, flow): every parser and
      builder.  [packet_extract_flow] accepts exactly the well-formed frames
      ([packet_extract_flow_exact]); [gre_encap_build] parses back
      ([gre_encap_roundtrip]).
    - [Hash] (maglev/hash.c and [ipv4_format]), [Text] (the C library's number
      and address parsing).
    - [Kernel]: descriptors, [errno], socket addresses; [RawSocket]
      (net/raw_socket.c) and [Arp] (net/arp_resolve.c): every outcome of a
      resolution ([arp_resolve_correct]).
    - [Config], [Getopt] (config/config.c): parsing is safe and yields a
      well-formed configuration ([config_parse_args_valid]); however a valid
      configuration is spelled on the command line, it is read back
      ([command_line_roundtrip]).
    - [Maglev] (maglev/maglev_table.c): table generation equals a reference
      algorithm, fills the table evenly and does not depend on the order of the
      backends; routing snapshots resolve what they map.
    - [Conntrack], [ConntrackSpec] (conntrack/conntrack.c, reaper.c): the slab
      with its chains refines a finite map over any sequence of operations
      ([conntrack_trace_refines]); idle flows are evicted.
    - [Stats] (stats/stats_registry.c): 64-bit counters, bounds and NULL.
    - [BackendManager] (backend/backend_manager.c): slots and notification.  The
      class [ChangeListener] is what the manager expects of its subscriber, and
      [SettersSound] what the health checker relies on.
    - [TableGenerator] (backend/table_generator.c) implements [ChangeListener]:
      rebuilds install a snapshot that serves the current backends; draining
      stops new flows only.  [Reclamation] interleaves the rebuilding thread and
      the datapath by a step relation: no snapshot is used after it is freed
      ([no_use_after_free]).
    - [Datapath] (forward/datapath.c): [handle_packet] refines a specification
      ([handle_packet_correct]); flows stick to their backend; the event loop
      keeps the gauges equal to the number of pinned flows.  [DatapathRun]: the
      setup, the run as a whole and the destruction ([datapath_run_clean]).
    - [HealthChecker], [HealthCheckerSpec] (backend/health_checker.c): probe
      rounds, rise and fall counters against the history of results, the FIFO,
      the thread.
    - [Metrics] (ui/metrics_http.c): a scrape of the response gives back the
      state ([metrics_response_exact]); the server's life cycle.
    - [RemapReport] (src/tools/maglev_remap_report.c): the counts are those of
      the two generated tables, and what is printed of them.
    - [Tui] (ui/tui.c): what is drawn, and when the loop ends.
    - [Startup], [Main] (main.c): what is served once the datapath runs
      ([startup_serves_configured]); on every path from the command line to the
      exit the process ends with all descriptors closed and every component and
      snapshot freed ([main_clean]).
    - [System] composes the datapath, the health checker and the rebuilding of the
      table by a step relation from the started daemon on: no interleaving goes
      wrong ([system_never_stuck]), packets go to backends whose probes succeed or
      to which their flow is pinned ([packets_follow_probes]), and a drained backend
      gets no new flow ([drained_backend_only_loses_flows]).

    The bridge (src/bridge):

    - [Python]: exceptions, dictionaries, sorting.
    - [Schema] (schema.py): what is accepted of a document is within the rules
      ([validate_desired_sound]), and all that is within them is accepted.
    - [Reconciler], [ReconcilerInv], [ReconcilerSpec] (reconciler.py): no input
      makes it raise an exception or lose its invariant
      ([reconciler_never_raises]); backends are placed, removed in bounded time, and
      their slots freed only when the daemon has given them up.
    - [LbMetrics] (lbmetrics.py): what the bridge reads from a scrape is what the
      daemon holds ([bridge_sees_backends], with [Metrics]).
    - [Bridge]: the daemon executes exactly the commands the reconciler issues
      ([bridge_commands_executed], with [HealthChecker]).
    - [LiveBridge] (live_bridge.py): the daemon started for the slots knows them by
      the same numbers ([daemon_serves_slots], with [Getopt] and [Startup]);
      requests, ticks and restarts of the daemon as a machine over the reconciler
      ([one_daemon_runs], [restart_recovers]).  [Snapshot]: the snapshot of a tick
      shows every slot in use once ([snapshot_complete]).
    - [HttpApi], [Publisher] (httpapi.py): only authorised and validated requests
      reach the bridge ([calls_authorised]), which of them are answered
      ([request_answered]), static files stay inside their directory; what the
      streams carry ([streams_follow]).
    - [ServiceServer] (service_server.py), [LoadClient] (load_client.py): the
      processes themselves.  Requests are served in order within capacity and all
      accounted for ([requests_served_in_order], [requests_accounted]); replies find
      their requests ([replies_matched]); an idle report means idle
      ([idle_report_is_idle]).
    - [Windows] (windows.py, livecommon.py): windows of latencies and rates over the
      reports of the processes ([latency_window_exact], [percentile_exact]).

    Some theorems prove defects.  In the daemon: the tail of an overlong FIFO line is
    executed ([overlong_line_tail_executed]), health-check options are truncated to
    32 bits ([config_hc_options_truncate]), a probe during the shutdown counts into
    freed counters ([cleanup_counts_into_freed_stats]), quitting the dashboard too
    early leaves the process waiting ([early_quit_waits]); in the report tool,
    [remap_tiny_m_undefined].  In the bridge: a second restart of the daemon during
    the first ([second_restart_ends_bridge], [second_restart_two_daemons]), a wait
    that old observations end ([stale_observation_ends_wait]), a request without an
    answer ([request_answered]), ids that cost capacity ([nonascii_id_wedges]), a
    limit that bursts exceed ([burst_exceeds_limit]), and restarts that leave a
    backend crashed or starting ([restart_leaves_crashed],
    [drained_restart_stays_starting]).

    ** Bounds

    Theorems that create a connection table assume fewer than 2^50 flows: far
    above, [next_pow2] does not end.  Backend ids stay below 2^31, of which a
    manager would need 2^31 additions to run out.  Clocks are 64-bit values
    without further assumption.

    ** Not modelled

    - libxxhash: [XXH64] is a parameter (class [Hash.XXHash]), of which only the
      range of the result is used.
    - Atomic counters and lock-free reads are sequential steps.  [Reclamation] and
      [System] interleave the threads; [Main] composes them one after the other,
      with what another thread may have changed as an input, and advances the
      health thread after the datapath has returned.
    - The effect of the signal mask, socket options, ncurses, messages on stderr.
    - Of the bridge: spawning and signalling processes (children.py), the rates and
      counters in the snapshots it publishes, argparse, JSON as text, the logarithms
      and random numbers of livecommon.py; latencies and arrival times are inputs.
    - The shell scripts that set up network namespaces, the load generators of the
      benchmarks, and the dashboards (src/scripts, src/monitoring): commands for
      other programs. *)

From Stdlib Require Import Lia.
From stdpp Require Import base list numbers gmap.

Local Open Scope Z_scope.

(** ** Fixed-width C integers

    A C unsigned integer of width [w] is a [Z] kept in range by the modular
    conversions below; [s32] is the conversion to [int32_t]. *)

Definition u8 (z : Z) : Z := z mod 2 ^ 8.
Definition u16 (z : Z) : Z := z mod 2 ^ 16.
Definition u32 (z : Z) : Z := z mod 2 ^ 32.
Definition u64 (z : Z) : Z := z mod 2 ^ 64.
Definition s32 (z : Z) : Z := (z + 2 ^ 31) mod 2 ^ 32 - 2 ^ 31.

Definition UINT32_MAX : Z := 4294967295.

(** ** Outcomes of C code

    [Val a] is a normal result, [Undef] undefined behaviour (an access outside
    an object), [NoFuel] a loop that is still running when the fuel of the
    model is spent.  A theorem that a run equals [Val _] is therefore a memory
    safety and a termination statement at once. *)

Inductive out (A : Type) : Type :=
| Val (a : A)
| Undef
| NoFuel.
Arguments Val {A} a.
Arguments Undef {A}.
Arguments NoFuel {A}.

#[export] Instance out_ret : MRet out := λ A a, Val a.
#[export] Instance out_bind : MBind out := λ A B f x,
  match x with Val a => f a | Undef => Undef | NoFuel => NoFuel end.
#[export] Instance out_fmap : FMap out := λ A B f x,
  match x with Val a => Val (f a) | Undef => Undef | NoFuel => NoFuel end.

(** Array reads and writes: outside the array is undefined behaviour. *)
Definition rd {A} (l : list A) (i : nat) : out A :=
  match l !! i with Some x => Val x | None => Undef end.
Definition wr {A} (l : list A) (i : nat) (x : A) : out (list A) :=
  if decide (i < length l)%nat then Val (<[i:=x]> l) else Undef.

(** Stores of consecutive elements starting at [off]: what a [memcpy] into the
    array, or a run of assignments to consecutive indices, does. *)
Fixpoint wr_list {A} (l : list A) (off : nat) (xs : list A) : out (list A) :=
  match xs with
  | [] => Val l
  | x :: xs => l' ← wr l off x; wr_list l' (S off) xs
  end.

(** [n] consecutive elements from [off]: the source of a [memcpy]. *)
Fixpoint rd_list {A} (l : list A) (off n : nat) : out (list A) :=
  match n with
  | O => Val []
  | S n => x ← rd l off; xs ← rd_list l (S off) n; Val (x :: xs)
  end.

(** The pointer [l + off]: valid up to one past the end. *)
Definition ptr_off {A} (l : list A) (off : nat) : out (list A) :=
  if decide (off ≤ length l)%nat then Val (drop off l) else Undef.

(** Unsigned remainder; by zero it is undefined. *)
Definition umod (a b : Z) : out Z := if decide (b = 0) then Undef else Val (a mod b).

(** ** Lemmas on outcomes *)

Lemma bind_Val {A B} (a : A) (f : A → out B) : (Val a ≫= f) = f a.
Proof. done. Qed.

Lemma bind_Val_inv {A B} (x : out A) (f : A → out B) b :
  (x ≫= f) = Val b ↔ ∃ a, x = Val a ∧ f a = Val b.
Proof. destruct x; naive_solver. Qed.

Section Arrays.
Context {A : Type}.
Implicit Types (l xs : list A).

Lemma rd_Some l i x : l !! i = Some x → rd l i = Val x.
Proof. unfold rd. by intros ->. Qed.

Lemma rd_Val_inv l i x : rd l i = Val x ↔ l !! i = Some x.
Proof. unfold rd. case_match; naive_solver. Qed.

Lemma rd_lt l i : (i < length l)%nat → ∃ x, l !! i = Some x ∧ rd l i = Val x.
Proof. intros [x Hx]%lookup_lt_is_Some_2. eauto using rd_Some. Qed.

Lemma wr_lt l i x : (i < length l)%nat → wr l i x = Val (<[i:=x]> l).
Proof. intros. unfold wr. by rewrite decide_True. Qed.

Lemma wr_Val_inv l i x l' :
  wr l i x = Val l' ↔ (i < length l)%nat ∧ l' = <[i:=x]> l.
Proof. unfold wr. case_decide; naive_solver. Qed.

Lemma wr_app_r l1 l2 i x :
  (i < length l2)%nat → wr (l1 ++ l2) (length l1 + i) x = Val (l1 ++ <[i:=x]> l2).
Proof. intros. rewrite wr_lt, insert_app_r; [done|rewrite length_app; lia]. Qed.

(** A run of consecutive stores replaces exactly the elements it covers. *)
Lemma wr_list_splice l1 mid l2 xs :
  length mid = length xs →
  wr_list (l1 ++ mid ++ l2) (length l1) xs = Val (l1 ++ xs ++ l2).
Proof.
  revert l1 mid; induction xs as [|x xs IH]; intros l1 [|m mid] Hlen;
    simplify_eq/=; [done|].
  rewrite wr_lt by (rewrite length_app; simpl; lia).
  rewrite bind_Val, insert_app_r_alt by lia. rewrite Nat.sub_diag; simpl.
  rewrite (cons_middle x l1), (assoc_L (++)).
  replace (S (length l1)) with (length (l1 ++ [x])) by (rewrite length_app; simpl; lia).
  rewrite IH by done. by rewrite <- (assoc_L (++)).
Qed.

Lemma wr_list_at l off xs l1 mid l2 :
  l = l1 ++ mid ++ l2 → off = length l1 → length mid = length xs →
  wr_list l off xs = Val (l1 ++ xs ++ l2).
Proof. intros -> -> ?. by apply wr_list_splice. Qed.

Lemma wr_at l off x l1 y l2 :
  l = l1 ++ y :: l2 → off = length l1 → wr l off x = Val (l1 ++ x :: l2).
Proof.
  intros -> ->. rewrite wr_lt by (rewrite length_app; simpl; lia).
  by rewrite insert_app_r_alt, Nat.sub_diag.
Qed.

Lemma wr_list_length l off xs l' : wr_list l off xs = Val l' → length l' = length l.
Proof.
  revert l off; induction xs as [|x xs IH]; intros l off; simpl; [naive_solver|].
  intros (l1 & [_ ->]%wr_Val_inv & Hw)%bind_Val_inv.
  apply IH in Hw. by rewrite length_insert in Hw.
Qed.

Lemma rd_list_take_drop l off n :
  (off + n ≤ length l)%nat → rd_list l off n = Val (take n (drop off l)).
Proof.
  revert off; induction n as [|n IH]; intros off Hlen; simpl; [done|].
  destruct (rd_lt l off) as (x & Hx & ->); [lia|].
  rewrite bind_Val, IH, bind_Val by lia.
  by rewrite (drop_S l x off Hx).
Qed.
Lemma rd_list_at l off n l1 mid l2 :
  l = l1 ++ mid ++ l2 → off = length l1 → n = length mid → rd_list l off n = Val mid.
Proof.
  intros -> -> ->. rewrite rd_list_take_drop by (rewrite !length_app; lia).
  by rewrite drop_app_length, take_app_length.
Qed.

Lemma rd_at l i x l1 l2 : l = l1 ++ x :: l2 → i = length l1 → rd l i = Val x.
Proof.
  intros -> ->. apply rd_Some. by rewrite lookup_app_r, Nat.sub_diag.
Qed.

Lemma ptr_off_le l off : (off ≤ length l)%nat → ptr_off l off = Val (drop off l).
Proof. intros. unfold ptr_off. by rewrite decide_True. Qed.
End Arrays.



(** ** Byte order

    Multi-byte integers are copied with [memcpy] from packets into host
    integers; the host is little-endian, so the value of a copied field is
    [le_combine] of its bytes and [le_split] is the inverse copy. *)

Definition byte_ok (b : Z) : Prop := 0 ≤ b < 256.
Abbreviation bytes_ok := (Forall byte_ok).

#[export] Instance byte_ok_dec b : Decision (byte_ok b).
Proof. unfold byte_ok. apply _. Defined.

Lemma u8_ok z : byte_ok (u8 z).
Proof. unfold byte_ok, u8. apply Z.mod_pos_bound. lia. Qed.

Fixpoint le_combine (bs : list Z) : Z :=
  match bs with
  | [] => 0
  | b :: bs => b + 256 * le_combine bs
  end.

Fixpoint le_split (n : nat) (z : Z) : list Z :=
  match n with
  | O => []
  | S n => (z mod 256) :: le_split n (z / 256)
  end.

(** [(uint16_t)((hi << 8) | lo)] *)
Definition be16 (hi lo : Z) : Z := u16 (Z.lor (Z.shiftl hi 8) lo).

Lemma length_le_split n z : length (le_split n z) = n.
Proof. revert z; induction n; intros z; simpl; auto. Qed.

Lemma le_split_ok n z : bytes_ok (le_split n z).
Proof.
  revert z; induction n as [|n IH]; intros z; simpl; constructor; [|apply IH].
  pose proof (Z.mod_pos_bound z 256). unfold byte_ok; lia.
Qed.

Lemma le_combine_bound bs :
  bytes_ok bs → 0 ≤ le_combine bs < 256 ^ Z.of_nat (length bs).
Proof.
  induction 1 as [|b bs Hb _ IH]; simpl; [lia|].
  rewrite Nat2Z.inj_succ, Z.pow_succ_r by lia. unfold byte_ok in Hb. lia.
Qed.

Lemma le_combine_split n z :
  0 ≤ z < 256 ^ Z.of_nat n → le_combine (le_split n z) = z.
Proof.
  revert z; induction n as [|n IH]; intros z Hz; simpl; [simpl in Hz; lia|].
  rewrite Nat2Z.inj_succ, Z.pow_succ_r in Hz by lia.
  rewrite IH; [pose proof (Z.div_mod z 256); lia|].
  split; [apply Z.div_pos; lia|apply Z.div_lt_upper_bound; lia].
Qed.

Lemma le_split_combine bs :
  bytes_ok bs → le_split (length bs) (le_combine bs) = bs.
Proof.
  induction 1 as [|b bs Hb _ IH]; simpl; [done|].
  unfold byte_ok in Hb.
  rewrite (Z.mul_comm 256), Z.mod_add, Z.mod_small by lia.
  rewrite Z.div_add, (Z.div_small b) by lia. by rewrite Z.add_0_l, IH.
Qed.

Lemma Z_testbit_small z w n : 0 ≤ z < 2 ^ w → w ≤ n → Z.testbit z n = false.
Proof.
  intros Hz Hn. destruct (decide (z = 0)) as [->|]; [apply Z.bits_0|].
  apply Z.bits_above_log2; [lia|].
  apply Z.log2_lt_pow2; [lia|]. destruct (decide (0 ≤ w)) as [Hw|Hw].
  - apply (Z.lt_le_trans _ (2 ^ w)); [lia|]. apply Z.pow_le_mono_r; lia.
  - rewrite Z.pow_neg_r in Hz by lia. lia.
Qed.

Lemma lor_low_high x q k : 0 ≤ k → 0 ≤ x < 2 ^ k → Z.lor x (Z.shiftl q k) = x + q * 2 ^ k.
Proof.
  intros Hk Hx. rewrite <- Z.add_nocarry_lor; [by rewrite Z.shiftl_mul_pow2|].
  apply Z.bits_inj'. intros n Hn. rewrite Z.land_spec, Z.bits_0. destruct (decide (n < k)).
  - rewrite (Z.shiftl_spec_low q), andb_false_r by lia. done.
  - rewrite (Z_testbit_small x k) by lia. done.
Qed.

Lemma be16_spec hi lo : byte_ok hi → byte_ok lo → be16 hi lo = 256 * hi + lo.
Proof.
  unfold be16, byte_ok, u16. intros Hhi Hlo.
  rewrite Z.lor_comm, lor_low_high by lia. rewrite Z.mod_small; lia.
Qed.

(** Splitting a 16-bit value into its two bytes, as the header builders do. *)
Lemma be16_split z :
  0 ≤ z < 2 ^ 16 → be16 (u8 (Z.shiftr z 8)) (u8 (Z.land z 255)) = z.
Proof.
  intros Hz. unfold u8.
  change 255 with (Z.ones 8). rewrite Z.shiftr_div_pow2, Z.land_ones by lia.
  assert (0 ≤ z / 2 ^ 8 < 256).
  { split; [apply Z.div_pos; lia|apply Z.div_lt_upper_bound; lia]. }
  pose proof (Z.mod_pos_bound z (2 ^ 8)).
  rewrite (Z.mod_small (z / 2 ^ 8)), Z.mod_mod by lia.
  rewrite be16_spec by (unfold byte_ok; lia).
  pose proof (Z.div_mod z (2 ^ 8)); lia.
Qed.

(** ** Filters that keep everything or nothing *)

Section Filter.
Context {A : Type} (P : A → Prop) `{∀ x, Decision (P x)}.

Lemma filter_Forall l : Forall P l → filter P l = l.
Proof.
  induction 1 as [|x l Hx _ IH]; [done|]. rewrite filter_cons_True by done. by rewrite IH.
Qed.

Lemma filter_Forall_not l : Forall (λ x, ¬ P x) l → filter P l = [].
Proof. induction 1 as [|x l Hx _ IH]; [done|]. by rewrite filter_cons_False. Qed.
End Filter.

(** ** Automation *)

(** Lengths of array expressions. *)
Create Rewrite HintDb lengths.
#[export] Hint Rewrite @length_insert @length_app @length_drop @length_take @length_cons
  @length_replicate length_le_split : lengths.

(** Bytes are bytes. *)
Create HintDb bytes.
#[export] Hint Resolve u8_ok le_split_ok Forall_nil_2 : bytes.
#[export] Hint Extern 2 (byte_ok _) => unfold byte_ok; lia : bytes.

(** Evaluate the next in-bounds read, write or pointer of the goal; the bound
    is left to [lia] after normalising lengths. *)
Ltac bound := autorewrite with lengths; cbn [length]; lia.

Ltac run_step :=
  match goal with
  | |- context [rd_list ?l ?o ?n] => rewrite (rd_list_take_drop l o n) by bound
  | |- context [ptr_off ?l ?o] => rewrite (ptr_off_le l o) by bound
  | |- context [wr ?l ?i ?x] => rewrite (wr_lt l i x) by bound
  | |- context [rd ?l ?i] =>
      let b := fresh "b" in let Hb := fresh "Hb" in let E := fresh "E" in
      destruct (rd_lt l i) as (b & Hb & E); [bound | rewrite E; clear E]
  | |- context [@mbind out _ _ _ _ (Val _)] => rewrite bind_Val
  end.

Ltac run := repeat run_step.

(** [bytes_ok] of a concatenation of byte literals, bytes and known lists. *)
Ltac solve_bytes :=
  repeat (rewrite Forall_app; split); auto with bytes;
  repeat (apply Forall_cons_2; [first [done | auto with bytes] |]); auto with bytes.
