(* ===== verification/Double.v ===== *)
(** * Double precision

    The floating-point numbers the program computes: the size of the connection
    table ([src/src/conntrack/conntrack.c]) and the percentages of the remap report
    ([src/tools/maglev_remap_report.c]).

    A double that is not negative is a pair [(m, e)] of value [m * 2^e].  Every
    operation rounds its exact result to nearest, ties to even, with a 53-bit
    significand, as IEEE 754 prescribes.  The exponents that occur are far from the
    limits of the format, so there is no overflow and no subnormal number. *)

From Stdlib Require Import Lia.
From stdpp Require Import base numbers list.
From S2P Require Import Prelude.

Local Open Scope Z_scope.

Abbreviation double := (Z * Z)%type.

Definition round_half_even (num den : Z) : Z :=
  let q := num / den in
  let r := num mod den in
  if decide (2 * r < den) then q
  else if decide (2 * r > den) then q + 1
  else if Z.even q then q else q + 1.

Definition scaled_quot (num den e : Z) : Z :=
  round_half_even (num * 2 ^ Z.max 0 (- e)) (den * 2 ^ Z.max 0 e).

(** [num / den], rounded. *)
Definition double_quot (num den : Z) : double :=
  let e := Z.log2 num - Z.log2 den - 52 in
  let e := if decide (num * 2 ^ Z.max 0 (- e) < 2 ^ 52 * (den * 2 ^ Z.max 0 e)) then e - 1 else e in
  (scaled_quot num den e, e).

(** [(double)n], [a * b] and [a / b]. *)
Definition double_of (n : Z) : double := double_quot n 1.

Definition double_mul (a b : double) : double :=
  let '(m, e) := double_quot (a.1 * b.1) 1 in (m, e + a.2 + b.2).

Definition double_div (a b : double) : double :=
  let '(m, e) := double_quot a.1 b.1 in (m, e + a.2 - b.2).

(** What [%.2f] prints of [a], in hundredths: the exact value rounded, ties to
    even. *)
Definition hundredths (a : double) : Z :=
  round_half_even (100 * a.1 * 2 ^ Z.max 0 a.2) (2 ^ Z.max 0 (- a.2)).

(** ** Lemmas *)

(** Rounding is off by at most one half. *)
Lemma round_half_even_near num den : 0 < den → 2 * Z.abs (round_half_even num den * den - num) ≤ den.
Proof.
  intros Hd. unfold round_half_even. pose proof (Z.div_mod num den ltac:(lia)) as E.
  pose proof (Z.mod_pos_bound num den Hd). set (q := num / den) in *. set (r := num mod den) in *.
  repeat case_decide; try destruct (Z.even q); nia.
Qed.

Lemma round_half_even_exact q den : 0 < den → round_half_even (q * den) den = q.
Proof.
  intros Hd. unfold round_half_even. rewrite Z.div_mul, Z.mod_mul by lia. by rewrite decide_True by lia.
Qed.

Lemma log2_range n k : 0 < n < 2 ^ k → 0 < k → 0 ≤ Z.log2 n ≤ k - 1.
Proof.
  intros Hn Hk. split; [apply Z.log2_nonneg|]. pose proof (proj1 (Z.log2_lt_pow2 n k ltac:(lia)) ltac:(lia)). lia.
Qed.

(** The normalised significand. *)
Lemma significand_range n : 0 < n < 2 ^ 53 → 2 ^ 52 ≤ n * 2 ^ (52 - Z.log2 n) < 2 ^ 53.
Proof.
  intros Hn. pose proof (log2_range n 53 Hn ltac:(lia)) as Hl. pose proof (Z.log2_spec n ltac:(lia)) as Hs.
  assert (2 ^ 52 = 2 ^ Z.log2 n * 2 ^ (52 - Z.log2 n)) as E by (rewrite <- Z.pow_add_r by lia; f_equal; lia).
  assert (2 ^ 53 = 2 ^ Z.succ (Z.log2 n) * 2 ^ (52 - Z.log2 n)) as E' by (rewrite <- Z.pow_add_r by lia; f_equal; lia).
  rewrite E, E'. assert (0 < 2 ^ (52 - Z.log2 n)) by (apply Z.pow_pos_nonneg; lia). split; [|nia].
  apply Z.mul_le_mono_nonneg_r; lia.
Qed.

(** A number of at most 53 bits is represented exactly. *)
Lemma double_quot_exact n t :
  0 < n < 2 ^ 53 → 0 ≤ t → double_quot (n * 2 ^ t) 1 = (n * 2 ^ (52 - Z.log2 n), t + Z.log2 n - 52).
Proof.
  intros Hn Ht. pose proof (log2_range n 53 Hn ltac:(lia)) as Hl. pose proof (significand_range n Hn) as Hs.
  unfold double_quot. rewrite Z.log2_mul_pow2 by lia. change (Z.log2 1) with 0.
  set (e := t + Z.log2 n - 0 - 52).
  assert (n * 2 ^ t * 2 ^ Z.max 0 (- e) = n * 2 ^ (52 - Z.log2 n) * (1 * 2 ^ Z.max 0 e)) as E.
  { rewrite Z.mul_1_l, <- !Z.mul_assoc, <- !Z.pow_add_r by lia. do 2 f_equal. lia. }
  assert (0 < 2 ^ Z.max 0 e) by (apply Z.pow_pos_nonneg; lia).
  rewrite decide_False by (rewrite E; nia). unfold scaled_quot. rewrite E, round_half_even_exact by lia.
  f_equal. lia.
Qed.

Lemma double_of_exact n :
  0 < n < 2 ^ 53 → double_of n = (n * 2 ^ (52 - Z.log2 n), Z.log2 n - 52).
Proof.
  intros Hn. unfold double_of. rewrite <- (Z.mul_1_r n) at 1. change 1 with (2 ^ 0) at 1.
  rewrite double_quot_exact by lia. by rewrite Z.add_0_l.
Qed.

Lemma double_mul_exact a b :
  0 < a → 0 < b → a * b < 2 ^ 53 → double_mul (double_of a) (double_of b) = double_of (a * b).
Proof.
  intros Ha Hb Hab. assert (a < 2 ^ 53 ∧ b < 2 ^ 53) as [Ha' Hb'] by nia.
  rewrite !double_of_exact by lia. unfold double_mul. cbn [fst snd].
  pose proof (log2_range a 53 ltac:(lia) ltac:(lia)). pose proof (log2_range b 53 ltac:(lia) ltac:(lia)).
  replace (a * 2 ^ (52 - Z.log2 a) * (b * 2 ^ (52 - Z.log2 b))) with (a * b * 2 ^ ((52 - Z.log2 a) + (52 - Z.log2 b)))
    by (rewrite Z.pow_add_r by lia; ring).
  rewrite double_quot_exact by lia. f_equal. lia.
Qed.

(** Zero is printed as zero, whatever its exponent. *)
Lemma zero_hundredths e b : 0 < b.1 → hundredths (double_div (0, e) b) = 0.
Proof.
  intros Hb. unfold double_div, double_quot, scaled_quot, hundredths. cbn [fst snd].
  assert (∀ d, 0 < d → round_half_even 0 d = 0) as H0.
  { intros d Hd. replace 0 with (0 * d) at 1 by lia. by apply round_half_even_exact. }
  rewrite !Z.mul_0_l, (H0 (_ * 2 ^ _)) by (apply Z.mul_pos_pos; [lia|apply Z.pow_pos_nonneg; lia]).
  rewrite Z.mul_0_r, Z.mul_0_l. apply H0, Z.pow_pos_nonneg; lia.
Qed.

(** The quotient of two integers, rounded to hundredths by way of a double, is a
    nearest number of hundredths to the exact quotient. *)
Lemma hundredths_quot_near a c :
  0 ≤ a → 0 < c < 2 ^ 32 → a ≤ 100 * c →
  2 * Z.abs (hundredths (double_div (double_of a) (double_of c)) * c - 100 * a) ≤ c.
Proof.
  intros Ha Hc Hac. destruct (decide (a = 0)) as [-> |Hne].
  { change (double_of 0) with (0, -53). rewrite (double_of_exact c) by lia.
    pose proof (significand_range c ltac:(lia)). rewrite zero_hundredths by (cbn [fst]; lia). lia. }
  rewrite !double_of_exact by lia. unfold double_div, double_quot. cbn [fst snd].
  pose proof (significand_range a ltac:(lia)) as Hsa. pose proof (significand_range c ltac:(lia)) as Hsc.
  pose proof (log2_range a 39 ltac:(lia) ltac:(lia)) as Hla. pose proof (log2_range c 32 ltac:(lia) ltac:(lia)) as Hlc.
  rewrite !Z.log2_mul_pow2 by lia. set (i := 52 - Z.log2 a) in *. set (j := 52 - Z.log2 c) in *.
  replace (i + Z.log2 a - (j + Z.log2 c) - 52) with (-52) by lia.
  change (Z.max 0 (- -52)) with 52. change (Z.max 0 (-52)) with 0.
  set (num := a * 2 ^ i) in *. set (den := c * 2 ^ j) in *. rewrite (Z.mul_1_r den : den * 2 ^ 0 = den).
  assert (∃ f, (f = 52 ∨ f = 53) ∧ (if decide (num * 2 ^ 52 < 2 ^ 52 * den) then -52 - 1 else -52) = - f) as (f & Hf & ->).
  { case_decide; [exists 53|exists 52]; auto. }
  unfold scaled_quot, hundredths. cbn [fst snd]. rewrite (Z.max_r 0 (- - f)), (Z.max_l 0 (- f)) by lia.
  rewrite (Z.mul_1_r den : den * 2 ^ 0 = den), Z.opp_involutive.
  set (q := round_half_even (num * 2 ^ f) den). pose proof (round_half_even_near (num * 2 ^ f) den ltac:(lia)) as Hq. fold q in Hq.
  assert (Z.log2 a ≤ Z.log2 c + 7) as Hlog.
  { transitivity (Z.log2 (c * 2 ^ 7)); [apply Z.log2_le_mono; lia|]. rewrite Z.log2_mul_pow2 by lia. lia. }
  set (s := f + i - j). replace (- f + (Z.log2 a - 52) - (Z.log2 c - 52)) with (- s) by lia.
  rewrite (Z.max_l 0 (- s)), (Z.max_r 0 (- - s)), Z.opp_involutive, Z.mul_1_r by lia.
  pose proof (round_half_even_near (100 * q) (2 ^ s) ltac:(apply Z.pow_pos_nonneg; lia)) as Hh.
  set (h := round_half_even (100 * q) (2 ^ s)) in *.
  assert (2 * Z.abs (q * c - a * 2 ^ s) ≤ c) as Hqc.
  { assert (0 < 2 ^ j) by (apply Z.pow_pos_nonneg; lia).
    assert (num * 2 ^ f = a * 2 ^ s * 2 ^ j) as E.
    { unfold num, s. rewrite <- !Z.mul_assoc, <- !Z.pow_add_r by lia. do 2 f_equal. lia. }
    rewrite E in Hq. unfold den in Hq.
    replace (q * (c * 2 ^ j) - a * 2 ^ s * 2 ^ j) with ((q * c - a * 2 ^ s) * 2 ^ j) in Hq by ring.
    rewrite Z.abs_mul, (Z.abs_eq (2 ^ j)) in Hq by lia. apply (Z.mul_le_mono_pos_r _ _ (2 ^ j)); lia. }
  assert (2 ^ 45 ≤ 2 ^ s) as Hs by (apply Z.pow_le_mono_r; lia).
  assert (2 * Z.abs (h * c - 100 * a) * 2 ^ s ≤ c * 2 ^ s + 100 * c) as Hfin.
  { replace (2 * Z.abs (h * c - 100 * a) * 2 ^ s) with (2 * Z.abs ((h * 2 ^ s - 100 * q) * c + 100 * (q * c - a * 2 ^ s))).
    2: { rewrite <- Z.mul_assoc. f_equal. transitivity (Z.abs ((h * c - 100 * a) * 2 ^ s)); [f_equal; ring|].
         by rewrite Z.abs_mul, (Z.abs_eq (2 ^ s)) by lia. }
    pose proof (Z.abs_triangle ((h * 2 ^ s - 100 * q) * c) (100 * (q * c - a * 2 ^ s))) as Ht.
    rewrite !Z.abs_mul, (Z.abs_eq c), (Z.abs_eq 100) in Ht by lia.
    pose proof (Z.mul_le_mono_nonneg_r _ _ c ltac:(lia) Hh) as Hhc. lia. }
  apply Z.lt_succ_r, (Z.mul_lt_mono_pos_r (2 ^ s)); lia.
Qed.
