(* ===== verification/Net.v ===== *)
(** * Packet parsing and building (src/net)

    [Eth], [Ipv4], [TcpUdp], [Gre] and [Flow] model eth.c, ipv4.c, tcp_udp.c,
    gre.c and flow.c.  A C pair [(buf, len)] is the list of its [len] bytes and
    [buf + off, len - off] is [ptr_off buf off], so that a read past [len] is
    [Undef] even when the underlying array is longer.  An output array is
    passed with the offset of the pointer into it. *)

From Stdlib Require Import Lia.
From stdpp Require Import base list numbers.
From S2P Require Import Prelude.

Local Open Scope Z_scope.

Definition ETH_ADDR_LEN : nat := 6.
Definition ETH_HDR_LEN : nat := 14.
Definition ETH_TYPE_IP : Z := 0x0800.
Definition ETH_TYPE_ARP : Z := 0x0806.
Definition IPV4_MIN_HDR_LEN : nat := 20.
Definition TCP_MIN_HDR_LEN : nat := 20.
Definition UDP_HDR_LEN : nat := 8.
Definition GRE_HDR_LEN : nat := 4.
Definition IPPROTO_GRE_VAL : Z := 47.
Definition IPPROTO_TCP : Z := 6.
Definition IPPROTO_UDP : Z := 17.

Module Eth.

(** The two MAC fields are pointers into the parsed buffer: their offsets. *)
Record eth_hdr_view := {
  dst_mac : nat;
  src_mac : nat;
  ethertype : Z
}.

(** [None] is the return value -1. *)
Definition eth_parse (buf : list Z) : out (option eth_hdr_view) :=
  if decide (length buf < ETH_HDR_LEN)%nat then Val None
  else
    b12 ← rd buf 12;
    b13 ← rd buf 13;
    Val (Some {| dst_mac := 0; src_mac := ETH_ADDR_LEN; ethertype := be16 b12 b13 |}).

(** The loop of [eth_build] over [i], [n] iterations left. *)
Fixpoint eth_build_macs (out : list Z) (off : nat) (dst src : list Z) (i n : nat) :
    Prelude.out (list Z) :=
  match n with
  | O => Val out
  | S n =>
      d ← rd dst i;
      out ← wr out (off + i) d;
      s ← rd src i;
      out ← wr out (off + (ETH_ADDR_LEN + i)) s;
      eth_build_macs out off dst src (S i) n
  end.

Definition eth_build (out : list Z) (off : nat) (dst src : list Z) (ethertype_host : Z) :
    Prelude.out (list Z) :=
  out ← eth_build_macs out off dst src 0 ETH_ADDR_LEN;
  out ← wr out (off + 12) (u8 (Z.shiftr ethertype_host 8));
  wr out (off + 13) (u8 (Z.land ethertype_host 0xFF)).

End Eth.
Import Eth.

Module Ipv4.

Record ipv4_hdr_view := {
  ihl_words : Z;
  protocol : Z;
  total_length : Z;
  src_ip : Z;
  dst_ip : Z;
  header_len_bytes : nat
}.

Definition ipv4_parse (buf : list Z) : out (option ipv4_hdr_view) :=
  if decide (length buf < IPV4_MIN_HDR_LEN)%nat then Val None
  else
    b0 ← rd buf 0;
    let version := u8 (Z.shiftr b0 4) in
    let ihl := u8 (Z.land b0 0x0F) in
    if decide (version ≠ 4 ∨ ihl < 5) then Val None
    else
      let header_len := (Z.to_nat ihl * 4)%nat in
      if decide (length buf < header_len)%nat then Val None
      else
        b2 ← rd buf 2;
        b3 ← rd buf 3;
        let total_len := be16 b2 b3 in
        if decide (total_len < Z.of_nat header_len ∨ Z.of_nat (length buf) < total_len)
        then Val None
        else
          b9 ← rd buf 9;
          src ← rd_list buf 12 4;
          dst ← rd_list buf 16 4;
          Val (Some {| ihl_words := ihl; protocol := b9; total_length := total_len;
                       src_ip := le_combine src; dst_ip := le_combine dst;
                       header_len_bytes := header_len |}).

(** [for (; i + 1 < len; i += 2) sum += word]; the sum is a [uint32_t]. *)
Fixpoint checksum_words (fuel : nat) (data : list Z) (i : nat) (sum : Z) : out (nat * Z) :=
  match fuel with
  | O => NoFuel
  | S fuel =>
      if decide (i + 1 < length data)%nat then
        hi ← rd data i;
        lo ← rd data (i + 1);
        checksum_words fuel data (i + 2) (u32 (sum + be16 hi lo))
      else Val (i, sum)
  end.

(** [while (sum >> 16) sum = (sum & 0xFFFF) + (sum >> 16)] *)
Fixpoint checksum_fold (fuel : nat) (sum : Z) : out Z :=
  match fuel with
  | O => NoFuel
  | S fuel =>
      if decide (Z.shiftr sum 16 ≠ 0) then
        checksum_fold fuel (u32 (Z.land sum 0xFFFF + Z.shiftr sum 16))
      else Val sum
  end.

Definition ipv4_checksum (data : list Z) : out Z :=
  '(i, sum) ← checksum_words (S (length data)) data 0 0;
  sum ← (if decide (i < length data)%nat then
           b ← rd data i; Val (u32 (sum + u32 (Z.shiftl b 8)))
         else Val sum);
  sum ← checksum_fold 4 sum;
  Val (u16 (Z.lnot sum)).

Definition ipv4_build (out : list Z) (off : nat) (src_ip dst_ip protocol total_len_host ttl : Z) :
    Prelude.out (list Z) :=
  out ← wr_list out off
    [0x45; 0x00; u8 (Z.shiftr total_len_host 8); u8 (Z.land total_len_host 0xFF);
     0x00; 0x00; 0x40; 0x00; ttl; protocol; 0x00; 0x00];
  out ← wr_list out (off + 12) (le_split 4 src_ip);
  out ← wr_list out (off + 16) (le_split 4 dst_ip);
  hdr ← rd_list out off IPV4_MIN_HDR_LEN;
  csum ← ipv4_checksum hdr;
  out ← wr out (off + 10) (u8 (Z.shiftr csum 8));
  wr out (off + 11) (u8 (Z.land csum 0xFF)).

End Ipv4.
Import Ipv4.

Module TcpUdp.

Definition tcp_parse_ports (buf : list Z) : out (option (Z * Z)) :=
  if decide (length buf < TCP_MIN_HDR_LEN)%nat then Val None
  else
    s ← rd_list buf 0 2;
    d ← rd_list buf 2 2;
    Val (Some (le_combine s, le_combine d)).

Definition udp_parse_ports (buf : list Z) : out (option (Z * Z)) :=
  if decide (length buf < UDP_HDR_LEN)%nat then Val None
  else
    s ← rd_list buf 0 2;
    d ← rd_list buf 2 2;
    Val (Some (le_combine s, le_combine d)).

End TcpUdp.
Import TcpUdp.

Module Gre.

Record gre_hdr_view := {
  flags_version : Z;
  protocol_type : Z
}.

Definition gre_parse (buf : list Z) : out (option gre_hdr_view) :=
  if decide (length buf < GRE_HDR_LEN)%nat then Val None
  else
    b0 ← rd buf 0;
    b1 ← rd buf 1;
    let flags := be16 b0 b1 in
    if decide (flags ≠ 0) then Val None
    else
      b2 ← rd buf 2;
      b3 ← rd buf 3;
      Val (Some {| flags_version := flags; protocol_type := be16 b2 b3 |}).

Definition gre_build (out : list Z) (off : nat) (protocol_type_host : Z) : Prelude.out (list Z) :=
  wr_list out off
    [0x00; 0x00; u8 (Z.shiftr protocol_type_host 8); u8 (Z.land protocol_type_host 0xFF)].

(** [for (i = 0; i < inner_len; i++) out[inner_off + i] = inner_packet[i]] *)
Fixpoint copy_inner (out : list Z) (inner_off : nat) (inner : list Z) (i n : nat) :
    Prelude.out (list Z) :=
  match n with
  | O => Val out
  | S n =>
      b ← rd inner i;
      out ← wr out (inner_off + i) b;
      copy_inner out inner_off inner (S i) n
  end.

(** Returns the frame length (0: does not fit) and the output array, whose
    length is [out_cap]. *)
Definition gre_encap_build (out : list Z) (dst_mac src_mac : list Z)
    (outer_src_ip outer_dst_ip ttl : Z) (inner_packet : list Z) (inner_len : nat) :
    Prelude.out (nat * list Z) :=
  let total := (ETH_HDR_LEN + IPV4_MIN_HDR_LEN + GRE_HDR_LEN + inner_len)%nat in
  if decide (length out < total)%nat then Val (0%nat, out)
  else
    out ← eth_build out 0 dst_mac src_mac ETH_TYPE_IP;
    let ip_off := ETH_HDR_LEN in
    let outer_total_len := u16 (Z.of_nat (IPV4_MIN_HDR_LEN + GRE_HDR_LEN + inner_len)) in
    out ← ipv4_build out ip_off outer_src_ip outer_dst_ip (u8 IPPROTO_GRE_VAL)
            outer_total_len ttl;
    let gre_off := (ip_off + IPV4_MIN_HDR_LEN)%nat in
    out ← gre_build out gre_off ETH_TYPE_IP;
    let inner_off := (gre_off + GRE_HDR_LEN)%nat in
    out ← copy_inner out inner_off inner_packet 0 inner_len;
    Val (total, out).

End Gre.
Import Gre.

Module Flow.

(** The packed 13-byte 5-tuple. *)
Record flow_key := {
  k_src_ip : Z;
  k_dst_ip : Z;
  k_src_port : Z;
  k_dst_port : Z;
  k_proto : Z
}.

Inductive parse_status := PARSE_OK | PARSE_TRUNCATED | PARSE_UNSUPPORTED.

Record flow_extract_result := {
  key : flow_key;
  ip_offset : nat;
  ip_total_len : nat
}.

(** [*out] is written exactly on the path that returns [PARSE_OK]. *)
Definition packet_extract_flow (buf : list Z) :
    out (parse_status * option flow_extract_result) :=
  eth ← eth_parse buf;
  match eth with
  | None => Val (PARSE_TRUNCATED, None)
  | Some eth =>
      if decide (ethertype eth ≠ ETH_TYPE_IP) then Val (PARSE_UNSUPPORTED, None)
      else
        let ip_off := ETH_HDR_LEN in
        if decide (length buf < ip_off)%nat then Val (PARSE_TRUNCATED, None)
        else
          ip_buf ← ptr_off buf ip_off;
          ip ← ipv4_parse ip_buf;
          match ip with
          | None => Val (PARSE_TRUNCATED, None)
          | Some ip =>
              if decide (protocol ip ≠ IPPROTO_TCP ∧ protocol ip ≠ IPPROTO_UDP)
              then Val (PARSE_UNSUPPORTED, None)
              else
                let l4_off := (ip_off + header_len_bytes ip)%nat in
                l4_buf ← ptr_off buf l4_off;
                ports ← (if decide (protocol ip = IPPROTO_TCP)
                         then tcp_parse_ports l4_buf
                         else udp_parse_ports l4_buf);
                match ports with
                | None => Val (PARSE_TRUNCATED, None)
                | Some (sp, dp) =>
                    Val (PARSE_OK,
                         Some {| key := {| k_src_ip := src_ip ip; k_dst_ip := dst_ip ip;
                                           k_src_port := sp; k_dst_port := dp;
                                           k_proto := protocol ip |};
                                 ip_offset := ip_off;
                                 ip_total_len := Z.to_nat (total_length ip) |})
                end
          end
  end.

(** The frames the load balancer routes, as RFC 894, 791, 793 and 768 lay them
    out: Ethernet II, IPv4 with options, TCP or UDP.  [rest] is everything
    after the two ports, Ethernet padding included. *)
Inductive wire_frame : list Z → flow_extract_result → Prop :=
| wire_frame_intro (macs mid ck src dst opts sp dp rest : list Z) (ihl tos hi lo proto : Z) :
    length macs = 12%nat → length mid = 5%nat → length ck = 2%nat →
    length src = 4%nat → length dst = 4%nat → length sp = 2%nat → length dp = 2%nat →
    5 ≤ ihl ≤ 15 → Z.of_nat (length opts) = ihl * 4 - 20 →
    (proto = IPPROTO_TCP ∧ (16 ≤ length rest)%nat ∨
     proto = IPPROTO_UDP ∧ (4 ≤ length rest)%nat) →
    ihl * 4 ≤ 256 * hi + lo ≤ ihl * 4 + 4 + Z.of_nat (length rest) →
    wire_frame
      (macs ++ [0x08; 0x00] ++ (4 * 16 + ihl :: tos :: hi :: lo :: mid) ++ (proto :: ck) ++
       src ++ dst ++ opts ++ sp ++ dp ++ rest)
      {| key := {| k_src_ip := le_combine src; k_dst_ip := le_combine dst;
                   k_src_port := le_combine sp; k_dst_port := le_combine dp;
                   k_proto := proto |};
         ip_offset := 14; ip_total_len := Z.to_nat (256 * hi + lo) |}.

End Flow.
Import Flow.

(** ** Parsing never leaves the received bytes *)

Lemma low_nibble_bound b : 0 ≤ u8 (Z.land b 15) ≤ 15.
Proof.
  unfold u8. change 15 with (Z.ones 4) at 1 2. rewrite Z.land_ones by lia.
  pose proof (Z.mod_pos_bound b (2 ^ 4)). rewrite Z.mod_small; lia.
Qed.

Lemma eth_parse_short buf : (length buf < 14)%nat → eth_parse buf = Val None.
Proof. intros. unfold eth_parse, ETH_HDR_LEN. by rewrite decide_True. Qed.

Lemma eth_parse_Val buf :
  (14 ≤ length buf)%nat →
  ∃ hi lo, buf !! 12%nat = Some hi ∧ buf !! 13%nat = Some lo ∧
    eth_parse buf = Val (Some {| dst_mac := 0; src_mac := 6; ethertype := be16 hi lo |}).
Proof.
  intros Hlen. unfold eth_parse, ETH_HDR_LEN. rewrite decide_False by lia. run. eauto.
Qed.

Lemma ipv4_parse_cases buf :
  ipv4_parse buf = Val None ∨
  ∃ v, ipv4_parse buf = Val (Some v) ∧
    header_len_bytes v = (Z.to_nat (ihl_words v) * 4)%nat ∧ 5 ≤ ihl_words v ≤ 15 ∧
    Z.of_nat (header_len_bytes v) ≤ total_length v ≤ Z.of_nat (length buf).
Proof.
  unfold ipv4_parse, IPV4_MIN_HDR_LEN. case_decide; [by left|]. run.
  case_decide; [by left|]. case_decide; [by left|]. run.
  case_decide; [by left|]. run. right. eexists; split; [done|]; simpl.
  match goal with |- context [u8 (Z.land ?b 15)] => pose proof (low_nibble_bound b) end.
  lia.
Qed.

Lemma parse_ports_cases `{Decision P} buf :
  (if decide P then tcp_parse_ports buf else udp_parse_ports buf) =
  Val (if decide (length buf < if decide P then 20 else 8)%nat then None
       else Some (le_combine (take 2 buf), le_combine (take 2 (drop 2 buf)))).
Proof.
  destruct (decide P); unfold tcp_parse_ports, udp_parse_ports, TCP_MIN_HDR_LEN, UDP_HDR_LEN;
    case_decide; try done; by run.
Qed.

(** Everything a result of the parse chain says about the received buffer. *)
Lemma packet_extract_flow_cases buf :
  ∃ st r, packet_extract_flow buf = Val (st, r) ∧
    match st with
    | PARSE_OK => ∃ fx, r = Some fx ∧ ip_offset fx = 14%nat ∧
        (20 ≤ ip_total_len fx)%nat ∧ (ip_offset fx + ip_total_len fx ≤ length buf)%nat ∧
        (k_proto (key fx) = IPPROTO_TCP ∨ k_proto (key fx) = IPPROTO_UDP)
    | _ => r = None
    end.
Proof.
  unfold packet_extract_flow.
  destruct (decide (length buf < 14)%nat) as [Hs|Hl].
  { rewrite eth_parse_short by done. run. by eexists _, _. }
  destruct (eth_parse_Val buf) as (hi & lo & _ & _ & ->); [lia|]. run; simpl.
  case_decide; [by eexists _, _|]. unfold ETH_HDR_LEN. rewrite decide_False by done. run.
  destruct (ipv4_parse_cases (drop 14 buf)) as [->|(v & -> & Hhl & Hihl & Htl)]; run; [by eexists _, _|].
  rewrite length_drop in Htl.
  case_decide as Hproto; [by eexists _, _|]. run.
  rewrite parse_ports_cases. run. case_decide; [by eexists _, _|].
  do 2 eexists; split; [done|]. eexists; split; [done|]; simpl.
  repeat split; try lia.
Qed.

(** ** The parse chain accepts exactly the well-formed frames *)

Lemma byte_nibbles b :
  byte_ok b → b = 16 * u8 (Z.shiftr b 4) + u8 (Z.land b 15).
Proof.
  unfold byte_ok, u8. intros Hb. change 15 with (Z.ones 4).
  rewrite Z.land_ones, Z.shiftr_div_pow2 by lia.
  pose proof (Z.div_mod b (2 ^ 4)). pose proof (Z.mod_pos_bound b (2 ^ 4)).
  assert (0 ≤ b / 2 ^ 4 < 256) by
    (split; [apply Z.div_pos|apply Z.div_lt_upper_bound]; lia).
  rewrite !(Z.mod_small _ (2 ^ 8)) by lia. lia.
Qed.

Lemma nibbles_of ihl : 5 ≤ ihl ≤ 15 →
  u8 (Z.shiftr (4 * 16 + ihl) 4) = 4 ∧ u8 (Z.land (4 * 16 + ihl) 15) = ihl.
Proof.
  intros H. assert (ihl = 5 ∨ ihl = 6 ∨ ihl = 7 ∨ ihl = 8 ∨ ihl = 9 ∨ ihl = 10 ∨
    ihl = 11 ∨ ihl = 12 ∨ ihl = 13 ∨ ihl = 14 ∨ ihl = 15) by lia.
  destruct_or!; subst; by split.
Qed.

(** Cut a list of known minimal length into named elements. *)
Ltac cut_list l :=
  match goal with
  | H : length l = O |- _ => apply nil_length_inv in H; subst l
  | H : length l = S _ |- _ =>
      let x := fresh "x" in
      destruct l as [|x l]; [discriminate H | apply (f_equal Nat.pred) in H; simpl in H;
      cut_list l]
  end.

Lemma ipv4_parse_wire mid ck src dst tail ihl tos hi lo proto :
  byte_ok hi → byte_ok lo →
  length mid = 5%nat → length ck = 2%nat → length src = 4%nat → length dst = 4%nat →
  5 ≤ ihl ≤ 15 → ihl * 4 ≤ 256 * hi + lo ≤ 20 + Z.of_nat (length tail) →
  ipv4_parse ((4 * 16 + ihl :: tos :: hi :: lo :: mid) ++ (proto :: ck) ++ src ++ dst ++ tail) =
  Val (Some {| ihl_words := ihl; protocol := proto; total_length := 256 * hi + lo;
               src_ip := le_combine src; dst_ip := le_combine dst;
               header_len_bytes := (Z.to_nat ihl * 4)%nat |}).
Proof.
  intros Hhi Hlo Hmid Hck Hsrc Hdst Hihl Htl.
  cut_list mid; cut_list ck; cut_list src; cut_list dst.
  destruct (nibbles_of ihl Hihl) as [Hv Hi].
  unfold ipv4_parse, IPV4_MIN_HDR_LEN. cbn [app].
  rewrite decide_False by (simpl; lia).
  cbn [rd lookup list_lookup]. rewrite bind_Val, Hv, Hi.
  rewrite decide_False by lia. rewrite decide_False by (simpl; lia).
  rewrite !bind_Val, be16_spec by done.
  rewrite decide_False by (simpl length; lia). done.
Qed.

Lemma packet_extract_flow_complete buf r :
  bytes_ok buf → wire_frame buf r → packet_extract_flow buf = Val (PARSE_OK, Some r).
Proof.
  intros Hok Hw. destruct Hw as [macs mid ck src dst opts sp dp rest ihl tos hi lo proto
    Hmacs Hmid Hck Hsrc Hdst Hsp Hdp Hihl Hopts Hproto Htl].
  set (tail := opts ++ sp ++ dp ++ rest).
  set (ip := (4 * 16 + ihl :: tos :: hi :: lo :: mid) ++ (proto :: ck) ++ src ++ dst ++ tail).
  assert (byte_ok hi ∧ byte_ok lo) as [Hhi Hlo].
  { apply Forall_app in Hok as [_ Hok]. apply Forall_app in Hok as [_ Hok].
    apply Forall_app in Hok as [Hok _]. rewrite !Forall_cons_iff in Hok. tauto. }
  assert (Hlen : length tail = (Z.to_nat ihl * 4 - 20 + 4 + length rest)%nat)
    by (subst tail; bound).
  assert (Hiplen : length ip = (20 + length tail)%nat)
    by (subst ip; bound).
  unfold packet_extract_flow.
  assert (eth_parse (macs ++ [0x08; 0x00] ++ ip) = Val (Some
    {| dst_mac := 0; src_mac := 6; ethertype := ETH_TYPE_IP |})) as ->.
  { cut_list macs. unfold eth_parse, ETH_HDR_LEN. rewrite decide_False by (simpl; lia). done. }
  rewrite bind_Val; simpl ethertype. rewrite decide_False by tauto.
  assert (length (macs ++ [0x08; 0x00] ++ ip) = (14 + length ip)%nat) as Hl
    by bound.
  unfold ETH_HDR_LEN. rewrite decide_False by lia.
  rewrite ptr_off_le, bind_Val by lia.
  replace (drop 14 (macs ++ [0x08; 0x00] ++ ip)) with ip
    by (by rewrite (assoc_L (++)), drop_app_length' by bound).
  unfold ip at 2. rewrite ipv4_parse_wire by (done || lia). rewrite bind_Val.
  simpl protocol; simpl header_len_bytes. rewrite decide_False by lia.
  rewrite ptr_off_le, bind_Val by lia.
  replace (drop (14 + Z.to_nat ihl * 4) (macs ++ [0x08; 0x00] ++ ip))
    with (sp ++ dp ++ rest).
  2:{ replace (macs ++ _) with ((macs ++ [0x08; 0x00] ++ (4 * 16 + ihl :: tos :: hi :: lo :: mid)
        ++ (proto :: ck) ++ src ++ dst ++ opts) ++ (sp ++ dp ++ rest))
        by (subst ip tail; by rewrite <- !(assoc_L (++))).
      rewrite drop_app_length'; [done|bound]. }
  rewrite parse_ports_cases, decide_False, bind_Val.
  - cut_list sp; cut_list dp. done.
  - rewrite !length_app. case_decide; destruct Hproto as [[-> ?]|[-> ?]]; try done; lia.
Qed.

(** A buffer that parses as IPv4 is laid out as RFC 791 says. *)
Lemma ipv4_parse_layout buf v :
  bytes_ok buf → ipv4_parse buf = Val (Some v) →
  ∃ tos hi lo mid ck src dst tail,
    buf = (4 * 16 + ihl_words v :: tos :: hi :: lo :: mid) ++ (protocol v :: ck) ++
          src ++ dst ++ tail ∧
    length mid = 5%nat ∧ length ck = 2%nat ∧ length src = 4%nat ∧ length dst = 4%nat ∧
    total_length v = 256 * hi + lo ∧ src_ip v = le_combine src ∧ dst_ip v = le_combine dst.
Proof.
  intros Hok. unfold ipv4_parse, IPV4_MIN_HDR_LEN.
  case_decide as Hlen; [done|].
  do 20 (destruct buf as [|? buf]; [simpl in Hlen; lia|]).
  rewrite !Forall_cons_iff in Hok. destruct_and!.
  cbn [rd lookup list_lookup]. rewrite bind_Val.
  case_decide as Hv; [done|]. case_decide; [done|]. rewrite !bind_Val.
  case_decide; [done|]. cbn [rd_list rd lookup list_lookup]. rewrite !bind_Val.
  intros [= <-]; simpl.
  eexists _, _, _, [_;_;_;_;_], [_;_], [_;_;_;_], [_;_;_;_], buf.
  split_and!; try done; [|by apply be16_spec].
  match goal with |- ?b :: _ = _ => pose proof (byte_nibbles b ltac:(done)) end.
  simpl; f_equal; lia.
Qed.

Lemma packet_extract_flow_sound buf r :
  bytes_ok buf → packet_extract_flow buf = Val (PARSE_OK, Some r) → wire_frame buf r.
Proof.
  intros Hok. unfold packet_extract_flow, ETH_HDR_LEN.
  destruct (decide (length buf < 14)%nat) as [Hs|Hl].
  { rewrite eth_parse_short by done. run. done. }
  destruct (eth_parse_Val buf) as (hi & lo & Hhi & Hlo & ->); [lia|]. rewrite bind_Val; simpl ethertype.
  case_decide as Het; [done|]. rewrite ptr_off_le, bind_Val by lia.
  destruct (ipv4_parse_cases (drop 14 buf)) as [->|(v & Hip & Hhl & Hihl & Htl)]; [done|].
  rewrite Hip, bind_Val. rewrite length_drop in Htl.
  case_decide as Hproto; [done|]. rewrite ptr_off_le, bind_Val by lia.
  remember (drop (14 + header_len_bytes v) buf) as l4 eqn:El4.
  rewrite parse_ports_cases, bind_Val. case_decide as Hl4; [done|]. intros [= <-].
  assert (bytes_ok (drop 14 buf)) as Hok' by by apply Forall_drop.
  destruct (ipv4_parse_layout _ _ Hok' Hip)
    as (tos & thi & tlo & mid & ck & src & dst & tail & Hbuf & Hm & Hc & Hs & Hd & Ht & Hsi & Hdi).
  assert (hi = 8 ∧ lo = 0) as [-> ->].
  { apply (Forall_lookup_1 _ _ _ _ Hok) in Hhi. apply (Forall_lookup_1 _ _ _ _ Hok) in Hlo.
    rewrite be16_spec in Het by done. unfold ETH_TYPE_IP, byte_ok in *. lia. }
  assert (Hmac : buf = take 12 buf ++ [8; 0] ++ drop 14 buf).
  { rewrite <- (take_drop 12 buf) at 1. f_equal. by rewrite !(drop_S _ _ _ Hhi), !(drop_S _ _ _ Hlo). }
  assert (Htail : tail = take (header_len_bytes v - 20) tail ++
            take 2 l4 ++ take 2 (drop 2 l4) ++ drop 4 l4).
  { rewrite <- (take_drop (header_len_bytes v - 20) tail) at 1. f_equal.
    replace (drop _ tail) with l4.
    - rewrite <- (take_drop 2 l4) at 1. f_equal.
      rewrite <- (take_drop 2 (drop 2 l4)) at 1. by rewrite drop_drop.
    - rewrite El4, <- drop_drop, Hbuf, !(assoc_L (++)), drop_app_ge by bound.
      f_equal. bound. }
  assert (length tail = length buf - 34)%nat.
  { apply (f_equal length) in Hbuf. revert Hbuf. rewrite length_drop.
    repeat (rewrite length_app || rewrite length_cons). lia. }
  rewrite Hsi, Hdi, Ht, Hmac, Hbuf, Htail.
  assert (length l4 = length buf - (14 + header_len_bytes v))%nat by (rewrite El4; bound).
  assert (8 ≤ length l4 ∧ (protocol v = IPPROTO_TCP → 20 ≤ length l4))%nat as [? ?]
    by (destruct (decide (protocol v = IPPROTO_TCP)); lia).
  apply wire_frame_intro; try done; bound.
Qed.


(** ** Header builders write exactly their header *)

(** Run stores at [length pre + i] into [pre ++ x0 :: x1 :: ... ++ post]. *)
Ltac run_stores :=
  repeat first [rewrite bind_Val | rewrite wr_app_r by bound
               | progress cbn [rd lookup list_lookup app insert list_insert Nat.add]].

Ltac splice := first [by rewrite <- ?(assoc_L (++)) | bound].

Lemma eth_build_at out off pre mid post dst src et :
  out = pre ++ mid ++ post → off = length pre →
  length mid = 14%nat → length dst = 6%nat → length src = 6%nat →
  eth_build out off dst src et =
  Val (pre ++ (dst ++ src ++ [u8 (Z.shiftr et 8); u8 (Z.land et 0xFF)]) ++ post).
Proof.
  intros -> -> Hm Hd Hs. cut_list mid; cut_list dst; cut_list src.
  unfold eth_build, ETH_ADDR_LEN. cbn [eth_build_macs]. unfold ETH_ADDR_LEN.
  by run_stores.
Qed.

(** The 20 header bytes of [ipv4_build], with checksum field [ck]. *)
Definition ipv4_header (src dst proto tl ttl : Z) (ck : list Z) : list Z :=
  [0x45; 0x00; u8 (Z.shiftr tl 8); u8 (Z.land tl 0xFF); 0x00; 0x00; 0x40; 0x00; ttl; proto]
  ++ ck ++ le_split 4 src ++ le_split 4 dst.

Lemma ipv4_build_at out off pre mid post src dst proto tl ttl csum :
  out = pre ++ mid ++ post → off = length pre → length mid = 20%nat →
  ipv4_checksum (ipv4_header src dst proto tl ttl [0; 0]) = Val csum →
  ipv4_build out off src dst proto tl ttl =
  Val (pre ++ ipv4_header src dst proto tl ttl
         [u8 (Z.shiftr csum 8); u8 (Z.land csum 0xFF)] ++ post).
Proof.
  intros -> -> Hm Hck. unfold ipv4_build, IPV4_MIN_HDR_LEN.
  rewrite <- (take_drop 12 mid), <- (take_drop 4 (drop 12 mid)).
  set (m1 := take 12 mid). set (m2 := take 4 (drop 12 mid)). set (m3 := drop 4 (drop 12 mid)).
  assert (length m1 = 12 ∧ length m2 = 4 ∧ length m3 = 4)%nat as (? & ? & ?)
    by (subst m1 m2 m3; bound).
  rewrite (wr_list_at _ _ _ pre m1 (m2 ++ m3 ++ post)), bind_Val
    by splice.
  rewrite (wr_list_at _ _ _ (pre ++ [_;_;_;_;_;_;_;_;_;_;_;_]) m2 (m3 ++ post)), bind_Val
    by splice.
  rewrite (wr_list_at _ _ _ ((pre ++ [_;_;_;_;_;_;_;_;_;_;_;_]) ++ le_split 4 src) m3 post), bind_Val
    by splice.
  rewrite (rd_list_at _ _ _ pre (ipv4_header src dst proto tl ttl [0; 0]) post), bind_Val
    by (unfold ipv4_header; splice).
  rewrite Hck, bind_Val.
  rewrite (wr_at _ _ _ (pre ++ [_;_;_;_;_;_;_;_;_;_]) 0 (0 :: le_split 4 src ++ le_split 4 dst ++ post)), bind_Val
    by splice.
  rewrite (wr_at _ _ _ (pre ++ [_;_;_;_;_;_;_;_;_;_;_]) 0 (le_split 4 src ++ le_split 4 dst ++ post))
    by splice.
  unfold ipv4_header. by rewrite <- !(assoc_L (++)).
Qed.

(** ** The Internet checksum (RFC 1071) *)

(** The sum of the big-endian 16-bit words, an odd last byte padded with 0. *)
Fixpoint word_sum (data : list Z) : Z :=
  match data with
  | hi :: lo :: rest => 256 * hi + lo + word_sum rest
  | [b] => 256 * b
  | [] => 0
  end.

(** One's complement folding to 16 bits, in closed form. *)
Definition fold16 (s : Z) : Z := if decide (s = 0) then 0 else (s - 1) mod 65535 + 1.

Lemma list_ind2 {A} (P : list A → Prop) :
  P [] → (∀ x, P [x]) → (∀ x y l, P l → P (x :: y :: l)) → ∀ l, P l.
Proof.
  intros H0 H1 H2 l. enough (P l ∧ ∀ x, P (x :: l)) as [? _] by done.
  induction l as [|y l [IH1 IH2]]; split; auto.
Qed.

Lemma word_sum_bound data :
  bytes_ok data → 0 ≤ word_sum data ≤ 65535 * ((Z.of_nat (length data) + 1) / 2).
Proof.
  induction data as [|b|hi lo rest IH] using list_ind2; intros Hok;
    rewrite ?Forall_cons_iff in Hok; unfold byte_ok in Hok; simpl word_sum; simpl length.
  - by vm_compute.
  - change ((Z.of_nat 1 + 1) / 2) with 1. lia.
  - replace (Z.of_nat (S (S (length rest))) + 1) with (Z.of_nat (length rest) + 1 + 1 * 2) by lia.
    rewrite Z.div_add by lia. destruct IH as [? ?]; [tauto|]. lia.
Qed.

Lemma word_sum_app pre post :
  Nat.Even (length pre) → word_sum (pre ++ post) = word_sum pre + word_sum post.
Proof.
  induction pre as [|b|hi lo rest IH] using list_ind2; intros [k Hk]; simpl in *;
    [done|lia|]. rewrite IH; [lia|]. exists (k - 1)%nat. lia.
Qed.

Lemma fold16_step s :
  65536 ≤ s → fold16 (s mod 65536 + s / 65536) = fold16 s.
Proof.
  intros Hs. pose proof (Z.div_mod s 65536). pose proof (Z.mod_pos_bound s 65536).
  assert (1 ≤ s / 65536) by (apply Z.div_le_lower_bound; lia).
  unfold fold16. rewrite !decide_False by lia. f_equal.
  rewrite <- (Z.mod_add (_ + _ - 1) (s / 65536) 65535) by lia. f_equal. lia.
Qed.

Lemma fold16_small s : 0 ≤ s < 65536 → fold16 s = s.
Proof.
  intros. unfold fold16. case_decide; [done|]. rewrite Z.mod_small; lia.
Qed.

Lemma fold16_range s : 0 ≤ fold16 s ≤ 65535.
Proof.
  unfold fold16. case_decide; [lia|]. pose proof (Z.mod_pos_bound (s - 1) 65535). lia.
Qed.

Lemma checksum_fold_small fuel s : 0 ≤ s < 65536 → checksum_fold (S fuel) s = Val s.
Proof.
  intros. cbn [checksum_fold]. rewrite decide_False; [done|].
  rewrite Z.shiftr_div_pow2, Z.div_small by lia. tauto.
Qed.

Lemma checksum_fold_step fuel s :
  65536 ≤ s < 2 ^ 32 → checksum_fold (S fuel) s = checksum_fold fuel (s mod 65536 + s / 65536).
Proof.
  intros Hs. cbn [checksum_fold]. change 65535 with (Z.ones 16).
  rewrite Z.shiftr_div_pow2, Z.land_ones by lia. change (2 ^ 16) with 65536.
  pose proof (Z.mod_pos_bound s 65536).
  assert (1 ≤ s / 65536 < 65536) by
    (split; [apply Z.div_le_lower_bound|apply Z.div_lt_upper_bound]; lia).
  rewrite decide_True by lia. unfold u32. rewrite (Z.mod_small (_ + _)) by lia. done.
Qed.

(** Two folds are always enough for a 32-bit sum. *)
Lemma checksum_fold_spec s : 0 ≤ s < 2 ^ 32 → checksum_fold 4 s = Val (fold16 s).
Proof.
  intros Hs. destruct (decide (s < 65536)).
  { by rewrite checksum_fold_small, fold16_small by lia. }
  rewrite checksum_fold_step by lia. rewrite <- fold16_step by lia.
  pose proof (Z.mod_pos_bound s 65536).
  assert (1 ≤ s / 65536 < 65536) by
    (split; [apply Z.div_le_lower_bound|apply Z.div_lt_upper_bound]; lia).
  assert (0 ≤ s mod 65536 + s / 65536 ≤ 131070) as Hs1 by lia.
  revert Hs1; generalize (s mod 65536 + s / 65536); intros s1 Hs1.
  destruct (decide (s1 < 65536)).
  { by rewrite checksum_fold_small, fold16_small by lia. }
  rewrite checksum_fold_step by lia. rewrite <- fold16_step by lia.
  assert (s1 / 65536 = 1) as -> by (symmetry; apply (Z.div_unique _ _ _ (s1 - 65536)); lia).
  assert (s1 mod 65536 = s1 - 65536) as -> by (symmetry; apply (Z.mod_unique _ _ 1); lia).
  rewrite checksum_fold_small, fold16_small by lia. done.
Qed.

Lemma checksum_words_spec fuel dn rest sum :
  bytes_ok rest → (length rest < fuel)%nat → 0 ≤ sum < 2 ^ 32 →
  ('(i, s) ← checksum_words fuel (dn ++ rest) (length dn) sum;
   if decide (i < length (dn ++ rest))%nat then
     b ← rd (dn ++ rest) i; Val (u32 (s + u32 (Z.shiftl b 8)))
   else Val s) = Val (u32 (sum + word_sum rest)).
Proof.
  revert dn rest sum; induction fuel as [|fuel IH]; intros dn rest sum Hok Hf Hsum; [lia|].
  destruct rest as [|hi [|lo rest]]; simpl checksum_words.
  - rewrite decide_False, bind_Val by bound. cbv beta iota.
    rewrite decide_False by bound. simpl. unfold u32.
    rewrite Z.add_0_r, Z.mod_small by lia. done.
  - rewrite decide_False, bind_Val by bound. cbv beta iota. rewrite decide_True by bound.
    rewrite (rd_at _ _ hi dn []), bind_Val by done.
    rewrite Z.shiftl_mul_pow2 by lia. unfold u32. rewrite Z.add_mod_idemp_r by lia.
    do 2 f_equal. simpl. lia.
  - rewrite !Forall_cons_iff in Hok. destruct Hok as (Hhi & Hlo & Hok).
    rewrite decide_True by bound.
    rewrite (rd_at _ (length dn) hi dn (lo :: rest)), bind_Val by done.
    rewrite (rd_at _ (length dn + 1) lo (dn ++ [hi]) rest), bind_Val by splice.
    replace (dn ++ hi :: lo :: rest) with ((dn ++ [hi; lo]) ++ rest) by splice.
    replace (length dn + 2)%nat with (length (dn ++ [hi; lo])) by bound.
    simpl in Hf. rewrite IH by (try done; try lia; unfold u32; apply Z.mod_pos_bound; lia).
    rewrite be16_spec by done. unfold u32. rewrite Z.add_mod_idemp_l by lia.
    do 2 f_equal. simpl. lia.
Qed.

Lemma ipv4_checksum_spec data :
  bytes_ok data → ipv4_checksum data = Val (65535 - fold16 (u32 (word_sum data))).
Proof.
  intros Hok. unfold ipv4_checksum.
  pose proof (checksum_words_spec (S (length data)) [] data 0 Hok) as H; simpl app in H.
  simpl length in H.
  assert (∀ (x : out (nat * Z)) (f : nat → Z → out Z) (g : Z → out Z),
    ('(i, s) ← x; s' ← f i s; g s') = (s' ← ('(i, s) ← x; f i s); g s')) as ->
    by (intros [[]| |]; done).
  rewrite H, bind_Val by lia.
  rewrite checksum_fold_spec, bind_Val by (apply Z.mod_pos_bound; lia).
  pose proof (fold16_range (u32 (word_sum data))). f_equal. unfold u16, Z.lnot.
  rewrite Z.add_0_l. symmetry. apply (Z.mod_unique _ _ (-1)); lia.
Qed.

Lemma fold16_complement s : 0 ≤ s → fold16 (s + (65535 - fold16 s)) = 65535.
Proof.
  intros Hs. destruct (decide (s = 0)) as [->|Hne]; [done|].
  pose proof (fold16_range s). unfold fold16 at 1.
  assert (fold16 s = (s - 1) mod 65535 + 1) as -> by (unfold fold16; by rewrite decide_False).
  pose proof (Z.mod_pos_bound (s - 1) 65535).
  rewrite decide_False by lia.
  replace (s + (65535 - ((s - 1) mod 65535 + 1)) - 1)
    with (65534 + ((s - 1) / 65535) * 65535) by (pose proof (Z.div_mod (s - 1) 65535); lia).
  by rewrite Z.mod_add.
Qed.

Lemma checksum_store_verifies pre post csum :
  bytes_ok (pre ++ post) → Nat.Even (length pre) →
  Z.of_nat (length (pre ++ [0; 0] ++ post)) ≤ 131072 →
  ipv4_checksum (pre ++ [0; 0] ++ post) = Val csum →
  ipv4_checksum (pre ++ [u8 (Z.shiftr csum 8); u8 (Z.land csum 0xFF)] ++ post) = Val 0.
Proof.
  intros Hok Heven Hlen Hc.
  apply Forall_app in Hok as [Hpre Hpost].
  rewrite ipv4_checksum_spec in Hc by (rewrite !Forall_app; repeat constructor; done).
  injection Hc as Hc.
  pose proof (word_sum_bound pre Hpre). pose proof (word_sum_bound post Hpost).
  rewrite !length_app in Hlen. cbn [length] in Hlen.
  assert (0 ≤ word_sum pre + word_sum post ≤ 65535 * 65535) as HS
    by (destruct Heven as [k Hk]; Z.to_euclidean_division_equations; lia).
  rewrite word_sum_app in Hc by done. change (word_sum (0 :: 0 :: post)) with (word_sum post) in Hc.
  unfold u32 in Hc.
  rewrite Z.mod_small in Hc by lia.
  pose proof (fold16_range (word_sum pre + word_sum post)).
  assert (0 ≤ csum < 2 ^ 16) as Hcr by lia.
  rewrite ipv4_checksum_spec.
  2:{ rewrite !Forall_app; split_and!; [done|repeat constructor; apply u8_ok|done]. }
  rewrite word_sum_app by done. simpl word_sum.
  rewrite <- be16_spec, be16_split by (apply u8_ok || done). unfold u32.
  rewrite Z.mod_small by lia.
  replace (_ + (csum + _)) with (word_sum pre + word_sum post + csum) by lia.
  rewrite <- Hc, fold16_complement by lia. done.
Qed.

(** Storing the computed checksum in its (16-bit aligned) field makes the
    whole block verify: recomputing the checksum over it gives 0, as RFC 1071
    demands of a receiver.  128 KiB is where the 32-bit accumulator could
    overflow. *)
Theorem ipv4_checksum_verifies pre post csum
    (Hok : bytes_ok (pre ++ post)) (Heven : Nat.Even (length pre))
    (Hlen : Z.of_nat (length (pre ++ [0; 0] ++ post)) ≤ 131072)
    (Hc : ipv4_checksum (pre ++ [0; 0] ++ post) = Val csum) :
  ipv4_checksum (pre ++ [u8 (Z.shiftr csum 8); u8 (Z.land csum 0xFF)] ++ post) = Val 0.
Proof. by apply checksum_store_verifies. Qed.

Lemma ipv4_checksum_verifies_witness :
  ipv4_checksum ([0x45; 0; 0; 52; 0; 0; 0x40; 0; 64; 47] ++ [0; 0] ++ [10; 99; 0; 1; 10; 99; 0; 11])
    = Val 9674 ∧
  ipv4_checksum ([0x45; 0; 0; 52; 0; 0; 0x40; 0; 64; 47] ++
    [u8 (Z.shiftr 9674 8); u8 (Z.land 9674 0xFF)] ++ [10; 99; 0; 1; 10; 99; 0; 11]) = Val 0.
Proof.
  split; [reflexivity|]. apply ipv4_checksum_verifies.
  - repeat constructor; done.
  - exists 5%nat; reflexivity.
  - vm_compute; discriminate.
  - reflexivity.
Defined.

(** ** GRE encapsulation *)

Lemma copy_inner_splice pre mid post inner i :
  (i + length mid ≤ length inner)%nat →
  copy_inner (pre ++ take i inner ++ mid ++ post) (length pre) inner i (length mid) =
  Val (pre ++ take (i + length mid) inner ++ post).
Proof.
  revert i; induction mid as [|x mid IH]; intros i Hi; cbn [copy_inner length app].
  { by rewrite Nat.add_0_r. }
  simpl in Hi. destruct (rd_lt inner i) as (b & Hb & ->); [lia|]. rewrite bind_Val.
  rewrite (wr_at _ _ _ (pre ++ take i inner) x (mid ++ post)), bind_Val by splice.
  specialize (IH (S i)). rewrite (take_S_r _ _ _ Hb) in IH.
  rewrite <- !(assoc_L (++)) in IH. rewrite <- (assoc_L (++)). simpl in IH. rewrite IH by lia.
  by rewrite <- Nat.add_succ_r.
Qed.

Definition encap_frame (dst src : list Z) (osrc odst ttl : Z) (ck inner : list Z) : list Z :=
  dst ++ src ++ [0x08; 0x00] ++
  ipv4_header osrc odst IPPROTO_GRE_VAL (Z.of_nat (24 + length inner)) ttl ck ++
  [0x00; 0x00; 0x08; 0x00] ++ inner.

Lemma ipv4_header_ok src dst proto tl ttl ck :
  byte_ok proto → byte_ok ttl → bytes_ok ck → bytes_ok (ipv4_header src dst proto tl ttl ck).
Proof.
  intros. unfold ipv4_header. solve_bytes.
Qed.

Lemma gre_encap_build_spec out dst src osrc odst ttl inner n :
  length dst = 6%nat → length src = 6%nat → byte_ok ttl →
  (n ≤ length inner)%nat → (38 + n ≤ length out)%nat → Z.of_nat n ≤ 65511 →
  ∃ hi lo, byte_ok hi ∧ byte_ok lo ∧
    ipv4_checksum (ipv4_header osrc odst IPPROTO_GRE_VAL (Z.of_nat (24 + n)) ttl [hi; lo]) = Val 0 ∧
    gre_encap_build out dst src osrc odst ttl inner n =
    Val (38 + n, encap_frame dst src osrc odst ttl [hi; lo] (take n inner) ++ drop (38 + n) out)%nat.
Proof.
  intros Hd Hs Httl Hn Hcap H16.
  set (hdr := ipv4_header osrc odst IPPROTO_GRE_VAL (Z.of_nat (24 + n)) ttl).
  assert (∀ ck, bytes_ok ck → bytes_ok (hdr ck)) as Hok by (intros; by apply ipv4_header_ok).
  pose proof (ipv4_checksum_spec (hdr [0; 0]) ltac:(apply Hok; solve_bytes)) as Hck.
  set (csum := 65535 - _) in Hck.
  exists (u8 (Z.shiftr csum 8)), (u8 (Z.land csum 0xFF)). split_and!; [apply u8_ok..| |].
  { unfold hdr, ipv4_header. rewrite (assoc_L (++)), <- (assoc_L (++)).
    apply checksum_store_verifies; try done.
    - solve_bytes.
    - by exists 5%nat. }
  unfold gre_encap_build, ETH_HDR_LEN, IPV4_MIN_HDR_LEN, GRE_HDR_LEN.
  rewrite decide_False by lia.
  assert (∃ m1 m2 m3 m4 post, out = m1 ++ m2 ++ m3 ++ m4 ++ post ∧ length m1 = 14 ∧
    length m2 = 20 ∧ length m3 = 4 ∧ length m4 = n ∧ post = drop (38 + n) out)%nat
    as (m1 & m2 & m3 & m4 & post & -> & H1 & H2 & H3 & H4 & Hpost).
  { exists (take 14 out), (take 20 (drop 14 out)), (take 4 (drop 34 out)), (take n (drop 38 out)),
      (drop (38 + n) out). split_and!; try bound; [|done].
    rewrite <- (take_drop 14 out) at 1. f_equal.
    rewrite <- (take_drop 20 (drop 14 out)) at 1. rewrite drop_drop. f_equal.
    rewrite <- (take_drop 4 (drop _ out)) at 1. rewrite drop_drop. f_equal.
    rewrite <- (take_drop n (drop _ out)) at 1. rewrite drop_drop. done. }
  rewrite <- Hpost.
  rewrite (eth_build_at _ _ [] m1 (m2 ++ m3 ++ m4 ++ post)), bind_Val by done.
  set (ethh := dst ++ _). rewrite app_nil_l.
  assert (length ethh = 14%nat) as He by (subst ethh; bound).
  replace (u16 (Z.of_nat _)) with (Z.of_nat (24 + n))
    by (unfold u16; rewrite Z.mod_small; lia).
  rewrite (ipv4_build_at _ _ ethh m2 (m3 ++ m4 ++ post) _ _ _ _ _ csum), bind_Val by done.
  change (ipv4_header osrc odst IPPROTO_GRE_VAL (Z.of_nat (24 + n)) ttl) with hdr.
  set (ck := [u8 (Z.shiftr csum 8); _]). set (iph := hdr ck).
  assert (length iph = 20%nat) as Hi by (subst iph hdr ck; unfold ipv4_header; bound).
  unfold gre_build.
  rewrite (wr_list_at _ _ _ (ethh ++ iph) m3 (m4 ++ post)), bind_Val by splice.
  replace (copy_inner _ _ _ _ _) with (copy_inner
    (((ethh ++ iph) ++ [0x00; 0x00; 0x08; 0x00]) ++ take 0 inner ++ m4 ++ post)
    (length ((ethh ++ iph) ++ [0x00; 0x00; 0x08; 0x00])) inner 0 (length m4))
    by (f_equal; splice).
  rewrite copy_inner_splice, bind_Val by lia.
  unfold encap_frame. rewrite length_take, Nat.min_l, H4 by done.
  subst ethh iph hdr. by rewrite <- !(assoc_L (++)).
Qed.

Lemma split16_spec z :
  0 ≤ z < 2 ^ 16 → 256 * u8 (Z.shiftr z 8) + u8 (Z.land z 0xFF) = z.
Proof. intros. rewrite <- be16_spec, be16_split by (done || apply u8_ok). done. Qed.

Lemma encap_frame_parts dst src osrc odst ttl ck inner :
  length dst = 6%nat → length src = 6%nat → length ck = 2%nat →
  length (encap_frame dst src osrc odst ttl ck inner) = (38 + length inner)%nat ∧
  take 20 (drop 14 (encap_frame dst src osrc odst ttl ck inner)) =
    ipv4_header osrc odst IPPROTO_GRE_VAL (Z.of_nat (24 + length inner)) ttl ck.
Proof.
  intros Hd Hs Hck.
  assert (length (ipv4_header osrc odst IPPROTO_GRE_VAL (Z.of_nat (24 + length inner)) ttl ck)
    = 20%nat) as Hhl by (unfold ipv4_header; bound).
  unfold encap_frame. split; [bound|].
  rewrite !(assoc_L (++)), <- 2!(assoc_L (++)), drop_app_length' by bound.
  by rewrite take_app_length'.
Qed.

Lemma ipv4_header_parse osrc odst proto tl ttl ck tail :
  length ck = 2%nat → 0 ≤ osrc < 2 ^ 32 → 0 ≤ odst < 2 ^ 32 →
  20 ≤ tl < 2 ^ 16 → tl ≤ 20 + Z.of_nat (length tail) →
  ipv4_parse (ipv4_header osrc odst proto tl ttl ck ++ tail) =
  Val (Some {| ihl_words := 5; protocol := proto; total_length := tl;
               src_ip := osrc; dst_ip := odst; header_len_bytes := 20 |}).
Proof.
  intros Hck Hs Hd Htl Htail.
  pose proof (ipv4_parse_wire [0; 0; 0x40; 0; ttl] ck (le_split 4 osrc) (le_split 4 odst) tail
    5 0 (u8 (Z.shiftr tl 8)) (u8 (Z.land tl 0xFF)) proto) as H.
  rewrite split16_spec, !le_combine_split in H by lia.
  etrans; [|apply H; apply u8_ok || done || lia]. f_equal.
  unfold ipv4_header. by rewrite <- !(assoc_L (++)).
Qed.

(** C14. Direct server return encapsulation round-trips: when the frame fits the
    transmit buffer, what is written parses back as Ethernet / IPv4 / minimal
    GRE with the director and backend addresses, a header whose checksum
    verifies and a total length covering the packet, around the client's packet
    copied byte for byte; bytes of the buffer past the frame are untouched.
    When it does not fit, 0 is returned and nothing is written. *)
Theorem gre_encap_roundtrip out dst src osrc odst ttl inner n
    (Hd : length dst = 6%nat) (Hs : length src = 6%nat) (Httl : byte_ok ttl)
    (Hosrc : 0 ≤ osrc < 2 ^ 32) (Hodst : 0 ≤ odst < 2 ^ 32)
    (Hn : (n ≤ length inner)%nat) (H16 : Z.of_nat n ≤ 65511) :
  if decide (38 + n ≤ length out)%nat then
    ∃ frame v,
      gre_encap_build out dst src osrc odst ttl inner n =
        Val (length frame, frame ++ drop (length frame) out) ∧
      length frame = (38 + n)%nat ∧
      take 6 frame = dst ∧ take 6 (drop 6 frame) = src ∧
      eth_parse frame = Val (Some {| dst_mac := 0; src_mac := 6; ethertype := ETH_TYPE_IP |}) ∧
      ipv4_parse (drop 14 frame) = Val (Some v) ∧
      src_ip v = osrc ∧ dst_ip v = odst ∧ protocol v = IPPROTO_GRE_VAL ∧
      header_len_bytes v = 20%nat ∧ total_length v = Z.of_nat (24 + n) ∧
      ipv4_checksum (take 20 (drop 14 frame)) = Val 0 ∧
      gre_parse (drop 34 frame) = Val (Some {| flags_version := 0; protocol_type := ETH_TYPE_IP |}) ∧
      drop 38 frame = take n inner
  else gre_encap_build out dst src osrc odst ttl inner n = Val (0%nat, out).
Proof.
  case_decide as Hcap.
  2:{ unfold gre_encap_build, ETH_HDR_LEN, IPV4_MIN_HDR_LEN, GRE_HDR_LEN.
      by rewrite decide_True by lia. }
  destruct (gre_encap_build_spec out dst src osrc odst ttl inner n)
    as (hi & lo & Hhi & Hlo & Hck & Hb); try done.
  set (inn := take n inner) in *. assert (length inn = n) as Hinn by (subst inn; bound).
  assert (length (ipv4_header osrc odst IPPROTO_GRE_VAL (Z.of_nat (24 + length inn)) ttl [hi; lo])
    = 20%nat) as Hhl by (unfold ipv4_header; bound).
  set (f := encap_frame dst src osrc odst ttl [hi; lo] inn) in *.
  assert (length f = (38 + n)%nat) as Hlen by (subst f; unfold encap_frame; bound).
  assert (Hip : drop 14 f = ipv4_header osrc odst IPPROTO_GRE_VAL (Z.of_nat (24 + length inn)) ttl
    [hi; lo] ++ [0x00; 0x00; 0x08; 0x00] ++ inn).
  { subst f. unfold encap_frame. by rewrite !(assoc_L (++)), <- 2!(assoc_L (++)),
      drop_app_length' by bound. }
  assert (Hgre : drop 34 f = [0x00; 0x00; 0x08; 0x00] ++ inn).
  { change 34%nat with (14 + 20)%nat. by rewrite <- drop_drop, Hip, drop_app_length'. }
  eexists f, _. rewrite Hlen, Hip, Hgre, Hinn. split_and!; try done.
  - subst f. unfold encap_frame. by rewrite take_app_length'.
  - subst f. unfold encap_frame. by rewrite drop_app_length', take_app_length'.
  - subst f. unfold encap_frame. cut_list dst; cut_list src. done.
  - apply ipv4_header_parse; try done; bound.
  - done.
  - done.
  - done.
  - done.
  - done.
  - change 38%nat with (34 + 4)%nat. by rewrite <- drop_drop, Hgre.
Qed.

Definition sample_udp_frame : list Z :=
  [2; 0; 0; 0; 0; 1; 2; 0; 0; 0; 0; 9; 0x08; 0x00;
   0x45; 0; 0; 30; 0; 0; 0; 0; 64; 17; 0; 0; 10; 99; 0; 2; 10; 99; 0; 100;
   0x9c; 0x40; 0x1f; 0x90; 0; 10; 0; 0; 104; 105].


Lemma gre_encap_roundtrip_witness :
  ∃ frame v,
    gre_encap_build (replicate 80 7) [2;0;0;0;0;11] [2;0;0;0;0;1] 16802570 184574730 64
      (drop 14 sample_udp_frame) 30 = Val (length frame, frame ++ drop (length frame) (replicate 80 7)) ∧
    ipv4_parse (drop 14 frame) = Val (Some v) ∧ dst_ip v = 184574730 ∧
    drop 38 frame = take 30 (drop 14 sample_udp_frame).
Proof.
  pose proof (gre_encap_roundtrip (replicate 80 7) [2;0;0;0;0;11] [2;0;0;0;0;1]
    16802570 184574730 64 (drop 14 sample_udp_frame) 30 eq_refl eq_refl
    ltac:(unfold byte_ok; lia) ltac:(lia) ltac:(lia) ltac:(vm_compute; lia) ltac:(lia)) as H.
  rewrite decide_True in H by (vm_compute; lia).
  destruct H as (f & v & H1 & _ & _ & _ & _ & H2 & _ & H3 & _ & _ & _ & _ & _ & H4).
  exists f, v. auto.
Defined.

(** The ports are bounded by the received frame, not by the IP total length: a
    packet that ends with its IP header yields ports read from the Ethernet
    padding behind it. *)
Lemma ports_read_from_padding :
  ∃ fx, packet_extract_flow
      (replicate 12 0 ++ [0x08; 0x00; 0x45; 0; 0; 20; 0; 0; 0; 0; 64; 17; 0; 0;
                          10; 99; 0; 2; 10; 99; 0; 100] ++ [1; 2; 3; 4; 0; 0; 0; 0])
    = Val (PARSE_OK, Some fx) ∧
    ip_total_len fx = 20%nat ∧
    k_src_port (key fx) = le_combine [1; 2] ∧ k_dst_port (key fx) = le_combine [3; 4].
Proof. eexists. split; [vm_compute; reflexivity|]. by split_and!. Qed.
