(* ===== verification/Hash.v ===== *)
(** * Hashing and identity strings (src/maglev/hash.c)

    [XXH64] belongs to libxxhash, which is not part of the repository: it is a
    parameter of the model, the operational type class [XXHash], and nothing is
    assumed of it beyond its C return type [uint64_t].  The file also holds the
    bytes that are hashed: the packed [flow_key] and the ["ip:port"] identity
    string of a backend. *)

From Stdlib Require Import Lia.
From stdpp Require Import base list numbers gmap.
From S2P Require Import Prelude Net.
Import Flow.

Local Open Scope Z_scope.

(** [XXH64(data, len, seed)], [data] being the list of its [len] bytes. *)
Class XXHash := XXH64 : list Z → Z → Z.

Definition MAGLEV_SEED_OFFSET : Z := 0x4d61676c65764f66.
Definition MAGLEV_SEED_SKIP : Z := 0x4d61676c6576536b.
Definition FLOW_HASH_SEED : Z := 0x466c6f7748617368.

(** The 13 bytes of the packed structure. *)
Definition flow_key_bytes (k : flow_key) : list Z :=
  le_split 4 (k_src_ip k) ++ le_split 4 (k_dst_ip k) ++
  le_split 2 (k_src_port k) ++ le_split 2 (k_dst_port k) ++ le_split 1 (k_proto k).

Section Hashes.
Context {xx : XXHash}.

Definition maglev_hash_offset (data : list Z) : Z := u64 (XXH64 data MAGLEV_SEED_OFFSET).
Definition maglev_hash_skip (data : list Z) : Z := u64 (XXH64 data MAGLEV_SEED_SKIP).
Definition flow_hash (key : flow_key) : Z := u64 (XXH64 (flow_key_bytes key) FLOW_HASH_SEED).

End Hashes.

(** A concrete hash, for evaluating the model on examples only. *)
Definition sample_hash : XXHash :=
  λ data seed, foldl (λ acc b, (acc * 131 + b) mod 1000003) (seed mod 9973) data.

(** ** [printf] conversions *)

(** Decimal digits of [%u], [%lu], [%zu], most significant first; 20 digits
    cover every [uint64_t]. *)
Fixpoint dec_digits (fuel : nat) (n : Z) (acc : list Z) : list Z :=
  match fuel with
  | O => acc
  | S fuel =>
      let acc := 48 + n mod 10 :: acc in
      if decide (n < 10) then acc else dec_digits fuel (n / 10) acc
  end.
Definition fmt_u (n : Z) : list Z := dec_digits 20 n [].

(** [snprintf(buf, cap, ...)] of the text [s]: the bytes stored (truncated, NUL
    terminated) and the returned length, which is that of the whole text. *)
Definition snprintf (cap : nat) (s : list Z) : list Z * nat :=
  (match cap with O => [] | S c => take c s ++ [0] end, length s).

(** ["%u.%u.%u.%u"] over the four bytes of an address in memory order. *)
Definition dotted_quad (addr : Z) : list Z :=
  match le_split 4 addr with
  | [a; b; c; d] => fmt_u a ++ [46] ++ fmt_u b ++ [46] ++ fmt_u c ++ [46] ++ fmt_u d
  | _ => []
  end.

Definition ipv4_format (addr : Z) (out_cap : nat) : list Z := (snprintf out_cap (dotted_quad addr)).1.

(** ["%u.%u.%u.%u:%u"], the identity of a backend. *)
Definition ip_port_text (addr port : Z) : list Z := dotted_quad addr ++ [58] ++ fmt_u port.

(** ** Flow keys *)

#[export] Instance flow_key_eq_dec : EqDecision flow_key.
Proof. solve_decision. Defined.

#[export] Program Instance flow_key_countable : Countable flow_key :=
  inj_countable (λ k, (k_src_ip k, k_dst_ip k, k_src_port k, k_dst_port k, k_proto k))
    (λ '(a, b, c, d, e), Some {| k_src_ip := a; k_dst_ip := b; k_src_port := c;
                                 k_dst_port := d; k_proto := e |}) _.
Next Obligation. by intros []. Qed.

(** Every field within its C type. *)
Definition key_ok (k : flow_key) : Prop :=
  0 ≤ k_src_ip k < 2 ^ 32 ∧ 0 ≤ k_dst_ip k < 2 ^ 32 ∧
  0 ≤ k_src_port k < 2 ^ 16 ∧ 0 ≤ k_dst_port k < 2 ^ 16 ∧ 0 ≤ k_proto k < 2 ^ 8.

(** [memcmp(a, b, sizeof(struct flow_key)) == 0] *)
Definition key_eqb (a b : flow_key) : bool := bool_decide (flow_key_bytes a = flow_key_bytes b).

(** The packed bytes determine the key, so [memcmp] decides key equality. *)
Lemma flow_key_bytes_inj a b : key_ok a → key_ok b → flow_key_bytes a = flow_key_bytes b → a = b.
Proof.
  destruct a as [a1 a2 a3 a4 a5], b as [b1 b2 b3 b4 b5].
  unfold key_ok, flow_key_bytes; simpl k_src_ip; simpl k_dst_ip; simpl k_src_port;
    simpl k_dst_port; simpl k_proto. intros Ha Hb Heq.
  apply app_inj_1 in Heq as [H1 Heq]; [|by rewrite !length_le_split].
  apply app_inj_1 in Heq as [H2 Heq]; [|by rewrite !length_le_split].
  apply app_inj_1 in Heq as [H3 Heq]; [|by rewrite !length_le_split].
  apply app_inj_1 in Heq as [H4 H5]; [|by rewrite !length_le_split].
  apply (f_equal le_combine) in H1, H2, H3, H4, H5.
  rewrite !le_combine_split in H1, H2, H3, H4, H5 by (simpl; lia). congruence.
Qed.

Lemma key_eqb_eq a b : key_ok a → key_ok b → key_eqb a b = bool_decide (a = b).
Proof.
  intros. unfold key_eqb. apply bool_decide_ext. split; [by apply flow_key_bytes_inj|congruence].
Qed.

(** ** Decimal text *)

Fixpoint dec_value (acc : Z) (s : list Z) : Z :=
  match s with
  | [] => acc
  | c :: s => dec_value (acc * 10 + (c - 48)) s
  end.

Lemma dec_value_digits fuel n acc :
  0 ≤ n < 10 ^ Z.of_nat fuel → dec_value 0 (dec_digits fuel n acc) = dec_value n acc.
Proof.
  revert n acc; induction fuel as [|fuel IH]; intros n acc Hn.
  { simpl in Hn. by replace n with 0 by lia. }
  rewrite Nat2Z.inj_succ, Z.pow_succ_r in Hn by lia. cbn [dec_digits].
  pose proof (Z.div_mod n 10). pose proof (Z.mod_pos_bound n 10).
  case_decide as Hlt.
  - cbn [dec_value]. rewrite Z.mod_small by lia. f_equal. lia.
  - rewrite IH; [|split; [apply Z.div_pos|apply Z.div_lt_upper_bound]; lia].
    cbn [dec_value]. f_equal. lia.
Qed.

Lemma fmt_u_value n : 0 ≤ n < 2 ^ 64 → dec_value 0 (fmt_u n) = n.
Proof. intros. unfold fmt_u. rewrite dec_value_digits; [done|lia]. Qed.

Lemma fmt_u_inj a b : 0 ≤ a < 2 ^ 64 → 0 ≤ b < 2 ^ 64 → fmt_u a = fmt_u b → a = b.
Proof. intros Ha Hb Heq. by rewrite <- (fmt_u_value a), Heq, fmt_u_value. Qed.

Lemma dec_digits_ok fuel n acc :
  Forall (λ c, 48 ≤ c ≤ 57) acc → Forall (λ c, 48 ≤ c ≤ 57) (dec_digits fuel n acc).
Proof.
  revert n acc; induction fuel as [|fuel IH]; intros n acc Hacc; cbn [dec_digits]; [done|].
  pose proof (Z.mod_pos_bound n 10).
  assert (Forall (λ c, 48 ≤ c ≤ 57) (48 + n mod 10 :: acc)) by (constructor; [lia|done]).
  case_decide; auto.
Qed.

Lemma fmt_u_digits n : Forall (λ c, 48 ≤ c ≤ 57) (fmt_u n).
Proof. by apply dec_digits_ok. Qed.

(** The number of digits. *)
Lemma dec_digits_length fuel n acc (k : nat) :
  0 ≤ n < 10 ^ Z.of_nat k → (1 ≤ k)%nat →
  (length (dec_digits fuel n acc) ≤ k + length acc)%nat.
Proof.
  revert n acc k; induction fuel as [|fuel IH]; intros n acc k Hn Hk; cbn [dec_digits]; [lia|].
  case_decide; [simpl; lia|].
  destruct k as [|[|k]]; [lia|simpl in Hn; lia|].
  rewrite Nat2Z.inj_succ, Z.pow_succ_r in Hn by lia.
  eapply Nat.le_trans; [apply (IH _ _ (S k)); [|lia]|simpl; lia].
  split; [apply Z.div_pos; lia|apply Z.div_lt_upper_bound; lia].
Qed.

Lemma fmt_u_length n (k : nat) :
  0 ≤ n < 10 ^ Z.of_nat k → (1 ≤ k)%nat → (length (fmt_u n) ≤ k)%nat.
Proof. intros. unfold fmt_u. eapply Nat.le_trans; [by apply (dec_digits_length _ _ _ k)|simpl; lia]. Qed.

Lemma dec_digits_fuel fuel n acc : (length (dec_digits fuel n acc) ≤ fuel + length acc)%nat.
Proof.
  revert n acc; induction fuel as [|fuel IH]; intros n acc; cbn [dec_digits]; [lia|].
  case_decide; [simpl; lia|]. eapply Nat.le_trans; [apply IH|simpl; lia].
Qed.

Lemma fmt_u_max n : (length (fmt_u n) ≤ 20)%nat.
Proof. apply (dec_digits_fuel 20 n []). Qed.

Lemma dotted_quad_length addr : (length (dotted_quad addr) ≤ 15)%nat.
Proof.
  unfold dotted_quad. pose proof (le_split_ok 4 addr) as Hok. pose proof (length_le_split 4 addr) as Hl.
  destruct (le_split 4 addr) as [|a [|b [|c [|d [|]]]]]; try discriminate.
  rewrite !Forall_cons in Hok. unfold byte_ok in Hok.
  assert (∀ x, 0 ≤ x < 256 → (length (fmt_u x) ≤ 3)%nat) as H3
    by (intros; apply fmt_u_length; simpl; lia).
  pose proof (H3 a ltac:(tauto)). pose proof (H3 b ltac:(tauto)).
  pose proof (H3 c ltac:(tauto)). pose proof (H3 d ltac:(tauto)). bound.
Qed.

Lemma dotted_quad_chars addr : Forall (λ c, 48 ≤ c ≤ 57 ∨ c = 46) (dotted_quad addr).
Proof.
  unfold dotted_quad. repeat case_match; auto. rewrite !Forall_app.
  split_and!; try (by repeat constructor; right); (eapply Forall_impl; [apply fmt_u_digits|]); simpl; lia.
Qed.

(** The identity string fits [char name[32]] with room to spare, so [snprintf]
    never truncates it. *)
Lemma ip_port_text_length addr port :
  0 ≤ port < 2 ^ 16 → (length (ip_port_text addr port) ≤ 21)%nat.
Proof.
  intros Hp. unfold ip_port_text. pose proof (dotted_quad_length addr).
  pose proof (fmt_u_length port 5 ltac:(simpl; lia) ltac:(lia)). bound.
Qed.

(** Cutting at the first separator: digits never contain it. *)
Lemma digits_cut (sep : Z) a b s t :
  Forall (λ c, 48 ≤ c ≤ 57) a → Forall (λ c, 48 ≤ c ≤ 57) b → ¬ 48 ≤ sep ≤ 57 →
  a ++ sep :: s = b ++ sep :: t → a = b ∧ s = t.
Proof.
  intros Ha Hb Hsep. revert b Hb; induction Ha as [|x a Hx _ IH]; intros b Hb Heq.
  - destruct Hb as [|y b Hy _]; simplify_eq/=; [done|lia].
  - destruct Hb as [|y b Hy Hb]; simplify_eq/=; [lia|].
    destruct (IH b Hb) as [-> ->]; [done|done].
Qed.

Lemma ip_port_text_inj_aux a1 a2 p1 p2 :
  0 ≤ a1 < 2 ^ 32 → 0 ≤ a2 < 2 ^ 32 → 0 ≤ p1 < 2 ^ 16 → 0 ≤ p2 < 2 ^ 16 →
  ip_port_text a1 p1 = ip_port_text a2 p2 → a1 = a2 ∧ p1 = p2.
Proof.
  intros Ha1 Ha2 Hp1 Hp2. unfold ip_port_text, dotted_quad.
  pose proof (le_split_ok 4 a1) as Hok1. pose proof (length_le_split 4 a1) as Hl1.
  pose proof (le_split_ok 4 a2) as Hok2. pose proof (length_le_split 4 a2) as Hl2.
  pose proof (le_combine_split 4 a1 ltac:(simpl; lia)) as Hv1.
  pose proof (le_combine_split 4 a2 ltac:(simpl; lia)) as Hv2.
  destruct (le_split 4 a1) as [|b1 [|b2 [|b3 [|b4 [|]]]]]; try discriminate.
  destruct (le_split 4 a2) as [|c1 [|c2 [|c3 [|c4 [|]]]]]; try discriminate.
  rewrite !Forall_cons in Hok1, Hok2. unfold byte_ok in *.
  rewrite <- !(assoc_L (++)). simpl app.
  intros [E1 H]%digits_cut; [|apply fmt_u_digits..|lia].
  apply digits_cut in H as [E2 H]; [|apply fmt_u_digits..|lia].
  apply digits_cut in H as [E3 H]; [|apply fmt_u_digits..|lia].
  apply digits_cut in H as [E4 E5]; [|apply fmt_u_digits..|lia].
  apply fmt_u_inj in E1, E2, E3, E4, E5; [|lia..]. subst. by split.
Qed.
