(* ===== verification/Text.v ===== *)
(** * C text: the parts of the C library the parsers rely on

    [strtol], the [sscanf] conversions [%15s] and [%lu], [inet_pton(AF_INET)],
    [strrchr] and [strncpy], as the C library defines them (the C locale, LP64,
    glibc's saturating conversions and its refusal of leading zeros in
    addresses).  A C string is the list of its bytes before the terminating
    NUL. *)

From Stdlib Require Import Lia Ascii String.
From stdpp Require Import base numbers list.
From S2P Require Import Prelude Net Hash.

Local Open Scope Z_scope.

(** The bytes of a string literal. *)
Fixpoint text (s : string) : list Z :=
  match s with
  | EmptyString => []
  | String a s => Z.of_N (N_of_ascii a) :: text s
  end.

(** [%ld]; [%d] of 0 and 1 prints as [%u]. *)
Definition fmt_ld (n : Z) : list Z := if decide (n < 0) then 45 :: fmt_u (- n) else fmt_u n.

(** [%-<n>s] and [%<n>s]. *)
Definition pad_right (n : nat) (s : list Z) : list Z := s ++ replicate (n - length s) 32.
Definition pad_left (n : nat) (s : list Z) : list Z := replicate (n - length s) 32 ++ s.

(** The C string stored at the start of an array; without a NUL the read runs
    off its end. *)
Fixpoint c_string (l : list Z) : out (list Z) :=
  match l with
  | [] => Undef
  | c :: l => if decide (c = 0) then Val [] else s ← c_string l; Val (c :: s)
  end.

Definition isspace (c : Z) : bool := bool_decide (9 ≤ c ≤ 13) || bool_decide (c = 32).
Definition isdigit (c : Z) : bool := bool_decide (48 ≤ c ≤ 57).

Fixpoint skip_spaces (s : list Z) : list Z :=
  match s with
  | c :: s' => if isspace c then skip_spaces s' else s
  | [] => []
  end.

Fixpoint span_digits (s : list Z) : list Z * list Z :=
  match s with
  | c :: s' => if isdigit c then let '(ds, r) := span_digits s' in (c :: ds, r) else ([], s)
  | [] => ([], [])
  end.

(** Optional white space, an optional sign and decimal digits, the subject
    sequence of [strtol] and [%lu]: the sign, the magnitude and the text
    left. *)
Definition scan_int (s : list Z) : option (bool * Z * list Z) :=
  let s := skip_spaces s in
  let '(neg, s) := match s with
                   | c :: s' => if decide (c = 45) then (true, s')
                                else if decide (c = 43) then (false, s') else (false, s)
                   | [] => (false, s)
                   end in
  match span_digits s with
  | ([], _) => None
  | (ds, rest) => Some (neg, dec_value 0 ds, rest)
  end.

Definition LONG_MAX : Z := 9223372036854775807.
Definition ULONG_MAX : Z := 18446744073709551615.

(** [strtol(s, &end, 10)]: the value, and the text at [end], which is [s] itself
    when nothing was converted. *)
Definition strtol (s : list Z) : Z * list Z :=
  match scan_int s with
  | None => (0, s)
  | Some (neg, v, rest) => (Z.max (- LONG_MAX - 1) (Z.min LONG_MAX (if neg then - v else v)), rest)
  end.

(** The value of [%lu]. *)
Definition ulong_value (neg : bool) (v : Z) : Z :=
  if decide (v > ULONG_MAX) then ULONG_MAX else if neg then u64 (- v) else v.

(** [%15s] after its white space: at most [n] bytes that are not white space. *)
Fixpoint scan_word (n : nat) (s : list Z) : list Z * list Z :=
  match n, s with
  | S n, c :: s' => if isspace c then ([], s) else let '(w, r) := scan_word n s' in (c :: w, r)
  | _, _ => ([], s)
  end.

(** [sscanf(line, "%15s %lu", verb, &id)]: [Some] when it returns 2. *)
Definition sscanf_15s_lu (line : list Z) : option (list Z * Z) :=
  match scan_word 15 (skip_spaces line) with
  | ([], _) => None
  | (verb, rest) =>
      match scan_int rest with
      | None => None
      | Some (neg, v, _) => Some (verb, ulong_value neg v)
      end
  end.

(** [strrchr(s, c)]: the text before and after the last occurrence. *)
Fixpoint strrchr (c : Z) (s : list Z) : option (list Z * list Z) :=
  match s with
  | [] => None
  | x :: s =>
      match strrchr c s with
      | Some (before, after) => Some (x :: before, after)
      | None => if decide (x = c) then Some ([], s) else None
      end
  end.

(** [strncpy(dst, s, n)] into an array whose bytes [0..n-1] are overwritten, the
    rest kept. *)
Definition strncpy (dst : list Z) (s : list Z) (n : nat) : out (list Z) :=
  wr_list dst 0 (take n (s ++ replicate n 0)).

(** [inet_pton(AF_INET, s, &a)]: [octs] are the octets completed, [cur] the one
    being read if a digit of it was seen. *)
Fixpoint inet_pton_loop (s : list Z) (octs : list Z) (cur : option Z) : option (list Z) :=
  match s with
  | [] =>
      match cur with
      | Some v => if decide (length octs = 3%nat) then Some (octs ++ [v]) else None
      | None => None
      end
  | c :: s =>
      if isdigit c then
        match cur with
        | Some v =>
            if decide (v = 0) then None
            else if decide (v * 10 + (c - 48) > 255) then None
            else inet_pton_loop s octs (Some (v * 10 + (c - 48)))
        | None => if decide (length octs = 4%nat) then None
                  else inet_pton_loop s octs (Some (c - 48))
        end
      else if decide (c = 46) then
        match cur with
        | Some v => if decide (length octs = 3%nat) then None
                    else inet_pton_loop s (octs ++ [v]) None
        | None => None
        end
      else None
  end.

(** [a.s_addr] on success. *)
Definition inet_pton (s : list Z) : option Z := le_combine <$> inet_pton_loop s [] None.

(** ** Numbers *)

Abbreviation digits := (Forall (λ c, 48 ≤ c ≤ 57)).

(** The text does not go on with a digit. *)
Definition ends_number (s : list Z) : Prop :=
  match s with [] => True | c :: _ => isdigit c = false end.

Lemma isdigit_true c : 48 ≤ c ≤ 57 → isdigit c = true.
Proof. intros. unfold isdigit. by rewrite bool_decide_true. Qed.

Lemma span_digits_app ds s : digits ds → ends_number s → span_digits (ds ++ s) = (ds, s).
Proof.
  intros Hd Hs. induction Hd as [|c ds Hc _ IH]; simpl.
  - destruct s as [|c s]; [done|]. simpl in *. by rewrite Hs.
  - by rewrite isdigit_true, IH.
Qed.

Lemma fmt_u_cons n : ∃ d ds, fmt_u n = d :: ds ∧ 48 ≤ d ≤ 57 ∧ digits ds.
Proof.
  assert (∀ fuel m acc, (0 < fuel)%nat ∨ acc ≠ [] → dec_digits fuel m acc ≠ []) as H.
  { induction fuel as [|fuel IH]; intros m acc Ha; cbn [dec_digits]; [by destruct Ha; [lia|]|].
    case_decide; [done|]. apply IH. by right. }
  pose proof (fmt_u_digits n) as Hd. destruct (fmt_u n) as [|d ds] eqn:E.
  - apply H in E; [done|left; lia].
  - inversion Hd. eauto.
Qed.

Lemma scan_int_fmt n s :
  0 ≤ n < 2 ^ 64 → ends_number s → scan_int (fmt_u n ++ s) = Some (false, n, s).
Proof.
  intros Hn Hs. pose proof (span_digits_app _ _ (fmt_u_digits n) Hs) as Hspan.
  pose proof (fmt_u_value n Hn) as Hv. destruct (fmt_u_cons n) as (d & ds & E & Hd & Hds).
  rewrite E in *. unfold scan_int. simpl skip_spaces.
  replace (isspace d) with false
    by (unfold isspace; by rewrite !bool_decide_false by lia).
  rewrite !decide_False by lia. simpl app in Hspan. rewrite Hspan, Hv. done.
Qed.

Lemma scan_int_space s : scan_int (32 :: s) = scan_int s.
Proof. done. Qed.

Lemma strtol_fmt n s : 0 ≤ n ≤ LONG_MAX → ends_number s → strtol (fmt_u n ++ s) = (n, s).
Proof.
  unfold LONG_MAX. intros Hn Hs. unfold strtol, LONG_MAX. rewrite scan_int_fmt by (done || lia).
  f_equal. lia.
Qed.

(** The result is a [long]. *)
Lemma strtol_range s v r : strtol s = (v, r) → - LONG_MAX - 1 ≤ v ≤ LONG_MAX.
Proof. unfold strtol, LONG_MAX. destruct (scan_int s) as [[[neg m] r']|]; intros [= <- <-]; lia. Qed.

(** ** Addresses *)

Lemma inet_pton_digits ds s octs v :
  digits ds → (v ≠ 0 ∨ ds = []) → 0 ≤ v → dec_value v ds ≤ 255 →
  inet_pton_loop (ds ++ s) octs (Some v) = inet_pton_loop s octs (Some (dec_value v ds)).
Proof.
  intros Hd. revert v. induction Hd as [|c ds Hc Hds IH]; intros v Hv H0 Hle; [done|].
  destruct Hv as [Hv|]; [|done].
  assert (∀ ds u, digits ds → 0 ≤ u → u ≤ dec_value u ds) as Hmono.
  { clear. intros ds u Hd. revert u. induction Hd as [|c ds Hc _ IH]; intros u Hu; simpl; [lia|].
    etransitivity; [|apply IH]; lia. }
  simpl in *. pose proof (Hmono ds (v * 10 + (c - 48)) Hds ltac:(lia)).
  rewrite isdigit_true, !decide_False by lia. apply IH; [left; lia|lia|done].
Qed.

(** [%u] prints no leading zero. *)
Lemma fmt_u_octet v :
  0 ≤ v < 256 → ∃ d ds, fmt_u v = d :: ds ∧ 48 ≤ d ≤ 57 ∧ digits ds ∧ (d - 48 ≠ 0 ∨ ds = []).
Proof.
  intros Hv. destruct (fmt_u_cons v) as (d & ds & E & Hd & Hds). exists d, ds. do 3 (split; [done|]).
  assert (forallb (λ n, match fmt_u (Z.of_nat n) with 48 :: _ :: _ => false | _ => true end)
    (seq 0 256) = true) as Hall by (vm_compute; reflexivity).
  rewrite forallb_forall in Hall. specialize (Hall (Z.to_nat v)). rewrite Z2Nat.id, E in Hall by lia.
  destruct ds; [by right|]. left. intros H0. replace d with 48 in Hall by lia.
  discriminate Hall. apply in_seq. lia.
Qed.

Lemma inet_pton_octet v s octs :
  0 ≤ v < 256 → (length octs < 4)%nat →
  inet_pton_loop (fmt_u v ++ s) octs None = inet_pton_loop s octs (Some v).
Proof.
  intros Hv Hl. pose proof (fmt_u_value v ltac:(lia)) as Hval.
  destruct (fmt_u_octet v Hv) as (d & ds & E & Hd & Hds & Hz). rewrite E in *. simpl.
  rewrite isdigit_true, decide_False by lia. simpl in Hval. change (0 * 10) with 0 in Hval.
  replace (0 + (d - 48)) with (d - 48) in Hval by lia.
  rewrite inet_pton_digits; [by rewrite Hval|done|done|lia..].
Qed.

(** Printing an address and parsing it back. *)
Lemma inet_pton_dotted_quad addr : 0 ≤ addr < 2 ^ 32 → inet_pton (dotted_quad addr) = Some addr.
Proof.
  intros Ha. unfold inet_pton, dotted_quad.
  pose proof (le_split_ok 4 addr) as Hok. pose proof (length_le_split 4 addr) as Hl.
  pose proof (le_combine_split 4 addr ltac:(simpl; lia)) as Hv.
  destruct (le_split 4 addr) as [|a [|b [|c [|d [|]]]]]; try discriminate.
  rewrite !Forall_cons in Hok. unfold byte_ok in Hok.
  rewrite inet_pton_octet by (simpl; lia). simpl.
  rewrite inet_pton_octet by (simpl; lia). simpl.
  rewrite inet_pton_octet by (simpl; lia). simpl.
  rewrite <- (app_nil_r (fmt_u d)), inet_pton_octet by (simpl; lia). simpl. by rewrite <- Hv.
Qed.

Lemma strrchr_app c s t : c ∉ t → strrchr c (s ++ c :: t) = Some (s, t).
Proof.
  intros Ht. assert (strrchr c t = None) as E.
  { induction t as [|x t IH]; [done|]. simpl. apply not_elem_of_cons in Ht as [? Ht].
    by rewrite IH, decide_False. }
  induction s as [|x s IH]; simpl.
  - by rewrite E, decide_True.
  - by rewrite IH.
Qed.

Lemma strrchr_Some c s a b : strrchr c s = Some (a, b) → s = a ++ c :: b.
Proof.
  revert a b. induction s as [|x s IH]; intros a b; simpl; [done|].
  destruct (strrchr c s) as [[a' b']|].
  - intros [= <- <-]. simpl. f_equal. by apply IH.
  - case_decide; [|done]. by intros [= <- <-]; subst.
Qed.

(** ** Strings in arrays *)

Lemma c_string_app s r : Forall (λ c, c ≠ 0) s → c_string (s ++ 0 :: r) = Val s.
Proof.
  induction 1 as [|c s Hc _ IH]; simpl; [done|]. by rewrite decide_False, IH.
Qed.

Lemma c_string_total l i : l !! i = Some 0 → ∃ s, c_string l = Val s.
Proof.
  revert i. induction l as [|c l IH]; intros i; [done|]. simpl. case_decide as E; [by exists []|].
  destruct i as [|i]; simpl; [intros [= ->]; done|]. intros (s & ->)%IH. by exists (c :: s).
Qed.

Lemma strncpy_spec dst s n :
  (n ≤ length dst)%nat →
  strncpy dst s n = Val (take n (s ++ replicate n 0) ++ drop n dst).
Proof.
  intros Hn. unfold strncpy. rewrite (wr_list_at dst 0 _ [] (take n dst) (drop n dst)).
  - done.
  - simpl. by rewrite take_drop.
  - done.
  - rewrite !length_take, length_app, length_replicate. lia.
Qed.

(** ** [inet_pton] accepts nothing but dotted quads *)

(** One more digit of an octet. *)
Lemma fmt_u_snoc v c :
  1 ≤ v → 48 ≤ c ≤ 57 → v * 10 + (c - 48) ≤ 255 → fmt_u (v * 10 + (c - 48)) = fmt_u v ++ [c].
Proof.
  intros Hv Hc Hle.
  assert (forallb (λ n, forallb (λ d, bool_decide (fmt_u (Z.of_nat n * 10 + Z.of_nat d) =
    fmt_u (Z.of_nat n) ++ [48 + Z.of_nat d])) (seq 0 10)) (seq 1 25) = true) as Hall
    by (vm_compute; reflexivity).
  rewrite forallb_forall in Hall. specialize (Hall (Z.to_nat v) ltac:(apply in_seq; lia)).
  rewrite forallb_forall in Hall. specialize (Hall (Z.to_nat (c - 48)) ltac:(apply in_seq; lia)).
  apply bool_decide_eq_true in Hall. rewrite !Z2Nat.id in Hall by lia.
  rewrite Hall. do 2 f_equal. lia.
Qed.

Lemma fmt_u_one c : 48 ≤ c ≤ 57 → fmt_u (c - 48) = [c].
Proof.
  intros Hc. unfold fmt_u. cbn [dec_digits]. rewrite decide_True, Z.mod_small by lia. f_equal. lia.
Qed.

(** The text of the octets read so far. *)
Definition octets_text (octs : list Z) (cur : option Z) : list Z :=
  concat ((λ o, fmt_u o ++ [46]) <$> octs) ++ from_option fmt_u [] cur.

Lemma inet_pton_loop_Some s octs cur l :
  inet_pton_loop s octs cur = Some l → bytes_ok octs → (∀ v, cur = Some v → byte_ok v) →
  ∃ octs' v, l = octs' ++ [v] ∧ length octs' = 3%nat ∧ bytes_ok octs' ∧ byte_ok v ∧
    octets_text octs cur ++ s = octets_text octs' (Some v).
Proof.
  revert octs cur. induction s as [|c s IH]; intros octs cur; simpl.
  - destruct cur as [v|]; [|done]. case_decide; [|done]. intros [= <-] Ho Hv.
    exists octs, v. rewrite app_nil_r. by split_and!; [..|apply Hv|].
  - destruct (isdigit c) eqn:Hd.
    + apply bool_decide_eq_true in Hd. destruct cur as [v|].
      * do 2 (case_decide; [done|]). intros Hs Ho Hv. specialize (Hv v eq_refl). unfold byte_ok in Hv.
        apply IH in Hs as (octs' & v' & ? & ? & ? & ? & E); [|done|intros ? [= <-]; unfold byte_ok; lia].
        exists octs', v'. split_and!; try done. rewrite <- E. unfold octets_text. simpl.
        rewrite fmt_u_snoc by lia. by rewrite <- !(assoc_L (++)).
      * case_decide; [done|]. intros Hs Ho _.
        apply IH in Hs as (octs' & v' & ? & ? & ? & ? & E); [|done|intros ? [= <-]; unfold byte_ok; lia].
        exists octs', v'. split_and!; try done. rewrite <- E. unfold octets_text. simpl.
        rewrite fmt_u_one by lia. by rewrite <- !(assoc_L (++)).
    + case_decide; [|done]. subst c. destruct cur as [v|]; [|done]. case_decide; [done|].
      intros Hs Ho Hv. apply IH in Hs as (octs' & v' & ? & ? & ? & ? & E); [| |done].
      * exists octs', v'. split_and!; try done. rewrite <- E. unfold octets_text. simpl.
        rewrite fmap_app, concat_app. simpl. by rewrite <- !(assoc_L (++)).
      * apply Forall_app. split; [done|]. apply Forall_singleton. by apply Hv.
Qed.

Lemma inet_pton_Some s a : inet_pton s = Some a → s = dotted_quad a ∧ 0 ≤ a < 2 ^ 32.
Proof.
  unfold inet_pton. destruct (inet_pton_loop s [] None) as [l|] eqn:E; [|done]. intros [= <-].
  apply inet_pton_loop_Some in E as (octs & v & -> & Hl & Ho & Hv & E); [|constructor|done].
  destruct octs as [|x [|y [|z [|]]]]; try discriminate. simpl app in *.
  assert (bytes_ok [x; y; z; v]) as Hok.
  { rewrite !Forall_cons in *. tauto. }
  split.
  - unfold dotted_quad. change 4%nat with (length [x; y; z; v]). rewrite le_split_combine by done.
    unfold octets_text in E. simpl in E. rewrite E. by rewrite <- !(assoc_L (++)).
  - apply le_combine_bound in Hok. simpl in *. lia.
Qed.
