(* ===== verification/Kernel.v ===== *)
(** * The operating system as the program sees it

    System calls are oracles: their results are inputs of the functions that
    make them.  What the program owes the kernel is tracked here: which
    descriptors are open, so that leaks and double closes are visible, and the
    value of [errno].  The socket addresses the calls take are records. *)

From Stdlib Require Import Lia.
From stdpp Require Import base numbers list gmap.
From S2P Require Import Prelude.

Local Open Scope Z_scope.

(** ** Descriptors *)

(** The descriptors a component has open. *)
Abbreviation fds := (gset Z).

(** Closing a descriptor that is not open could close one of another thread, so
    it counts as undefined. *)
Definition close_fd (open : fds) (fd : Z) : out fds :=
  if decide (fd ∈ open) then Val (open ∖ {[fd]}) else Undef.

Lemma close_fd_elem open fd : fd ∈ open → close_fd open fd = Val (open ∖ {[fd]}).
Proof. intros. unfold close_fd. by rewrite decide_True. Qed.

(** Closing what was just opened. *)
Lemma close_fd_new (open : fds) fd : fd ∉ open → close_fd ({[fd]} ∪ open) fd = Val open.
Proof.
  intros Hfd. rewrite close_fd_elem by set_solver. f_equal. apply leibniz_equiv. set_solver.
Qed.

(** ** Addresses *)

Record sockaddr_in := { sin_family : Z; sin_port : Z; sin_addr : Z }.

(** The link-layer address of packet sockets; [sll_addr] has 8 bytes. *)
Record sockaddr_ll := {
  sll_family : Z;
  sll_protocol : Z;
  sll_ifindex : Z;
  sll_halen : Z;
  sll_addr : list Z;
}.

Definition AF_INET : Z := 2.
Definition AF_PACKET : Z := 17.

Definition EINTR : Z := 4.
Definition ENODEV : Z := 19.
Definition ETIMEDOUT : Z := 110.
Definition EINPROGRESS : Z := 115.

(** [htons] on a little-endian host. *)
Definition htons (x : Z) : Z := be16 (u8 (Z.land x 255)) (u8 (Z.shiftr x 8)).

(** The conversion to [int64_t]. *)
Definition s64 (z : Z) : Z := (z + 2 ^ 63) mod 2 ^ 64 - 2 ^ 63.

(** ** Descriptors and [errno] of the calling thread *)

Record kernel := { k_open : fds; k_errno : Z }.

Definition set_errno (e : Z) (k : kernel) : kernel := {| k_open := k_open k; k_errno := e |}.

Definition opened (fd : Z) (k : kernel) : kernel := {| k_open := {[fd]} ∪ k_open k; k_errno := k_errno k |}.

(** [close]; [e] is the new [errno] if the call changes it. *)
Definition sys_close (k : kernel) (fd : Z) (e : option Z) : out kernel :=
  open ← close_fd (k_open k) fd;
  Val {| k_open := open; k_errno := default (k_errno k) e |}.

Lemma sys_close_new k fd e open :
  k_open k = {[fd]} ∪ open → fd ∉ open →
  sys_close k fd e = Val {| k_open := open; k_errno := default (k_errno k) e |}.
Proof. intros Hk ?. unfold sys_close. rewrite Hk. by rewrite close_fd_new. Qed.

Lemma sys_close_opened k fd err e :
  fd ∉ k_open k →
  sys_close (set_errno err (opened fd k)) fd e = Val {| k_open := k_open k; k_errno := default err e |}.
Proof. intros. by apply sys_close_new. Qed.

(** [if (fd >= 0) close(fd)] *)
Definition close_if_open (k : kernel) (fd : Z) (e : option Z) : out kernel :=
  if decide (fd >= 0) then sys_close k fd e else Val k.

(** ** Descriptors owned by a component *)

Fixpoint close_all (k : kernel) (fds : list Z) (e : option Z) : out kernel :=
  match fds with
  | [] => Val k
  | fd :: fds => k ← close_if_open k fd e; close_all k fds e
  end.

(** The open descriptors are those of [fds] that are not -1, each once, besides
    [open]. *)
Definition owns (open : fds) (k : kernel) (fds : list Z) : Prop :=
  let l := filter (λ fd, 0 ≤ fd) fds in
  NoDup l ∧ (∀ fd, fd ∈ l → fd ∉ open) ∧ k_open k = list_to_set l ∪ open.

Lemma close_all_owned open fds : ∀ k e,
  owns open k fds → ∃ errno, close_all k fds e = Val {| k_open := open; k_errno := errno |}.
Proof.
  induction fds as [|fd fds IH]; intros k e (Hnd & Hfresh & Hk); unfold owns in *; cbn [close_all].
  - exists (k_errno k). destruct k as [o err]. simpl in *. f_equal. f_equal. set_solver.
  - unfold close_if_open. rewrite filter_cons in *. destruct (decide (0 ≤ fd)) as [Hfd|Hfd].
    + rewrite decide_True by lia. apply NoDup_cons in Hnd as [Hni Hnd]. cbn [list_to_set] in Hk.
      rewrite (sys_close_new k fd e (list_to_set (filter (λ fd, 0 ≤ fd) fds) ∪ open)).
      * rewrite bind_Val. apply IH. split_and!; [done| |done]. intros x Hx. apply Hfresh. by right.
      * rewrite Hk. apply leibniz_equiv. set_solver.
      * specialize (Hfresh fd). set_solver.
    + rewrite decide_False by lia. rewrite bind_Val. by apply IH.
Qed.

(** Nothing is owned yet. *)
Lemma owns_none k l : Forall (λ fd, fd < 0) l → owns (k_open k) k l.
Proof.
  intros H. unfold owns. assert (filter (λ fd, 0 ≤ fd) l = []) as ->.
  { induction H; [done|]. rewrite filter_cons, decide_False by lia. done. }
  split_and!; [constructor|by intros ? ?%elem_of_nil|]. by rewrite list_to_set_nil, (left_id_L ∅ (∪)).
Qed.

(** Opening [fd], or failing to, and storing it in place of a -1. *)
Lemma owns_put open k k' l1 l2 x fd :
  x < 0 → owns open k (l1 ++ x :: l2) →
  (fd < 0 ∧ k_open k' = k_open k ∨ 0 ≤ fd ∧ ¬ (fd ∈ k_open k) ∧ k_open k' = {[fd]} ∪ k_open k) →
  owns open k' (l1 ++ fd :: l2).
Proof.
  unfold owns. rewrite !filter_app, !filter_cons. intros Hx. rewrite decide_False by lia.
  intros (Hnd & Hfresh & Hk) [[Hneg Hk']|(Hfd & Hnew & Hk')]; rewrite Hk'.
  - by rewrite decide_False by lia.
  - rewrite decide_True by done. rewrite Hk in Hnew |- *.
    rewrite elem_of_union, elem_of_list_to_set in Hnew.
    match goal with |- NoDup (?a ++ fd :: ?b) ∧ _ => pose proof (Permutation_middle a b fd) as HP end.
    split_and!.
    + apply (NoDup_Permutation_proper _ _ HP), NoDup_cons. naive_solver.
    + intros y Hy%(elem_of_Permutation_proper y _ _ (symmetry HP)). apply elem_of_cons in Hy. naive_solver.
    + by rewrite <- (list_to_set_perm_L _ _ HP), list_to_set_cons, (assoc_L (∪)).
Qed.

Lemma owns_errno open k k' l : k_open k' = k_open k → owns open k l → owns open k' l.
Proof. unfold owns. by intros ->. Qed.

(** Components opened one after the other. *)
Lemma owns_app open k k' l1 l2 : owns (k_open k) k' l1 → owns open k l2 → owns open k' (l1 ++ l2).
Proof.
  unfold owns. rewrite filter_app. intros (Hnd1 & Hf1 & Hk') (Hnd2 & Hf2 & Hk). rewrite Hk in Hf1, Hk'.
  split_and!.
  - apply NoDup_app. split_and!; [done| |done]. intros fd H1 H2. apply (Hf1 fd H1).
    apply elem_of_union_l. by apply elem_of_list_to_set.
  - intros fd [H1|H2]%elem_of_app; [|by apply Hf2]. intros Ho. apply (Hf1 fd H1). by apply elem_of_union_r.
  - rewrite Hk', list_to_set_app_L. by rewrite (assoc_L (∪)).
Qed.

(** Closing the descriptors of the first component leaves those of the rest. *)
Lemma owns_split open k l1 l2 :
  owns open k (l1 ++ l2) →
  let mid := list_to_set (filter (λ fd, 0 ≤ fd) l2) ∪ open in
  owns mid k l1 ∧ ∀ k', k_open k' = mid → owns open k' l2.
Proof.
  unfold owns. rewrite filter_app. intros (Hnd & Hf & Hk). apply NoDup_app in Hnd as (H1 & H12 & H2). split.
  - split_and!; [done| |by rewrite Hk, list_to_set_app_L, (assoc_L (∪))].
    intros fd Hfd [Hl2%elem_of_list_to_set|Ho]%elem_of_union; [by eapply H12|].
    apply (Hf fd); [|done]. apply elem_of_app. by left.
  - intros k' ->. split_and!; [done| |done]. intros fd Hfd. apply Hf. apply elem_of_app. by right.
Qed.

(** A descriptor besides the owned ones is closed. *)
Lemma owns_close open k l fd e :
  owns ({[fd]} ∪ open) k l → fd ∉ open → ∃ k', sys_close k fd e = Val k' ∧ owns open k' l.
Proof.
  intros (Hnd & Hf & Hk) Hfd. set (mine := list_to_set (filter (λ fd, 0 ≤ fd) l) : fds) in Hk.
  assert (fd ∉ mine) as Hm.
  { unfold mine. intros Hin%elem_of_list_to_set. apply (Hf fd Hin). set_solver. }
  rewrite (sys_close_new k fd e (mine ∪ open)); [|rewrite Hk; apply leibniz_equiv; set_solver|set_solver].
  eexists. split; [done|]. split_and!; [done| |done]. intros x Hx Ho. apply (Hf x Hx). set_solver.
Qed.
