(* ===== verification/RawSocket.v ===== *)
(** * Raw sockets

    [src/src/net/raw_socket.c].  The oracle [raw_env] holds what each system
    call returns, with the value of [errno] after it. *)

From Stdlib Require Import Lia.
From stdpp Require Import base numbers list gmap.
From S2P Require Import Prelude Net Hash Text Kernel.
Import Eth Gre.

Local Open Scope Z_scope.

Definition IFNAMSIZ : nat := 16.

Record raw_env := {
  rs_socket : Z → Z * Z;               (** [socket(AF_PACKET, SOCK_RAW, proto)] *)
  rs_ifindex : list Z → Z * Z;         (** [if_nametoindex] *)
  rs_bind : sockaddr_ll → Z * Z;
  rs_bindtodevice : list Z → Z * Z;    (** [setsockopt(SO_BINDTODEVICE)] *)
  rs_close : option Z;                 (** the [errno] a [close] leaves, if it sets it *)
}.

(** The kernel, the descriptor or -1, and [*out_ifindex] if it was written. *)
Definition raw_socket_open (e : raw_env) (k : kernel) (ifname : list Z) (ethertype_host : Z) :
    out (kernel * Z * option Z) :=
  let '(fd, err) := rs_socket e (htons ethertype_host) in
  let k := set_errno err k in
  if decide (fd < 0) then Val (k, -1, None)
  else
    let k := opened fd k in
    let '(idx, err) := rs_ifindex e ifname in
    let k := set_errno err k in
    let ifindex := s32 idx in
    if decide (ifindex = 0) then
      let saved_errno := if decide (k_errno k ≠ 0) then k_errno k else ENODEV in
      k ← sys_close k fd (rs_close e);
      Val (set_errno saved_errno k, -1, None)
    else
      let sll := {| sll_family := AF_PACKET; sll_protocol := htons ethertype_host;
                    sll_ifindex := ifindex; sll_halen := 0; sll_addr := replicate 8 0 |} in
      let '(r, err) := rs_bind e sll in
      let k := set_errno err k in
      if decide (r ≠ 0) then
        let saved_errno := k_errno k in
        k ← sys_close k fd (rs_close e);
        Val (set_errno saved_errno k, -1, None)
      else
        let '(r, err) := rs_bindtodevice e ifname in
        let k := set_errno err k in
        if decide (r ≠ 0) then
          let saved_errno := k_errno k in
          k ← sys_close k fd (rs_close e);
          Val (set_errno saved_errno k, -1, None)
        else Val (k, fd, Some ifindex).

(** [ioctl(SIOCGIFHWADDR)] maps the interface name field of [struct ifreq] to its
    result, [errno] and the 14 bytes of [ifr_hwaddr.sa_data]. *)
Record mac_env := {
  me_socket : Z * Z;
  me_ioctl : list Z → Z * Z * list Z;
  me_close : option Z;
}.

(** The kernel, the return value and [out_mac] if it was written. *)
Definition raw_socket_get_mac (e : mac_env) (k : kernel) (ifname : list Z) :
    out (kernel * Z * option (list Z)) :=
  let '(fd, err) := me_socket e in
  let k := set_errno err k in
  if decide (fd < 0) then Val (k, -1, None)
  else
    let k := opened fd k in
    ifr_name ← strncpy (replicate IFNAMSIZ 0) ifname (IFNAMSIZ - 1);
    let '(r, err, sa_data) := me_ioctl e ifr_name in
    let k := set_errno err k in
    if decide (r ≠ 0) then
      let saved_errno := k_errno k in
      k ← sys_close k fd (me_close e);
      Val (set_errno saved_errno k, -1, None)
    else
      k ← sys_close k fd (me_close e);
      mac ← rd_list sa_data 0 ETH_ADDR_LEN;
      Val (k, 0, Some mac).

(** [recv] delivers at most [buflen] bytes, stored at the start of [buf]; [None]
    is an error. *)
Definition raw_socket_recv (data : option (list Z)) (buf : list Z) : out (list Z * Z) :=
  match data with
  | None => Val (buf, -1)
  | Some bs => buf ← wr_list buf 0 bs; Val (buf, Z.of_nat (length bs))
  end.

(** [sendto] is given the address and the bytes of the frame. *)
Definition raw_socket_send (sendto : sockaddr_ll → list Z → Z) (ifindex : Z) (frame : list Z)
    (len : nat) : out Z :=
  dst ← rd_list frame 0 ETH_ADDR_LEN;
  addr ← wr_list (replicate 8 0) 0 dst;
  bytes ← rd_list frame 0 len;
  Val (sendto {| sll_family := AF_PACKET; sll_protocol := 0; sll_ifindex := ifindex;
                 sll_halen := Z.of_nat ETH_ADDR_LEN; sll_addr := addr |} bytes).

(** ** What the calls guarantee *)

(** Which call failed, with the [errno] it left; [inr] are the descriptor and
    the interface index. *)
Definition open_outcome (e : raw_env) (ifname : list Z) (ethertype_host : Z) : Z + Z * Z :=
  let '(fd, e1) := rs_socket e (htons ethertype_host) in
  let '(idx, e2) := rs_ifindex e ifname in
  let '(r3, e3) := rs_bind e {| sll_family := AF_PACKET; sll_protocol := htons ethertype_host;
                                sll_ifindex := s32 idx; sll_halen := 0; sll_addr := replicate 8 0 |} in
  let '(r4, e4) := rs_bindtodevice e ifname in
  if decide (fd < 0) then inl e1
  else if decide (s32 idx = 0) then inl (if decide (e2 = 0) then ENODEV else e2)
  else if decide (r3 ≠ 0) then inl e3
  else if decide (r4 ≠ 0) then inl e4
  else inr (fd, s32 idx).

(** Opening either succeeds, with one more descriptor open, or fails with -1,
    no descriptor left open and the [errno] of the call that failed, whatever
    [close] does to it. *)
Lemma raw_socket_open_spec e k ifname et :
  (rs_socket e (htons et)).1 ∉ k_open k →
  match open_outcome e ifname et with
  | inl err => raw_socket_open e k ifname et = Val ({| k_open := k_open k; k_errno := err |}, -1, None)
  | inr (fd, ifindex) =>
      0 ≤ fd ∧ ifindex ≠ 0 ∧
      ∃ err, raw_socket_open e k ifname et =
        Val ({| k_open := {[fd]} ∪ k_open k; k_errno := err |}, fd, Some ifindex)
  end.
Proof.
  unfold open_outcome, raw_socket_open. destruct (rs_socket e _) as [fd e1], (rs_ifindex e ifname) as [idx e2].
  destruct (rs_bind e _) as [r3 e3], (rs_bindtodevice e ifname) as [r4 e4]. simpl fst. intros Hfd.
  assert (fd ∉ k_open (set_errno e1 k)) as Hfd' by done.
  case_decide; [done|]. case_decide.
  { rewrite sys_close_opened, bind_Val by done. simpl. by destruct (decide (e2 = 0)) as [-> |]; [|rewrite decide_True]. }
  case_decide.
  { unfold sys_close. simpl. by rewrite close_fd_new. }
  case_decide.
  { unfold sys_close. simpl. by rewrite close_fd_new. }
  split; [lia|]. split; [done|]. by exists e4.
Qed.

Lemma raw_socket_get_mac_spec e k ifname :
  (me_socket e).1 ∉ k_open k →
  (∀ name, (14 ≤ length (me_ioctl e name).2)%nat) →
  ∃ err rc mac, raw_socket_get_mac e k ifname = Val ({| k_open := k_open k; k_errno := err |}, rc, mac) ∧
    (rc = -1 ∧ mac = None ∨ rc = 0 ∧ ∃ m, mac = Some m ∧ length m = ETH_ADDR_LEN).
Proof.
  intros Hfd Hlen. unfold raw_socket_get_mac. destruct (me_socket e) as [fd e1]. simpl in Hfd.
  case_decide; [by do 3 eexists; split; [done|left]|].
  rewrite strncpy_spec, bind_Val by (rewrite length_replicate; unfold IFNAMSIZ; lia).
  match goal with |- context [me_ioctl e ?n] => specialize (Hlen n); destruct (me_ioctl e n) as [[r e2] sa] end.
  simpl in Hlen. case_decide; unfold sys_close; simpl k_open; rewrite close_fd_new, !bind_Val by done.
  - do 3 eexists. split; [done|]. by left.
  - rewrite rd_list_take_drop by (unfold ETH_ADDR_LEN; lia). rewrite bind_Val. do 3 eexists. split; [done|]. right. split; [done|].
    eexists. split; [done|]. rewrite length_take, drop_0. unfold ETH_ADDR_LEN. lia.
Qed.

(** The link-layer destination is the destination of the frame's own Ethernet
    header. *)
Lemma raw_socket_send_spec sendto ifindex dst rest len :
  length dst = ETH_ADDR_LEN → (len ≤ length (dst ++ rest))%nat →
  raw_socket_send sendto ifindex (dst ++ rest) len =
  Val (sendto {| sll_family := AF_PACKET; sll_protocol := 0; sll_ifindex := ifindex; sll_halen := 6;
                 sll_addr := dst ++ [0; 0] |} (take len (dst ++ rest))).
Proof.
  intros Hd Hl. unfold raw_socket_send.
  rewrite (rd_list_take_drop _ 0 ETH_ADDR_LEN) by (rewrite length_app; lia).
  rewrite drop_0, take_app_length' by done.
  rewrite bind_Val. rewrite (wr_list_at _ _ _ [] (replicate 6 0) [0; 0]) by done.
  rewrite bind_Val, rd_list_take_drop by lia. by rewrite drop_0, bind_Val.
Qed.
