(* ===== verification/Arp.v ===== *)
(** * Resolving a backend's MAC address

    [src/src/net/arp_resolve.c]: one ARP request is broadcast and replies are
    awaited until a deadline.  The clock readings, in milliseconds, and what
    [poll] and [recv] deliver are inputs. *)

From Stdlib Require Import Lia.
From stdpp Require Import base numbers list gmap.
From S2P Require Import Prelude Net Hash Text Kernel.
Import Eth.

Local Open Scope Z_scope.

Definition ARP_PAYLOAD_LEN : nat := 28.
Definition ARP_FRAME_LEN : nat := 42.
Definition ARP_HTYPE_ETHERNET : Z := 1.
Definition ARP_OP_REQUEST : Z := 1.
Definition ARP_OP_REPLY : Z := 2.

Definition k_broadcast_mac : list Z := [255; 255; 255; 255; 255; 255].
Definition k_zero_mac : list Z := [0; 0; 0; 0; 0; 0].

Definition build_arp_frame (out : list Z) (src_mac : list Z) (src_ip target_ip : Z) :
    Prelude.out (list Z) :=
  out ← eth_build out 0 k_broadcast_mac src_mac ETH_TYPE_ARP;
  let p := ETH_HDR_LEN in
  out ← wr_list out (p + 0) [0; ARP_HTYPE_ETHERNET];
  out ← wr_list out (p + 2) [8; 0];
  out ← wr_list out (p + 4) [Z.of_nat ETH_ADDR_LEN; 4];
  out ← wr_list out (p + 6) [0; ARP_OP_REQUEST];
  mac ← rd_list src_mac 0 ETH_ADDR_LEN;
  out ← wr_list out (p + 8) mac;
  out ← wr_list out (p + 14) (le_split 4 src_ip);
  out ← wr_list out (p + 18) k_zero_mac;
  wr_list out (p + 24) (le_split 4 target_ip).

(** What [poll] reports, and [recv] after it. *)
Inductive arp_wait :=
  | Poll_eintr
  | Poll_error (errno : Z)
  | Poll_timeout
  | Recv_error (errno : Z)
  | Recv (data : list Z).

(** The checks on a received frame of [n] bytes in [rx]: [Some mac] ends the
    loop. *)
Definition arp_check (rx : list Z) (n : Z) (target_ip : Z) : out (option (list Z)) :=
  if decide (n < Z.of_nat ARP_FRAME_LEN) then Val None
  else
    frame ← rd_list rx 0 (Z.to_nat n);
    eth ← eth_parse frame;
    match eth with
    | None => Val None
    | Some eth =>
        if decide (ethertype eth ≠ ETH_TYPE_ARP) then Val None
        else
          let p := ETH_HDR_LEN in
          p6 ← rd rx (p + 6);
          p7 ← rd rx (p + 7);
          if decide (be16 p6 p7 ≠ ARP_OP_REPLY) then Val None
          else
            spa ← rd_list rx (p + 14) 4;
            if decide (le_combine spa ≠ target_ip) then Val None
            else mac ← rd_list rx (p + 8) ETH_ADDR_LEN; Val (Some mac)
    end.

(** The loop; each entry of [waits] is the clock at the top of an iteration and
    the outcome of its [poll]. *)
Fixpoint arp_wait_loop (k : kernel) (fd : Z) (close_errno : option Z) (target_ip deadline : Z)
    (rx : list Z) (waits : list (Z * arp_wait)) : out (kernel * Z * option (list Z)) :=
  match waits with
  | [] => NoFuel
  | (now, w) :: waits =>
      if decide (deadline - now ≤ 0) then
        k ← sys_close k fd close_errno;
        Val (set_errno ETIMEDOUT k, -1, None)
      else
        match w with
        | Poll_error err =>
            k ← sys_close (set_errno err k) fd close_errno; Val (k, -1, None)
        | Poll_eintr => arp_wait_loop (set_errno EINTR k) fd close_errno target_ip deadline rx waits
        | Poll_timeout => arp_wait_loop k fd close_errno target_ip deadline rx waits
        | Recv_error err => arp_wait_loop (set_errno err k) fd close_errno target_ip deadline rx waits
        | Recv data =>
            rx ← wr_list rx 0 data;
            r ← arp_check rx (Z.of_nat (length data)) target_ip;
            match r with
            | None => arp_wait_loop k fd close_errno target_ip deadline rx waits
            | Some mac => k ← sys_close k fd close_errno; Val (k, 0, Some mac)
            end
        end
  end.

Record arp_env := {
  ae_socket : Z → Z * Z;
  ae_ifindex : list Z → Z * Z;
  ae_bind : sockaddr_ll → Z * Z;
  ae_sendto : list Z → sockaddr_ll → Z * Z;
  ae_close : option Z;
  ae_now : Z;
  ae_waits : list (Z * arp_wait);
}.

(** [req] and [rx] are the contents of the two uninitialised local arrays.  The
    result is the return value and [out_mac] if it was written. *)
Definition arp_resolve (e : arp_env) (k : kernel) (req rx : list Z) (ifname : list Z) (target_ip : Z)
    (src_mac : list Z) (src_ip timeout_ms : Z) : out (kernel * Z * option (list Z)) :=
  let '(fd, err) := ae_socket e (htons ETH_TYPE_ARP) in
  let k := set_errno err k in
  if decide (fd < 0) then Val (k, -1, None)
  else
    let k := opened fd k in
    let '(idx, err) := ae_ifindex e ifname in
    let k := set_errno err k in
    let ifindex := s32 idx in
    if decide (ifindex = 0) then k ← sys_close k fd (ae_close e); Val (k, -1, None)
    else
      let sll := {| sll_family := AF_PACKET; sll_protocol := htons ETH_TYPE_ARP;
                    sll_ifindex := ifindex; sll_halen := 0; sll_addr := replicate 8 0 |} in
      let '(r, err) := ae_bind e sll in
      let k := set_errno err k in
      if decide (r ≠ 0) then k ← sys_close k fd (ae_close e); Val (k, -1, None)
      else
        req ← build_arp_frame req src_mac src_ip target_ip;
        addr ← wr_list (sll_addr sll) 0 k_broadcast_mac;
        let dest := {| sll_family := sll_family sll; sll_protocol := sll_protocol sll;
                       sll_ifindex := sll_ifindex sll; sll_halen := Z.of_nat ETH_ADDR_LEN;
                       sll_addr := addr |} in
        let '(r, err) := ae_sendto e req dest in
        let k := set_errno err k in
        if decide (r < 0) then k ← sys_close k fd (ae_close e); Val (k, -1, None)
        else
          let deadline := ae_now e + timeout_ms in
          arp_wait_loop k fd (ae_close e) target_ip deadline rx (ae_waits e).

(** ** Frames *)

(** The request: who has [target_ip], tell [src_ip] at [src_mac]. *)
Definition arp_request (src_mac : list Z) (src_ip target_ip : Z) : list Z :=
  k_broadcast_mac ++ src_mac ++ [8; 6] ++ [0; 1; 8; 0; 6; 4; 0; 1] ++
  src_mac ++ le_split 4 src_ip ++ k_zero_mac ++ le_split 4 target_ip.

(** A reply in which [target_ip] says it is at [mac]. *)
Definition arp_reply_from (target_ip : Z) (mac frame : list Z) : Prop :=
  ∃ eth_addrs head tail rest,
    frame = eth_addrs ++ [8; 6] ++ head ++ [0; 2] ++ mac ++ le_split 4 target_ip ++ tail ++ rest ∧
    length eth_addrs = 12%nat ∧ length head = 6%nat ∧ length mac = 6%nat ∧ length tail = 10%nat.

Lemma build_arp_frame_spec out src_mac src_ip target_ip :
  length out = ARP_FRAME_LEN → length src_mac = ETH_ADDR_LEN →
  build_arp_frame out src_mac src_ip target_ip = Val (arp_request src_mac src_ip target_ip).
Proof.
  intros Ho Hs. unfold ARP_FRAME_LEN, ETH_ADDR_LEN in *. cut_list out. cut_list src_mac. reflexivity.
Qed.

Lemma arp_reply_length target_ip mac frame :
  arp_reply_from target_ip mac frame → (ARP_FRAME_LEN ≤ length frame)%nat.
Proof.
  intros (ea & hd & tl & rest & -> & ? & ? & ? & ?). unfold ARP_FRAME_LEN. bound.
Qed.

Lemma be16_inj hi lo hi' lo' :
  byte_ok hi → byte_ok lo → byte_ok hi' → byte_ok lo' → be16 hi lo = be16 hi' lo' ↔ [hi; lo] = [hi'; lo'].
Proof.
  intros ????. rewrite !be16_spec by done. unfold byte_ok in *. split; [intros|by intros [= -> ->]].
  f_equal; [|f_equal]; lia.
Qed.

Lemma le_combine_eq_split bs z :
  bytes_ok bs → length bs = 4%nat → 0 ≤ z < 2 ^ 32 → le_combine bs = z ↔ bs = le_split 4 z.
Proof.
  intros Hok Hlen Hz. split.
  - intros <-. rewrite <- Hlen. symmetry. by apply le_split_combine.
  - intros ->. by apply le_combine_split.
Qed.

(** A frame of 42 bytes or more, by fields. *)
Definition arp_fields (ea et hd op mac spa tl rest : list Z) : list Z :=
  ea ++ et ++ hd ++ op ++ mac ++ spa ++ tl ++ rest.

Lemma arp_fields_exist data :
  (42 ≤ length data)%nat →
  ∃ ea e0 e1 hd o0 o1 mac spa tl rest,
    data = arp_fields ea [e0; e1] hd [o0; o1] mac spa tl rest ∧ length ea = 12%nat ∧ length hd = 6%nat ∧
    length mac = 6%nat ∧ length spa = 4%nat ∧ length tl = 10%nat.
Proof.
  intros Hlen.
  assert (∃ hd tl, data = hd ++ tl ∧ length hd = 42%nat) as (hd & tl & -> & Hhd).
  { exists (take 42 data), (drop 42 data). rewrite take_drop, length_take. split; [done|lia]. }
  clear Hlen. cut_list hd.
  eexists [_; _; _; _; _; _; _; _; _; _; _; _], _, _, [_; _; _; _; _; _], _, _, [_; _; _; _; _; _],
    [_; _; _; _], [_; _; _; _; _; _; _; _; _; _], _. repeat split.
Qed.

Lemma arp_check_fields ea e0 e1 hd o0 o1 mac spa tl rest junk target_ip :
  length ea = 12%nat → length hd = 6%nat → length mac = 6%nat → length spa = 4%nat → length tl = 10%nat →
  let data := arp_fields ea [e0; e1] hd [o0; o1] mac spa tl rest in
  arp_check (data ++ junk) (Z.of_nat (length data)) target_ip =
  Val (if decide (be16 e0 e1 = ETH_TYPE_ARP ∧ be16 o0 o1 = ARP_OP_REPLY ∧ le_combine spa = target_ip)
       then Some mac else None).
Proof.
  intros ? ? ? ? ? data. unfold arp_check, data.
  rewrite decide_False by (unfold arp_fields, ARP_FRAME_LEN; bound).
  rewrite Nat2Z.id, (rd_list_take_drop _ 0 (length (arp_fields _ _ _ _ _ _ _ _))) by bound.
  rewrite drop_0, take_app_length, bind_Val. clear data.
  cut_list ea. cut_list hd. cut_list mac. cut_list spa. cut_list tl. unfold arp_fields.
  cbn [app]. unfold eth_parse. rewrite decide_False by (unfold ETH_HDR_LEN; cbn [length]; lia).
  cbn -[decide be16 le_combine]. repeat case_decide; try done; tauto.
Qed.

Lemma arp_reply_fields ea e0 e1 hd o0 o1 mac spa tl rest target_ip mac' :
  length ea = 12%nat → length hd = 6%nat → length mac = 6%nat → length spa = 4%nat → length tl = 10%nat →
  arp_reply_from target_ip mac' (arp_fields ea [e0; e1] hd [o0; o1] mac spa tl rest) ↔
  mac' = mac ∧ [e0; e1] = [8; 6] ∧ [o0; o1] = [0; 2] ∧ spa = le_split 4 target_ip.
Proof.
  intros. unfold arp_fields. split.
  - intros (ea' & hd' & tl' & rest' & Heq & ? & ? & ? & ?).
    apply app_inj_1 in Heq as [<- Heq]; [|lia]. apply app_inj_1 in Heq as [? Heq]; [|done].
    apply app_inj_1 in Heq as [<- Heq]; [|lia]. apply app_inj_1 in Heq as [? Heq]; [|done].
    apply app_inj_1 in Heq as [<- Heq]; [|lia]. apply app_inj_1 in Heq as [? Heq]; [|done].
    done.
  - intros (-> & -> & -> & ->). by exists ea, hd, tl, rest.
Qed.

(** The checks accept exactly the replies of the target. *)
Lemma arp_check_spec data junk target_ip :
  bytes_ok data → 0 ≤ target_ip < 2 ^ 32 →
  ∃ r, arp_check (data ++ junk) (Z.of_nat (length data)) target_ip = Val r ∧
    ∀ mac, r = Some mac ↔ arp_reply_from target_ip mac data.
Proof.
  intros Hok Ht. destruct (decide (42 ≤ length data)%nat) as [Hlen|Hlen].
  - destruct (arp_fields_exist data Hlen) as (ea & e0 & e1 & hd & o0 & o1 & mac & spa & tl & rest & -> & ?&?&?&?&?).
    eexists. split; [by apply arp_check_fields|]. intros mac'. rewrite arp_reply_fields by done.
    unfold arp_fields in Hok. rewrite !Forall_app, !Forall_cons in Hok.
    destruct Hok as (_ & (? & ? & _) & _ & (? & ? & _) & _ & ? & _).
    rewrite <- (be16_inj e0 e1 8 6), <- (be16_inj o0 o1 0 2), <- (le_combine_eq_split spa) by (done || by unfold byte_ok).
    case_decide; naive_solver.
  - exists None. unfold arp_check. rewrite decide_True by (unfold ARP_FRAME_LEN; lia). split; [done|].
    intros mac. split; [done|]. intros Hr%arp_reply_length. unfold ARP_FRAME_LEN in Hr. lia.
Qed.

(** ** The wait *)

(** An iteration that leaves the loop running. *)
Definition arp_quiet (target_ip deadline : Z) (w : Z * arp_wait) : Prop :=
  w.1 < deadline ∧
  match w.2 with
  | Poll_error _ => False
  | Recv data => ∀ mac, ¬ arp_reply_from target_ip mac data
  | _ => True
  end.

(** The first iteration that is not quiet decides the outcome. *)
Inductive arp_outcome (target_ip deadline : Z) (close_errno : option Z) (waits : list (Z * arp_wait)) :
    Z → Z → option (list Z) → Prop :=
  | Arp_reply pre now data post errno mac :
      waits = pre ++ (now, Recv data) :: post →
      Forall (arp_quiet target_ip deadline) pre → now < deadline →
      arp_reply_from target_ip mac data →
      arp_outcome target_ip deadline close_errno waits errno 0 (Some mac)
  | Arp_timeout pre now w post :
      waits = pre ++ (now, w) :: post →
      Forall (arp_quiet target_ip deadline) pre → deadline ≤ now →
      arp_outcome target_ip deadline close_errno waits ETIMEDOUT (-1) None
  | Arp_poll_failed pre now err post :
      waits = pre ++ (now, Poll_error err) :: post →
      Forall (arp_quiet target_ip deadline) pre → now < deadline →
      arp_outcome target_ip deadline close_errno waits (default err close_errno) (-1) None.

Lemma arp_outcome_cons target_ip deadline close_errno w waits errno rc mac :
  arp_quiet target_ip deadline w →
  arp_outcome target_ip deadline close_errno waits errno rc mac →
  arp_outcome target_ip deadline close_errno (w :: waits) errno rc mac.
Proof.
  intros Hq [pre now data post ? m -> ? ? ?|pre now w' post -> ? ?|pre now err post -> ? ?].
  - by eapply (Arp_reply _ _ _ _ (w :: pre)); auto.
  - by eapply (Arp_timeout _ _ _ _ (w :: pre)); auto.
  - by eapply (Arp_poll_failed _ _ _ _ (w :: pre)); auto.
Qed.

Definition arp_recv_ok (w : Z * arp_wait) : Prop :=
  match w.2 with Recv data => bytes_ok data ∧ (length data ≤ 128)%nat | _ => True end.

Lemma arp_wait_loop_spec waits : ∀ open errno fd close_errno target_ip deadline rx,
  fd ∉ open → 0 ≤ target_ip < 2 ^ 32 → length rx = 128%nat →
  Forall arp_recv_ok waits → Exists (λ w, deadline ≤ w.1) waits →
  ∃ errno' rc mac,
    arp_wait_loop (set_errno errno (opened fd {| k_open := open; k_errno := 0 |}))
      fd close_errno target_ip deadline rx waits =
    Val ({| k_open := open; k_errno := errno' |}, rc, mac) ∧
    arp_outcome target_ip deadline close_errno waits errno' rc mac.
Proof.
  induction waits as [|[now w] waits IH]; intros open errno fd ce target_ip deadline rx Hfd Ht Hrx Hok Hex;
    [by apply Exists_nil in Hex|].
  apply Forall_cons in Hok as [Hw Hok]. cbn [arp_wait_loop].
  case_decide as Hnow.
  { rewrite sys_close_opened by done. rewrite bind_Val. do 3 eexists. split; [done|].
    by eapply (Arp_timeout _ _ _ _ []); [done..|lia]. }
  apply Exists_cons in Hex as [Hex|Hex]; [simpl in Hex; lia|].
  assert (∀ errno rx, length rx = 128%nat → arp_quiet target_ip deadline (now, w) → ∃ errno' rc mac,
    arp_wait_loop (set_errno errno (opened fd {| k_open := open; k_errno := 0 |})) fd ce target_ip deadline rx waits =
    Val ({| k_open := open; k_errno := errno' |}, rc, mac) ∧
    arp_outcome target_ip deadline ce ((now, w) :: waits) errno' rc mac) as Hgo.
  { intros errno1 rx1 Hrx1 Hq. destruct (IH open errno1 fd ce target_ip deadline rx1) as (e' & rc & mac & ? & ?); try done.
    exists e', rc, mac. split; [done|]. by apply arp_outcome_cons. }
  clear IH. destruct w as [|err| |err|data].
  - apply (Hgo EINTR rx); [done|]. split; [simpl; lia|done].
  - change (set_errno err (set_errno errno ?k)) with (set_errno err k). rewrite sys_close_opened by done.
    rewrite bind_Val. do 3 eexists. split; [done|]. eapply (Arp_poll_failed _ _ _ _ []); [done..|lia].
  - apply (Hgo errno rx); [done|]. split; [simpl; lia|done].
  - apply (Hgo err rx); [done|]. split; [simpl; lia|done].
  - destruct Hw as [Hb Hl]. cbn [snd] in Hb, Hl.
    rewrite (wr_list_at rx 0 data [] (take (length data) rx) (drop (length data) rx))
      by (rewrite ?app_nil_l, ?take_drop; first [done | bound]). rewrite app_nil_l, bind_Val.
    destruct (arp_check_spec data (drop (length data) rx) target_ip Hb Ht) as (r & -> & Hr). rewrite bind_Val.
    destruct r as [mac|].
    + rewrite sys_close_opened by done. rewrite bind_Val. do 3 eexists. split; [done|].
      eapply (Arp_reply _ _ _ _ []); [done..|lia|]. by apply Hr.
    + apply Hgo; [bound|]. split; [simpl; lia|]. simpl. intros mac Hm. by apply Hr in Hm.
Qed.

(** ** The whole resolution *)

(** The address the request goes to. *)
Definition arp_dest (ifindex : Z) : sockaddr_ll :=
  {| sll_family := AF_PACKET; sll_protocol := htons ETH_TYPE_ARP; sll_ifindex := ifindex;
     sll_halen := 6; sll_addr := k_broadcast_mac ++ [0; 0] |}.

(** The socket was opened, bound, and the request sent. *)
Definition arp_sent (e : arp_env) (ifname : list Z) (target_ip : Z) (src_mac : list Z) (src_ip : Z) : Prop :=
  let idx := s32 (ae_ifindex e ifname).1 in
  0 ≤ (ae_socket e (htons ETH_TYPE_ARP)).1 ∧ idx ≠ 0 ∧
  (ae_bind e {| sll_family := AF_PACKET; sll_protocol := htons ETH_TYPE_ARP; sll_ifindex := idx;
                sll_halen := 0; sll_addr := replicate 8 0 |}).1 = 0 ∧
  0 ≤ (ae_sendto e (arp_request src_mac src_ip target_ip) (arp_dest idx)).1.

#[export] Instance arp_sent_dec e ifname target_ip src_mac src_ip :
  Decision (arp_sent e ifname target_ip src_mac src_ip).
Proof. unfold arp_sent. apply _. Defined.

(** Descriptors are fresh, what is received fits, and the clock runs out. *)
Definition arp_env_ok (e : arp_env) (k : kernel) (timeout_ms : Z) : Prop :=
  ¬ ((ae_socket e (htons ETH_TYPE_ARP)).1 ∈ k_open k) ∧ Forall arp_recv_ok (ae_waits e) ∧
  Exists (λ w, ae_now e + timeout_ms ≤ w.1) (ae_waits e).

Lemma arp_resolve_spec e k req rx ifname target_ip src_mac src_ip timeout_ms :
  arp_env_ok e k timeout_ms → 0 ≤ target_ip < 2 ^ 32 →
  length req = ARP_FRAME_LEN → length rx = 128%nat → length src_mac = ETH_ADDR_LEN →
  ∃ errno rc mac,
    arp_resolve e k req rx ifname target_ip src_mac src_ip timeout_ms =
    Val ({| k_open := k_open k; k_errno := errno |}, rc, mac) ∧
    (arp_sent e ifname target_ip src_mac src_ip →
     arp_outcome target_ip (ae_now e + timeout_ms) (ae_close e) (ae_waits e) errno rc mac) ∧
    (¬ arp_sent e ifname target_ip src_mac src_ip → rc = -1 ∧ mac = None).
Proof.
  intros (Hfd & Hrecv & Hex) Ht Hreq Hrx Hmac. unfold arp_resolve, arp_sent.
  destruct (ae_socket e _) as [fd err0]. cbn [fst] in *. case_decide; [do 3 eexists; split; [done|]; naive_solver lia|].
  destruct (ae_ifindex e ifname) as [idx err1]. cbn [fst].
  case_decide.
  { rewrite (sys_close_new _ fd _ (k_open k)) by done. do 3 eexists. split; [done|]. naive_solver. }
  destruct (ae_bind e _) as [r2 err2]. cbn [fst]. case_decide.
  { rewrite (sys_close_new _ fd _ (k_open k)) by done. do 3 eexists. split; [done|]. naive_solver. }
  rewrite build_arp_frame_spec by done. rewrite bind_Val.
  change (wr_list _ 0 k_broadcast_mac) with (Val (k_broadcast_mac ++ [0; 0])). rewrite bind_Val.
  change {| sll_family := _; sll_protocol := _; sll_ifindex := _; sll_halen := _; sll_addr := _ |} with (arp_dest (s32 idx)).
  destruct (ae_sendto e _ _) as [r3 err3]. cbn [fst]. case_decide.
  { rewrite (sys_close_new _ fd _ (k_open k)) by done. do 3 eexists. split; [done|]. naive_solver lia. }
  destruct (arp_wait_loop_spec (ae_waits e) (k_open k) err3 fd (ae_close e) target_ip (ae_now e + timeout_ms) rx)
    as (errno & rc & mac & Hloop & Hout); [done..|].
  exists errno, rc, mac. split; [exact Hloop|]. split; [done|]. intros []. split_and!; first [lia | done].
Qed.

(** C15. ARP resolution returns with its socket closed on every path.  If the
    request for [target_ip] could not be sent the result is -1; otherwise the
    first decisive event does it: a reply of [target_ip] before the deadline gives
    0 and the sender's MAC address, the deadline gives -1 with [errno] ETIMEDOUT, a
    failing [poll] gives -1; frames that are not such a reply are ignored. *)
Theorem arp_resolve_correct e k req rx ifname target_ip src_mac src_ip timeout_ms :
  arp_env_ok e k timeout_ms → 0 ≤ target_ip < 2 ^ 32 →
  length req = ARP_FRAME_LEN → length rx = 128%nat → length src_mac = ETH_ADDR_LEN →
  ∃ errno rc mac,
    arp_resolve e k req rx ifname target_ip src_mac src_ip timeout_ms =
    Val ({| k_open := k_open k; k_errno := errno |}, rc, mac) ∧
    (arp_sent e ifname target_ip src_mac src_ip →
     arp_outcome target_ip (ae_now e + timeout_ms) (ae_close e) (ae_waits e) errno rc mac) ∧
    (¬ arp_sent e ifname target_ip src_mac src_ip → rc = -1 ∧ mac = None).
Proof. apply arp_resolve_spec. Qed.

Definition sample_reply : list Z :=
  [2; 2; 2; 2; 2; 2; 4; 4; 4; 4; 4; 4; 8; 6; 0; 1; 8; 0; 6; 4; 0; 2; 4; 4; 4; 4; 4; 4; 10; 0; 0; 2;
   2; 2; 2; 2; 2; 2; 10; 0; 0; 1].

(** A runt frame and the deadline's neighbourhood around one good reply. *)
Definition sample_arp_env : arp_env :=
  {| ae_socket _ := (3, 0); ae_ifindex _ := (2, 0); ae_bind _ := (0, 0); ae_sendto _ _ := (42, 0);
     ae_close := None; ae_now := 100;
     ae_waits := [(100, Recv [1; 2]); (101, Poll_eintr); (1099, Recv sample_reply); (1100, Poll_timeout)] |}.

Lemma arp_resolve_correct_witness :
  let k := {| k_open := ∅; k_errno := 0 |} in
  let req := replicate 42 0 in
  let rx := replicate 128 7 in
  let target := 33554442 in
  ∃ errno rc mac,
    arp_resolve sample_arp_env k req rx [101; 116; 104; 48] target (replicate 6 2) 16777226 1000 =
    Val ({| k_open := ∅; k_errno := errno |}, rc, mac) ∧ rc = 0 ∧ mac = Some [4; 4; 4; 4; 4; 4].
Proof.
  intros k req rx target.
  destruct (arp_resolve_correct sample_arp_env k req rx [101; 116; 104; 48] target (replicate 6 2) 16777226 1000)
    as (errno & rc & mac & Heq & _ & _).
  - split_and!; [set_solver| |do 3 apply Exists_cons_tl; by apply Exists_cons_hd].
    repeat apply Forall_cons_2; try done.
    + split; [repeat constructor; done|simpl; lia].
    + split; [repeat constructor; done|simpl; lia].
  - done.
  - done.
  - done.
  - done.
  - exists errno, rc, mac. split; [exact Heq|]. vm_compute in Heq. by simplify_eq.
Defined.
