(* ===== verification/Config.v ===== *)
(** * Command line parsing

    [src/src/config/config.c].  [getopt_long] splits [argv] into options and
    their arguments; [config_parse_args] is a loop over what it returns, so this
    file takes that sequence: one constructor of [opt] per case of the [switch],
    with the argument text.  Arguments are C strings.  [Getopt] makes the sequence
    from [argv]. *)

From Stdlib Require Import Lia.
From stdpp Require Import base numbers list.
From S2P Require Import Prelude Net Hash Text.

Local Open Scope Z_scope.

Definition CONFIG_MAX_BACKENDS : nat := 64.
Definition CONFIG_IFACE_LEN : nat := 16.
Definition CONFIG_ADMIN_FIFO_LEN : nat := 256.
Definition CT_TIMEOUT_MAX_MS : Z := 3600000.

Record config_backend := { cb_addr : Z; cb_port : Z }.

Record config := {
  iface : list Z;
  vip : Z;
  director_ip : Z;
  ttl : Z;
  table_size : Z;
  max_flows : Z;
  backends : list config_backend;
  n_backends : nat;
  hc_interval_ms : Z;
  hc_timeout_ms : Z;
  hc_rise : Z;
  hc_fall : Z;
  ct_tcp_timeout_ms : Z;
  ct_udp_timeout_ms : Z;
  tui_enabled : bool;
  metrics_port : Z;
  admin_fifo : list Z;
}.

Definition set_iface (x : list Z) (c : config) : config :=
  {| iface := x; vip := vip c; director_ip := director_ip c; ttl := ttl c; table_size :=
     table_size c; max_flows := max_flows c; backends := backends c; n_backends := n_backends c;
     hc_interval_ms := hc_interval_ms c; hc_timeout_ms := hc_timeout_ms c; hc_rise := hc_rise c;
     hc_fall := hc_fall c; ct_tcp_timeout_ms := ct_tcp_timeout_ms c; ct_udp_timeout_ms :=
     ct_udp_timeout_ms c; tui_enabled := tui_enabled c; metrics_port := metrics_port c;
     admin_fifo := admin_fifo c |}.

Definition set_vip (x : Z) (c : config) : config :=
  {| iface := iface c; vip := x; director_ip := director_ip c; ttl := ttl c; table_size :=
     table_size c; max_flows := max_flows c; backends := backends c; n_backends := n_backends c;
     hc_interval_ms := hc_interval_ms c; hc_timeout_ms := hc_timeout_ms c; hc_rise := hc_rise c;
     hc_fall := hc_fall c; ct_tcp_timeout_ms := ct_tcp_timeout_ms c; ct_udp_timeout_ms :=
     ct_udp_timeout_ms c; tui_enabled := tui_enabled c; metrics_port := metrics_port c;
     admin_fifo := admin_fifo c |}.

Definition set_director_ip (x : Z) (c : config) : config :=
  {| iface := iface c; vip := vip c; director_ip := x; ttl := ttl c; table_size := table_size c;
     max_flows := max_flows c; backends := backends c; n_backends := n_backends c;
     hc_interval_ms := hc_interval_ms c; hc_timeout_ms := hc_timeout_ms c; hc_rise := hc_rise c;
     hc_fall := hc_fall c; ct_tcp_timeout_ms := ct_tcp_timeout_ms c; ct_udp_timeout_ms :=
     ct_udp_timeout_ms c; tui_enabled := tui_enabled c; metrics_port := metrics_port c;
     admin_fifo := admin_fifo c |}.

Definition set_ttl (x : Z) (c : config) : config :=
  {| iface := iface c; vip := vip c; director_ip := director_ip c; ttl := x; table_size :=
     table_size c; max_flows := max_flows c; backends := backends c; n_backends := n_backends c;
     hc_interval_ms := hc_interval_ms c; hc_timeout_ms := hc_timeout_ms c; hc_rise := hc_rise c;
     hc_fall := hc_fall c; ct_tcp_timeout_ms := ct_tcp_timeout_ms c; ct_udp_timeout_ms :=
     ct_udp_timeout_ms c; tui_enabled := tui_enabled c; metrics_port := metrics_port c;
     admin_fifo := admin_fifo c |}.

Definition set_table_size (x : Z) (c : config) : config :=
  {| iface := iface c; vip := vip c; director_ip := director_ip c; ttl := ttl c; table_size :=
     x; max_flows := max_flows c; backends := backends c; n_backends := n_backends c;
     hc_interval_ms := hc_interval_ms c; hc_timeout_ms := hc_timeout_ms c; hc_rise := hc_rise c;
     hc_fall := hc_fall c; ct_tcp_timeout_ms := ct_tcp_timeout_ms c; ct_udp_timeout_ms :=
     ct_udp_timeout_ms c; tui_enabled := tui_enabled c; metrics_port := metrics_port c;
     admin_fifo := admin_fifo c |}.

Definition set_max_flows (x : Z) (c : config) : config :=
  {| iface := iface c; vip := vip c; director_ip := director_ip c; ttl := ttl c; table_size :=
     table_size c; max_flows := x; backends := backends c; n_backends := n_backends c;
     hc_interval_ms := hc_interval_ms c; hc_timeout_ms := hc_timeout_ms c; hc_rise := hc_rise c;
     hc_fall := hc_fall c; ct_tcp_timeout_ms := ct_tcp_timeout_ms c; ct_udp_timeout_ms :=
     ct_udp_timeout_ms c; tui_enabled := tui_enabled c; metrics_port := metrics_port c;
     admin_fifo := admin_fifo c |}.

Definition set_backends (x : list config_backend) (c : config) : config :=
  {| iface := iface c; vip := vip c; director_ip := director_ip c; ttl := ttl c; table_size :=
     table_size c; max_flows := max_flows c; backends := x; n_backends := n_backends c;
     hc_interval_ms := hc_interval_ms c; hc_timeout_ms := hc_timeout_ms c; hc_rise := hc_rise c;
     hc_fall := hc_fall c; ct_tcp_timeout_ms := ct_tcp_timeout_ms c; ct_udp_timeout_ms :=
     ct_udp_timeout_ms c; tui_enabled := tui_enabled c; metrics_port := metrics_port c;
     admin_fifo := admin_fifo c |}.

Definition set_n_backends (x : nat) (c : config) : config :=
  {| iface := iface c; vip := vip c; director_ip := director_ip c; ttl := ttl c; table_size :=
     table_size c; max_flows := max_flows c; backends := backends c; n_backends := x;
     hc_interval_ms := hc_interval_ms c; hc_timeout_ms := hc_timeout_ms c; hc_rise := hc_rise c;
     hc_fall := hc_fall c; ct_tcp_timeout_ms := ct_tcp_timeout_ms c; ct_udp_timeout_ms :=
     ct_udp_timeout_ms c; tui_enabled := tui_enabled c; metrics_port := metrics_port c;
     admin_fifo := admin_fifo c |}.

Definition set_hc_interval_ms (x : Z) (c : config) : config :=
  {| iface := iface c; vip := vip c; director_ip := director_ip c; ttl := ttl c; table_size :=
     table_size c; max_flows := max_flows c; backends := backends c; n_backends := n_backends c;
     hc_interval_ms := x; hc_timeout_ms := hc_timeout_ms c; hc_rise := hc_rise c; hc_fall :=
     hc_fall c; ct_tcp_timeout_ms := ct_tcp_timeout_ms c; ct_udp_timeout_ms := ct_udp_timeout_ms
     c; tui_enabled := tui_enabled c; metrics_port := metrics_port c; admin_fifo := admin_fifo c
     |}.

Definition set_hc_timeout_ms (x : Z) (c : config) : config :=
  {| iface := iface c; vip := vip c; director_ip := director_ip c; ttl := ttl c; table_size :=
     table_size c; max_flows := max_flows c; backends := backends c; n_backends := n_backends c;
     hc_interval_ms := hc_interval_ms c; hc_timeout_ms := x; hc_rise := hc_rise c; hc_fall :=
     hc_fall c; ct_tcp_timeout_ms := ct_tcp_timeout_ms c; ct_udp_timeout_ms := ct_udp_timeout_ms
     c; tui_enabled := tui_enabled c; metrics_port := metrics_port c; admin_fifo := admin_fifo c
     |}.

Definition set_hc_rise (x : Z) (c : config) : config :=
  {| iface := iface c; vip := vip c; director_ip := director_ip c; ttl := ttl c; table_size :=
     table_size c; max_flows := max_flows c; backends := backends c; n_backends := n_backends c;
     hc_interval_ms := hc_interval_ms c; hc_timeout_ms := hc_timeout_ms c; hc_rise := x; hc_fall
     := hc_fall c; ct_tcp_timeout_ms := ct_tcp_timeout_ms c; ct_udp_timeout_ms :=
     ct_udp_timeout_ms c; tui_enabled := tui_enabled c; metrics_port := metrics_port c;
     admin_fifo := admin_fifo c |}.

Definition set_hc_fall (x : Z) (c : config) : config :=
  {| iface := iface c; vip := vip c; director_ip := director_ip c; ttl := ttl c; table_size :=
     table_size c; max_flows := max_flows c; backends := backends c; n_backends := n_backends c;
     hc_interval_ms := hc_interval_ms c; hc_timeout_ms := hc_timeout_ms c; hc_rise := hc_rise c;
     hc_fall := x; ct_tcp_timeout_ms := ct_tcp_timeout_ms c; ct_udp_timeout_ms :=
     ct_udp_timeout_ms c; tui_enabled := tui_enabled c; metrics_port := metrics_port c;
     admin_fifo := admin_fifo c |}.

Definition set_ct_tcp_timeout_ms (x : Z) (c : config) : config :=
  {| iface := iface c; vip := vip c; director_ip := director_ip c; ttl := ttl c; table_size :=
     table_size c; max_flows := max_flows c; backends := backends c; n_backends := n_backends c;
     hc_interval_ms := hc_interval_ms c; hc_timeout_ms := hc_timeout_ms c; hc_rise := hc_rise c;
     hc_fall := hc_fall c; ct_tcp_timeout_ms := x; ct_udp_timeout_ms := ct_udp_timeout_ms c;
     tui_enabled := tui_enabled c; metrics_port := metrics_port c; admin_fifo := admin_fifo c |}.

Definition set_ct_udp_timeout_ms (x : Z) (c : config) : config :=
  {| iface := iface c; vip := vip c; director_ip := director_ip c; ttl := ttl c; table_size :=
     table_size c; max_flows := max_flows c; backends := backends c; n_backends := n_backends c;
     hc_interval_ms := hc_interval_ms c; hc_timeout_ms := hc_timeout_ms c; hc_rise := hc_rise c;
     hc_fall := hc_fall c; ct_tcp_timeout_ms := ct_tcp_timeout_ms c; ct_udp_timeout_ms := x;
     tui_enabled := tui_enabled c; metrics_port := metrics_port c; admin_fifo := admin_fifo c |}.

Definition set_tui_enabled (x : bool) (c : config) : config :=
  {| iface := iface c; vip := vip c; director_ip := director_ip c; ttl := ttl c; table_size :=
     table_size c; max_flows := max_flows c; backends := backends c; n_backends := n_backends c;
     hc_interval_ms := hc_interval_ms c; hc_timeout_ms := hc_timeout_ms c; hc_rise := hc_rise c;
     hc_fall := hc_fall c; ct_tcp_timeout_ms := ct_tcp_timeout_ms c; ct_udp_timeout_ms :=
     ct_udp_timeout_ms c; tui_enabled := x; metrics_port := metrics_port c; admin_fifo :=
     admin_fifo c |}.

Definition set_metrics_port (x : Z) (c : config) : config :=
  {| iface := iface c; vip := vip c; director_ip := director_ip c; ttl := ttl c; table_size :=
     table_size c; max_flows := max_flows c; backends := backends c; n_backends := n_backends c;
     hc_interval_ms := hc_interval_ms c; hc_timeout_ms := hc_timeout_ms c; hc_rise := hc_rise c;
     hc_fall := hc_fall c; ct_tcp_timeout_ms := ct_tcp_timeout_ms c; ct_udp_timeout_ms :=
     ct_udp_timeout_ms c; tui_enabled := tui_enabled c; metrics_port := x; admin_fifo :=
     admin_fifo c |}.

Definition set_admin_fifo (x : list Z) (c : config) : config :=
  {| iface := iface c; vip := vip c; director_ip := director_ip c; ttl := ttl c; table_size :=
     table_size c; max_flows := max_flows c; backends := backends c; n_backends := n_backends c;
     hc_interval_ms := hc_interval_ms c; hc_timeout_ms := hc_timeout_ms c; hc_rise := hc_rise c;
     hc_fall := hc_fall c; ct_tcp_timeout_ms := ct_tcp_timeout_ms c; ct_udp_timeout_ms :=
     ct_udp_timeout_ms c; tui_enabled := tui_enabled c; metrics_port := metrics_port c;
     admin_fifo := x |}.

(** ** Arguments *)

(** [None] is the return value -1. *)
Definition parse_ip (s : list Z) : option Z := inet_pton s.

(** [char ipbuf[64]] receives the text before the last colon. *)
Definition parse_backend_spec (spec : list Z) : option config_backend :=
  match strrchr 58 spec with
  | None => None
  | Some (before, after) =>
      let ip_len := length before in
      if decide (ip_len = 0%nat ∨ (64 ≤ ip_len)%nat) then None
      else
        match parse_ip before with
        | None => None
        | Some ip =>
            let '(port, rest) := strtol after in
            if decide (rest = after ∨ rest ≠ [] ∨ port ≤ 0 ∨ port > 65535) then None
            else Some {| cb_addr := ip; cb_port := u16 port |}
        end
  end.

(** [long v = strtol(optarg, NULL, 10)] refused unless [lo <= v <= hi]. *)
Definition ranged (optarg : list Z) (lo hi : Z) : option Z :=
  let v := (strtol optarg).1 in
  if decide (v < lo ∨ v > hi) then None else Some v.

(** The timeouts also refuse trailing text. *)
Definition ct_timeout (optarg : list Z) : option Z :=
  let '(v, rest) := strtol optarg in
  if decide (rest = optarg ∨ rest ≠ [] ∨ v ≤ 0 ∨ v > CT_TIMEOUT_MAX_MS) then None else Some v.

(** ** Options *)

Inductive opt :=
  | Opt_iface (optarg : list Z)
  | Opt_vip (optarg : list Z)
  | Opt_director_ip (optarg : list Z)
  | Opt_backend (optarg : list Z)
  | Opt_ttl (optarg : list Z)
  | Opt_table_size (optarg : list Z)
  | Opt_max_flows (optarg : list Z)
  | Opt_hc_interval_ms (optarg : list Z)
  | Opt_hc_timeout_ms (optarg : list Z)
  | Opt_hc_rise (optarg : list Z)
  | Opt_hc_fall (optarg : list Z)
  | Opt_tui
  | Opt_metrics_port (optarg : list Z)
  | Opt_admin_fifo (optarg : list Z)
  | Opt_ct_tcp_timeout_ms (optarg : list Z)
  | Opt_ct_udp_timeout_ms (optarg : list Z)
  | Opt_help
  | Opt_unknown.

(** The locals of the loop: the structure being filled and the three flags. *)
Record parse_state := {
  ps_out : config;
  have_iface : bool;
  have_vip : bool;
  have_director : bool;
}.

Definition set_out (c : config) (p : parse_state) : parse_state :=
  {| ps_out := c; have_iface := have_iface p; have_vip := have_vip p;
     have_director := have_director p |}.

(** One pass through the [switch]: [inl rc] returns, [inr p] goes on. *)
Definition assign {A} (v : option A) (f : A → parse_state) : out (Z + parse_state) :=
  match v with None => Val (inl (-1)) | Some x => Val (inr (f x)) end.

Definition parse_opt (p : parse_state) (o : opt) : out (Z + parse_state) :=
  let c := ps_out p in
  match o with
  | Opt_iface optarg =>
      a ← strncpy (iface c) optarg (CONFIG_IFACE_LEN - 1);
      Val (inr {| ps_out := set_iface a c; have_iface := true; have_vip := have_vip p;
                  have_director := have_director p |})
  | Opt_vip optarg =>
      assign (parse_ip optarg) (λ ip,
        {| ps_out := set_vip ip c; have_iface := have_iface p; have_vip := true;
           have_director := have_director p |})
  | Opt_director_ip optarg =>
      assign (parse_ip optarg) (λ ip,
        {| ps_out := set_director_ip ip c; have_iface := have_iface p; have_vip := have_vip p;
           have_director := true |})
  | Opt_backend optarg =>
      if decide (CONFIG_MAX_BACKENDS ≤ n_backends c)%nat then Val (inl (-1))
      else
        match parse_backend_spec optarg with
        | None => Val (inl (-1))
        | Some b =>
            bs ← wr (backends c) (n_backends c) b;
            Val (inr (set_out (set_n_backends (S (n_backends c)) (set_backends bs c)) p))
        end
  | Opt_ttl optarg => assign (ranged optarg 1 255) (λ v, set_out (set_ttl (u8 v) c) p)
  | Opt_table_size optarg =>
      assign (ranged optarg 3 UINT32_MAX) (λ v, set_out (set_table_size (u32 v) c) p)
  | Opt_max_flows optarg =>
      assign (ranged optarg 1 LONG_MAX) (λ v, set_out (set_max_flows (u64 v) c) p)
  | Opt_hc_interval_ms optarg =>
      assign (ranged optarg 1 LONG_MAX) (λ v, set_out (set_hc_interval_ms (u32 v) c) p)
  | Opt_hc_timeout_ms optarg =>
      assign (ranged optarg 1 LONG_MAX) (λ v, set_out (set_hc_timeout_ms (u32 v) c) p)
  | Opt_hc_rise optarg =>
      assign (ranged optarg 1 LONG_MAX) (λ v, set_out (set_hc_rise (u32 v) c) p)
  | Opt_hc_fall optarg =>
      assign (ranged optarg 1 LONG_MAX) (λ v, set_out (set_hc_fall (u32 v) c) p)
  | Opt_tui => Val (inr (set_out (set_tui_enabled true c) p))
  | Opt_metrics_port optarg =>
      assign (ranged optarg 0 65535) (λ v, set_out (set_metrics_port (u16 v) c) p)
  | Opt_admin_fifo optarg =>
      a ← strncpy (admin_fifo c) optarg (CONFIG_ADMIN_FIFO_LEN - 1);
      Val (inr (set_out (set_admin_fifo a c) p))
  | Opt_ct_tcp_timeout_ms optarg =>
      assign (ct_timeout optarg) (λ v, set_out (set_ct_tcp_timeout_ms (u32 v) c) p)
  | Opt_ct_udp_timeout_ms optarg =>
      assign (ct_timeout optarg) (λ v, set_out (set_ct_udp_timeout_ms (u32 v) c) p)
  | Opt_help => Val (inl 1)
  | Opt_unknown => Val (inl (-1))
  end.

(** [while ((c = getopt_long(...)) != -1)]; a return out of the loop keeps what
    has been filled so far. *)
Fixpoint parse_opts (p : parse_state) (opts : list opt) : out (option Z * parse_state) :=
  match opts with
  | [] => Val (None, p)
  | o :: opts =>
      r ← parse_opt p o;
      match r with
      | inl rc => Val (Some rc, p)
      | inr p => parse_opts p opts
      end
  end.

Definition config_defaults : config :=
  {| iface := replicate CONFIG_IFACE_LEN 0; vip := 0; director_ip := 0; ttl := 64;
     table_size := 65537; max_flows := 1000000;
     backends := replicate CONFIG_MAX_BACKENDS {| cb_addr := 0; cb_port := 0 |};
     n_backends := 0; hc_interval_ms := 1000; hc_timeout_ms := 500; hc_rise := 2; hc_fall := 3;
     ct_tcp_timeout_ms := 120000; ct_udp_timeout_ms := 45000; tui_enabled := false;
     metrics_port := 9105; admin_fifo := replicate CONFIG_ADMIN_FIFO_LEN 0 |}.

Definition parse_start : parse_state :=
  {| ps_out := config_defaults; have_iface := false; have_vip := false; have_director := false |}.

Definition config_parse_args (opts : list opt) : out (Z * config) :=
  '(r, p) ← parse_opts parse_start opts;
  match r with
  | Some rc => Val (rc, ps_out p)
  | None =>
      if negb (have_iface p) || negb (have_vip p) || negb (have_director p) ||
         bool_decide (n_backends (ps_out p) = 0%nat)
      then Val (-1, ps_out p)
      else Val (0, ps_out p)
  end.

(** ** What an accepted configuration satisfies *)

Definition backend_valid (b : config_backend) : Prop :=
  0 ≤ cb_addr b < 2 ^ 32 ∧ 1 ≤ cb_port b ≤ 65535.

(** An array of [n] bytes that ends in a NUL. *)
Definition terminated (n : nat) (a : list Z) : Prop := length a = n ∧ a !! (n - 1)%nat = Some 0.

Record config_valid (c : config) : Prop := {
  cv_iface : terminated CONFIG_IFACE_LEN (iface c);
  cv_admin_fifo : terminated CONFIG_ADMIN_FIFO_LEN (admin_fifo c);
  cv_ips : 0 ≤ vip c < 2 ^ 32 ∧ 0 ≤ director_ip c < 2 ^ 32;
  cv_ttl : 1 ≤ ttl c ≤ 255;
  cv_table_size : 2 < table_size c < 2 ^ 32;
  cv_max_flows : 1 ≤ max_flows c ≤ LONG_MAX;
  cv_slots : length (backends c) = CONFIG_MAX_BACKENDS;
  cv_n : (n_backends c ≤ CONFIG_MAX_BACKENDS)%nat;
  cv_backends : Forall backend_valid (take (n_backends c) (backends c));
  cv_hc : 0 ≤ hc_interval_ms c < 2 ^ 32 ∧ 0 ≤ hc_timeout_ms c < 2 ^ 32 ∧
          0 ≤ hc_rise c < 2 ^ 32 ∧ 0 ≤ hc_fall c < 2 ^ 32;
  cv_ct : 1 ≤ ct_tcp_timeout_ms c ≤ CT_TIMEOUT_MAX_MS ∧ 1 ≤ ct_udp_timeout_ms c ≤ CT_TIMEOUT_MAX_MS;
  cv_metrics_port : 0 ≤ metrics_port c ≤ 65535;
}.

Lemma inet_pton_range s a : inet_pton s = Some a → 0 ≤ a < 2 ^ 32.
Proof. intros [-> Ha]%inet_pton_Some. done. Qed.

Lemma u32_range z : 0 ≤ u32 z < 2 ^ 32.
Proof. apply Z.mod_pos_bound. lia. Qed.

Lemma ranged_Some s lo hi v : ranged s lo hi = Some v → lo ≤ v ≤ hi.
Proof. unfold ranged. case_decide; intros [= <-]. lia. Qed.

Lemma ct_timeout_Some s v : ct_timeout s = Some v → 1 ≤ v ≤ CT_TIMEOUT_MAX_MS.
Proof. unfold ct_timeout. destruct (strtol s). case_decide; intros [= <-]. lia. Qed.

Lemma parse_backend_spec_valid s b : parse_backend_spec s = Some b → backend_valid b.
Proof.
  unfold parse_backend_spec. destruct (strrchr 58 s) as [[before after]|]; [|done].
  case_decide; [done|]. unfold parse_ip. destruct (inet_pton before) as [ip|] eqn:Hip; [|done].
  destruct (strtol after) as [port rest]. case_decide; [done|]. intros [= <-].
  split; simpl; [by eapply inet_pton_range|]. unfold u16. rewrite Z.mod_small; lia.
Qed.

Lemma strncpy_terminated n a s :
  (0 < n)%nat → terminated n a → ∃ a', strncpy a s (n - 1) = Val a' ∧ terminated n a'.
Proof.
  intros Hn [Hl Hz]. rewrite strncpy_spec by lia. eexists. split; [done|].
  assert (length (take (n - 1) (s ++ replicate (n - 1) 0)) = (n - 1)%nat) as Ht
    by (rewrite length_take, length_app, length_replicate; lia).
  split; [rewrite length_app, length_drop; lia|].
  rewrite lookup_app_r, Ht, lookup_drop by lia. replace (n - 1 + (n - 1 - (n - 1)))%nat with (n - 1)%nat by lia. done.
Qed.

Lemma take_insert_snoc (bs : list config_backend) n b :
  (n < length bs)%nat → take (S n) (<[n:=b]> bs) = take n bs ++ [b].
Proof.
  intros Hn. rewrite (take_S_r _ _ b) by (by apply list_lookup_insert_eq).
  by rewrite take_insert_ge.
Qed.

(** Every option keeps the structure valid, and none accesses memory outside
    it. *)
Lemma parse_opt_valid p o :
  config_valid (ps_out p) →
  ∃ r, parse_opt p o = Val r ∧
    match r with inl rc => rc = -1 ∨ rc = 1 | inr p' => config_valid (ps_out p') end.
Proof.
  intros Hv. pose proof Hv as [Hif Had [Hvip Hdir] Httl Hts Hmf Hsl Hn Hbs Hhc Hct Hmp].
  pose proof u32_range as Hu.
  assert (∀ A (v : option A) f, (∀ x, v = Some x → config_valid (ps_out (f x))) →
    ∃ r, assign v f = Val r ∧
      match r with inl rc => rc = -1 ∨ rc = 1 | inr p' => config_valid (ps_out p') end) as Hassign.
  { intros A [x|] f Hf; eexists; (split; [done|]); [by apply Hf|by left]. }
  destruct o; cbn [parse_opt];
    try (apply Hassign; intros x Hx; first [apply ranged_Some in Hx | apply ct_timeout_Some in Hx
           | apply inet_pton_range in Hx];
         split; simpl; try done; unfold CT_TIMEOUT_MAX_MS, u8, u16, u64, UINT32_MAX, LONG_MAX in *;
         rewrite ?Z.mod_small by lia; try lia; pose proof (Hu x); unfold u32 in *;
         rewrite ?Z.mod_small by lia; tauto || lia).
  - edestruct (strncpy_terminated CONFIG_IFACE_LEN) as (a & -> & Ha); [by vm_compute; lia|done|].
    eexists. split; [done|]. by split.
  - case_decide; [eexists; split; [done|by left]|].
    destruct (parse_backend_spec optarg) as [b|] eqn:Hb; [|eexists; split; [done|by left]].
    rewrite wr_lt by lia. eexists. split; [done|]. split; simpl; try done.
    + by rewrite length_insert.
    + lia.
    + rewrite take_insert_snoc by lia. apply Forall_app. split; [done|].
      apply Forall_singleton. by eapply parse_backend_spec_valid.
  - eexists. split; [done|]. by split.
  - edestruct (strncpy_terminated CONFIG_ADMIN_FIFO_LEN) as (a & -> & Ha); [by vm_compute; lia|done|].
    eexists. split; [done|]. by split.
  - eexists. split; [done|]. by right.
  - eexists. split; [done|]. by left.
Qed.

(** The flags record which required options were seen. *)
Definition seen (opts : list opt) (p : parse_state) : Prop :=
  (have_iface p = true → ∃ a, Opt_iface a ∈ opts) ∧
  (have_vip p = true → ∃ a, Opt_vip a ∈ opts) ∧
  (have_director p = true → ∃ a, Opt_director_ip a ∈ opts).

Lemma parse_opt_seen p o before p' :
  seen before p → parse_opt p o = Val (inr p') → seen (before ++ [o]) p'.
Proof.
  intros (Hi & Hv & Hd) Hp. unfold seen. setoid_rewrite elem_of_app.
  destruct o; cbn [parse_opt] in Hp; unfold assign in Hp; repeat case_match; try discriminate;
    try (apply bind_Val_inv in Hp as (a & _ & Hp)); simplify_eq; simpl;
    split_and!; intros Hf; try (destruct (Hi Hf)); try (destruct (Hv Hf)); try (destruct (Hd Hf));
    eauto; eexists; right; by apply list_elem_of_singleton.
Qed.

Lemma parse_opts_valid opts before p :
  config_valid (ps_out p) → seen before p →
  ∃ r p', parse_opts p opts = Val (r, p') ∧ config_valid (ps_out p') ∧
    match r with Some rc => rc = -1 ∨ rc = 1 | None => seen (before ++ opts) p' end.
Proof.
  revert p before. induction opts as [|o opts IH]; intros p before Hv Hs; simpl.
  { exists None, p. by rewrite app_nil_r. }
  destruct (parse_opt_valid p o Hv) as (r & E & Hr). rewrite E, bind_Val. destruct r as [rc|p1].
  - exists (Some rc), p. by split_and!.
  - destruct (IH p1 (before ++ [o]) Hr) as (r & p' & E' & Hv' & Hr'); [by eapply parse_opt_seen|].
    exists r, p'. split_and!; [done..|]. by rewrite <- (assoc_L (++)) in Hr'.
Qed.

Lemma config_defaults_valid : config_valid config_defaults.
Proof. split; simpl; try (unfold LONG_MAX, CT_TIMEOUT_MAX_MS; lia); try done. Qed.

(** ** Rendering a configuration as options *)

Definition pad (n : nat) (s : list Z) : list Z := s ++ replicate (n - length s) 0.

(** The options that spell out [c], [ifname] and [fifo] being its two
    strings. *)
Definition render (ifname fifo : list Z) (bs : list config_backend) (c : config) : list opt :=
  [Opt_iface ifname; Opt_vip (dotted_quad (vip c)); Opt_director_ip (dotted_quad (director_ip c))] ++
  ((λ b, Opt_backend (ip_port_text (cb_addr b) (cb_port b))) <$> bs) ++
  [Opt_ttl (fmt_u (ttl c)); Opt_table_size (fmt_u (table_size c)); Opt_max_flows (fmt_u (max_flows c));
   Opt_hc_interval_ms (fmt_u (hc_interval_ms c)); Opt_hc_timeout_ms (fmt_u (hc_timeout_ms c));
   Opt_hc_rise (fmt_u (hc_rise c)); Opt_hc_fall (fmt_u (hc_fall c));
   Opt_metrics_port (fmt_u (metrics_port c)); Opt_admin_fifo fifo;
   Opt_ct_tcp_timeout_ms (fmt_u (ct_tcp_timeout_ms c));
   Opt_ct_udp_timeout_ms (fmt_u (ct_udp_timeout_ms c))] ++
  (if tui_enabled c then [Opt_tui] else []).

(** [c] holds these strings and backends, zero-padded. *)
Record holds (ifname fifo : list Z) (bs : list config_backend) (c : config) : Prop := {
  ho_iface : iface c = pad CONFIG_IFACE_LEN ifname ∧ (length ifname < CONFIG_IFACE_LEN)%nat;
  ho_fifo : admin_fifo c = pad CONFIG_ADMIN_FIFO_LEN fifo ∧ (length fifo < CONFIG_ADMIN_FIFO_LEN)%nat;
  ho_n : n_backends c = length bs ∧ (0 < length bs ≤ CONFIG_MAX_BACKENDS)%nat;
  ho_backends : backends c =
    bs ++ replicate (CONFIG_MAX_BACKENDS - length bs) {| cb_addr := 0; cb_port := 0 |};
}.

Lemma parse_opts_app p o1 o2 :
  parse_opts p (o1 ++ o2) =
  '(r, p) ← parse_opts p o1; match r with Some rc => Val (Some rc, p) | None => parse_opts p o2 end.
Proof.
  revert p. induction o1 as [|o o1 IH]; intros p; simpl; [done|].
  destruct (parse_opt p o) as [[rc|p']| |]; [done| |done|done]. rewrite !bind_Val. apply IH.
Qed.

Lemma parse_opts_step p o p' opts :
  parse_opt p o = Val (inr p') → parse_opts p (o :: opts) = parse_opts p' opts.
Proof. intros E. simpl. by rewrite E. Qed.

Lemma ranged_fmt v lo hi : 0 ≤ lo → lo ≤ v ≤ hi → hi ≤ LONG_MAX → ranged (fmt_u v) lo hi = Some v.
Proof.
  intros Hlo Hv Hhi. unfold ranged. rewrite <- (app_nil_r (fmt_u v)), strtol_fmt by (done || lia).
  simpl. by rewrite decide_False by lia.
Qed.

Lemma ct_timeout_fmt v : 1 ≤ v ≤ CT_TIMEOUT_MAX_MS → ct_timeout (fmt_u v) = Some v.
Proof.
  intros Hv. unfold ct_timeout. rewrite <- (app_nil_r (fmt_u v)) at 1.
  rewrite strtol_fmt by (done || unfold CT_TIMEOUT_MAX_MS, LONG_MAX in *; lia).
  destruct (fmt_u_cons v) as (d & ds & E & _). rewrite E. rewrite decide_False; [done|].
  intros [?|[?|?]]; [done|done|lia].
Qed.

Lemma strncpy_pad n s :
  (length s < n)%nat → strncpy (replicate n 0) s (n - 1) = Val (pad n s).
Proof.
  intros Hs. rewrite strncpy_spec by (rewrite length_replicate; lia). unfold pad. f_equal.
  rewrite take_app_ge, take_replicate, drop_replicate, <- (assoc_L (++)), <- replicate_add by lia.
  do 2 f_equal. lia.
Qed.

Lemma parse_admin_fifo p fifo :
  admin_fifo (ps_out p) = replicate CONFIG_ADMIN_FIFO_LEN 0 → (length fifo < CONFIG_ADMIN_FIFO_LEN)%nat →
  parse_opt p (Opt_admin_fifo fifo) =
  Val (inr (set_out (set_admin_fifo (pad CONFIG_ADMIN_FIFO_LEN fifo) (ps_out p)) p)).
Proof. intros Hz Hl. cbn [parse_opt]. by rewrite Hz, strncpy_pad. Qed.

Lemma dotted_quad_bounds addr : (1 ≤ length (dotted_quad addr) < 64)%nat.
Proof.
  pose proof (dotted_quad_length addr). split; [|lia].
  unfold dotted_quad. pose proof (length_le_split 4 addr) as Hl.
  destruct (le_split 4 addr) as [|a [|b [|c [|d [|]]]]]; try discriminate.
  destruct (fmt_u_cons a) as (x & xs & -> & _). simpl. lia.
Qed.

Lemma parse_backend_spec_text addr port :
  0 ≤ addr < 2 ^ 32 → 1 ≤ port ≤ 65535 →
  parse_backend_spec (ip_port_text addr port) = Some {| cb_addr := addr; cb_port := port |}.
Proof.
  intros Ha Hp. unfold parse_backend_spec, ip_port_text. simpl app. rewrite strrchr_app.
  2:{ intros Hin. pose proof (fmt_u_digits port) as Hd. rewrite Forall_forall in Hd. apply Hd in Hin. lia. }
  pose proof (dotted_quad_bounds addr). rewrite decide_False by lia.
  unfold parse_ip. rewrite inet_pton_dotted_quad by done.
  rewrite <- (app_nil_r (fmt_u port)) at 1. rewrite strtol_fmt by (done || unfold LONG_MAX; lia).
  destruct (fmt_u_cons port) as (d & ds & E & _). rewrite E, decide_False by (intros [?|[?|?]]; [done|done|lia]).
  unfold u16. by rewrite Z.mod_small by lia.
Qed.

Definition no_backend : config_backend := {| cb_addr := 0; cb_port := 0 |}.

(** The repeated [--backend] options fill the array in order. *)
Lemma parse_backends p bs before :
  Forall backend_valid bs → (length before + length bs ≤ CONFIG_MAX_BACKENDS)%nat →
  n_backends (ps_out p) = length before →
  backends (ps_out p) = before ++ replicate (CONFIG_MAX_BACKENDS - length before) no_backend →
  parse_opts p ((λ b, Opt_backend (ip_port_text (cb_addr b) (cb_port b))) <$> bs) =
  Val (None, set_out (set_n_backends (length (before ++ bs))
    (set_backends ((before ++ bs) ++ replicate (CONFIG_MAX_BACKENDS - length (before ++ bs)) no_backend)
      (ps_out p))) p).
Proof.
  intros Hbs. revert p before. induction Hbs as [|b bs [Ha Hp] _ IH]; intros p before Hl Hn Hb.
  - simpl. rewrite app_nil_r, <- Hb, <- Hn. by destruct p as [[] ???].
  - cbn [fmap list_fmap]. simpl in Hl. erewrite parse_opts_step.
    2:{ cbn [parse_opt]. rewrite decide_False by lia. rewrite parse_backend_spec_text by done.
        rewrite wr_lt by (rewrite Hb, length_app, length_replicate; lia). done. }
    rewrite (IH _ (before ++ [b])).
    + rewrite <- !(assoc_L (++)). done.
    + rewrite length_app. simpl. lia.
    + simpl. rewrite length_app. simpl. lia.
    + simpl. rewrite Hb, Hn, insert_app_r_alt, Nat.sub_diag by lia.
      replace (CONFIG_MAX_BACKENDS - length before)%nat
        with (S (CONFIG_MAX_BACKENDS - length (before ++ [b]))) by (rewrite length_app; simpl; lia).
      simpl. rewrite <- (assoc_L (++)). by destruct b.
Qed.

(** A number that [strtol] consumes entirely contains no colon. *)
Lemma strtol_no_colon t v : strtol t = (v, []) → t ≠ [] → 58 ∉ t.
Proof.
  assert (∀ s ds r, span_digits s = (ds, r) → s = ds ++ r ∧ digits ds) as Hspan.
  { induction s as [|c s IH]; intros ds r; simpl; [by intros [= <- <-]|].
    destruct (isdigit c) eqn:Hd; [|by intros [= <- <-]].
    destruct (span_digits s) as [ds' r'] eqn:E. intros [= <- <-].
    destruct (IH _ _ eq_refl) as [-> ?]. apply bool_decide_eq_true in Hd. by split; [|constructor]. }
  assert (∀ s, 58 ∉ skip_spaces s → 58 ∉ s) as Hskip.
  { induction s as [|c s IH]; simpl; [done|]. destruct (isspace c) eqn:Hc; [|done].
    intros Hn. apply not_elem_of_cons. split; [|by apply IH]. by intros <-. }
  unfold strtol, scan_int. intros E Hne. apply Hskip. destruct (skip_spaces t) as [|c s].
  { simpl in E. by simplify_eq. }
  assert (∀ s ds, span_digits s = (ds, []) → 58 ∉ s) as Hno.
  { intros s' ds [-> Hd]%Hspan. rewrite app_nil_r. rewrite Forall_forall in Hd. intros Hin%Hd. lia. }
  repeat case_decide; subst; destruct (span_digits _) as [[|d ds] r] eqn:Es; simplify_eq;
    try (apply not_elem_of_cons; split; [done|]); by eapply Hno.
Qed.

(** Fold the updates of a parse state into one record. *)
Ltac flatten_state :=
  cbn [iface vip director_ip ttl table_size max_flows backends n_backends hc_interval_ms
       hc_timeout_ms hc_rise hc_fall ct_tcp_timeout_ms ct_udp_timeout_ms tui_enabled
       metrics_port admin_fifo set_iface set_vip set_director_ip set_ttl set_table_size
       set_max_flows set_backends set_n_backends set_hc_interval_ms set_hc_timeout_ms
       set_hc_rise set_hc_fall set_ct_tcp_timeout_ms set_ct_udp_timeout_ms set_tui_enabled
       set_metrics_port set_admin_fifo ps_out set_out have_iface have_vip have_director].

(** ** Theorems *)

Lemma config_parse_args_spec opts :
  ∃ rc c, config_parse_args opts = Val (rc, c) ∧ (rc = 0 ∨ rc = 1 ∨ rc = -1) ∧
    (rc = 0 → config_valid c ∧ (0 < n_backends c)%nat ∧ (∃ a, Opt_iface a ∈ opts) ∧
      (∃ a, Opt_vip a ∈ opts) ∧ (∃ a, Opt_director_ip a ∈ opts)).
Proof.
  destruct (parse_opts_valid opts [] parse_start config_defaults_valid) as (r & p & E & Hv & Hr); [done|].
  unfold config_parse_args. rewrite E, bind_Val. destruct r as [rc|].
  - do 2 eexists. split; [done|]. split; [tauto|]. lia.
  - destruct Hr as (Hi & Hvip & Hd). case_match eqn:Hmiss; do 2 eexists; (split; [done|]).
    + split; [tauto|]. lia.
    + rewrite !orb_false_iff, !negb_false_iff, bool_decide_eq_false in Hmiss.
      split; [tauto|]. intros _. split; [done|]. split; [lia|]. tauto.
Qed.


(** Spelling a valid configuration out as options and parsing them gives
    back exactly that configuration: every field, every backend in order. *)
Theorem config_roundtrip ifname fifo bs c
    (Hc : config_valid c) (Hh : holds ifname fifo bs c)
    (Hhc : 1 ≤ hc_interval_ms c ∧ 1 ≤ hc_timeout_ms c ∧ 1 ≤ hc_rise c ∧ 1 ≤ hc_fall c) :
  config_parse_args (render ifname fifo bs c) = Val (0, c).
Proof.
  destruct Hc as [_ _ [Hvip Hdir] Httl Hts Hmf Hsl Hn Hbs Hhc' Hct Hmp].
  destruct Hh as [[Hi Hil] [Hf Hfl] [Hnb Hlb] Hb].
  rewrite Hb, Hnb, take_app_length in Hbs. unfold config_parse_args, render.
  rewrite parse_opts_app.
  erewrite parse_opts_step by (cbn [parse_opt ps_out parse_start config_defaults iface]; by rewrite strncpy_pad).
  erewrite parse_opts_step by (cbn [parse_opt]; unfold parse_ip; by rewrite inet_pton_dotted_quad).
  erewrite parse_opts_step by (cbn [parse_opt]; unfold parse_ip; by rewrite inet_pton_dotted_quad).
  cbn [parse_opts]. rewrite bind_Val, parse_opts_app.
  rewrite (parse_backends _ bs []), bind_Val by (simpl; lia || done). simpl app.
  unfold CT_TIMEOUT_MAX_MS, LONG_MAX in *.
  flatten_state.
  do 8 (erewrite parse_opts_step by
    (cbn [parse_opt]; rewrite ranged_fmt by (unfold UINT32_MAX, LONG_MAX; lia); done); flatten_state).
  erewrite parse_opts_step by (by apply parse_admin_fifo). flatten_state.
  do 2 (erewrite parse_opts_step by
    (cbn [parse_opt]; rewrite ct_timeout_fmt by (unfold CT_TIMEOUT_MAX_MS; lia); done); flatten_state).
  unfold u8, u16, u32, u64. rewrite !Z.mod_small by lia.
  destruct c. simpl in *. subst. destruct tui_enabled0; simpl;
    rewrite bool_decide_false by lia; done.
Qed.

(** [--backend] accepts a text exactly when it is a canonical dotted quad
    (no leading zeros, four octets), a colon and a number from 1 to 65535 with
    nothing after it, and stores that address and port; in particular the
    identity string of every backend parses back to it. *)
Theorem parse_backend_spec_exact spec addr port :
  parse_backend_spec spec = Some {| cb_addr := addr; cb_port := port |} ↔
  0 ≤ addr < 2 ^ 32 ∧ 1 ≤ port ≤ 65535 ∧
  ∃ t, spec = dotted_quad addr ++ 58 :: t ∧ t ≠ [] ∧ strtol t = (port, []).
Proof.
  split.
  - intros Hp. pose proof (parse_backend_spec_valid _ _ Hp) as [Ha Hport]. do 2 (split; [done|]).
    unfold parse_backend_spec in Hp. destruct (strrchr 58 spec) as [[before after]|] eqn:Hs; [|done].
    apply strrchr_Some in Hs as ->. case_decide; [done|].
    unfold parse_ip in Hp. destruct (inet_pton before) as [ip|] eqn:Hip; [|done].
    apply inet_pton_Some in Hip as [-> _]. destruct (strtol after) as [v rest] eqn:Hv.
    case_decide as Hcond; [done|]. injection Hp as -> <-.
    assert (rest = []) as -> by (destruct rest; [done|exfalso; apply Hcond; by right; left]).
    exists after. split; [done|]. split; [naive_solver|]. unfold u16. rewrite Z.mod_small by lia. done.
  - intros (Ha & Hport & t & -> & Hne & Ht). unfold parse_backend_spec.
    rewrite strrchr_app by (by eapply strtol_no_colon). pose proof (dotted_quad_bounds addr).
    rewrite decide_False by lia. unfold parse_ip. rewrite inet_pton_dotted_quad by done.
    rewrite Ht, decide_False by (intros [<-|[?|?]]; [done|done|lia]).
    unfold u16. by rewrite Z.mod_small by lia.
Qed.


(** ** Witnesses *)

Definition sample_config : config :=
  {| iface := pad CONFIG_IFACE_LEN [101; 116; 104; 48]; vip := 1677983754; director_ip := 16842762;
     ttl := 64; table_size := 65537; max_flows := 1000000;
     backends := {| cb_addr := 184574730; cb_port := 9000 |} ::
       replicate (CONFIG_MAX_BACKENDS - 1) {| cb_addr := 0; cb_port := 0 |};
     n_backends := 1; hc_interval_ms := 1000; hc_timeout_ms := 500; hc_rise := 2; hc_fall := 3;
     ct_tcp_timeout_ms := 120000; ct_udp_timeout_ms := 45000; tui_enabled := true;
     metrics_port := 9105; admin_fifo := pad CONFIG_ADMIN_FIFO_LEN [47; 102] |}.

Lemma config_roundtrip_witness :
  config_parse_args (render [101; 116; 104; 48] [47; 102] [{| cb_addr := 184574730; cb_port := 9000 |}]
    sample_config) = Val (0, sample_config).
Proof.
  apply (config_roundtrip [101; 116; 104; 48] [47; 102] [{| cb_addr := 184574730; cb_port := 9000 |}]
    sample_config).
  - split; simpl; try (unfold LONG_MAX, CT_TIMEOUT_MAX_MS, CONFIG_MAX_BACKENDS; lia); try done.
    apply Forall_singleton. by split.
  - split; [split; [done|vm_compute; lia]..|done].
  - simpl. lia.
Defined.

