(* ===== verification/Getopt.v ===== *)
(** * The command line

    [getopt_long] of the C library, as [config_parse_args] calls it
    ([src/src/config/config.c]): it permutes (an element that is not an option is
    skipped), accepts unambiguous abbreviations of long options, and takes the
    argument of an option from the same element ([--ttl=9], [-t9]) or from the next
    one, whatever that looks like.  An unknown or ambiguous option, a missing
    argument and an argument for an option without one give ['?'].  The messages it
    prints are not modelled. *)

From Stdlib Require Import Lia String.
From stdpp Require Import base numbers list.
From S2P Require Import Prelude Net Hash Text Config.

Local Open Scope Z_scope.

(** ** getopt_long *)

(** [struct option], with a [flag] that is NULL. *)
Record long_option := { lo_name : list Z; lo_has_arg : bool; lo_val : Z }.

#[export] Instance long_option_eq_dec : EqDecision long_option.
Proof. solve_decision. Defined.

Definition QUESTION : Z := 63.

(** One answer: the value returned and [optarg]. *)
Abbreviation answer := (Z * option (list Z))%type.

(** The part before the first [=], and what follows it. *)
Fixpoint split_eq (s : list Z) : list Z * option (list Z) :=
  match s with
  | [] => ([], None)
  | c :: s => if decide (c = 61) then ([], Some s) else let '(name, value) := split_eq s in (c :: name, value)
  end.

Section Getopt.
Context (longs : list long_option) (shorts : list Z).

(** An exact match first, then the first option that [name] abbreviates, unless
    it abbreviates options that differ. *)
Definition find_long (name : list Z) : option long_option :=
  match filter (λ o, lo_name o = name) longs with
  | o :: _ => Some o
  | [] =>
      match filter (λ o, name `prefix_of` lo_name o) longs with
      | [] => None
      | o :: os =>
          if forallb (λ o', Bool.eqb (lo_has_arg o') (lo_has_arg o) && bool_decide (lo_val o' = lo_val o)) os
          then Some o else None
      end
  end.

(** An element of [argv] gives answers by itself, the last of which may want the
    next element as its argument. *)
Definition take_long (body : list Z) : list answer * option Z :=
  let '(name, value) := split_eq body in
  match find_long name, value with
  | None, _ => ([(QUESTION, None)], None)
  | Some o, Some v => if lo_has_arg o then ([(lo_val o, Some v)], None) else ([(QUESTION, None)], None)
  | Some o, None => if lo_has_arg o then ([], Some (lo_val o)) else ([(lo_val o, None)], None)
  end.

(** Is [c] a short option, and does it take an argument? *)
Fixpoint short_arg (optstring : list Z) (c : Z) : option bool :=
  match optstring with
  | [] => None
  | c' :: rest =>
      if decide (c = 58 ∨ c = 59) then None
      else if decide (c' = c) then Some (bool_decide (head rest = Some 58))
      else short_arg rest c
  end.

Fixpoint take_short (cs : list Z) : list answer * option Z :=
  match cs with
  | [] => ([], None)
  | c :: cs =>
      match short_arg shorts c with
      | Some true => match cs with [] => ([], Some c) | _ => ([(c, Some cs)], None) end
      | Some false => let '(r, w) := take_short cs in ((c, None) :: r, w)
      | None => let '(r, w) := take_short cs in ((QUESTION, None) :: r, w)
      end
  end.

Inductive element := Operand | Terminator | Option_element (r : list answer * option Z).

Definition classify (a : list Z) : element :=
  match a with
  | c0 :: c1 :: body =>
      if decide (c0 = 45) then
        if decide (c1 = 45) then match body with [] => Terminator | _ => Option_element (take_long body) end
        else Option_element (take_short (c1 :: body))
      else Operand
  | _ => Operand
  end.

(** What [getopt_long] returns, call after call, before -1; [argv] starts at
    [argv[1]]. *)
Fixpoint getopt_long (argv : list (list Z)) : list answer :=
  match argv with
  | [] => []
  | a :: rest =>
      match classify a with
      | Operand => getopt_long rest
      | Terminator => []
      | Option_element (r, None) => r ++ getopt_long rest
      | Option_element (r, Some v) =>
          match rest with
          | [] => r ++ [(QUESTION, None)]
          | arg :: rest => r ++ (v, Some arg) :: getopt_long rest
          end
      end
  end.

(** ** Spellings of an option *)

(** [name] stands for [o]. *)
Definition abbreviates (name : list Z) (o : long_option) : Prop :=
  o ∈ longs ∧ ¬ (61 ∈ name) ∧ name ≠ [] ∧
  (name = lo_name o ∨ name `prefix_of` lo_name o ∧ ∀ o', o' ∈ longs → name `prefix_of` lo_name o' → o' = o).

Inductive spelling : answer → list (list Z) → Prop :=
  | sp_separate name o arg :
      abbreviates name o → lo_has_arg o = true → spelling (lo_val o, Some arg) [45 :: 45 :: name; arg]
  | sp_equals name o arg :
      abbreviates name o → lo_has_arg o = true → spelling (lo_val o, Some arg) [45 :: 45 :: name ++ 61 :: arg]
  | sp_flag name o :
      abbreviates name o → lo_has_arg o = false → spelling (lo_val o, None) [45 :: 45 :: name]
  | sp_short c arg :
      short_arg shorts c = Some true → c ≠ 45 → spelling (c, Some arg) [[45; c]; arg]
  | sp_joined c arg :
      short_arg shorts c = Some true → c ≠ 45 → arg ≠ [] → spelling (c, Some arg) [45 :: c :: arg]
  | sp_short_flag c :
      short_arg shorts c = Some false → c ≠ 45 → spelling (c, None) [[45; c]].

(** A command line: spelled options with operands in between, up to [--]. *)
Inductive spells : list answer → list (list Z) → Prop :=
  | spells_nil : spells [] []
  | spells_end rest : spells [] ([45; 45] :: rest)
  | spells_operand a rs argv : classify a = Operand → spells rs argv → spells rs (a :: argv)
  | spells_option r s rs argv : spelling r s → spells rs argv → spells (r :: rs) (s ++ argv).

Hypothesis Hnames : NoDup (lo_name <$> longs).

Lemma split_eq_plain name : 61 ∉ name → split_eq name = (name, None).
Proof.
  induction name as [|c name IH]; [done|]. intros [Hc Hn]%not_elem_of_cons. cbn.
  rewrite decide_False by congruence. by rewrite IH.
Qed.

Lemma split_eq_value name arg : 61 ∉ name → split_eq (name ++ 61 :: arg) = (name, Some arg).
Proof.
  induction name as [|c name IH]; [done|]. intros [Hc Hn]%not_elem_of_cons. cbn.
  rewrite decide_False by congruence. by rewrite IH.
Qed.

Lemma find_long_abbreviates name o : abbreviates name o → find_long name = Some o.
Proof.
  intros (Ho & _ & _ & Hcase). unfold find_long.
  assert (∀ o', o' ∈ longs → lo_name o' = lo_name o → o' = o) as Huniq.
  { intros o' Ho' E. apply list_elem_of_lookup in Ho as [i Hi], Ho' as [j Hj].
    assert (i = j) as ->; [|congruence].
    eapply (NoDup_lookup _ i j (lo_name o) Hnames); rewrite list_lookup_fmap; [by rewrite Hi|by rewrite Hj, <- E]. }
  destruct (filter (λ o0, lo_name o0 = name) longs) as [|o1 os] eqn:E1.
  - destruct Hcase as [-> |[Hpre Hu]].
    { assert (o ∈ filter (λ o0, lo_name o0 = lo_name o) longs) as Hin by (by apply list_elem_of_filter).
      rewrite E1 in Hin. by apply not_elem_of_nil in Hin. }
    assert (Forall (λ o', o' = o) (filter (λ o0, name `prefix_of` lo_name o0) longs)) as Hall.
    { apply Forall_forall. intros o' [? ?]%list_elem_of_filter. by apply Hu. }
    assert (o ∈ filter (λ o0, name `prefix_of` lo_name o0) longs) as Hin by (by apply list_elem_of_filter).
    destruct (filter (λ o0, name `prefix_of` lo_name o0) longs) as [|o2 os2]; [by apply not_elem_of_nil in Hin|].
    apply Forall_cons in Hall as [-> Hall].
    assert (forallb (λ o', Bool.eqb (lo_has_arg o') (lo_has_arg o) && bool_decide (lo_val o' = lo_val o)) os2 = true) as ->;
      [|done].
    apply forallb_forall. intros o' Ho'%list_elem_of_In. rewrite Forall_forall in Hall. rewrite (Hall o' Ho').
    rewrite bool_decide_true by done. by rewrite Bool.eqb_reflx.
  - assert (o1 ∈ filter (λ o0, lo_name o0 = name) longs) as [Hn Hin]%list_elem_of_filter by (rewrite E1; left).
    f_equal. destruct Hcase as [-> |[_ Hu]]; [by apply Huniq|]. apply Hu; [done|]. by rewrite Hn.
Qed.

Lemma getopt_spelling r s argv : spelling r s → getopt_long (s ++ argv) = r :: getopt_long argv.
Proof.
  destruct 1 as [name o arg Ha Hh|name o arg Ha Hh|name o Ha Hh|c arg Hc Hd|c arg Hc Hd Hne|c Hc Hd];
    cbn [app getopt_long classify]; rewrite ?(decide_True (P := 45 = 45)), ?(decide_False (P := c = 45)) by done.
  - pose proof Ha as (_ & He & Hne & _). destruct name as [|n0 name]; [done|].
    unfold take_long. rewrite split_eq_plain by done. by rewrite (find_long_abbreviates _ o Ha), Hh.
  - pose proof Ha as (_ & He & Hne & _). destruct (name ++ 61 :: arg) eqn:E; [by destruct name|]. rewrite <- E.
    unfold take_long. rewrite split_eq_value by done. by rewrite (find_long_abbreviates _ o Ha), Hh.
  - pose proof Ha as (_ & He & Hne & _). destruct name as [|n0 name]; [done|].
    unfold take_long. rewrite split_eq_plain by done. by rewrite (find_long_abbreviates _ o Ha), Hh.
  - cbn [take_short]. by rewrite Hc.
  - cbn [take_short]. rewrite Hc. by destruct arg.
  - cbn [take_short]. by rewrite Hc.
Qed.

Lemma getopt_spells rs argv : spells rs argv → getopt_long argv = rs.
Proof.
  induction 1 as [|rest|a rs argv Ha _ IH|r s rs argv Hs _ IH]; [done|done| |].
  - cbn [getopt_long]. by rewrite Ha.
  - by rewrite (getopt_spelling r s argv Hs), IH.
Qed.
End Getopt.

(** ** The options of the load balancer *)

Definition OPT_HC_INTERVAL_MS : Z := 1001.
Definition OPT_HC_TIMEOUT_MS : Z := 1002.
Definition OPT_HC_RISE : Z := 1003.
Definition OPT_HC_FALL : Z := 1004.
Definition OPT_TUI : Z := 1005.
Definition OPT_METRICS_PORT : Z := 1006.
Definition OPT_ADMIN_FIFO : Z := 1007.
Definition OPT_CT_TCP_TIMEOUT_MS : Z := 1008.
Definition OPT_CT_UDP_TIMEOUT_MS : Z := 1009.

Definition required (name : string) (val : Z) : long_option :=
  {| lo_name := text name; lo_has_arg := true; lo_val := val |}.
Definition no_arg (name : string) (val : Z) : long_option :=
  {| lo_name := text name; lo_has_arg := false; lo_val := val |}.

Definition long_opts : list long_option :=
  [required "iface" 105; required "vip" 118; required "director-ip" 100; required "backend" 98;
   required "ttl" 116; required "table-size" 109; required "max-flows" 102;
   required "hc-interval-ms" OPT_HC_INTERVAL_MS; required "hc-timeout-ms" OPT_HC_TIMEOUT_MS;
   required "hc-rise" OPT_HC_RISE; required "hc-fall" OPT_HC_FALL; no_arg "tui" OPT_TUI;
   required "metrics-port" OPT_METRICS_PORT; required "admin-fifo" OPT_ADMIN_FIFO;
   required "ct-tcp-timeout-ms" OPT_CT_TCP_TIMEOUT_MS; required "ct-udp-timeout-ms" OPT_CT_UDP_TIMEOUT_MS;
   no_arg "help" 104].

Definition optstring : list Z := text "i:v:d:b:t:m:f:h".

(** The [case] of the [switch] an answer selects. *)
Definition opt_of (r : answer) : opt :=
  match r.2 with
  | Some optarg =>
      if decide (r.1 = 105) then Opt_iface optarg
      else if decide (r.1 = 118) then Opt_vip optarg
      else if decide (r.1 = 100) then Opt_director_ip optarg
      else if decide (r.1 = 98) then Opt_backend optarg
      else if decide (r.1 = 116) then Opt_ttl optarg
      else if decide (r.1 = 109) then Opt_table_size optarg
      else if decide (r.1 = 102) then Opt_max_flows optarg
      else if decide (r.1 = OPT_HC_INTERVAL_MS) then Opt_hc_interval_ms optarg
      else if decide (r.1 = OPT_HC_TIMEOUT_MS) then Opt_hc_timeout_ms optarg
      else if decide (r.1 = OPT_HC_RISE) then Opt_hc_rise optarg
      else if decide (r.1 = OPT_HC_FALL) then Opt_hc_fall optarg
      else if decide (r.1 = OPT_METRICS_PORT) then Opt_metrics_port optarg
      else if decide (r.1 = OPT_ADMIN_FIFO) then Opt_admin_fifo optarg
      else if decide (r.1 = OPT_CT_TCP_TIMEOUT_MS) then Opt_ct_tcp_timeout_ms optarg
      else if decide (r.1 = OPT_CT_UDP_TIMEOUT_MS) then Opt_ct_udp_timeout_ms optarg
      else Opt_unknown
  | None =>
      if decide (r.1 = OPT_TUI) then Opt_tui
      else if decide (r.1 = 104) then Opt_help
      else Opt_unknown
  end.

Definition options (argv : list (list Z)) : list opt := opt_of <$> getopt_long long_opts optstring argv.

(** [config_parse_args] from [argv[1]] on. *)
Definition config_parse_argv (argv : list (list Z)) : out (Z * config) := config_parse_args (options argv).

(** ** The usage message *)

Definition config_print_usage (prog : list Z) : list Z :=
  text "Usage: " ++ prog ++ text " --iface IFACE --vip VIP_IP --director-ip DIRECTOR_IP" ++ [10] ++
  concat ((λ l, text l ++ [10]) <$> ([
     "          --backend IP:PORT [--backend IP:PORT ...]";
     "          [--ttl TTL] [--table-size M] [--max-flows N]";
     "          [--hc-interval-ms MS] [--hc-timeout-ms MS]";
     "          [--hc-rise N] [--hc-fall N] [--tui] [--metrics-port PORT]";
     "          [--admin-fifo PATH] [--ct-tcp-timeout-ms MS] [--ct-udp-timeout-ms MS]";
     EmptyString;
     "  --iface        Interface the LB listens/sends on (single shared L2";
     "                 segment in v1's netns topology: client- and backend-facing)";
     "  --vip          Virtual IP clients connect to";
     "  --director-ip  This host's own IP, used as the GRE outer source";
     "  --backend      Backend real IP:port; repeat for multiple backends";
     "                 (port is the health-check TCP-connect target, not used";
     "                 for datapath forwarding, which is pure DSR passthrough)";
     "  --ttl          Outer IP TTL for GRE-encapsulated packets (default 64)";
     "  --table-size   Maglev lookup table size M, must be prime (default 65537)";
     "  --max-flows    Conntrack table capacity (default 1000000)";
     "  --hc-interval-ms  Health-check probe interval (default 1000)";
     "  --hc-timeout-ms   Health-check per-round timeout (default 500)";
     "  --hc-rise         Consecutive successes to mark a backend healthy (default 2)";
     "  --hc-fall         Consecutive failures to mark a backend unhealthy (default 3)";
     "  --tui          Run the ncurses dashboard instead of plain log output";
     "  --metrics-port Port for the Prometheus /metrics HTTP endpoint (default 9105;";
     "                 0 disables it)";
     "  --admin-fifo   Path to a named pipe for admin commands (DRAIN <id> /";
     "                 UNDRAIN <id>); must already exist (mkfifo) - unset";
     "                 disables admin control entirely";
     "  --ct-tcp-timeout-ms  Idle time before a TCP flow's conntrack entry is";
     "                       reaped (default 120000; there is no FIN tracking, so";
     "                       this is the only way an entry is ever freed)";
     "  --ct-udp-timeout-ms  Same, for UDP flows (default 45000)";
     "  --help         Show this message"]%string : list string)).

(** The value the usage message gives as the default of option [name]: the
    number after the first [(default ] that follows the line of the option. *)
Fixpoint after (pat s : list Z) : option (list Z) :=
  if decide (pat `prefix_of` s) then Some (drop (length pat) s)
  else match s with [] => None | _ :: s => after pat s end.

Definition documented_default (name : list Z) : option Z :=
  s ← after (10 :: text "  --" ++ name ++ [32]) (config_print_usage []);
  s ← after (text "(default ") s;
  Some (strtol s).1.

(** ** What the parser makes of a command line *)

(** The answer that selects a [case]. *)
Definition answer_of (o : opt) : answer :=
  match o with
  | Opt_iface a => (105, Some a)
  | Opt_vip a => (118, Some a)
  | Opt_director_ip a => (100, Some a)
  | Opt_backend a => (98, Some a)
  | Opt_ttl a => (116, Some a)
  | Opt_table_size a => (109, Some a)
  | Opt_max_flows a => (102, Some a)
  | Opt_hc_interval_ms a => (OPT_HC_INTERVAL_MS, Some a)
  | Opt_hc_timeout_ms a => (OPT_HC_TIMEOUT_MS, Some a)
  | Opt_hc_rise a => (OPT_HC_RISE, Some a)
  | Opt_hc_fall a => (OPT_HC_FALL, Some a)
  | Opt_tui => (OPT_TUI, None)
  | Opt_metrics_port a => (OPT_METRICS_PORT, Some a)
  | Opt_admin_fifo a => (OPT_ADMIN_FIFO, Some a)
  | Opt_ct_tcp_timeout_ms a => (OPT_CT_TCP_TIMEOUT_MS, Some a)
  | Opt_ct_udp_timeout_ms a => (OPT_CT_UDP_TIMEOUT_MS, Some a)
  | Opt_help => (104, None)
  | Opt_unknown => (QUESTION, None)
  end.

Lemma opt_of_answer o : opt_of (answer_of o) = o.
Proof. by destruct o. Qed.

Lemma long_opts_names : NoDup (lo_name <$> long_opts).
Proof. apply (bool_decide_unpack _). by vm_compute. Qed.

(** However the options [opts] are spelled and mixed with operands, the parser
    sees [opts]. *)
Lemma options_spelled opts argv :
  spells long_opts optstring (answer_of <$> opts) argv → options argv = opts.
Proof.
  intros Hs. unfold options. rewrite (getopt_spells _ _ long_opts_names _ _ Hs), <- list_fmap_compose.
  rewrite <- (list_fmap_id opts) at 2. apply list_fmap_ext. intros i o _. apply opt_of_answer.
Qed.

(** The plainest spelling of an option. *)
Definition long_name (o : opt) : list Z :=
  match o with
  | Opt_iface _ => text "iface"
  | Opt_vip _ => text "vip"
  | Opt_director_ip _ => text "director-ip"
  | Opt_backend _ => text "backend"
  | Opt_ttl _ => text "ttl"
  | Opt_table_size _ => text "table-size"
  | Opt_max_flows _ => text "max-flows"
  | Opt_hc_interval_ms _ => text "hc-interval-ms"
  | Opt_hc_timeout_ms _ => text "hc-timeout-ms"
  | Opt_hc_rise _ => text "hc-rise"
  | Opt_hc_fall _ => text "hc-fall"
  | Opt_tui => text "tui"
  | Opt_metrics_port _ => text "metrics-port"
  | Opt_admin_fifo _ => text "admin-fifo"
  | Opt_ct_tcp_timeout_ms _ => text "ct-tcp-timeout-ms"
  | Opt_ct_udp_timeout_ms _ => text "ct-udp-timeout-ms"
  | Opt_help => text "help"
  | Opt_unknown => []
  end.

Definition argv_of (opts : list opt) : list (list Z) :=
  concat ((λ o, (text "--" ++ long_name o) :: option_list (answer_of o).2) <$> opts).

(** Its entry in the table. *)
Definition entry (o : opt) : long_option :=
  {| lo_name := long_name o; lo_has_arg := bool_decide (is_Some (answer_of o).2); lo_val := (answer_of o).1 |}.

Lemma entry_abbreviates o : o ≠ Opt_unknown → abbreviates long_opts (long_name o) (entry o).
Proof.
  intros Ho. assert (bool_decide (entry o ∈ long_opts ∧ ¬ (61 ∈ long_name o) ∧ long_name o ≠ []) = true) as H.
  { destruct o; done. }
  apply bool_decide_eq_true in H as (? & ? & ?). split_and!; [done..|by left].
Qed.

Lemma argv_of_spells opts :
  Forall (λ o, o ≠ Opt_unknown) opts → spells long_opts optstring (answer_of <$> opts) (argv_of opts).
Proof.
  induction 1 as [|o opts Ho _ IH]; [constructor|]. rewrite fmap_cons. unfold argv_of. rewrite fmap_cons. cbn [concat].
  apply spells_option; [|exact IH]. pose proof (entry_abbreviates o Ho) as Ha.
  destruct (answer_of o) as [v [a|]] eqn:E; change (text "--") with [45; 45]; cbn [app snd option_list].
  - replace v with (lo_val (entry o)) by (unfold entry; by rewrite E). apply sp_separate; [done|]. unfold entry. by rewrite E.
  - replace v with (lo_val (entry o)) by (unfold entry; by rewrite E). apply sp_flag; [done|]. unfold entry. by rewrite E.
Qed.

(** ** Theorems *)


Lemma parse_opts_unknown opts : ∀ p, config_valid (ps_out p) → Opt_unknown ∈ opts →
  ∃ rc p', parse_opts p opts = Val (Some rc, p') ∧ (rc = -1 ∨ rc = 1).
Proof.
  induction opts as [|o opts IH]; intros p Hv Hin; [by apply not_elem_of_nil in Hin|]. cbn [parse_opts].
  destruct (parse_opt_valid p o Hv) as (r & E & Hr). destruct r as [rc|p1]; rewrite E, bind_Val.
  - by exists rc, p.
  - apply IH; [exact Hr|]. apply elem_of_cons in Hin as [<-|?]; [|done]. cbn in E. by injection E.
Qed.

(** A command line with an unknown or ambiguous option, an option without
    its argument or an argument too many is never accepted: the program prints
    its usage and gives up (or shows the help asked for before). *)
Theorem bad_option_rejected argv (Hbad : (QUESTION, None) ∈ getopt_long long_opts optstring argv) :
  ∃ rc c, config_parse_argv argv = Val (rc, c) ∧ (rc = -1 ∨ rc = 1).
Proof.
  unfold config_parse_argv, config_parse_args.
  destruct (parse_opts_unknown (options argv) parse_start config_defaults_valid) as (rc & p & -> & Hrc).
  - apply list_elem_of_fmap. by exists (QUESTION, None).
  - rewrite bind_Val. by eexists _, _.
Qed.

(** Every option is described in the usage message, and the defaults given there
    are the ones in force. *)
Theorem usage_true :
  Forall (λ o, is_Some (after (10 :: text "  --" ++ lo_name o ++ [32]) (config_print_usage []))) long_opts ∧
  documented_default (text "ttl") = Some (ttl config_defaults) ∧
  documented_default (text "table-size") = Some (table_size config_defaults) ∧
  documented_default (text "max-flows") = Some (max_flows config_defaults) ∧
  documented_default (text "hc-interval-ms") = Some (hc_interval_ms config_defaults) ∧
  documented_default (text "hc-timeout-ms") = Some (hc_timeout_ms config_defaults) ∧
  documented_default (text "hc-rise") = Some (hc_rise config_defaults) ∧
  documented_default (text "hc-fall") = Some (hc_fall config_defaults) ∧
  documented_default (text "metrics-port") = Some (metrics_port config_defaults) ∧
  documented_default (text "ct-tcp-timeout-ms") = Some (ct_tcp_timeout_ms config_defaults) ∧
  documented_default (text "ct-udp-timeout-ms") = Some (ct_udp_timeout_ms config_defaults).
Proof. split; [apply (bool_decide_unpack _); by vm_compute|]. split_and!; by vm_compute. Qed.

(** ** Witnesses *)

Lemma abbreviates_compute name o :
  bool_decide (o ∈ long_opts ∧ ¬ (61 ∈ name) ∧ name ≠ [] ∧ name `prefix_of` lo_name o ∧
    Forall (λ o', name `prefix_of` lo_name o' → o' = o) long_opts) = true →
  abbreviates long_opts name o.
Proof.
  intros (? & ? & ? & ? & H)%bool_decide_eq_true. rewrite Forall_forall in H. split_and!; [done..|]. right. by split.
Qed.

(** [sample_config] with a stray word, [--vi=] for [--vip], [--dir] for
    [--director-ip] and short options. *)
Definition sample_argv : list (list Z) :=
  [text "-ieth0"; text "stray"; text "--vi=" ++ dotted_quad (vip sample_config);
   text "--dir"; dotted_quad (director_ip sample_config); text "-b"; ip_port_text 184574730 9000] ++
  argv_of (drop 4 (render (text "eth0") (text "/f") [{| cb_addr := 184574730; cb_port := 9000 |}] sample_config)).


(** [--t 9] could be [--ttl], [--table-size] or [--tui]. *)
Lemma bad_option_rejected_witness :
  ∃ rc c, config_parse_argv [text "--t"; text "9"] = Val (rc, c) ∧ (rc = -1 ∨ rc = 1).
Proof. apply (bad_option_rejected [text "--t"; text "9"]). apply (bool_decide_unpack _). by vm_compute. Defined.
