(* ===== verification/Maglev.v ===== *)
(** * The Maglev lookup table (src/maglev/maglev_table.c)

    Definitions follow the C file: primality test, table generation (sort,
    offsets and skips, round-robin population with one persistent cursor per
    backend), lookup and routing snapshots.  [calloc]/[malloc] results come from
    an oracle [ok], the [i]-th allocation of a call succeeding iff [ok i]. *)

From Stdlib Require Import Lia Znumtheory.
From stdpp Require Import base list numbers sorting.
From S2P Require Import Prelude Net Hash.
Import Flow.

Local Open Scope Z_scope.

Definition MAGLEV_DEFAULT_M : Z := 65537.

Record backend_view := {
  v_id : Z;
  v_addr : Z;
  v_port : Z;
  v_mac : list Z
}.

Record maglev_table := {
  t_m : Z;
  t_lookup : list Z
}.

Record routing_snapshot := {
  s_table : maglev_table;
  s_backends : list backend_view;
  s_generation : Z
}.

(** ** Primality *)

(** [for (uint32_t d = 3; (uint64_t)d * d <= n; d += 2)] *)
Fixpoint prime_loop (fuel : nat) (n d : Z) : out bool :=
  match fuel with
  | O => NoFuel
  | S fuel =>
      if decide (u64 (d * d) ≤ n) then
        if decide (n mod d = 0) then Val false else prime_loop fuel n (u32 (d + 2))
      else Val true
  end.

Definition maglev_is_prime (n : Z) : out bool :=
  if decide (n < 2) then Val false
  else if decide (n mod 2 = 0) then Val (bool_decide (n = 2))
  else prime_loop (S (Z.to_nat (Z.sqrt n))) n 3.

(** ** Table generation *)

Definition backend_view_cmp_by_id (a b : backend_view) : Z :=
  if decide (v_id a < v_id b) then -1 else if decide (v_id a > v_id b) then 1 else 0.

(** [qsort] with that comparison. *)
Definition cmp_le (a b : backend_view) : Prop := backend_view_cmp_by_id a b ≤ 0.

#[export] Instance cmp_le_dec : RelDecision cmp_le.
Proof. intros a b. unfold cmp_le. apply _. Defined.

Definition sort_by_id (bs : list backend_view) : list backend_view := merge_sort cmp_le bs.

Section Generate.
Context {xx : XXHash}.

(** The bytes of [char name[32]] that are hashed for one backend. *)
Definition backend_name (v : backend_view) : out (list Z) :=
  let '(name, name_len) := snprintf 32 (ip_port_text (v_addr v) (v_port v)) in
  rd_list name 0 name_len.

(** The loop filling [offset] and [skip]. *)
Fixpoint offsets_skips (sorted : list backend_view) (m : Z) : out (list Z * list Z) :=
  match sorted with
  | [] => Val ([], [])
  | v :: sorted =>
      name ← backend_name v;
      o ← umod (maglev_hash_offset name) m;
      s ← umod (maglev_hash_skip name) (u32 (m - 1));
      '(os, ss) ← offsets_skips sorted m;
      Val (o :: os, u64 (s + 1) :: ss)
  end.

(** [(uint32_t)((offset[b] + (uint64_t)j * skip[b]) % m)] *)
Definition perm_slot (offset skip m j : Z) : Z := u32 (u64 (offset + u64 (j * skip)) mod m).

(** [while (t->lookup[c] != -1) { j++; c = ...; }] *)
Fixpoint probe (fuel : nat) (lookup : list Z) (offset skip m j c : Z) : out (Z * Z) :=
  match fuel with
  | O => NoFuel
  | S fuel =>
      x ← rd lookup (Z.to_nat c);
      if decide (x ≠ -1) then
        let j := u32 (j + 1) in
        probe fuel lookup offset skip m j (perm_slot offset skip m j)
      else Val (j, c)
  end.

(** One iteration of the populate loop: the turn of backend [b]. *)
Definition populate_turn (sorted : list backend_view) (offset skip : list Z) (m : Z)
    (b : nat) (lookup next : list Z) : out (list Z * list Z) :=
  j ← rd next b;
  o ← rd offset b;
  s ← rd skip b;
  '(j, c) ← probe (S (Z.to_nat m)) lookup o s m j (perm_slot o s m j);
  v ← rd sorted b;
  lookup ← wr lookup (Z.to_nat c) (s32 (v_id v));
  next ← wr next b (u32 (j + 1));
  Val (lookup, next).

(** [while (filled < m)]; [filled] and [round_robin] advance together. *)
Fixpoint populate (fuel : nat) (sorted : list backend_view) (offset skip : list Z) (m : Z)
    (filled round_robin : nat) (lookup next : list Z) : out (list Z) :=
  match fuel with
  | O => NoFuel
  | S fuel =>
      if decide (Z.of_nat filled < m) then
        '(lookup, next) ← populate_turn sorted offset skip m
                            (round_robin mod length sorted) lookup next;
        populate fuel sorted offset skip m (S filled) (S round_robin) lookup next
      else Val lookup
  end.

(** [None] is the return value NULL.  [n] is the length of [backends]. *)
Definition maglev_table_generate (ok : nat → bool) (backends : list backend_view) (m : Z) :
    out (option maglev_table) :=
  if negb (ok 0%nat) then Val None
  else if negb (ok 1%nat) then Val None
  else
    let lookup := replicate (Z.to_nat m) (-1) in
    if decide (length backends = 0%nat) then Val (Some {| t_m := m; t_lookup := lookup |})
    else if negb (ok 2%nat && ok 3%nat && ok 4%nat && ok 5%nat) then Val None
    else
      let sorted := sort_by_id backends in
      '(offset, skip) ← offsets_skips sorted m;
      lookup ← populate (S (Z.to_nat m)) sorted offset skip m 0 0 lookup
                 (replicate (length sorted) 0);
      Val (Some {| t_m := m; t_lookup := lookup |}).

Definition maglev_table_lookup (t : maglev_table) (key : flow_key) : out Z :=
  bucket ← umod (flow_hash key) (t_m t);
  rd (t_lookup t) (Z.to_nat (u32 bucket)).

(** ** Routing snapshots *)

Definition routing_snapshot_create (ok : nat → bool) (routable candidates : list backend_view)
    (m generation : Z) : out (option routing_snapshot) :=
  table ← maglev_table_generate ok candidates m;
  match table with
  | None => Val None
  | Some table =>
      if negb (ok 6%nat) then Val None
      else if decide (0 < length routable)%nat then
        if negb (ok 7%nat) then Val None
        else Val (Some {| s_table := table; s_backends := routable; s_generation := generation |})
      else Val (Some {| s_table := table; s_backends := []; s_generation := generation |})
  end.

End Generate.

(** The linear scan returns the first match. *)
Fixpoint find_by_id (backends : list backend_view) (backend_id : Z) : option backend_view :=
  match backends with
  | [] => None
  | v :: backends => if decide (s32 (v_id v) = backend_id) then Some v
                     else find_by_id backends backend_id
  end.

Definition routing_snapshot_find_backend (snap : routing_snapshot) (backend_id : Z) :
    option backend_view := find_by_id (s_backends snap) backend_id.

(** ** Reference algorithm

    The table as the Maglev paper defines it: backends take turns in id order;
    at its turn a backend claims the first free slot of its whole preference
    list.  No cursor survives from one turn to the next. *)

Definition preference (offset skip m : Z) : list Z :=
  (λ j, (offset + Z.of_nat j * skip) mod m) <$> seq 0 (Z.to_nat m).

Definition first_free (lookup : list Z) (pref : list Z) : option Z :=
  snd <$> list_find (λ c, lookup !! Z.to_nat c = Some (-1)) pref.

Definition claim_turn (ids : list Z) (prefs : list (list Z)) (lookup : list Z) (t : nat) : list Z :=
  let b := (t mod length ids)%nat in
  match prefs !! b, ids !! b with
  | Some pref, Some id =>
      match first_free lookup pref with
      | Some c => <[Z.to_nat c := id]> lookup
      | None => lookup
      end
  | _, _ => lookup
  end.

Definition paper_table (ids : list Z) (prefs : list (list Z)) (m : Z) : list Z :=
  foldl (claim_turn ids prefs) (replicate (Z.to_nat m) (-1)) (seq 0 (Z.to_nat m)).

(** ** Primality test *)

Lemma prime_of_no_small_divisor n d :
  1 < n → n < d * d → 0 < d → (∀ k, 2 ≤ k < d → ¬ (k | n)) → Z.prime n.
Proof.
  intros Hn Hd Hd0 Hno. split; [done|].
  intros k Hk [q Hq]. destruct (decide (k < d)); [apply (Hno k); [lia|exists q; lia]|].
  apply (Hno q); [nia|]. exists k. lia.
Qed.

Lemma prime_loop_spec fuel n d :
  1 < n < 2 ^ 32 → n mod 2 ≠ 0 → 3 ≤ d ≤ Z.sqrt n + 3 → d mod 2 = 1 →
  (∀ k, 2 ≤ k < d → ¬ (k | n)) → (1 ≤ fuel)%nat → Z.sqrt n + 2 ≤ d + Z.of_nat fuel →
  ∃ b, prime_loop fuel n d = Val b ∧ (b = true ↔ Z.prime n).
Proof.
  revert d; induction fuel as [|fuel IH]; intros d Hn Hodd Hd Hdodd Hno Hf Hfuel; [lia|].
  pose proof (Z.sqrt_spec n ltac:(lia)) as Hsq. cbv zeta in Hsq.
  assert (Z.sqrt n < 65536) by nia. cbn [prime_loop]. unfold u64.
  rewrite Z.mod_small by nia. case_decide as Hle.
  - assert (d ≤ Z.sqrt n) by (apply Z.sqrt_le_square; lia).
    case_decide as Hdiv.
    + eexists; split; [done|]. split; [done|]. intros [_ Hp].
      exfalso. apply (Hp d); [nia|]. apply Z.mod_divide; lia.
    + unfold u32. rewrite Z.mod_small by lia. apply IH; try done; try lia.
      * rewrite Z.add_mod, Hdodd by lia. done.
      * intros k Hk Hkn. destruct (decide (k < d)); [apply (Hno k); [lia|done]|].
        assert (k = d ∨ k = d + 1) as [->| ->] by lia.
        -- apply Hdiv. by apply Z.mod_divide; [lia|].
        -- apply Hodd. apply Z.mod_divide; [lia|]. transitivity (d + 1); [|done].
           apply Z.mod_divide; [lia|]. by rewrite Z.add_mod, Hdodd by lia.
  - eexists; split; [done|]. split; [|done]. intros _.
    apply (prime_of_no_small_divisor n d); [lia..|done].
Qed.

Lemma maglev_is_prime_spec n :
  0 ≤ n < 2 ^ 32 → ∃ b, maglev_is_prime n = Val b ∧ (b = true ↔ Z.prime n).
Proof.
  intros Hn. unfold maglev_is_prime. case_decide.
  { eexists; split; [done|]. split; [done|]. intros [? _]. lia. }
  case_decide as Heven.
  - eexists; split; [done|]. rewrite bool_decide_eq_true. split; [intros ->; split; [done|lia]|].
    intros Hp. destruct (decide (n = 2)); [done|]. destruct Hp as [_ Hp].
    exfalso. apply (Hp 2); [lia|]. by apply Z.mod_divide.
  - pose proof (Z.sqrt_nonneg n). apply prime_loop_spec; try done; try lia.
    intros k Hk Hkn. assert (k = 2) as -> by lia. apply Heven. by apply Z.mod_divide.
Qed.

Lemma maglev_is_prime_true n : 0 ≤ n < 2 ^ 32 → maglev_is_prime n = Val true → Z.prime n.
Proof. intros Hn E. destruct (maglev_is_prime_spec n Hn) as (b & Hb & Hp). apply Hp. congruence. Qed.

(** [maglev_is_prime] terminates on every 32-bit input and answers exactly
    whether it is prime; the 64-bit square and the 32-bit increment of the trial
    divisor never wrap. *)
Theorem maglev_is_prime_correct n (Hn : 0 ≤ n < 2 ^ 32) :
  ∃ b, maglev_is_prime n = Val b ∧ (b = true ↔ Z.prime n).
Proof. by apply maglev_is_prime_spec. Qed.

Lemma maglev_is_prime_correct_witness :
  maglev_is_prime MAGLEV_DEFAULT_M = Val true ∧ Z.prime MAGLEV_DEFAULT_M.
Proof.
  destruct (maglev_is_prime_correct MAGLEV_DEFAULT_M) as (b & Hb & Hp); [unfold MAGLEV_DEFAULT_M; lia|].
  assert (maglev_is_prime MAGLEV_DEFAULT_M = Val true) as E by (vm_compute; reflexivity).
  split; [exact E|]. apply Hp. congruence.
Defined.

(** ** Each preference list is a permutation of the slots *)

Definition slots (m : Z) : list Z := Z.of_nat <$> seq 0 (Z.to_nat m).

Lemma elem_of_slots m c : c ∈ slots m ↔ 0 ≤ c < m.
Proof.
  unfold slots. rewrite list_elem_of_fmap. split.
  - intros (i & -> & Hi%elem_of_seq). lia.
  - intros. exists (Z.to_nat c). rewrite elem_of_seq. lia.
Qed.

Lemma preference_lookup o s m (j : nat) :
  Z.of_nat j < m → preference o s m !! j = Some ((o + Z.of_nat j * s) mod m).
Proof.
  intros Hj. unfold preference.
  rewrite list_lookup_fmap, lookup_seq_lt by lia. done.
Qed.

Lemma preference_length o s m : length (preference o s m) = Z.to_nat m.
Proof. unfold preference. by rewrite length_fmap, length_seq. Qed.

Lemma slot_inj o s m j1 j2 :
  Z.prime m → 1 ≤ s < m → 0 ≤ j1 < m → 0 ≤ j2 < m →
  (o + j1 * s) mod m = (o + j2 * s) mod m → j1 = j2.
Proof.
  intros Hp Hs H1 H2 Heq.
  assert (m | (j1 - j2) * s) as Hdiv.
  { apply Z.mod_divide; [lia|]. replace ((j1 - j2) * s) with ((o + j1 * s) - (o + j2 * s)) by lia.
    rewrite Zminus_mod, Heq, Z.sub_diag. done. }
  apply Z.divide_prime_mul in Hdiv as [Hd|Hd]; [| |done].
  - destruct Hd as [q Hq]. assert (-1 < q < 1) by nia. assert (q = 0) as -> by lia. lia.
  - apply Z.divide_pos_le in Hd; lia.
Qed.

Lemma preference_perm o s m :
  Z.prime m → 1 ≤ s < m → preference o s m ≡ₚ slots m.
Proof.
  intros Hp Hs. apply submseteq_length_Permutation.
  - apply NoDup_submseteq.
    + apply NoDup_alt. intros i j c Hi Hj.
      pose proof (lookup_lt_Some _ _ _ Hi). pose proof (lookup_lt_Some _ _ _ Hj).
      rewrite preference_length in *.
      rewrite preference_lookup in Hi, Hj by lia. simplify_eq.
      assert (Z.of_nat i = Z.of_nat j); [|lia].
      apply (slot_inj o s m); congruence || lia || done.
    + intros c [j Hj]%list_elem_of_lookup. pose proof (lookup_lt_Some _ _ _ Hj).
      rewrite preference_length in *. rewrite preference_lookup in Hj by lia. simplify_eq.
      apply elem_of_slots. apply Z.mod_pos_bound. lia.
  - unfold slots. by rewrite preference_length, length_fmap, length_seq.
Qed.

(** No intermediate of the slot computation wraps. *)
Lemma perm_slot_eq o s m j :
  0 < m < 2 ^ 32 → 0 ≤ o < m → 1 ≤ s < m → 0 ≤ j ≤ m →
  perm_slot o s m j = (o + j * s) mod m.
Proof.
  intros Hm Ho Hs Hj. unfold perm_slot, u64, u32.
  assert (0 ≤ j * s ≤ (2 ^ 32 - 1) * (2 ^ 32 - 1)) by nia.
  rewrite (Z.mod_small (j * s)), (Z.mod_small (o + j * s)) by lia.
  rewrite Z.mod_small; [done|]. pose proof (Z.mod_pos_bound (o + j * s) m). lia.
Qed.

(** ** Occurrences of a value *)

Definition cnt (x : Z) (l : list Z) : nat := length (filter (λ y, y = x) l).

Lemma cnt_cons x y l : cnt x (y :: l) = ((if decide (y = x) then 1 else 0) + cnt x l)%nat.
Proof. unfold cnt. rewrite filter_cons. by case_decide. Qed.

Lemma cnt_insert x l i y z :
  l !! i = Some y →
  (cnt x (<[i:=z]> l) + (if decide (y = x) then 1 else 0) =
   cnt x l + (if decide (z = x) then 1 else 0))%nat.
Proof.
  revert i; induction l as [|a l IH]; intros [|i] Hi; simplify_eq/=; rewrite !cnt_cons; [lia|].
  specialize (IH i Hi). lia.
Qed.

Lemma cnt_replicate x n y : cnt x (replicate n y) = if decide (y = x) then n else 0%nat.
Proof.
  induction n as [|n IH]; simpl; [by case_decide|]. rewrite cnt_cons, IH. by case_decide.
Qed.

Lemma cnt_pos x l : (0 < cnt x l)%nat → ∃ i, l !! i = Some x.
Proof.
  unfold cnt. intros Hc. destruct (filter _ l) as [|y k] eqn:E; [simpl in Hc; lia|].
  assert (y ∈ filter (λ y, y = x) l) as [-> Hin]%list_elem_of_filter by (rewrite E; left).
  by apply list_elem_of_lookup.
Qed.

Lemma cnt_lookup x l i : l !! i = Some x → (0 < cnt x l)%nat.
Proof.
  intros Hi. pose proof (cnt_insert x l i x (x + 1) Hi) as Hc.
  rewrite decide_True in Hc by done. rewrite decide_False in Hc by lia. lia.
Qed.

(** The number of turns among [0 .. t-1] that belong to backend [b] of [n]. *)
Definition turns (n b t : nat) : nat :=
  (t / n + if decide (b < t mod n) then 1 else 0)%nat.

Lemma turns_S n b t :
  (b < n)%nat →
  turns n b (S t) = (turns n b t + if decide (t mod n = b)%nat then 1 else 0)%nat.
Proof.
  intros Hb. unfold turns.
  pose proof (Nat.div_mod_eq t n). pose proof (Nat.mod_upper_bound t n ltac:(lia)).
  destruct (decide (S (t mod n) = n)) as [Hlast|Hlast].
  - assert (S t / n = S (t / n))%nat as -> by (symmetry; apply (Nat.div_unique _ _ _ 0); nia).
    assert (S t mod n = 0)%nat as -> by (symmetry; apply (Nat.mod_unique _ _ (S (t / n))); nia).
    repeat case_decide; lia.
  - assert (S t / n = t / n)%nat as ->
      by (symmetry; apply (Nat.div_unique _ _ _ (S (t mod n))); lia).
    assert (S t mod n = S (t mod n))%nat as ->
      by (symmetry; apply (Nat.mod_unique _ _ (t / n)); lia).
    repeat case_decide; lia.
Qed.

(** ** Population computes the reference table *)

Section Populate.
Context (m : Z) (sorted : list backend_view) (offset skip : list Z).
Context (Hprime : Z.prime m) (Hm : 2 < m < 2 ^ 32).
Context (Hn : (0 < length sorted)%nat).
Context (Hlo : length offset = length sorted) (Hls : length skip = length sorted).
Context (Hids : Forall (λ v, 0 ≤ v_id v < 2 ^ 31) sorted).
Context (Hoff : Forall (λ o, 0 ≤ o < m) offset) (Hskip : Forall (λ s, 1 ≤ s < m) skip).

Let ids := v_id <$> sorted.
Let prefs := zip_with (λ o s, preference o s m) offset skip.

(** After [t] turns: [t] slots are taken, and every slot before a backend's
    cursor is taken, so that the cursor may skip it. *)
Record pop_inv (t : nat) (L next : list Z) : Prop := {
  pi_len : length L = Z.to_nat m;
  pi_next_len : length next = length sorted;
  pi_free : (cnt (-1) L + t = Z.to_nat m)%nat;
  pi_next : ∀ b o s x, offset !! b = Some o → skip !! b = Some s → next !! b = Some x →
    0 ≤ x ≤ m ∧ ∀ j, 0 ≤ j < x → L !! Z.to_nat ((o + j * s) mod m) ≠ Some (-1)
}.

Lemma probe_spec fuel L o s j k :
  0 ≤ o < m → 1 ≤ s < m → 0 ≤ j ≤ k → k < m → length L = Z.to_nat m →
  (∀ i, j ≤ i < k → L !! Z.to_nat ((o + i * s) mod m) ≠ Some (-1)) →
  L !! Z.to_nat ((o + k * s) mod m) = Some (-1) → k - j < Z.of_nat fuel →
  probe fuel L o s m j (perm_slot o s m j) = Val (k, (o + k * s) mod m).
Proof.
  intros Ho Hs. revert j; induction fuel as [|fuel IH]; intros j Hj Hk HL Htaken Hfree Hf; [lia|].
  cbn [probe]. rewrite (perm_slot_eq o s m j) by lia.
  pose proof (Z.mod_pos_bound (o + j * s) m ltac:(lia)).
  destruct (rd_lt L (Z.to_nat ((o + j * s) mod m))) as (x & Hx & ->); [lia|]. rewrite bind_Val.
  destruct (decide (j = k)) as [->|Hne].
  - rewrite Hfree in Hx. injection Hx as <-. by rewrite decide_False by tauto.
  - rewrite decide_True; [|intros ->; by apply (Htaken j); [lia|]].
    unfold u32. rewrite (Z.mod_small (j + 1)) by lia.
    apply IH; [lia|done|done| |done|lia]. intros i Hi. apply Htaken. lia.
Qed.

Lemma first_free_Some L o s :
  0 ≤ o < m → 1 ≤ s < m → length L = Z.to_nat m → (0 < cnt (-1) L)%nat →
  ∃ k : nat, Z.of_nat k < m ∧
    first_free L (preference o s m) = Some ((o + Z.of_nat k * s) mod m) ∧
    L !! Z.to_nat ((o + Z.of_nat k * s) mod m) = Some (-1) ∧
    ∀ j, 0 ≤ j < Z.of_nat k → L !! Z.to_nat ((o + j * s) mod m) ≠ Some (-1).
Proof.
  intros Ho Hs HL [i Hi]%cnt_pos. pose proof (lookup_lt_Some _ _ _ Hi).
  destruct (list_find_elem_of (λ c, L !! Z.to_nat c = Some (-1)) (preference o s m) (Z.of_nat i))
    as [[k c] Hkc].
  { rewrite (preference_perm o s m) by done. apply elem_of_slots. lia. }
  { by rewrite Nat2Z.id. }
  unfold first_free. rewrite Hkc. apply list_find_Some in Hkc as (Hk & Hfree & Hbefore).
  pose proof (lookup_lt_Some _ _ _ Hk) as Hkm. rewrite preference_length in Hkm.
  rewrite preference_lookup in Hk by lia. injection Hk as <-.
  exists k. split_and!; [lia|done|done|]. intros j Hj Hf.
  apply (Hbefore (Z.to_nat j) ((o + j * s) mod m)); [|lia|done].
  rewrite preference_lookup by lia. by rewrite Z2Nat.id by lia.
Qed.

Lemma populate_turn_spec t L next :
  pop_inv t L next → (t < Z.to_nat m)%nat →
  ∃ next', populate_turn sorted offset skip m (t mod length sorted) L next =
      Val (claim_turn ids prefs L t, next') ∧
    pop_inv (S t) (claim_turn ids prefs L t) next' ∧
    ∃ c v, L !! c = Some (-1) ∧ sorted !! (t mod length sorted)%nat = Some v ∧
      claim_turn ids prefs L t = <[c := v_id v]> L.
Proof.
  intros [HL Hnl Hfree Hnext] Ht.
  set (b := (t mod length sorted)%nat).
  assert (b < length sorted)%nat as Hb by (apply Nat.mod_upper_bound; lia).
  destruct (lookup_lt_is_Some_2 sorted b Hb) as [v Hv].
  destruct (lookup_lt_is_Some_2 next b ltac:(lia)) as [x Hx].
  destruct (lookup_lt_is_Some_2 offset b ltac:(lia)) as [o Ho].
  destruct (lookup_lt_is_Some_2 skip b ltac:(lia)) as [s Hs].
  pose proof (Forall_lookup_1 _ _ _ _ Hids Hv) as Hid.
  pose proof (Forall_lookup_1 _ _ _ _ Hoff Ho) as Horng.
  pose proof (Forall_lookup_1 _ _ _ _ Hskip Hs) as Hsrng. simpl in Hid, Horng, Hsrng.
  destruct (Hnext b o s x Ho Hs Hx) as [Hxr Hxt].
  destruct (first_free_Some L o s) as (k & Hk & Hff & Hkf & Hkt); [done..|lia|].
  assert (x ≤ Z.of_nat k).
  { destruct (decide (x ≤ Z.of_nat k)); [done|]. by destruct (Hxt (Z.of_nat k)); [lia|]. }
  set (c := (o + Z.of_nat k * s) mod m) in *.
  assert (0 ≤ c < m) by (apply Z.mod_pos_bound; lia).
  assert (claim_turn ids prefs L t = <[Z.to_nat c := v_id v]> L) as Hct.
  { assert (ids !! b = Some (v_id v)) as Hidb by (unfold ids; by rewrite list_lookup_fmap, Hv).
    assert (prefs !! b = Some (preference o s m)) as Hprefb
      by (unfold prefs; by rewrite lookup_zip_with, Ho, Hs).
    unfold claim_turn. assert (length ids = length sorted) as -> by apply length_fmap.
    fold b. by rewrite Hidb, Hprefb, Hff. }
  rewrite Hct. exists (<[b := Z.of_nat k + 1]> next). split_and!.
  - unfold populate_turn. rewrite (rd_Some _ _ _ Hx), (rd_Some _ _ _ Ho), (rd_Some _ _ _ Hs).
    rewrite !bind_Val. rewrite (probe_spec _ L o s x (Z.of_nat k)) by (done || lia || auto with lia).
    rewrite bind_Val. cbv beta iota. rewrite (rd_Some _ _ _ Hv), bind_Val.
    rewrite !wr_lt, !bind_Val by lia.
    unfold u32, s32. rewrite (Z.mod_small (Z.of_nat k + 1)) by lia.
    rewrite (Z.mod_small (v_id v + _)) by lia. fold c. do 3 f_equal. lia.
  - constructor; rewrite ?length_insert; [done|done| |].
    + pose proof (cnt_insert (-1) L (Z.to_nat c) (-1) (v_id v) Hkf) as Hc.
      rewrite decide_True in Hc by done. rewrite decide_False in Hc by lia. lia.
    + intros b' o' s' x' Ho' Hs' Hx'. destruct (decide (b' = b)) as [->|Hne].
      * rewrite list_lookup_insert_eq in Hx' by lia. simplify_eq. split; [lia|].
        intros j Hj. destruct (decide (j = Z.of_nat k)) as [->|].
        -- fold c. rewrite list_lookup_insert_eq by lia. intros [= ?]. lia.
        -- rewrite list_lookup_insert. case_decide; [intros [= ?]; lia|]. apply Hkt. lia.
      * rewrite list_lookup_insert_ne in Hx' by done.
        destruct (Hnext b' o' s' x' Ho' Hs' Hx') as [? Hp]. split; [done|].
        intros j Hj. rewrite list_lookup_insert. case_decide; [intros [= ?]; lia|]. by apply Hp.
  - by exists (Z.to_nat c), v.
Qed.

Lemma populate_spec fuel t L next :
  pop_inv t L next → (t ≤ Z.to_nat m)%nat → (Z.to_nat m - t < fuel)%nat →
  populate fuel sorted offset skip m t t L next =
  Val (foldl (claim_turn ids prefs) L (seq t (Z.to_nat m - t))).
Proof.
  revert t L next; induction fuel as [|fuel IH]; intros t L next Hinv Ht Hf; [lia|].
  cbn [populate]. case_decide as Hlt.
  - destruct (populate_turn_spec t L next Hinv ltac:(lia)) as (next' & -> & Hinv' & _).
    rewrite bind_Val. cbv beta iota. rewrite (IH _ _ _ Hinv') by lia.
    replace (Z.to_nat m - t)%nat with (S (Z.to_nat m - S t)) by lia. done.
  - by replace (Z.to_nat m - t)%nat with 0%nat by lia.
Qed.

(** The partial table after [t] turns. *)
Let partial (t : nat) := foldl (claim_turn ids prefs) (replicate (Z.to_nat m) (-1)) (seq 0 t).

Lemma pop_inv_init : pop_inv 0 (replicate (Z.to_nat m) (-1)) (replicate (length sorted) 0).
Proof.
  constructor.
  - apply length_replicate.
  - apply length_replicate.
  - rewrite cnt_replicate, decide_True by done. lia.
  - intros b o s x _ _ [-> _]%lookup_replicate. split; [lia|]. intros; lia.
Qed.

Lemma partial_inv t :
  (t ≤ Z.to_nat m)%nat →
  (∃ next, pop_inv t (partial t) next) ∧
  Forall (λ x, x = -1 ∨ x ∈ ids) (partial t) ∧
  (NoDup ids → ∀ b v, sorted !! b = Some v → cnt (v_id v) (partial t) = turns (length sorted) b t).
Proof.
  induction t as [|t IH]; intros Ht.
  - split_and!.
    + eexists. apply pop_inv_init.
    + apply Forall_replicate. by left.
    + intros _ b v Hv. pose proof (Forall_lookup_1 _ _ _ _ Hids Hv) as Hid. simpl in Hid.
      unfold partial; simpl. rewrite cnt_replicate, decide_False by lia.
      unfold turns. by rewrite Nat.Div0.div_0_l, Nat.Div0.mod_0_l.
  - destruct IH as ([next Hinv] & Hall & Hcnt); [lia|].
    destruct (populate_turn_spec t (partial t) next Hinv ltac:(lia))
      as (next' & _ & Hinv' & c & v & Hc & Hv & Hct).
    assert (partial (S t) = claim_turn ids prefs (partial t) t) as ->.
    { unfold partial. rewrite seq_S, foldl_app. done. }
    split_and!; [by eexists| |].
    + rewrite Hct. apply Forall_insert; [done|]. right. unfold ids.
      apply list_elem_of_fmap. exists v. split; [done|]. by eapply list_elem_of_lookup_2.
    + intros Hnd b w Hw. rewrite Hct.
      pose proof (Forall_lookup_1 _ _ _ _ Hids Hw) as Hid. simpl in Hid.
      pose proof (cnt_insert (v_id w) (partial t) c (-1) (v_id v) Hc) as Hins.
      rewrite (decide_False (P := -1 = v_id w)) in Hins by lia.
      rewrite (Hcnt Hnd b w Hw) in Hins.
      rewrite turns_S by (by apply lookup_lt_Some in Hw).
      enough (v_id v = v_id w ↔ (t mod length sorted)%nat = b) by (repeat case_decide; tauto || lia).
      split; [|naive_solver].
      intros Heq. apply (NoDup_lookup ids _ _ (v_id v)); [done| |];
        unfold ids; rewrite list_lookup_fmap, ?Hv, ?Hw; simpl; congruence.
Qed.

Lemma populate_all :
  populate (S (Z.to_nat m)) sorted offset skip m 0 0 (replicate (Z.to_nat m) (-1))
    (replicate (length sorted) 0) = Val (paper_table ids prefs m).
Proof.
  rewrite populate_spec by (apply pop_inv_init || lia). by rewrite Nat.sub_0_r.
Qed.

Lemma paper_table_props :
  length (paper_table ids prefs m) = Z.to_nat m ∧
  Forall (λ x, x ∈ ids) (paper_table ids prefs m) ∧
  (NoDup ids → ∀ b v, sorted !! b = Some v →
    cnt (v_id v) (paper_table ids prefs m) = turns (length sorted) b (Z.to_nat m)).
Proof.
  destruct (partial_inv (Z.to_nat m) ltac:(lia)) as ([next [HL _ Hfree _]] & Hall & Hcnt).
  change (paper_table ids prefs m) with (partial (Z.to_nat m)).
  split_and!; [done| |done].
  apply Forall_lookup. intros i x Hx.
  pose proof (Forall_lookup_1 _ _ _ _ Hall Hx) as [->|?]; [|done]. exfalso.
  pose proof (cnt_lookup _ _ _ Hx). lia.
Qed.
End Populate.

(** ** The generated table *)

Definition view_ok (v : backend_view) : Prop := 0 ≤ v_id v < 2 ^ 31 ∧ 0 ≤ v_port v < 2 ^ 16.

Section Table.
Context {xx : XXHash}.

(** [offset] and [skip] of the paper, from the identity string. *)
Definition backend_offset (m : Z) (v : backend_view) : Z :=
  maglev_hash_offset (ip_port_text (v_addr v) (v_port v)) mod m.
Definition backend_skip (m : Z) (v : backend_view) : Z :=
  maglev_hash_skip (ip_port_text (v_addr v) (v_port v)) mod (m - 1) + 1.

(** The reference table of a backend set. *)
Definition maglev_reference (backends : list backend_view) (m : Z) : list Z :=
  let sorted := sort_by_id backends in
  paper_table (v_id <$> sorted)
    ((λ v, preference (backend_offset m v) (backend_skip m v) m) <$> sorted) m.

(** All six allocations of a non-empty generation succeed. *)
Definition generate_allocs (ok : nat → bool) : bool :=
  ok 0%nat && ok 1%nat && (ok 2%nat && ok 3%nat && ok 4%nat && ok 5%nat).

Lemma backend_name_spec v :
  view_ok v → backend_name v = Val (ip_port_text (v_addr v) (v_port v)).
Proof.
  intros [_ Hp]. unfold backend_name, snprintf.
  pose proof (ip_port_text_length (v_addr v) _ Hp).
  rewrite take_ge by lia. rewrite rd_list_take_drop by bound.
  by rewrite drop_0, take_app_length.
Qed.

Lemma offsets_skips_spec sorted m :
  Forall view_ok sorted → 2 < m < 2 ^ 32 →
  offsets_skips sorted m = Val (backend_offset m <$> sorted, backend_skip m <$> sorted).
Proof.
  intros Hok Hm. induction Hok as [|v sorted Hv _ IH]; cbn [offsets_skips]; [done|].
  rewrite backend_name_spec, bind_Val by done.
  unfold umod, u32. rewrite (Z.mod_small (m - 1)) by lia.
  rewrite !decide_False, !bind_Val, IH, bind_Val by lia. cbv beta iota.
  do 3 f_equal. cbn [fmap list_fmap]. f_equal. unfold backend_skip, u64. apply Z.mod_small.
  pose proof (Z.mod_pos_bound (maglev_hash_skip (ip_port_text (v_addr v) (v_port v))) (m - 1)). lia.
Qed.

Lemma backend_offset_range m v : 0 < m → 0 ≤ backend_offset m v < m.
Proof. intros. apply Z.mod_pos_bound. lia. Qed.

Lemma backend_skip_range m v : 2 < m → 1 ≤ backend_skip m v < m.
Proof.
  intros. unfold backend_skip.
  pose proof (Z.mod_pos_bound (maglev_hash_skip (ip_port_text (v_addr v) (v_port v))) (m - 1)). lia.
Qed.

Lemma sort_by_id_perm bs : sort_by_id bs ≡ₚ bs.
Proof. apply merge_sort_Permutation. Qed.

Section Fixed.
Context (backends : list backend_view) (m : Z).
Context (Hprime : Z.prime m) (Hm : 2 < m < 2 ^ 32).
Context (Hok : Forall view_ok backends) (Hne : backends ≠ []).

Local Lemma sorted_ok : Forall view_ok (sort_by_id backends).
Proof. by rewrite sort_by_id_perm. Qed.

Local Lemma sorted_len : (0 < length (sort_by_id backends))%nat.
Proof. rewrite sort_by_id_perm. by destruct backends; [|simpl; lia]. Qed.

Local Lemma prefs_zip sorted :
  zip_with (λ o s, preference o s m) (backend_offset m <$> sorted) (backend_skip m <$> sorted) =
  ((λ v, preference (backend_offset m v) (backend_skip m v) m) <$> sorted).
Proof. induction sorted as [|v sorted IH]; [done|]. cbn. by f_equal. Qed.

Local Ltac side :=
  first
    [ done
    | apply sorted_len
    | by rewrite !length_fmap
    | eapply Forall_impl; [apply sorted_ok|]; by intros v [? _]
    | apply Forall_fmap, Forall_true; intros v; apply backend_offset_range; lia
    | apply Forall_fmap, Forall_true; intros v; apply backend_skip_range; lia ].

Lemma maglev_table_generate_spec ok :
  maglev_table_generate ok backends m =
  Val (if generate_allocs ok
       then Some {| t_m := m; t_lookup := maglev_reference backends m |} else None).
Proof.
  unfold maglev_table_generate, generate_allocs.
  destruct (ok 0%nat); [|done]. destruct (ok 1%nat); [|done]. simpl negb. cbv iota.
  rewrite decide_False by (destruct backends; [done|simpl; lia]).
  destruct (ok 2%nat && ok 3%nat && ok 4%nat && ok 5%nat); [|done]. simpl negb. cbv iota.
  rewrite offsets_skips_spec, bind_Val by (apply sorted_ok || done). cbv beta iota.
  rewrite populate_all, bind_Val by side. simpl. do 3 f_equal.
  unfold maglev_reference. by rewrite prefs_zip.
Qed.

Lemma maglev_reference_props :
  length (maglev_reference backends m) = Z.to_nat m ∧
  Forall (λ x, x ∈ v_id <$> backends) (maglev_reference backends m) ∧
  (NoDup (v_id <$> backends) → ∀ v, v ∈ backends →
    ∃ b, (b < length backends)%nat ∧
      cnt (v_id v) (maglev_reference backends m) = turns (length backends) b (Z.to_nat m)).
Proof.
  destruct (paper_table_props m (sort_by_id backends) (backend_offset m <$> sort_by_id backends)
    (backend_skip m <$> sort_by_id backends)) as (Hl & Hall & Hcnt); [side..|].
  rewrite prefs_zip in *. split_and!; [done| |].
  - eapply Forall_impl; [exact Hall|]. intros x Hx. simpl in Hx.
    by rewrite sort_by_id_perm in Hx.
  - intros Hnd v Hv. rewrite <- sort_by_id_perm in Hv. apply list_elem_of_lookup in Hv as [b Hb].
    exists b. rewrite <- (Permutation_length (sort_by_id_perm backends)).
    split; [by eapply lookup_lt_Some|]. apply Hcnt; [|done]. by rewrite sort_by_id_perm.
Qed.
End Fixed.
End Table.

Lemma sorted_perm_unique bs1 bs2 :
  NoDup (v_id <$> bs1) → bs1 ≡ₚ bs2 → sort_by_id bs1 = sort_by_id bs2.
Proof.
  assert (∀ a b, cmp_le a b ↔ v_id a ≤ v_id b) as Hle.
  { intros a b. unfold cmp_le, backend_view_cmp_by_id. repeat case_decide; lia. }
  assert (Transitive cmp_le) by (intros a b c; rewrite !Hle; lia).
  assert (Total cmp_le) by (intros a b; rewrite !Hle; lia).
  intros Hnd Hp. apply (StronglySorted_unique_strong cmp_le).
  - intros a b Ha Hb. rewrite !Hle. intros H1 H2.
    rewrite sort_by_id_perm in Ha. rewrite sort_by_id_perm, <- Hp in Hb.
    apply list_elem_of_lookup in Ha as [i Hi], Hb as [j Hj].
    assert (i = j); [|by simplify_eq].
    apply (NoDup_lookup (v_id <$> bs1) i j (v_id a)); [done| |];
      rewrite list_lookup_fmap, ?Hi, ?Hj; simpl; [done|f_equal; lia].
  - by apply StronglySorted_merge_sort.
  - by apply StronglySorted_merge_sort.
  - by rewrite !sort_by_id_perm.
Qed.

Lemma turns_balanced n b t : turns n b t = (t / n)%nat ∨ turns n b t = (t / n + 1)%nat.
Proof. unfold turns. case_decide; lia. Qed.

Section TableTheorems.
Context {xx : XXHash}.

(** C3. For a prime table size the generator terminates, never leaves an array
    and never divides by zero; it returns NULL exactly when an allocation
    fails and otherwise exactly the table of the reference algorithm, in which
    a backend restarts at the head of its preference list at every turn: the
    persistent [next] cursors are a pure optimisation. *)
Theorem maglev_table_generate_reference ok backends m
    (Hprime : Z.prime m) (Hm : 2 < m < 2 ^ 32)
    (Hok : Forall view_ok backends) (Hne : backends ≠ []) :
  maglev_table_generate ok backends m =
  Val (if generate_allocs ok
       then Some {| t_m := m; t_lookup := maglev_reference backends m |} else None).
Proof. by apply maglev_table_generate_spec. Qed.

(** C7. The generated table is full and balanced: it has [m] slots, every slot
    holds the id of one of the backends, and each of [n] backends owns
    [floor(m/n)] or [floor(m/n) + 1] slots. *)
Theorem maglev_table_full_balanced ok backends m t
    (Hprime : Z.prime m) (Hm : 2 < m < 2 ^ 32)
    (Hok : Forall view_ok backends) (Hnd : NoDup (v_id <$> backends)) (Hne : backends ≠ [])
    (Hgen : maglev_table_generate ok backends m = Val (Some t)) :
  t_m t = m ∧ length (t_lookup t) = Z.to_nat m ∧
  (∀ x, x ∈ t_lookup t → x ∈ v_id <$> backends) ∧
  ∀ v, v ∈ backends →
    let share := (Z.to_nat m / length backends)%nat in
    cnt (v_id v) (t_lookup t) = share ∨ cnt (v_id v) (t_lookup t) = (share + 1)%nat.
Proof.
  rewrite maglev_table_generate_spec in Hgen by done.
  destruct (generate_allocs ok); [|done]. injection Hgen as <-. simpl.
  destruct (maglev_reference_props backends m) as (Hl & Hall & Hcnt); [done..|].
  split_and!; [done|done| |].
  - by apply Forall_forall.
  - intros v Hv. destruct (Hcnt Hnd v Hv) as (b & _ & ->). apply turns_balanced.
Qed.

(** The table depends on the backend set only, not on the order in which the
    caller lists it. *)
Theorem maglev_table_order_independent ok backends1 backends2 m
    (Hnd : NoDup (v_id <$> backends1)) (Hperm : backends1 ≡ₚ backends2) :
  maglev_table_generate ok backends1 m = maglev_table_generate ok backends2 m.
Proof.
  unfold maglev_table_generate.
  by rewrite (sorted_perm_unique backends1 backends2), (Permutation_length Hperm).
Qed.

Lemma maglev_table_generate_empty ok m :
  maglev_table_generate ok [] m =
  Val (if ok 0%nat && ok 1%nat
       then Some {| t_m := m; t_lookup := replicate (Z.to_nat m) (-1) |} else None).
Proof. unfold maglev_table_generate. by destruct (ok 0%nat), (ok 1%nat). Qed.

Lemma maglev_table_lookup_Val t key :
  0 < t_m t < 2 ^ 32 → length (t_lookup t) = Z.to_nat (t_m t) →
  ∃ x, maglev_table_lookup t key = Val x ∧ x ∈ t_lookup t.
Proof.
  intros Hm Hl. unfold maglev_table_lookup, umod, u32.
  rewrite decide_False, bind_Val by lia.
  pose proof (Z.mod_pos_bound (flow_hash key) (t_m t) ltac:(lia)).
  rewrite (Z.mod_small (_ mod t_m t)) by lia.
  destruct (rd_lt (t_lookup t) (Z.to_nat (flow_hash key mod t_m t))) as (x & Hx & ->); [lia|].
  exists x. split; [done|]. by eapply list_elem_of_lookup_2.
Qed.

(** Any table the generator returns, looked up with any key. *)
Lemma maglev_lookup_spec ok backends m t key :
  Z.prime m → 2 < m < 2 ^ 32 → Forall view_ok backends →
  maglev_table_generate ok backends m = Val (Some t) →
  ∃ x, maglev_table_lookup t key = Val x ∧
    (backends = [] ∧ x = -1 ∨ x ∈ v_id <$> backends).
Proof.
  intros Hp Hm Hok Hgen. destruct (decide (backends = [])) as [->|Hne].
  - rewrite maglev_table_generate_empty in Hgen.
    destruct (ok 0%nat && ok 1%nat); [|done]. injection Hgen as <-.
    destruct (maglev_table_lookup_Val {| t_m := m; t_lookup := replicate (Z.to_nat m) (-1) |} key)
      as (x & Hx & Hin); [simpl; lia|apply length_replicate|].
    exists x. split; [done|left]. simpl in Hin. by apply elem_of_replicate in Hin as [-> _].
  - rewrite maglev_table_generate_spec in Hgen by done.
    destruct (generate_allocs ok); [|done]. injection Hgen as <-.
    destruct (maglev_reference_props backends m) as (Hl & Hall & _); [done..|].
    destruct (maglev_table_lookup_Val {| t_m := m; t_lookup := maglev_reference backends m |} key)
      as (x & Hx & Hin); [simpl; lia|done|].
    exists x. split; [done|right]. 
    simpl in Hin. rewrite Forall_forall in Hall. by apply Hall.
Qed.
End TableTheorems.

(** The identity string that seeds a backend's permutation is built without
    truncation and identifies the backend: two backends have the same string
    exactly when they have the same address and port. *)
Theorem backend_name_identifies v1 v2
    (Hok1 : view_ok v1) (Hok2 : view_ok v2)
    (Ha1 : 0 ≤ v_addr v1 < 2 ^ 32) (Ha2 : 0 ≤ v_addr v2 < 2 ^ 32) :
  ∃ n1 n2, backend_name v1 = Val n1 ∧ backend_name v2 = Val n2 ∧
    (n1 = n2 ↔ v_addr v1 = v_addr v2 ∧ v_port v1 = v_port v2).
Proof.
  rewrite !backend_name_spec by done. do 2 eexists. split; [done|split; [done|]].
  destruct Hok1, Hok2. split; [by apply ip_port_text_inj_aux|by intros [-> ->]].
Qed.

(** ** Snapshots *)

Lemma s32_small z : 0 ≤ z < 2 ^ 31 → s32 z = z.
Proof. intros. unfold s32. rewrite Z.mod_small; lia. Qed.

Lemma find_by_id_Some bs id v :
  Forall view_ok bs → find_by_id bs id = Some v → v ∈ bs ∧ v_id v = id.
Proof.
  induction 1 as [|w bs [Hw _] _ IH]; simpl; [done|].
  case_decide as E; [intros [= <-]; rewrite s32_small in E by done; split; [left|done]|].
  intros [? ?]%IH. split; [by right|done].
Qed.

Lemma find_by_id_None bs id :
  Forall view_ok bs → find_by_id bs id = None ↔ id ∉ v_id <$> bs.
Proof.
  induction 1 as [|w bs [Hw _] _ IH]; simpl; [split; [intros _; apply not_elem_of_nil|done]|].
  rewrite not_elem_of_cons. rewrite s32_small by done. case_decide; naive_solver.
Qed.

Lemma find_by_id_is_Some bs id :
  Forall view_ok bs → id ∈ v_id <$> bs → ∃ v, find_by_id bs id = Some v ∧ v ∈ bs ∧ v_id v = id.
Proof.
  intros Hok Hin. destruct (find_by_id bs id) as [v|] eqn:E.
  - exists v. split; [done|]. by apply find_by_id_Some.
  - by apply find_by_id_None in E.
Qed.

Section SnapshotTheorems.
Context {xx : XXHash}.

Lemma routing_snapshot_create_inv ok routable candidates m generation snap :
  routing_snapshot_create ok routable candidates m generation = Val (Some snap) →
  ∃ t, maglev_table_generate ok candidates m = Val (Some t) ∧
    snap = {| s_table := t; s_backends := routable; s_generation := generation |}.
Proof.
  unfold routing_snapshot_create. intros ([t|] & Ht & H)%bind_Val_inv; [|done].
  exists t. split; [done|]. destruct (ok 6%nat); [|done]. simpl in H.
  case_decide; [destruct (ok 7%nat); [|done]|destruct routable; [|simpl in *; lia]]; simplify_eq/=; done.
Qed.

(** A snapshot whose candidates are all routable resolves every flow: the
    table lookup stays inside the array, answers -1 only when there is no
    candidate, and otherwise names a candidate which the snapshot's own backend
    list resolves. *)
Theorem routing_snapshot_resolves ok routable candidates m generation snap key
    (Hprime : Z.prime m) (Hm : 2 < m < 2 ^ 32)
    (Hr : Forall view_ok routable) (Hc : Forall view_ok candidates)
    (Hsub : (v_id <$> candidates) ⊆ (v_id <$> routable))
    (Hcreate : routing_snapshot_create ok routable candidates m generation = Val (Some snap)) :
  ∃ id, maglev_table_lookup (s_table snap) key = Val id ∧
    (candidates = [] ∧ id = -1 ∨
     id ∈ v_id <$> candidates ∧
     ∃ v, routing_snapshot_find_backend snap id = Some v ∧ v ∈ routable ∧ v_id v = id).
Proof.
  apply routing_snapshot_create_inv in Hcreate as (t & Ht & ->).
  destruct (maglev_lookup_spec ok candidates m t key) as (id & Hid & Hcase); [done..|].
  exists id. split; [done|]. destruct Hcase as [?|Hin]; [by left|right].
  split; [done|]. apply find_by_id_is_Some; [done|]. by apply Hsub.
Qed.
End SnapshotTheorems.

(** A composite table size is not merely slow: with [m = 4] a backend whose skip
    is 2 reaches two slots only, and once they are taken its probe loop runs for
    ever, whatever the fuel.  The daemon checks primality before it generates a
    table. *)
Lemma composite_m_probe_diverges fuel j :
  0 ≤ j → probe fuel [7; -1; 7; -1] 0 2 4 j (perm_slot 0 2 4 j) = NoFuel.
Proof.
  revert j. induction fuel as [|fuel IH]; intros j Hj; [done|].
  assert (perm_slot 0 2 4 j = 0 ∨ perm_slot 0 2 4 j = 2) as Hc.
  { unfold perm_slot, u32, u64. Z.to_euclidean_division_equations; lia. }
  cbn [probe]. assert (rd [7; -1; 7; -1] (Z.to_nat (perm_slot 0 2 4 j)) = Val 7) as ->.
  { by destruct Hc as [-> | ->]. }
  rewrite bind_Val. cbv beta. rewrite decide_True by done. apply IH.
  unfold u32. apply Z.mod_pos_bound. lia.
Qed.

(** ** Witnesses *)

Definition sample_views : list backend_view :=
  [ {| v_id := 0; v_addr := 184574730; v_port := 9000; v_mac := [2; 0; 0; 0; 0; 11] |};
    {| v_id := 2; v_addr := 201351946; v_port := 9000; v_mac := [2; 0; 0; 0; 0; 12] |};
    {| v_id := 1; v_addr := 218129162; v_port := 9000; v_mac := [2; 0; 0; 0; 0; 13] |} ].

Lemma sample_views_ok : Forall view_ok sample_views.
Proof. unfold view_ok. repeat constructor; simpl; lia. Qed.

Lemma prime_13 : Z.prime 13.
Proof. apply maglev_is_prime_true; [lia|by vm_compute]. Qed.

Lemma maglev_table_generate_reference_witness :
  maglev_table_generate (xx := sample_hash) (λ _, true) sample_views 13 =
    Val (Some {| t_m := 13; t_lookup := [2; 0; 1; 0; 2; 1; 0; 1; 1; 0; 0; 2; 2] |}) ∧
  maglev_table_generate (xx := sample_hash) (λ i, negb (i =? 4)%nat) sample_views 13 = Val None ∧
  maglev_reference (xx := sample_hash) sample_views 13 = [2; 0; 1; 0; 2; 1; 0; 1; 1; 0; 0; 2; 2].
Proof.
  assert (maglev_reference (xx := sample_hash) sample_views 13 =
          [2; 0; 1; 0; 2; 1; 0; 1; 1; 0; 0; 2; 2]) as E by (vm_compute; reflexivity).
  split; [|split; [|exact E]].
  - rewrite <- E. apply (maglev_table_generate_reference (λ _, true) sample_views 13);
      [apply prime_13|lia|apply sample_views_ok|done].
  - apply (maglev_table_generate_reference (λ i, negb (i =? 4)%nat) sample_views 13);
      [apply prime_13|lia|apply sample_views_ok|done].
Defined.

Lemma sample_views_NoDup : NoDup (v_id <$> sample_views).
Proof. apply (bool_decide_unpack _). by vm_compute. Qed.

Lemma maglev_table_full_balanced_witness :
  ∃ t, maglev_table_generate (xx := sample_hash) (λ _, true) sample_views 13 = Val (Some t) ∧
    length (t_lookup t) = 13%nat ∧
    ∀ v, v ∈ sample_views → cnt (v_id v) (t_lookup t) = 4%nat ∨ cnt (v_id v) (t_lookup t) = 5%nat.
Proof.
  eexists. split; [vm_compute; reflexivity|].
  edestruct (maglev_table_full_balanced (xx := sample_hash) (λ _, true) sample_views 13)
    as (_ & Hl & _ & Hb);
    [apply prime_13|lia|apply sample_views_ok|apply sample_views_NoDup|done|vm_compute; reflexivity|].
  split; [exact Hl|exact Hb].
Defined.

Lemma maglev_table_order_independent_witness :
  maglev_table_generate (xx := sample_hash) (λ _, true) sample_views 13 =
  maglev_table_generate (xx := sample_hash) (λ _, true) (reverse sample_views) 13.
Proof.
  apply maglev_table_order_independent; [apply sample_views_NoDup|].
  symmetry. apply reverse_Permutation.
Defined.

Definition sample_key : flow_key :=
  {| k_src_ip := 33579786; k_dst_ip := 1677746954;
     k_src_port := 16540; k_dst_port := 36895; k_proto := 17 |}.

(** Backend 1 is routable but drained out of the candidates. *)
Lemma routing_snapshot_resolves_witness :
  ∃ snap id, routing_snapshot_create (xx := sample_hash) (λ _, true) sample_views
      (take 2 sample_views) 13 1 = Val (Some snap) ∧
    maglev_table_lookup (xx := sample_hash) (s_table snap) sample_key = Val id ∧
    is_Some (routing_snapshot_find_backend snap id) ∧ id ∈ v_id <$> take 2 sample_views.
Proof.
  destruct (routing_snapshot_create (xx := sample_hash) (λ _, true) sample_views
    (take 2 sample_views) 13 1) as [[snap|]| |] eqn:E; [|vm_compute in E; discriminate E..].
  exists snap.
  destruct (routing_snapshot_resolves (xx := sample_hash) (λ _, true) sample_views
    (take 2 sample_views) 13 1 snap sample_key) as (id & Hid & [[Hno _]|(Hin & v & Hv & _)]);
    [apply prime_13|lia|apply sample_views_ok|apply Forall_take, sample_views_ok| |exact E|done|].
  - rewrite fmap_take. intros x. apply subseteq_take.
  - exists id. split; [done|]. split; [exact Hid|]. split; [by exists v|done].
Defined.

Lemma backend_name_identifies_witness :
  ∃ n1 n2, backend_name (nth 0 sample_views (Build_backend_view 0 0 0 [])) = Val n1 ∧
    backend_name (nth 1 sample_views (Build_backend_view 0 0 0 [])) = Val n2 ∧ n1 ≠ n2.
Proof.
  destruct (backend_name_identifies (nth 0 sample_views (Build_backend_view 0 0 0 []))
    (nth 1 sample_views (Build_backend_view 0 0 0 []))) as (n1 & n2 & H1 & H2 & Hiff);
    [unfold view_ok; simpl; lia..|].
  exists n1, n2. split; [done|split; [done|]]. intros E%Hiff. by destruct E.
Defined.
