(* ===== verification/Conntrack.v ===== *)
(** * The connection-tracking table

    [src/src/conntrack/conntrack.c] and [src/src/conntrack/reaper.c]: a chained
    hash table over a preallocated slab, with the reaper that sweeps a bounded
    number of buckets per timer tick.

    Pointers into the slab are slab indices, NULL is [None]; [buckets], [slab]
    and the links are mutated the way the C code mutates them, the [link]
    pointer-to-pointer of the sweep included.  The abstract side is a finite map
    from flow keys to the pinned backend and the last-seen time, and every
    operation is proved to implement the corresponding map operation. *)

From Stdlib Require Import Lia.
From stdpp Require Import base list numbers gmap.
From S2P Require Import Prelude Double Net Hash.
Import Flow.

Local Open Scope Z_scope.

(** ** Data *)

Record conntrack_entry := {
  e_key : flow_key;
  e_backend_id : Z;
  e_last_seen_ns : Z;
  e_next : option nat;
}.

Record conntrack_table := {
  ct_buckets : list (option nat);
  ct_bucket_count : Z;
  ct_slab : list conntrack_entry;
  ct_free_list : option nat;
  ct_sweep_cursor : Z;
  ct_active : Z;
}.

Definition set_buckets (bs : list (option nat)) (ct : conntrack_table) : conntrack_table :=
  {| ct_buckets := bs; ct_bucket_count := ct_bucket_count ct; ct_slab := ct_slab ct;
     ct_free_list := ct_free_list ct; ct_sweep_cursor := ct_sweep_cursor ct;
     ct_active := ct_active ct |}.

Definition set_slab (slab : list conntrack_entry) (ct : conntrack_table) : conntrack_table :=
  {| ct_buckets := ct_buckets ct; ct_bucket_count := ct_bucket_count ct; ct_slab := slab;
     ct_free_list := ct_free_list ct; ct_sweep_cursor := ct_sweep_cursor ct;
     ct_active := ct_active ct |}.

Definition set_free_list (p : option nat) (ct : conntrack_table) : conntrack_table :=
  {| ct_buckets := ct_buckets ct; ct_bucket_count := ct_bucket_count ct; ct_slab := ct_slab ct;
     ct_free_list := p; ct_sweep_cursor := ct_sweep_cursor ct; ct_active := ct_active ct |}.

Definition set_sweep_cursor (c : Z) (ct : conntrack_table) : conntrack_table :=
  {| ct_buckets := ct_buckets ct; ct_bucket_count := ct_bucket_count ct; ct_slab := ct_slab ct;
     ct_free_list := ct_free_list ct; ct_sweep_cursor := c; ct_active := ct_active ct |}.

Definition set_active (n : Z) (ct : conntrack_table) : conntrack_table :=
  {| ct_buckets := ct_buckets ct; ct_bucket_count := ct_bucket_count ct; ct_slab := ct_slab ct;
     ct_free_list := ct_free_list ct; ct_sweep_cursor := ct_sweep_cursor ct; ct_active := n |}.

Definition set_next (p : option nat) (e : conntrack_entry) : conntrack_entry :=
  {| e_key := e_key e; e_backend_id := e_backend_id e; e_last_seen_ns := e_last_seen_ns e;
     e_next := p |}.

Definition set_last_seen (t : Z) (e : conntrack_entry) : conntrack_entry :=
  {| e_key := e_key e; e_backend_id := e_backend_id e; e_last_seen_ns := t; e_next := e_next e |}.

(** ** The sizing expression *)

(** [(size_t)a]; undefined out of range. *)
Definition size_of_double (a : Z * Z) : out Z :=
  let t := a.1 * 2 ^ Z.max 0 a.2 / 2 ^ Z.max 0 (- a.2) in
  if decide (t < 2 ^ 64) then Val t else Undef.

(** The literal 0.75. *)
Definition three_quarters : Z * Z := (3, -2).

(** ** Creation *)

Fixpoint next_pow2_loop (fuel : nat) (p x : Z) : out Z :=
  match fuel with
  | O => NoFuel
  | S fuel => if decide (p < x) then next_pow2_loop fuel (u64 (Z.shiftl p 1)) x else Val p
  end.

(** [p] takes 64 values before it wraps to 0. *)
Definition next_pow2 (x : Z) : out Z := next_pow2_loop 65 1 x.

(** [sizeof(struct conntrack_entry)]: 13 bytes of packed key, padding, the id,
    padding, the time and the link. *)
Definition sizeof_entry : Z := 40.

(** The loop that threads the free list through the slab. *)
Fixpoint link_slab (n : nat) (i max_flows : Z) (slab : list conntrack_entry) :
    out (list conntrack_entry) :=
  match n with
  | O => Val slab
  | S n =>
      e ← rd slab (Z.to_nat i);
      slab ← wr slab (Z.to_nat i)
               (set_next (if decide (i + 1 < max_flows) then Some (Z.to_nat (i + 1)) else None) e);
      link_slab n (i + 1) max_flows slab
  end.

(** [ok i] is the success of the i-th allocation and [junk] the content of the
    uninitialised slab. *)
Definition conntrack_create (ok : nat → bool) (junk : nat → conntrack_entry) (max_flows : Z) :
    out (option conntrack_table) :=
  if negb (ok 0%nat) then Val None
  else
    d ← size_of_double (double_div (double_of max_flows) three_quarters);
    bucket_count ← next_pow2 (u64 (d + 1));
    if negb (ok 1%nat) || (bool_decide (0 < max_flows) && negb (ok 2%nat)) then Val None
    else
      let cells := Z.to_nat (u64 (sizeof_entry * max_flows) / sizeof_entry) in
      slab ← link_slab (Z.to_nat max_flows) 0 max_flows (junk <$> seq 0 cells);
      Val (Some {| ct_buckets := replicate (Z.to_nat bucket_count) None;
                   ct_bucket_count := bucket_count;
                   ct_slab := slab;
                   ct_free_list := if decide (0 < max_flows) then Some 0%nat else None;
                   ct_sweep_cursor := 0;
                   ct_active := 0 |}).

(** ** Operations *)

Section Operations.
Context {xx : XXHash}.

(** [(size_t)(flow_hash(key) & (ct->bucket_count - 1))] *)
Definition bucket_of (bucket_count : Z) (key : flow_key) : nat :=
  Z.to_nat (Z.land (flow_hash key) (u64 (bucket_count - 1))).

(** The chain walk of [conntrack_lookup]; the result is the index of the entry
    that matches. *)
Fixpoint find_entry (fuel : nat) (slab : list conntrack_entry) (p : option nat) (key : flow_key) :
    out (option nat) :=
  match fuel, p with
  | O, _ => NoFuel
  | _, None => Val None
  | S fuel, Some i =>
      e ← rd slab i;
      if key_eqb (e_key e) key then Val (Some i) else find_entry fuel slab (e_next e) key
  end.

(** [Some b] is the return value 1 with [*out_backend_id = b], [None] is 0. *)
Definition conntrack_lookup (ct : conntrack_table) (key : flow_key) (now_ns : Z) :
    out (conntrack_table * option Z) :=
  head ← rd (ct_buckets ct) (bucket_of (ct_bucket_count ct) key);
  hit ← find_entry (S (length (ct_slab ct))) (ct_slab ct) head key;
  match hit with
  | None => Val (ct, None)
  | Some i =>
      e ← rd (ct_slab ct) i;
      slab ← wr (ct_slab ct) i (set_last_seen now_ns e);
      Val (set_slab slab ct, Some (e_backend_id e))
  end.

Definition conntrack_insert (ct : conntrack_table) (key : flow_key) (backend_id now_ns : Z) :
    out (conntrack_table * Z) :=
  match ct_free_list ct with
  | None => Val (ct, -1)
  | Some i =>
      e ← rd (ct_slab ct) i;
      let ct := set_free_list (e_next e) ct in
      let idx := bucket_of (ct_bucket_count ct) key in
      head ← rd (ct_buckets ct) idx;
      slab ← wr (ct_slab ct) i {| e_key := key; e_backend_id := backend_id;
                                  e_last_seen_ns := now_ns; e_next := head |};
      buckets ← wr (ct_buckets ct) idx (Some i);
      let ct := set_buckets buckets (set_slab slab ct) in
      Val (set_active (u64 (ct_active ct + 1)) ct, 0)
  end.

(** [struct conntrack_entry **link]: the address of a bucket head or of the
    [next] field of an entry. *)
Inductive link := LBucket (idx : nat) | LNext (i : nat).

Definition read_link (ct : conntrack_table) (l : link) : out (option nat) :=
  match l with
  | LBucket idx => rd (ct_buckets ct) idx
  | LNext i => e_next <$> rd (ct_slab ct) i
  end.

Definition write_link (ct : conntrack_table) (l : link) (p : option nat) : out conntrack_table :=
  match l with
  | LBucket idx => bs ← wr (ct_buckets ct) idx p; Val (set_buckets bs ct)
  | LNext i =>
      e ← rd (ct_slab ct) i;
      slab ← wr (ct_slab ct) i (set_next p e);
      Val (set_slab slab ct)
  end.

(** [now_ns - e->last_seen_ns > timeout], the subtraction modulo 2^64. *)
Definition expired (now_ns tcp_timeout_ns udp_timeout_ns : Z) (proto last_seen_ns : Z) : bool :=
  let timeout := if decide (proto = IPPROTO_TCP) then tcp_timeout_ns else udp_timeout_ns in
  bool_decide (u64 (now_ns - last_seen_ns) > timeout).

Section Reap.
(** The callback and its context; [None] is a NULL callback. *)
Context {C : Type} (on_evict : option (Z → C → out C)).

Definition call_evict (backend_id : Z) (ctx : C) : out C :=
  match on_evict with Some f => f backend_id ctx | None => Val ctx end.

(** [while ( *link != NULL)] *)
Fixpoint reap_chain (fuel : nat) (ct : conntrack_table) (now_ns tcp udp : Z) (l : link)
    (reaped : Z) (ctx : C) : out (conntrack_table * Z * C) :=
  match fuel with
  | O => NoFuel
  | S fuel =>
      p ← read_link ct l;
      match p with
      | None => Val (ct, reaped, ctx)
      | Some i =>
          e ← rd (ct_slab ct) i;
          if expired now_ns tcp udp (k_proto (e_key e)) (e_last_seen_ns e) then
            ct ← write_link ct l (e_next e);
            e' ← rd (ct_slab ct) i;
            slab ← wr (ct_slab ct) i (set_next (ct_free_list ct) e');
            let ct := set_free_list (Some i) (set_slab slab ct) in
            let ct := set_active (u64 (ct_active ct - 1)) ct in
            ctx ← call_evict (e_backend_id e) ctx;
            reap_chain fuel ct now_ns tcp udp l (u64 (reaped + 1)) ctx
          else reap_chain fuel ct now_ns tcp udp (LNext i) reaped ctx
      end
  end.

(** [for (n = 0; n < buckets_to_scan; n++)] *)
Fixpoint reap_buckets (n : nat) (ct : conntrack_table) (now_ns tcp udp : Z) (reaped : Z) (ctx : C) :
    out (conntrack_table * Z * C) :=
  match n with
  | O => Val (ct, reaped, ctx)
  | S n =>
      let idx := ct_sweep_cursor ct in
      c ← umod (u64 (idx + 1)) (ct_bucket_count ct);
      let ct := set_sweep_cursor c ct in
      '(ct, reaped, ctx) ← reap_chain (S (length (ct_slab ct))) ct now_ns tcp udp
                             (LBucket (Z.to_nat idx)) reaped ctx;
      reap_buckets n ct now_ns tcp udp reaped ctx
  end.

Definition conntrack_reap_slice (ct : conntrack_table)
    (now_ns tcp_timeout_ns udp_timeout_ns max_buckets_this_tick : Z) (ctx : C) :
    out (conntrack_table * Z * C) :=
  let buckets_to_scan :=
    if decide (max_buckets_this_tick > ct_bucket_count ct) then ct_bucket_count ct
    else max_buckets_this_tick in
  reap_buckets (Z.to_nat buckets_to_scan) ct now_ns tcp_timeout_ns udp_timeout_ns 0 ctx.

(** The expiration count read from the timerfd is discarded. *)
Definition reaper_on_timer_fired (ct : conntrack_table)
    (now_ns tcp_timeout_ns udp_timeout_ns buckets_per_tick : Z) (ctx : C) :
    out (conntrack_table * Z * C) :=
  conntrack_reap_slice ct now_ns tcp_timeout_ns udp_timeout_ns buckets_per_tick ctx.
End Reap.

Definition conntrack_bucket_count (ct : conntrack_table) : Z := ct_bucket_count ct.

Definition conntrack_active_flows (ct : conntrack_table) : Z := ct_active ct.
End Operations.

(** The [it_value] and [it_interval] of the sweep timer, as seconds and
    nanoseconds. *)
Definition reaper_interval (interval_ms : Z) : Z * Z :=
  (interval_ms / 1000, interval_ms mod 1000 * 1000000).

(** ** Chains

    [seg slab p l q]: following [next] from [p] visits exactly the nodes of [l]
    and arrives at [q].  A node is a slab index with what the entry says. *)

Abbreviation conn := (flow_key * (Z * Z))%type.
Abbreviation node := (nat * conn)%type.

Definition e_conn (e : conntrack_entry) : conn := (e_key e, (e_backend_id e, e_last_seen_ns e)).

Fixpoint seg (slab : list conntrack_entry) (p : option nat) (l : list node) (q : option nat) : Prop :=
  match l with
  | [] => p = q
  | (i, d) :: l => p = Some i ∧ ∃ e, slab !! i = Some e ∧ e_conn e = d ∧ seg slab (e_next e) l q
  end.

Lemma seg_app slab p l1 l2 q :
  seg slab p (l1 ++ l2) q ↔ ∃ r, seg slab p l1 r ∧ seg slab r l2 q.
Proof.
  revert p. induction l1 as [|[i d] l1 IH]; intros p; simpl; [naive_solver|].
  split.
  - intros (-> & e & He & Hd & (r & ? & ?)%IH). naive_solver.
  - intros (r & (-> & e & He & Hd & ?) & ?). split; [done|]. exists e.
    split_and!; [done..|]. apply IH. eauto.
Qed.

Lemma seg_frame slab p l q i e :
  seg slab p l q → i ∉ l.*1 → seg (<[i:=e]> slab) p l q.
Proof.
  revert p. induction l as [|[j d] l IH]; intros p; simpl; [done|].
  intros (-> & e' & He & Hd & Hs) [Hij Hi]%not_elem_of_cons. split; [done|].
  exists e'. rewrite list_lookup_insert_ne by done. auto.
Qed.

Lemma seg_lookup slab p l q i d :
  seg slab p l q → (i, d) ∈ l → ∃ e, slab !! i = Some e ∧ e_conn e = d.
Proof.
  revert p. induction l as [|[j d'] l IH]; intros p; simpl; [by intros _ ?%not_elem_of_nil|].
  intros (-> & e' & He & Hd & Hs) [[= -> ->]|Hin]%elem_of_cons; eauto.
Qed.

(** Changing one entry but not its link changes the node only. *)
Lemma seg_set_conn slab p l1 i d l2 q e :
  seg slab p (l1 ++ (i, d) :: l2) q → i ∉ l1.*1 → i ∉ l2.*1 →
  (∀ e0, slab !! i = Some e0 → e_next e = e_next e0) →
  seg (<[i:=e]> slab) p (l1 ++ (i, e_conn e) :: l2) q.
Proof.
  rewrite !seg_app. intros (r & H1 & -> & e0 & He0 & _ & H2) Hi1 Hi2 Hn.
  exists (Some i). split; [by apply seg_frame|]. split; [done|].
  exists e. rewrite list_lookup_insert_eq by (by eapply lookup_lt_Some).
  split_and!; [done..|]. rewrite (Hn _ He0). by apply seg_frame.
Qed.

(** Redirecting the last link of a segment. *)
Lemma seg_set_last slab p l i d q q' e0 :
  seg slab p (l ++ [(i, d)]) q → i ∉ l.*1 → slab !! i = Some e0 →
  seg (<[i:=set_next q' e0]> slab) p (l ++ [(i, d)]) q'.
Proof.
  rewrite !seg_app. intros (r & H1 & -> & e & He & Hd & _) Hi Hl. simplify_eq.
  exists (Some i). split; [by apply seg_frame|]. split; [done|].
  exists (set_next q' e). rewrite list_lookup_insert_eq by (by eapply lookup_lt_Some). done.
Qed.

(** ** The concatenation of the buckets *)

Lemma concat_split {A} (cs : list (list A)) b l :
  cs !! b = Some l → concat cs ≡ₚ l ++ concat (delete b cs).
Proof.
  revert b. induction cs as [|c cs IH]; intros [|b] H; simplify_eq/=; [done|].
  rewrite (IH _ H). by rewrite !(assoc_L (++)), (Permutation_app_comm c).
Qed.

Lemma concat_insert_split {A} (cs : list (list A)) b l :
  (b < length cs)%nat → concat (<[b:=l]> cs) ≡ₚ l ++ concat (delete b cs).
Proof.
  revert b. induction cs as [|c cs IH]; intros [|b] Hb; simpl in *; try lia; [done|].
  rewrite IH by lia. by rewrite !(assoc_L (++)), (Permutation_app_comm c).
Qed.

Lemma elem_of_delete_ne {A} (cs : list A) b b' l :
  cs !! b' = Some l → b' ≠ b → l ∈ delete b cs.
Proof.
  intros Hl Hne. destruct (decide (b' < b)%nat).
  - apply list_elem_of_lookup_2 with b'. by rewrite list_lookup_delete_lt.
  - apply list_elem_of_lookup_2 with (b' - 1)%nat.
    rewrite list_lookup_delete_ge by lia. by replace (S (b' - 1)) with b' by lia.
Qed.

Lemma elem_of_concat {A} (cs : list (list A)) x : x ∈ concat cs ↔ ∃ b l, cs !! b = Some l ∧ x ∈ l.
Proof.
  rewrite list_elem_of_In, in_concat. split.
  - intros (l & Hl%list_elem_of_In & Hx%list_elem_of_In).
    apply list_elem_of_lookup in Hl as [b Hb]. eauto.
  - intros (b & l & Hb & Hx). exists l. rewrite <- !list_elem_of_In.
    split; [by eapply list_elem_of_lookup_2|done].
Qed.

(** ** The shape of a table: bucket chains and the free list partition the slab *)

Record shape (ct : conntrack_table) (cs : list (list node)) (fl : list node) : Prop := {
  sh_free : seg (ct_slab ct) (ct_free_list ct) fl None;
  sh_len : length (ct_buckets ct) = length cs;
  sh_seg b h l : ct_buckets ct !! b = Some h → cs !! b = Some l → seg (ct_slab ct) h l None;
  sh_nodes : (concat cs ++ fl).*1 ≡ₚ seq 0 (length (ct_slab ct));
}.

Lemma shape_NoDup ct cs fl : shape ct cs fl → NoDup (concat cs ++ fl).*1.
Proof. intros H. rewrite (sh_nodes _ _ _ H). apply NoDup_seq. Qed.

Lemma shape_disjoint ct cs fl b l :
  shape ct cs fl → cs !! b = Some l →
  NoDup l.*1 ∧ (∀ i, i ∈ l.*1 → i ∉ fl.*1) ∧
  ∀ i b' l', i ∈ l.*1 → b' ≠ b → cs !! b' = Some l' → i ∉ l'.*1.
Proof.
  intros Hsh Hl. pose proof (shape_NoDup _ _ _ Hsh) as Hnd.
  rewrite (concat_split cs b l Hl), <- (assoc_L (++)), fmap_app in Hnd.
  apply NoDup_app in Hnd as (Hnd & Hdis & _). split; [done|].
  setoid_rewrite fmap_app in Hdis. setoid_rewrite not_elem_of_app in Hdis.
  split; [intros i Hi; by apply Hdis|].
  intros i b' l' Hi Hne Hl' [[j d] [-> Hj]]%list_elem_of_fmap.
  destruct (Hdis _ Hi) as [Hn _]. apply Hn, list_elem_of_fmap. exists (j, d). split; [done|].
  apply list_elem_of_In, in_concat. exists l'. rewrite <- !list_elem_of_In.
  split; [by eapply elem_of_delete_ne|done].
Qed.

Lemma shape_length ct cs fl : shape ct cs fl → (length (concat cs) + length fl = length (ct_slab ct))%nat.
Proof.
  intros H. pose proof (Permutation_length (sh_nodes _ _ _ H)) as E.
  by rewrite length_fmap, length_app, length_seq in E.
Qed.

(** An update of the slab at a node of bucket [b], which rebuilds the chain of
    [b] as [l'] over the same node set, keeps the shape. *)
Lemma shape_update_bucket ct cs fl b l l' i e h' :
  shape ct cs fl → cs !! b = Some l → i ∈ l.*1 → l'.*1 = l.*1 →
  seg (<[i:=e]> (ct_slab ct)) h' l' None → ct_buckets ct !! b = Some h' →
  shape (set_slab (<[i:=e]> (ct_slab ct)) ct) (<[b:=l']> cs) fl.
Proof.
  intros Hsh Hl Hi Hfst Hseg Hh.
  destruct (shape_disjoint _ _ _ _ _ Hsh Hl) as (_ & Hfree & Hother).
  assert (b < length cs)%nat as Hb by (by eapply lookup_lt_Some).
  split; simpl.
  - apply seg_frame; [apply Hsh|by apply Hfree].
  - rewrite length_insert. apply Hsh.
  - intros b' h0 l0 Hh0. rewrite list_lookup_insert. case_decide as E.
    + destruct E as [<- _]. intros [= <-]. congruence.
    + intros Hl0. apply seg_frame; [by eapply sh_seg|]. eapply Hother; [done| |done]. naive_solver.
  - rewrite concat_insert_split by done. rewrite length_insert, <- (sh_nodes _ _ _ Hsh).
    rewrite (concat_split cs b l Hl). rewrite !fmap_app. by rewrite Hfst.
Qed.

(** ** The walk of a bucket *)

Section Walk.
Context {xx : XXHash}.

Lemma find_entry_spec fuel slab p l key :
  seg slab p l None → (length l < fuel)%nat → key_ok key → Forall (λ nd, key_ok nd.2.1) l →
  find_entry fuel slab p key =
  Val (fst <$> (snd <$> list_find (λ nd : node, nd.2.1 = key) l)).
Proof.
  revert fuel p. induction l as [|[i d] l IH]; intros [|fuel] p; simpl; try lia.
  - by intros -> _ _ _.
  - intros (-> & e & He & <- & Hs) Hf Hk [Hk1 Hk2]%Forall_cons. simpl in Hk1.
    rewrite (rd_Some slab i e He), bind_Val. cbv beta.
    rewrite key_eqb_eq by done. simpl. destruct (decide (e_key e = key)) as [E|E].
    + by rewrite bool_decide_true.
    + rewrite bool_decide_false by done. rewrite IH by (done || lia).
      destruct (list_find _ l) as [[? ?]|]; done.
Qed.
End Walk.

(** ** The abstract flow table *)

Abbreviation flows := (gmap flow_key (Z * Z)).

Section Invariant.
Context {xx : XXHash}.

Record ct_inv (ct : conntrack_table) (cs : list (list node)) (fl : list node) : Prop := {
  inv_shape : shape ct cs fl;
  inv_pow2 : ∃ k, 0 ≤ k ≤ 63 ∧ ct_bucket_count ct = 2 ^ k;
  inv_len : Z.of_nat (length cs) = ct_bucket_count ct;
  inv_bucket b l nd : cs !! b = Some l → nd ∈ l →
    bucket_of (ct_bucket_count ct) nd.2.1 = b ∧ key_ok nd.2.1;
  inv_cursor : 0 ≤ ct_sweep_cursor ct < ct_bucket_count ct;
  inv_active : ct_active ct = Z.of_nat (length (concat cs));
  inv_slab : Z.of_nat (length (ct_slab ct)) < 2 ^ 63;
}.

(** The table [ct] holds exactly the flows of [m]. *)
Definition ct_rep (ct : conntrack_table) (m : flows) : Prop :=
  ∃ cs fl, ct_inv ct cs fl ∧ map_to_list m ≡ₚ (concat cs).*2.

Lemma bucket_of_lt k key : 0 ≤ k ≤ 63 → (bucket_of (2 ^ k) key < Z.to_nat (2 ^ k))%nat.
Proof.
  intros Hk. unfold bucket_of, u64.
  pose proof (Z.pow_pos_nonneg 2 k ltac:(lia) ltac:(lia)).
  assert (2 ^ k ≤ 2 ^ 63) by (apply Z.pow_le_mono_r; lia).
  rewrite Z.mod_small by lia.
  replace (2 ^ k - 1) with (Z.ones k) by (rewrite Z.ones_equiv; lia). rewrite Z.land_ones by lia.
  pose proof (Z.mod_pos_bound (flow_hash key) (2 ^ k) ltac:(lia)). lia.
Qed.

Lemma inv_bucket_lt ct cs fl key :
  ct_inv ct cs fl →
  ∃ h l, ct_buckets ct !! bucket_of (ct_bucket_count ct) key = Some h ∧
    cs !! bucket_of (ct_bucket_count ct) key = Some l ∧ seg (ct_slab ct) h l None.
Proof.
  intros Hinv. destruct (inv_pow2 _ _ _ Hinv) as (k & Hk & E).
  pose proof (bucket_of_lt k key Hk) as Hlt. rewrite <- E in Hlt.
  assert (Z.to_nat (ct_bucket_count ct) = length cs) as El
    by (rewrite <- (inv_len _ _ _ Hinv); lia).
  rewrite El in Hlt.
  destruct (lookup_lt_is_Some_2 _ _ Hlt) as [l Hl].
  destruct (lookup_lt_is_Some_2 (ct_buckets ct) (bucket_of (ct_bucket_count ct) key)) as [h Hh].
  { by rewrite (sh_len _ _ _ (inv_shape _ _ _ Hinv)). }
  exists h, l. split_and!; [done..|]. by eapply sh_seg; [apply Hinv|..].
Qed.

Lemma inv_concat_lookup ct cs fl nd :
  ct_inv ct cs fl → nd ∈ concat cs →
  key_ok nd.2.1 ∧ ∃ l, cs !! bucket_of (ct_bucket_count ct) nd.2.1 = Some l ∧ nd ∈ l.
Proof.
  intros Hinv (b & l & Hb & Hin)%elem_of_concat.
  destruct (inv_bucket _ _ _ Hinv b l nd) as [<- ?]; [done..|]. eauto.
Qed.

Lemma bucket_length_le ct cs fl b l :
  ct_inv ct cs fl → cs !! b = Some l → (length l ≤ length (ct_slab ct))%nat.
Proof.
  intros Hinv Hl. pose proof (shape_length _ _ _ (inv_shape _ _ _ Hinv)).
  pose proof (Permutation_length (concat_split cs b l Hl)) as E. rewrite length_app in E. lia.
Qed.

Lemma rep_active ct m : ct_rep ct m → conntrack_active_flows ct = Z.of_nat (size m).
Proof.
  intros (cs & fl & Hinv & Hm). unfold conntrack_active_flows. rewrite (inv_active _ _ _ Hinv).
  rewrite <- length_map_to_list, (Permutation_length Hm). by rewrite length_fmap.
Qed.
End Invariant.

(** ** Maps as lists of bindings *)

Section Bindings.
Context {A : Type}.
Implicit Types (m : gmap flow_key A) (L : list (flow_key * A)).

Lemma bindings_update m k v v' L :
  map_to_list m ≡ₚ (k, v) :: L → map_to_list (<[k:=v']> m) ≡ₚ (k, v') :: L.
Proof.
  intros Hm. assert (m !! k = Some v) as Hk.
  { apply elem_of_map_to_list. rewrite Hm. left. }
  rewrite <- insert_delete_eq, map_to_list_insert by apply lookup_delete_eq.
  rewrite <- map_to_list_delete in Hm by done. by apply Permutation_cons_inv in Hm as ->.
Qed.

Lemma bindings_partition m (P : flow_key * A → Prop) `{∀ x, Decision (P x)} L1 L2 :
  map_to_list m ≡ₚ L1 ++ L2 → Forall P L1 → Forall (λ x, ¬ P x) L2 →
  map_to_list (filter P m) ≡ₚ L1 ∧ map_to_list (filter (λ x, ¬ P x) m) ≡ₚ L2.
Proof.
  intros Hm H1 H2.
  assert (∀ Q : flow_key * A → Prop, ∀ `{∀ x, Decision (Q x)},
    map_to_list (filter Q m) ≡ₚ filter Q L1 ++ filter Q L2) as Hf.
  { intros Q ?. rewrite <- list.filter_app, <- Hm, map_filter_alt.
    apply map_to_list_to_map. apply (sublist_NoDup _ (map_to_list m).*1); [apply NoDup_fst_map_to_list|].
    apply fmap_sublist, sublist_filter. }
  split; rewrite Hf.
  - by rewrite (filter_Forall P L1), (filter_Forall_not P L2), app_nil_r.
  - rewrite (filter_Forall_not _ L1), (filter_Forall _ L2); [done..|].
    eapply Forall_impl; [done|]. tauto.
Qed.

Lemma bindings_split m (P : flow_key * A → Prop) `{∀ x, Decision (P x)} :
  map_to_list m ≡ₚ map_to_list (filter P m) ++ map_to_list (filter (λ x, ¬ P x) m).
Proof.
  destruct (bindings_partition m P (filter P (map_to_list m)) (filter (λ x, ¬ P x) (map_to_list m)))
    as [-> ->]; rewrite ?filter_app_complement; try done;
    apply Forall_forall; by intros x [? _]%list_elem_of_filter.
Qed.
End Bindings.

(** ** Lookup and insertion implement the map operations *)

Section LookupInsert.
Context {xx : XXHash}.

Lemma find_in_bucket ct cs fl m key l :
  ct_inv ct cs fl → map_to_list m ≡ₚ (concat cs).*2 →
  cs !! bucket_of (ct_bucket_count ct) key = Some l →
  match m !! key with
  | None => list_find (λ nd : node, nd.2.1 = key) l = None
  | Some v => ∃ i l1 l2, list_find (λ nd : node, nd.2.1 = key) l = Some (length l1, (i, (key, v))) ∧
                l = l1 ++ (i, (key, v)) :: l2
  end.
Proof.
  intros Hinv Hm Hl. destruct (list_find _ l) as [[j [i [k v]]]|] eqn:Hf.
  - apply list_find_Some in Hf as Hf'. destruct Hf' as (Hj & Hk & _). simpl in Hk. subst k.
    assert (m !! key = Some v) as ->.
    { apply elem_of_map_to_list. rewrite Hm. apply list_elem_of_fmap. exists (i, (key, v)).
      split; [done|]. apply elem_of_concat. do 2 eexists. split; [done|].
      by eapply list_elem_of_lookup_2. }
    exists i, (take j l), (drop (S j) l).
    rewrite length_take_le by (apply lookup_lt_Some in Hj; lia).
    split; [done|]. by rewrite take_drop_middle.
  - destruct (m !! key) as [v|] eqn:Hk; [|done]. exfalso.
    apply elem_of_map_to_list in Hk. rewrite Hm in Hk.
    apply list_elem_of_fmap in Hk as ([i d] & Hd & Hin). simpl in Hd. subst d.
    destruct (inv_concat_lookup _ _ _ _ Hinv Hin) as (_ & l' & Hl' & Hin').
    simpl in Hl'. rewrite Hl in Hl'. simplify_eq. apply list_find_None in Hf.
    rewrite Forall_forall in Hf. by apply (Hf _ Hin').
Qed.

Lemma keys_ok_bucket ct cs fl b l :
  ct_inv ct cs fl → cs !! b = Some l → Forall (λ nd : node, key_ok nd.2.1) l.
Proof.
  intros Hinv Hl. apply Forall_forall. intros nd Hnd.
  by destruct (inv_bucket _ _ _ Hinv b l nd).
Qed.

(** What no operation on entries changes. *)
Definition same_frame (ct ct' : conntrack_table) : Prop :=
  ct_bucket_count ct' = ct_bucket_count ct ∧ length (ct_slab ct') = length (ct_slab ct).

(** Refreshing the time of one entry. *)
Lemma refresh_rep ct cs fl m key l1 i b t l2 e now :
  ct_inv ct cs fl → map_to_list m ≡ₚ (concat cs).*2 →
  cs !! bucket_of (ct_bucket_count ct) key = Some (l1 ++ (i, (key, (b, t))) :: l2) →
  ct_slab ct !! i = Some e → e_conn e = (key, (b, t)) →
  ct_rep (set_slab (<[i:=set_last_seen now e]> (ct_slab ct)) ct) (<[key:=(b, now)]> m).
Proof.
  intros Hinv Hm Hl He Hd. set (idx := bucket_of (ct_bucket_count ct) key) in *.
  assert (e_conn (set_last_seen now e) = (key, (b, now))) as Hd'.
  { unfold e_conn in *. simpl. congruence. }
  destruct (shape_disjoint _ _ _ _ _ (inv_shape _ _ _ Hinv) Hl) as (Hnd & _).
  rewrite fmap_app, fmap_cons in Hnd. simpl in Hnd.
  apply NoDup_app in Hnd as (_ & Hn1 & [Hn2 _]%NoDup_cons).
  assert (i ∉ l1.*1) by (intros Hi; apply (Hn1 _ Hi); left).
  assert (idx < length cs)%nat by (by eapply lookup_lt_Some).
  destruct (inv_bucket_lt ct cs fl key Hinv) as (h & l & Hh & Hl' & Hseg).
  fold idx in Hh, Hl'. rewrite Hl in Hl'. injection Hl' as <-.
  pose proof (concat_split cs _ _ Hl) as Hcs.
  pose proof (concat_insert_split cs _ (l1 ++ (i, (key, (b, now))) :: l2) ltac:(done)) as Hcs'.
  exists (<[idx := l1 ++ (i, (key, (b, now))) :: l2]> cs), fl. split; [split; simpl; try apply Hinv|].
  - eapply shape_update_bucket; [apply Hinv|done| |by rewrite !fmap_app| |done].
    + rewrite fmap_app. apply elem_of_app. right. left.
    + rewrite <- Hd'. eapply seg_set_conn; [done..|]. intros e0 ?. by simplify_eq.
  - rewrite length_insert. apply Hinv.
  - intros b' l' nd. rewrite list_lookup_insert. case_decide as E; [|by apply (inv_bucket _ _ _ Hinv)].
    destruct E as [<- _]. intros [= <-] Hin.
    destruct (inv_bucket _ _ _ Hinv idx _ (i, (key, (b, t))) Hl) as [? ?]; [set_solver|].
    rewrite elem_of_app, elem_of_cons in Hin. destruct Hin as [Hin|[->|Hin]]; [|done|];
      eapply (inv_bucket _ _ _ Hinv); try done; set_solver.
  - rewrite (inv_active _ _ _ Hinv), Hcs, Hcs', !length_app. done.
  - rewrite length_insert. apply Hinv.
  - rewrite Hcs', fmap_app, fmap_app. simpl. rewrite <- Permutation_middle.
    apply (bindings_update m key (b, t)). rewrite Hm, Hcs, !fmap_app. simpl.
    by rewrite <- Permutation_middle.
Qed.

Lemma lookup_rep ct m key now :
  ct_rep ct m → key_ok key →
  match m !! key with
  | None => conntrack_lookup ct key now = Val (ct, None)
  | Some (b, _) => ∃ ct', conntrack_lookup ct key now = Val (ct', Some b) ∧
      ct_rep ct' (<[key:=(b, now)]> m) ∧ same_frame ct ct' ∧
      ct_sweep_cursor ct' = ct_sweep_cursor ct
  end.
Proof.
  intros (cs & fl & Hinv & Hm) Hk. unfold conntrack_lookup.
  destruct (inv_bucket_lt ct cs fl key Hinv) as (h & l & Hh & Hl & Hseg).
  rewrite (rd_Some _ _ _ Hh), bind_Val.
  rewrite (find_entry_spec _ _ _ l) by
    (done || (pose proof (bucket_length_le _ _ _ _ _ Hinv Hl); lia) || by eapply keys_ok_bucket).
  rewrite bind_Val. pose proof (find_in_bucket ct cs fl m key l Hinv Hm Hl) as Hf.
  destruct (m !! key) as [[b t]|] eqn:Hmk; [|by rewrite Hf].
  destruct Hf as (i & l1 & l2 & -> & ->). cbn.
  destruct (seg_lookup _ _ _ _ i (key, (b, t)) Hseg) as (e & He & Hd); [set_solver|].
  rewrite (rd_Some _ _ _ He), bind_Val, wr_lt by (by eapply lookup_lt_Some).
  rewrite bind_Val. assert (e_backend_id e = b) as -> by (unfold e_conn in Hd; congruence).
  eexists. split; [done|]. split; [by eapply refresh_rep|].
  by repeat split; simpl; rewrite ?length_insert.
Qed.

(** The new entry goes to the head of its bucket. *)
Lemma push_inv ct cs i d fl key b now h l :
  ct_inv ct cs ((i, d) :: fl) → key_ok key →
  let idx := bucket_of (ct_bucket_count ct) key in
  ct_buckets ct !! idx = Some h → cs !! idx = Some l →
  ∀ e, ct_slab ct !! i = Some e →
  ct_inv (set_active (u64 (ct_active ct + 1))
    (set_buckets (<[idx := Some i]> (ct_buckets ct))
      (set_slab (<[i := {| e_key := key; e_backend_id := b; e_last_seen_ns := now; e_next := h |}]>
                  (ct_slab ct)) (set_free_list (e_next e) ct))))
    (<[idx := (i, (key, (b, now))) :: l]> cs) fl.
Proof.
  intros Hinv Hk idx Hh Hl e He. pose proof (inv_shape _ _ _ Hinv) as Hsh.
  assert (idx < length cs)%nat by (by eapply lookup_lt_Some).
  pose proof (concat_split cs _ _ Hl) as Hcs.
  pose proof (concat_insert_split cs _ ((i, (key, (b, now))) :: l) ltac:(done)) as Hcs'.
  pose proof (shape_NoDup _ _ _ Hsh) as Hnd. rewrite fmap_app in Hnd.
  apply NoDup_app in Hnd as (_ & Hdis & Hnd). simpl in Hdis, Hnd.
  apply NoDup_cons in Hnd as [Hifl _].
  assert (∀ b' l', cs !! b' = Some l' → i ∉ l'.*1) as Hi.
  { intros b' l' Hl' Hin. apply (Hdis i); [|left]. apply list_elem_of_fmap in Hin as (nd & -> & Hin).
    apply list_elem_of_fmap. exists nd. split; [done|]. apply elem_of_concat. eauto. }
  assert (i < length (ct_slab ct))%nat by (by eapply lookup_lt_Some).
  pose proof (shape_length _ _ _ Hsh) as Hlen. simpl in Hlen.
  split; [split; simpl| apply Hinv | rewrite length_insert; apply Hinv | | apply Hinv | |
    simpl; rewrite length_insert; apply Hinv].
  - apply seg_frame; [|done]. destruct (sh_free _ _ _ Hsh) as (_ & e' & He' & _ & Hs).
    by simplify_eq.
  - rewrite !length_insert. apply Hsh.
  - intros b' h' l'. rewrite !list_lookup_insert. pose proof (sh_len _ _ _ Hsh) as Hbl.
    case_decide as E.
    + rewrite decide_True by lia. intros [= <-] [= <-]. split; [done|].
      eexists. rewrite list_lookup_insert_eq by done. split_and!; [done..|].
      apply seg_frame; [by eapply sh_seg|by eapply Hi].
    + rewrite decide_False by lia. intros ??. apply seg_frame; [by eapply sh_seg|by eapply Hi].
  - rewrite length_insert, Hcs', <- (sh_nodes _ _ _ Hsh), Hcs. simpl.
    rewrite !fmap_app. simpl. by rewrite Permutation_middle.
  - simpl. intros b' l' nd. rewrite list_lookup_insert.
    case_decide as E; [|by apply (inv_bucket _ _ _ Hinv)].
    destruct E as [<- _]. intros [= <-] [->|Hin]%elem_of_cons; [done|].
    by eapply (inv_bucket _ _ _ Hinv).
  - simpl. rewrite (inv_active _ _ _ Hinv), Hcs', Hcs. simpl. unfold u64.
    pose proof (inv_slab _ _ _ Hinv). rewrite Hcs in Hlen. rewrite Z.mod_small; lia.
Qed.

Lemma insert_rep ct m key b now :
  ct_rep ct m → key_ok key → m !! key = None →
  if decide (size m = length (ct_slab ct))
  then conntrack_insert ct key b now = Val (ct, -1)
  else ∃ ct', conntrack_insert ct key b now = Val (ct', 0) ∧
    ct_rep ct' (<[key:=(b, now)]> m) ∧ same_frame ct ct' ∧ ct_sweep_cursor ct' = ct_sweep_cursor ct.
Proof.
  intros (cs & fl & Hinv & Hm) Hk Hnew. pose proof (inv_shape _ _ _ Hinv) as Hsh.
  pose proof (sh_free _ _ _ Hsh) as Hfree. pose proof (shape_length _ _ _ Hsh) as Hlen.
  assert (size m = length (concat cs)) as ->.
  { rewrite <- length_map_to_list, (Permutation_length Hm). by rewrite length_fmap. }
  unfold conntrack_insert. destruct fl as [|[i d] fl]; simpl in *.
  { rewrite decide_True by lia. by rewrite Hfree. }
  destruct Hfree as (-> & e & He & _ & _). rewrite decide_False by lia.
  rewrite (rd_Some _ _ _ He), bind_Val. simpl.
  destruct (inv_bucket_lt ct cs ((i, d) :: fl) key Hinv) as (h & l & Hh & Hl & _).
  rewrite (rd_Some _ _ _ Hh), bind_Val, !wr_lt, !bind_Val by (by eapply lookup_lt_Some).
  eexists. split; [done|]. split; [|by repeat split; simpl; rewrite ?length_insert].
  exists (<[bucket_of (ct_bucket_count ct) key := (i, (key, (b, now))) :: l]> cs), fl.
  split; [by eapply push_inv|].
  rewrite concat_insert_split by (by eapply lookup_lt_Some).
  rewrite map_to_list_insert, Hm, (concat_split cs _ _ Hl) by done. done.
Qed.
End LookupInsert.

(** ** The sweep *)

(** [l] is the address of the link that follows the nodes [dn] of bucket [idx]. *)
Definition link_at (idx : nat) (dn : list node) (l : link) : Prop :=
  match l with
  | LBucket b => b = idx ∧ dn = []
  | LNext j => ∃ dn' d, dn = dn' ++ [(j, d)]
  end.

Definition same_rest (ct ct' : conntrack_table) : Prop :=
  same_frame ct ct' ∧ ct_free_list ct' = ct_free_list ct ∧
  ct_sweep_cursor ct' = ct_sweep_cursor ct ∧ ct_active ct' = ct_active ct ∧
  length (ct_buckets ct') = length (ct_buckets ct).

Lemma read_link_spec ct cs fl idx dn rest l :
  shape ct cs fl → cs !! idx = Some (dn ++ rest) → link_at idx dn l →
  ∃ p, read_link ct l = Val p ∧ seg (ct_slab ct) p rest None.
Proof.
  intros Hsh Hl Hat.
  destruct (lookup_lt_is_Some_2 (ct_buckets ct) idx) as [h Hh].
  { rewrite (sh_len _ _ _ Hsh). by eapply lookup_lt_Some. }
  pose proof (sh_seg _ _ _ Hsh _ _ _ Hh Hl) as Hseg.
  destruct l as [b|j]; simpl in *.
  - destruct Hat as [-> ->]. exists h. by rewrite (rd_Some _ _ _ Hh).
  - destruct Hat as (dn' & d & ->). rewrite <- (assoc_L (++)) in Hseg.
    apply seg_app in Hseg as (r & _ & -> & e & He & _ & Hs).
    exists (e_next e). by rewrite (rd_Some _ _ _ He).
Qed.

Lemma write_link_spec ct cs fl idx dn i d rest l :
  shape ct cs fl → cs !! idx = Some (dn ++ (i, d) :: rest) → link_at idx dn l →
  ∃ e ct1, ct_slab ct !! i = Some e ∧ e_conn e = d ∧
    write_link ct l (e_next e) = Val ct1 ∧ same_rest ct ct1 ∧ ct_slab ct1 !! i = Some e ∧
    seg (ct_slab ct1) (ct_free_list ct1) fl None ∧
    (∀ b h c, b ≠ idx → ct_buckets ct1 !! b = Some h → cs !! b = Some c → seg (ct_slab ct1) h c None) ∧
    (∀ h, ct_buckets ct1 !! idx = Some h → seg (ct_slab ct1) h (dn ++ rest) None).
Proof.
  intros Hsh Hl Hat. destruct (shape_disjoint _ _ _ _ _ Hsh Hl) as (Hnd & Hfree & Hother).
  destruct (lookup_lt_is_Some_2 (ct_buckets ct) idx) as [h Hh].
  { rewrite (sh_len _ _ _ Hsh). by eapply lookup_lt_Some. }
  pose proof (sh_seg _ _ _ Hsh _ _ _ Hh Hl) as Hseg. destruct l as [b|j]; simpl in Hat.
  - destruct Hat as [-> ->]. destruct Hseg as (-> & e & He & Hd & Hs).
    exists e, (set_buckets (<[idx:=e_next e]> (ct_buckets ct)) ct). unfold write_link.
    rewrite wr_lt, bind_Val by (by eapply lookup_lt_Some).
    split_and!; try done; [by repeat split; simpl; rewrite ?length_insert|apply Hsh| |]; simpl.
    + intros b h c Hb. rewrite list_lookup_insert_ne by done. apply Hsh.
    + intros h. rewrite list_lookup_insert_eq by (by eapply lookup_lt_Some). by intros [= <-].
  - destruct Hat as (dn' & dj & ->). apply seg_app in Hseg as (r & Hs1 & -> & e & He & Hd & Hs2).
    destruct (seg_lookup _ _ _ _ j dj Hs1) as (ej & Hej & _); [set_solver|].
    rewrite !fmap_app in Hnd. simpl in Hnd.
    apply NoDup_app in Hnd as ((_ & Hj & _)%NoDup_app & Hji & [_ _]%NoDup_cons).
    assert (j ∉ i :: rest.*1) as [Hne Hjr]%not_elem_of_cons by (apply Hji; set_solver).
    assert (j ∈ ((dn' ++ [(j, dj)]) ++ (i, d) :: rest).*1) as Hjin.
    { apply list_elem_of_fmap. exists (j, dj). split; [done|set_solver]. }
    exists e, (set_slab (<[j:=set_next (e_next e) ej]> (ct_slab ct)) ct). unfold write_link.
    rewrite (rd_Some _ _ _ Hej), bind_Val, wr_lt, bind_Val by (by eapply lookup_lt_Some).
    split_and!; try done; simpl.
    + by repeat split; simpl; rewrite ?length_insert.
    + by rewrite list_lookup_insert_ne.
    + apply seg_frame; [apply Hsh|by apply Hfree].
    + intros b h0 c Hb Hh0 Hc. apply seg_frame; [by eapply sh_seg|by eapply Hother].
    + intros h0 Hh0. simplify_eq. apply seg_app. exists (e_next e). split.
      * eapply seg_set_last; [done| |done]. intros Hin. apply (Hj j Hin). left.
      * by apply seg_frame.
Qed.

(** Unlinking a node and pushing it on the free list. *)
Lemma evict_shape ct cs fl idx dn i d rest l :
  shape ct cs fl → cs !! idx = Some (dn ++ (i, d) :: rest) → link_at idx dn l →
  ∃ e ct1, ct_slab ct !! i = Some e ∧ e_conn e = d ∧
    write_link ct l (e_next e) = Val ct1 ∧ same_rest ct ct1 ∧ ct_slab ct1 !! i = Some e ∧
    shape (set_free_list (Some i) (set_slab (<[i:=set_next (ct_free_list ct1) e]> (ct_slab ct1)) ct1))
      (<[idx:=dn ++ rest]> cs) ((i, d) :: fl).
Proof.
  intros Hsh Hl Hat. destruct (shape_disjoint _ _ _ _ _ Hsh Hl) as (Hnd & Hfree & Hother).
  destruct (write_link_spec _ _ _ _ _ _ _ _ _ Hsh Hl Hat)
    as (e & ct1 & He & Hd & Hw & Hsame & He1 & Hf1 & Ho1 & Hi1).
  exists e, ct1. split_and!; try done.
  assert (i ∈ (dn ++ (i, d) :: rest).*1) as Hin by (apply list_elem_of_fmap; exists (i, d); set_solver).
  assert (idx < length cs)%nat as Hidx by (by eapply lookup_lt_Some).
  assert (i ∉ (dn ++ rest).*1) as Hni.
  { rewrite fmap_app in Hnd. simpl in Hnd. rewrite <- Permutation_middle in Hnd.
    apply NoDup_cons in Hnd as [Hn _]. by rewrite fmap_app. }
  split; simpl.
  - split; [done|]. eexists. rewrite list_lookup_insert_eq by (by eapply lookup_lt_Some).
    split_and!; [done..|]. apply seg_frame; [done|by apply Hfree].
  - rewrite length_insert. rewrite <- (sh_len _ _ _ Hsh). apply Hsame.
  - intros b h c Hb. rewrite list_lookup_insert. case_decide as E.
    + destruct E as [<- _]. intros [= <-]. apply seg_frame; [by apply Hi1|done].
    + intros Hc. assert (b ≠ idx) by lia. apply seg_frame; [by eapply Ho1|by eapply Hother].
  - rewrite length_insert. destruct Hsame as [[_ ->] _]. rewrite <- (sh_nodes _ _ _ Hsh).
    rewrite concat_insert_split by done. rewrite (concat_split cs idx _ Hl).
    apply fmap_Permutation. rewrite <- !(assoc_L (++)). simpl. solve_Permutation.
Qed.

Section Sweep.
Context {C : Type} (on_evict : option (Z → C → out C)) (now tcp udp : Z).

(** The callbacks of a list of evictions, in order. *)
Fixpoint evict_all (evs : list conn) (ctx : C) : out C :=
  match evs with
  | [] => Val ctx
  | d :: evs => ctx ← call_evict on_evict d.2.1 ctx; evict_all evs ctx
  end.

Lemma evict_all_app evs1 evs2 ctx :
  evict_all (evs1 ++ evs2) ctx = (ctx ← evict_all evs1 ctx; evict_all evs2 ctx).
Proof.
  revert ctx. induction evs1 as [|d evs1 IH]; intros ctx; [done|]. simpl.
  destruct (call_evict _ _ _); simpl; [apply IH|done|done].
Qed.

Definition conn_expired (d : conn) : bool := expired now tcp udp (k_proto d.1) d.2.2.

Abbreviation gone := (filter (λ nd : node, conn_expired nd.2)).
Abbreviation kept := (filter (λ nd : node, ¬ conn_expired nd.2)).

Lemma split_expired nd l :
  conn_expired nd.2 = true → gone (nd :: l) = nd :: gone l ∧ kept (nd :: l) = kept l.
Proof.
  intros H. rewrite filter_cons_True, (filter_cons_False (λ nd : node, ¬ conn_expired nd.2)); [done|..];
    rewrite H; simpl; tauto.
Qed.

Lemma split_live nd l :
  conn_expired nd.2 = false → gone (nd :: l) = gone l ∧ kept (nd :: l) = nd :: kept l.
Proof.
  intros H. rewrite filter_cons_False, (filter_cons_True (λ nd : node, ¬ conn_expired nd.2)); [done|..];
    rewrite H; simpl; tauto.
Qed.

Lemma reap_chain_spec fuel ct cs fl idx dn rest l :
  shape ct cs fl → cs !! idx = Some (dn ++ rest) → link_at idx dn l →
  (length rest < fuel)%nat → Z.of_nat (length rest) ≤ ct_active ct < 2 ^ 64 →
  ∃ ct' fl', shape ct' (<[idx:=dn ++ kept rest]> cs) fl' ∧ same_frame ct ct' ∧
    ct_sweep_cursor ct' = ct_sweep_cursor ct ∧
    ct_active ct' = ct_active ct - Z.of_nat (length (gone rest)) ∧
    ∀ reaped ctx, 0 ≤ reaped → reaped + Z.of_nat (length rest) < 2 ^ 64 →
      reap_chain on_evict fuel ct now tcp udp l reaped ctx =
      (ctx ← evict_all (gone rest).*2 ctx; Val (ct', reaped + Z.of_nat (length (gone rest)), ctx)).
Proof.
  revert fuel ct cs fl dn l. induction rest as [|[i d] rest IH];
    intros [|fuel] ct cs fl dn l Hsh Hl Hat Hf Ha; try (simpl in Hf; lia).
  { destruct (read_link_spec _ _ _ _ _ _ _ Hsh Hl Hat) as (p & Hp & ->).
    exists ct, fl. rewrite list_insert_id by done. split_and!; try done.
    - rewrite filter_nil. simpl. lia.
    - intros reaped ctx _ _. cbn [reap_chain]. rewrite Hp, filter_nil, bind_Val. simpl. by rewrite Z.add_0_r. }
  destruct (read_link_spec _ _ _ _ _ _ _ Hsh Hl Hat) as (p & Hp & -> & e0 & He0 & Hd0 & _).
  destruct (conn_expired d) eqn:Hexp.
  - destruct (evict_shape _ _ _ _ _ _ _ _ _ Hsh Hl Hat) as (e & ct1 & He & Hd & Hw & Hsame & He1 & Hsh2).
    assert (e0 = e) as -> by congruence. subst d. simpl in Ha. destruct Hsame as ([Hbc Hsl] & Hfr & Hcur & Hact & _).
    set (ct2 := set_free_list _ _) in Hsh2.
    set (ct3 := set_active (u64 (ct_active ct2 - 1)) ct2).
    assert (ct_active ct3 = ct_active ct - 1) as Ha3.
    { simpl. rewrite Hact. unfold u64. rewrite Z.mod_small; lia. }
    destruct (IH fuel ct3 (<[idx:=dn ++ rest]> cs) ((i, e_conn e) :: fl) dn l)
      as (ct' & fl' & Hsh' & [Hbc' Hsl'] & Hcur' & Hact' & Heq).
    { by destruct Hsh2; split. }
    { by apply list_lookup_insert_eq, lookup_lt_is_Some; eexists. }
    { done. } { simpl in Hf. lia. } { lia. }
    destruct (split_expired (i, e_conn e) rest Hexp) as [-> ->].
    exists ct', fl'. rewrite list_insert_insert_eq in Hsh'. split_and!; [done| | | |].
    + split; [by rewrite Hbc'|]. rewrite Hsl'. simpl. by rewrite length_insert.
    + rewrite Hcur'. done.
    + rewrite Hact', Ha3. simpl. lia.
    + intros reaped ctx Hr1 Hr2. simpl in Hr2. cbn [reap_chain].
      rewrite Hp, bind_Val, (rd_Some _ _ _ He), bind_Val. cbv beta.
      change (expired _ _ _ _ _) with (conn_expired (e_conn e)). rewrite Hexp.
      rewrite Hw, bind_Val. rewrite (rd_Some _ _ _ He1), bind_Val.
      rewrite wr_lt, bind_Val by (by eapply lookup_lt_Some). cbv beta zeta. fold ct2 ct3.
      cbn [fmap list_fmap evict_all snd fst e_conn].
      destruct (call_evict on_evict (e_backend_id e) ctx) as [ctx'| |]; [|done..].
      rewrite !bind_Val. unfold u64. rewrite Z.mod_small, Heq by lia.
      simpl length. destruct (evict_all _ ctx'); simpl; [|done..]. do 3 f_equal. lia.
  - destruct (IH fuel ct cs fl (dn ++ [(i, d)]) (LNext i))
      as (ct' & fl' & Hsh' & Hframe & Hcur' & Hact' & Heq);
      [done|by rewrite <- (assoc_L (++))|by exists dn, d|simpl in *; lia..|].
    destruct (split_live (i, d) rest Hexp) as [-> ->].
    exists ct', fl'. rewrite <- (assoc_L (++)) in Hsh'. split_and!; try done.
    intros reaped ctx Hr1 Hr2. simpl in Hr2. cbn [reap_chain].
    rewrite Hp, bind_Val, (rd_Some _ _ _ He0), bind_Val. cbv beta.
    change (expired _ _ _ _ _) with (conn_expired (e_conn e0)). rewrite Hd0, Hexp. apply Heq; lia.
Qed.

Context {xx : XXHash}.

(** The buckets a sweep of [n] buckets from [cur] visits, and the flows it
    evicts. *)
Definition in_window (bucket_count cur n : Z) (key : flow_key) : bool :=
  bool_decide ((Z.of_nat (bucket_of bucket_count key) - cur) mod bucket_count < n).

Definition swept (bucket_count cur n : Z) (d : conn) : bool :=
  conn_expired d && in_window bucket_count cur n d.1.

Lemma in_window_0 bc cur key : 0 < bc → in_window bc cur 0 key = false.
Proof. intros. apply bool_decide_false. pose proof (Z.mod_pos_bound (Z.of_nat (bucket_of bc key) - cur) bc). lia. Qed.

Lemma in_window_S bc cur n key :
  0 ≤ cur < bc → 0 ≤ n → Z.of_nat (bucket_of bc key) < bc →
  in_window bc cur (n + 1) key =
  bool_decide (Z.of_nat (bucket_of bc key) = cur) || in_window bc ((cur + 1) mod bc) n key.
Proof.
  intros Hc Hn Hb. unfold in_window. rewrite Zminus_mod_idemp_r.
  set (b := Z.of_nat _) in *. assert (0 ≤ b) by lia. rewrite <- bool_decide_or.
  apply bool_decide_ext.
  assert ((b - cur) mod bc = if decide (cur ≤ b) then b - cur else b - cur + bc) as ->.
  { case_decide; [by rewrite Z.mod_small by lia|].
    rewrite <- (Z.mod_add _ 1) by lia. rewrite Z.mod_small; lia. }
  assert ((b - (cur + 1)) mod bc = if decide (cur + 1 ≤ b) then b - (cur + 1) else b - (cur + 1) + bc) as ->.
  { case_decide; [by rewrite Z.mod_small by lia|].
    rewrite <- (Z.mod_add _ 1) by lia. rewrite Z.mod_small; lia. }
  repeat case_decide; lia.
Qed.

(** Sweeping one bucket keeps the invariant. *)
Lemma reap_bucket_inv ct cs fl idx l ct' fl' c :
  ct_inv ct cs fl → cs !! idx = Some l → 0 ≤ c < ct_bucket_count ct →
  shape ct' (<[idx:=kept l]> cs) fl' → same_frame (set_sweep_cursor c ct) ct' →
  ct_sweep_cursor ct' = c →
  ct_active ct' = ct_active ct - Z.of_nat (length (gone l)) →
  ct_inv ct' (<[idx:=kept l]> cs) fl' ∧
  (concat cs).*2 ≡ₚ (gone l).*2 ++ (concat (<[idx:=kept l]> cs)).*2.
Proof.
  intros Hinv Hl Hc Hsh [Hbc Hsl] Hcur Hact. simpl in *.
  assert (concat cs ≡ₚ gone l ++ concat (<[idx:=kept l]> cs)) as Hperm.
  { rewrite concat_insert_split by (by eapply lookup_lt_Some).
    rewrite (concat_split cs idx l Hl), (assoc_L (++)).
    by rewrite (filter_app_complement (λ nd : node, conn_expired nd.2) l). }
  split; [|by rewrite Hperm at 1; rewrite fmap_app].
  split; rewrite ?Hbc, ?Hsl, ?length_insert; try (by apply Hinv); try done.
  - intros b l' nd. rewrite list_lookup_insert. case_decide as E; [|by apply (inv_bucket _ _ _ Hinv)].
    destruct E as [<- _]. intros [= <-] [_ Hin]%list_elem_of_filter. by eapply (inv_bucket _ _ _ Hinv).
  - lia.
  - rewrite Hact, (inv_active _ _ _ Hinv), Hperm, length_app. lia.
Qed.

Lemma reap_one_bucket ct cs fl :
  ct_inv ct cs fl →
  ∃ l ct' fl',
    let idx := Z.to_nat (ct_sweep_cursor ct) in
    let c := (ct_sweep_cursor ct + 1) mod ct_bucket_count ct in
    cs !! idx = Some l ∧ ct_inv ct' (<[idx:=kept l]> cs) fl' ∧
    (concat cs).*2 ≡ₚ (gone l).*2 ++ (concat (<[idx:=kept l]> cs)).*2 ∧
    same_frame ct ct' ∧ ct_sweep_cursor ct' = c ∧
    ∀ reaped ctx, 0 ≤ reaped → reaped + Z.of_nat (length (concat cs)) < 2 ^ 64 →
      umod (u64 (ct_sweep_cursor ct + 1)) (ct_bucket_count ct) = Val c ∧
      reap_chain on_evict (S (length (ct_slab ct))) (set_sweep_cursor c ct) now tcp udp
        (LBucket idx) reaped ctx =
      (ctx ← evict_all (gone l).*2 ctx; Val (ct', reaped + Z.of_nat (length (gone l)), ctx)).
Proof.
  intros Hinv. pose proof (inv_cursor _ _ _ Hinv) as Hcr.
  destruct (lookup_lt_is_Some_2 cs (Z.to_nat (ct_sweep_cursor ct))) as [l Hl].
  { pose proof (inv_len _ _ _ Hinv). lia. }
  set (c := (ct_sweep_cursor ct + 1) mod ct_bucket_count ct).
  assert (0 ≤ c < ct_bucket_count ct) by (apply Z.mod_pos_bound; lia).
  pose proof (bucket_length_le _ _ _ _ _ Hinv Hl) as Hle.
  pose proof (Permutation_length (concat_split _ _ _ Hl)) as Hlen. rewrite length_app in Hlen.
  pose proof (shape_length _ _ _ (inv_shape _ _ _ Hinv)).
  destruct (reap_chain_spec (S (length (ct_slab ct))) (set_sweep_cursor c ct) cs fl
    (Z.to_nat (ct_sweep_cursor ct)) [] l (LBucket (Z.to_nat (ct_sweep_cursor ct))))
    as (ct' & fl' & Hsh & Hfr & Hcur & Hact & Heq).
  { by destruct (inv_shape _ _ _ Hinv); split. }
  { done. } { done. } { lia. }
  { simpl. rewrite (inv_active _ _ _ Hinv). pose proof (inv_slab _ _ _ Hinv). lia. }
  exists l, ct', fl'. destruct (reap_bucket_inv ct cs fl (Z.to_nat (ct_sweep_cursor ct)) l ct' fl' c) as [Hinv' Hperm]; [done..|].
  split_and!; try done. intros reaped ctx Hr1 Hr2. split; [|apply Heq; lia].
  destruct (inv_pow2 _ _ _ Hinv) as (k & Hk & E).
  assert (2 ^ k ≤ 2 ^ 63) by (apply Z.pow_le_mono_r; lia).
  unfold umod, u64. rewrite decide_False, (Z.mod_small (ct_sweep_cursor ct + 1)) by lia. done.
Qed.

Lemma reap_buckets_spec n ct cs fl :
  ct_inv ct cs fl →
  ∃ ct' cs' fl' evs, ct_inv ct' cs' fl' ∧ same_frame ct ct' ∧
    ct_sweep_cursor ct' = (ct_sweep_cursor ct + Z.of_nat n) mod ct_bucket_count ct ∧
    (concat cs).*2 ≡ₚ evs ++ (concat cs').*2 ∧
    Forall (swept (ct_bucket_count ct) (ct_sweep_cursor ct) (Z.of_nat n)) evs ∧
    Forall (λ d, ¬ swept (ct_bucket_count ct) (ct_sweep_cursor ct) (Z.of_nat n) d) (concat cs').*2 ∧
    ∀ reaped ctx, 0 ≤ reaped → reaped + Z.of_nat (length (concat cs)) < 2 ^ 64 →
      reap_buckets on_evict n ct now tcp udp reaped ctx =
      (ctx ← evict_all evs ctx; Val (ct', reaped + Z.of_nat (length evs), ctx)).
Proof.
  revert ct cs fl. induction n as [|n IH]; intros ct cs fl Hinv.
  { pose proof (inv_cursor _ _ _ Hinv). exists ct, cs, fl, [].
    split_and!; try done.
    - rewrite Z.add_0_r, Z.mod_small; lia.
    - apply Forall_forall. intros d _. unfold swept. rewrite in_window_0 by lia.
      rewrite andb_false_r. simpl. tauto.
    - intros. simpl. by rewrite Z.add_0_r. }
  destruct (reap_one_bucket ct cs fl Hinv) as (l & ct1 & fl1 & Hl & Hinv1 & Hperm1 & Hfr1 & Hcur1 & Heq1).
  destruct (IH _ _ _ Hinv1) as (ct' & cs' & fl' & evs & Hinv' & Hfr & Hcur & Hperm & Hin & Hout & Heq).
  destruct Hfr1 as [Hbc1 Hsl1]. pose proof (inv_cursor _ _ _ Hinv) as Hcr.
  rewrite Hcur1, Hbc1 in Hin, Hout, Hcur. set (cur := ct_sweep_cursor ct) in *.
  set (bc := ct_bucket_count ct) in *.
  assert (∀ key, Z.of_nat (bucket_of bc key) < bc) as Hlt.
  { intros key. destruct (inv_pow2 _ _ _ Hinv) as (k & Hk & E).
    pose proof (bucket_of_lt k key Hk). unfold bc. rewrite E. lia. }
  assert (∀ d, swept bc cur (Z.of_nat (S n)) d ↔
    conn_expired d ∧ Z.of_nat (bucket_of bc d.1) = cur ∨ swept bc ((cur + 1) mod bc) (Z.of_nat n) d) as Hsw.
  { intros d. unfold swept. rewrite Nat2Z.inj_succ, <- Z.add_1_r, in_window_S by (done || lia).
    rewrite !andb_True, orb_True, bool_decide_spec. naive_solver. }
  exists ct', cs', fl', ((gone l).*2 ++ evs). split_and!.
  - done.
  - destruct Hfr as [E1 E2]. split; [by rewrite E1|by rewrite E2].
  - rewrite Hcur, Zplus_mod_idemp_l. f_equal. lia.
  - rewrite Hperm1, Hperm. by rewrite (assoc_L (++)).
  - apply Forall_app. split; [|eapply Forall_impl; [done|]; intros d ?; apply Hsw; by right].
    apply Forall_fmap, Forall_forall. intros nd [Hnd1 Hnd2]%list_elem_of_filter. apply Hsw. left.
    split; [done|]. destruct (inv_bucket _ _ _ Hinv _ _ _ Hl Hnd2) as [E _]. fold bc in E. lia.
  - apply Forall_forall. intros d Hd. rewrite Hsw. intros [[He Hb]|Hsd].
    + assert (d ∈ (concat (<[Z.to_nat cur:=kept l]> cs)).*2) as Hd1.
      { rewrite Hperm. apply elem_of_app. by right. }
      apply list_elem_of_fmap in Hd1 as (nd & -> & Hnd).
      destruct (inv_concat_lookup _ _ _ _ Hinv1 Hnd) as (_ & l' & Hl' & Hnd').
      rewrite Hbc1 in Hl'. replace (bucket_of bc nd.2.1) with (Z.to_nat cur) in Hl' by lia.
      rewrite list_lookup_insert_eq in Hl' by (by eapply lookup_lt_Some).
      injection Hl' as <-. by apply list_elem_of_filter in Hnd' as [? _].
    + rewrite Forall_forall in Hout. by apply (Hout d).
  - intros reaped ctx Hr1 Hr2. cbn [reap_buckets].
    assert (length (concat cs) = length (gone l) + length (concat (<[Z.to_nat cur:=kept l]> cs)))%nat as El.
    { apply Permutation_length in Hperm1. by rewrite length_app, !length_fmap in Hperm1. }
    destruct (Heq1 reaped ctx) as [Hc Hch]; [lia..|]. fold cur bc. rewrite Hc, bind_Val.
    cbn [ct_slab set_sweep_cursor]. rewrite Hch.
    rewrite evict_all_app. destruct (evict_all _ ctx) as [ctx'| |]; [|done..].
    rewrite !bind_Val. cbv beta iota. rewrite Heq by lia. rewrite length_app, length_fmap.
    destruct (evict_all evs ctx'); simpl; [|done..]. do 3 f_equal. lia.
Qed.
End Sweep.

Section SweepRep.
Context {xx : XXHash} {C : Type} (on_evict : option (Z → C → out C)).

Lemma reap_slice_rep ct m now tcp udp max_buckets :
  ct_rep ct m → 0 ≤ max_buckets →
  let n := Z.min max_buckets (ct_bucket_count ct) in
  let P := swept now tcp udp (ct_bucket_count ct) (ct_sweep_cursor ct) n in
  ∃ ct' evs, ct_rep ct' (filter (λ d, ¬ P d) m) ∧ map_to_list (filter P m) ≡ₚ evs ∧
    same_frame ct ct' ∧ ct_sweep_cursor ct' = (ct_sweep_cursor ct + n) mod ct_bucket_count ct ∧
    ∀ ctx, conntrack_reap_slice on_evict ct now tcp udp max_buckets ctx =
      (ctx ← evict_all on_evict evs ctx; Val (ct', Z.of_nat (length evs), ctx)).
Proof.
  intros (cs & fl & Hinv & Hm) Hmax n P. pose proof (inv_cursor _ _ _ Hinv).
  destruct (reap_buckets_spec on_evict now tcp udp (Z.to_nat n) ct cs fl Hinv)
    as (ct' & cs' & fl' & evs & Hinv' & Hfr & Hcur & Hperm & Hin & Hout & Heq).
  rewrite Z2Nat.id in Hcur, Hin, Hout by lia. rewrite Hperm in Hm.
  destruct (bindings_partition m P evs (concat cs').*2 Hm Hin Hout) as [Hgone Hkept].
  exists ct', evs. split_and!; [by exists cs', fl'|done..|].
  intros ctx. unfold conntrack_reap_slice.
  replace (if decide (max_buckets > ct_bucket_count ct) then ct_bucket_count ct else max_buckets)
    with n by (unfold n; case_decide; lia).
  apply Heq; [lia|]. pose proof (shape_length _ _ _ (inv_shape _ _ _ Hinv)).
  pose proof (inv_slab _ _ _ Hinv). lia.
Qed.
End SweepRep.

(** ** Creation *)

(** Rounding a third of a multiple of [2^s] cannot reach the next integer. *)
Lemma round_third n s :
  0 ≤ n → 1 ≤ s → round_half_even (4 * n * 2 ^ s) 3 / 2 ^ s = 4 * n / 3.
Proof.
  intros Hn Hs. unfold round_half_even.
  pose proof (Z.div_mod (4 * n * 2 ^ s) 3 ltac:(lia)) as E1.
  pose proof (Z.mod_pos_bound (4 * n * 2 ^ s) 3 ltac:(lia)).
  set (Q := 4 * n * 2 ^ s / 3) in *. set (r := (4 * n * 2 ^ s) mod 3) in *.
  pose proof (Z.div_mod (4 * n) 3 ltac:(lia)) as E2.
  pose proof (Z.mod_pos_bound (4 * n) 3 ltac:(lia)).
  set (f := 4 * n / 3) in *. set (g := (4 * n) mod 3) in *.
  assert (2 ≤ 2 ^ s) by (change 2 with (2 ^ 1) at 1; apply Z.pow_le_mono_r; lia).
  assert (3 * Q + r = 3 * (f * 2 ^ s) + g * 2 ^ s) as E by (rewrite <- E1, E2; ring).
  assert (0 ≤ g * 2 ^ s ≤ 2 * 2 ^ s) by nia.
  repeat case_decide; try destruct (Z.even Q); symmetry;
    match goal with |- _ = ?m / _ => apply (Z.div_unique m (2 ^ s) f (m - f * 2 ^ s)); lia end.
Qed.

Lemma desired_buckets_spec n :
  0 ≤ n < 2 ^ 50 →
  size_of_double (double_div (double_of n) three_quarters) = Val (4 * n / 3).
Proof.
  intros Hn. destruct (decide (n = 0)) as [->|Hn0]; [reflexivity|].
  rewrite double_of_exact by lia. unfold double_div, double_quot, three_quarters. simpl fst. simpl snd.
  assert (0 ≤ Z.log2 n ≤ 49) as Hl.
  { split; [apply Z.log2_nonneg|]. apply Z.lt_succ_r, Z.log2_lt_pow2; simpl; lia. }
  rewrite Z.log2_mul_pow2 by lia. change (Z.log2 3) with 1.
  set (k := 52 - Z.log2 n). replace (Z.log2 n - 52) with (- k) by lia.
  replace (k + Z.log2 n - 1 - 52) with (-1) by lia.
  assert (∀ j, j = 1 ∨ j = 2 →
    size_of_double (scaled_quot (n * 2 ^ k) 3 (- j), - j + - k - -2) = Val (4 * n / 3)) as Hj.
  { intros j Hj. unfold size_of_double, scaled_quot. simpl fst. simpl snd.
    rewrite (Z.max_r 0 (- - j)), (Z.max_l 0 (- j)), (Z.max_l 0 (_ - -2)), (Z.max_r 0 (- (_ - _))) by lia.
    replace (n * 2 ^ k * 2 ^ (- - j)) with (4 * n * 2 ^ (j + k - 2)).
    2:{ assert (2 ^ k * 2 ^ (- - j) = 2 ^ 2 * 2 ^ (j + k - 2)) as E
          by (rewrite <- !Z.pow_add_r by lia; f_equal; lia).
        rewrite <- (Z.mul_assoc n), E. ring. }
    replace (- (- j + - k - -2)) with (j + k - 2) by lia.
    change (3 * 2 ^ 0) with 3. change (2 ^ 0) with 1. rewrite Z.mul_1_r, round_third by lia.
    rewrite decide_True; [done|]. apply Z.div_lt_upper_bound; lia. }
  case_decide; [apply (Hj 2)|apply (Hj 1)]; lia.
Qed.

Lemma next_pow2_loop_spec fuel i x :
  0 ≤ i ≤ 63 → x ≤ 2 ^ 63 → (Z.to_nat (64 - i) ≤ fuel)%nat →
  ∃ k, i ≤ k ≤ 63 ∧ next_pow2_loop fuel (2 ^ i) x = Val (2 ^ k) ∧ x ≤ 2 ^ k ∧
    (k = i ∨ 2 ^ (k - 1) < x).
Proof.
  revert i. induction fuel as [|fuel IH]; intros i Hi Hx Hf; [lia|].
  cbn [next_pow2_loop]. case_decide as Hlt.
  - assert (i < 63) by (destruct (decide (i = 63)) as [->|]; lia).
    assert (u64 (Z.shiftl (2 ^ i) 1) = 2 ^ (i + 1)) as ->.
    { rewrite Z.shiftl_mul_pow2, <- Z.pow_add_r by lia. unfold u64. apply Z.mod_small.
      split; [apply Z.pow_nonneg; lia|apply Z.pow_lt_mono_r; lia]. }
    destruct (IH (i + 1)) as (k & Hk & Hv & Hle & Hlast); [lia..|].
    exists k. split_and!; [lia|lia|done|done|]. right.
    destruct Hlast as [-> |]; [|done]. by replace (i + 1 - 1) with i by lia.
  - exists i. split_and!; [lia..|done|lia|by left].
Qed.

Lemma next_pow2_spec x :
  x ≤ 2 ^ 63 → ∃ k, 0 ≤ k ≤ 63 ∧ next_pow2 x = Val (2 ^ k) ∧ x ≤ 2 ^ k ∧ (k = 0 ∨ 2 ^ (k - 1) < x).
Proof. intros Hx. apply (next_pow2_loop_spec 65 0); simpl; lia. Qed.

(** Above [2^63] the power wraps to 0 and the loop never ends. *)
Lemma next_pow2_diverges fuel x : 2 ^ 63 < x → next_pow2_loop fuel 1 x = NoFuel.
Proof.
  intros Hx.
  assert (∀ p, (p = 0 ∨ ∃ i, 0 ≤ i ≤ 63 ∧ p = 2 ^ i) → next_pow2_loop fuel p x = NoFuel) as H;
    [|apply H; right; exists 0; lia].
  induction fuel as [|fuel IH]; intros p Hp; [done|]. cbn [next_pow2_loop].
  assert (p ≤ 2 ^ 63).
  { destruct Hp as [-> |(i & Hi & ->)]; [lia|apply Z.pow_le_mono_r; lia]. }
  rewrite decide_True by lia. apply IH. destruct Hp as [-> |(i & Hi & ->)]; [by left|].
  rewrite Z.shiftl_mul_pow2, <- Z.pow_add_r by lia. unfold u64.
  destruct (decide (i = 63)) as [-> |]; [by left|right]. exists (i + 1). split; [lia|].
  apply Z.mod_small. split; [apply Z.pow_nonneg; lia|apply Z.pow_lt_mono_r; lia].
Qed.

(** The chain of a freshly linked slab. *)
Definition fresh_entry (junk : nat → conntrack_entry) (n i : nat) : conntrack_entry :=
  set_next (if decide (S i < n)%nat then Some (S i) else None) (junk i).

Lemma link_slab_spec junk n i r :
  (i + r = n)%nat →
  link_slab r (Z.of_nat i) (Z.of_nat n)
    ((fresh_entry junk n <$> seq 0 i) ++ (junk <$> seq i r)) =
  Val (fresh_entry junk n <$> seq 0 n).
Proof.
  revert i. induction r as [|r IH]; intros i Hi.
  - simpl. rewrite app_nil_r. by replace i with n by lia.
  - cbn [link_slab seq fmap list_fmap].
    assert (∀ x y l, rd ((fresh_entry junk n <$> seq 0 i) ++ x :: l) (Z.to_nat (Z.of_nat i)) = Val x ∧
      wr ((fresh_entry junk n <$> seq 0 i) ++ x :: l) (Z.to_nat (Z.of_nat i)) y =
      Val ((fresh_entry junk n <$> seq 0 i) ++ y :: l)) as Hat.
    { intros x y l. rewrite Nat2Z.id.
      assert (length (fresh_entry junk n <$> seq 0 i) = i) as Hl by by rewrite length_fmap, length_seq.
      split; [apply rd_Some; rewrite lookup_app_r by lia; by rewrite Hl, Nat.sub_diag|].
      rewrite wr_lt by (rewrite length_app; simpl; lia).
      rewrite insert_app_r_alt by lia. by rewrite Hl, Nat.sub_diag. }
    destruct (Hat (junk i) (fresh_entry junk n i) (junk <$> seq (S i) r)) as [-> _].
    rewrite bind_Val. cbv beta.
    replace (set_next _ (junk i)) with (fresh_entry junk n i)
      by (unfold fresh_entry; repeat case_decide; try lia; do 2 f_equal; lia).
    destruct (Hat (junk i) (fresh_entry junk n i) (junk <$> seq (S i) r)) as [_ ->].
    rewrite bind_Val. cbv beta. replace (Z.of_nat i + 1) with (Z.of_nat (S i)) by lia.
    rewrite <- (IH (S i)) by lia. f_equal. rewrite seq_S, fmap_app, <- (assoc_L (++)). done.
Qed.

Lemma fresh_seg junk n i r :
  (i + r = n)%nat →
  seg (fresh_entry junk n <$> seq 0 n) (if decide (i < n)%nat then Some i else None)
    ((λ i, (i, e_conn (junk i))) <$> seq i r) None.
Proof.
  revert i. induction r as [|r IH]; intros i Hi; simpl.
  - rewrite decide_False by lia. done.
  - rewrite decide_True by lia. split; [done|]. exists (fresh_entry junk n i).
    rewrite list_lookup_fmap, lookup_seq_lt by lia. split_and!; [done..|].
    apply (IH (S i)). lia.
Qed.

Lemma concat_replicate_nil {A} n : concat (replicate n ([] : list A)) = [].
Proof. by induction n. Qed.

(** The allocations a creation performs all succeed. *)
Definition create_allocs (ok : nat → bool) (max_flows : Z) : bool :=
  ok 0%nat && ok 1%nat && (bool_decide (max_flows = 0) || ok 2%nat).

Section Create.
Context {xx : XXHash}.

Lemma fresh_inv junk n k :
  0 ≤ k ≤ 63 → Z.of_nat n < 2 ^ 63 →
  ct_inv {| ct_buckets := replicate (Z.to_nat (2 ^ k)) None; ct_bucket_count := 2 ^ k;
            ct_slab := fresh_entry junk n <$> seq 0 n;
            ct_free_list := if decide (0 < n)%nat then Some 0%nat else None;
            ct_sweep_cursor := 0; ct_active := 0 |}
    (replicate (Z.to_nat (2 ^ k)) []) ((λ i, (i, e_conn (junk i))) <$> seq 0 n).
Proof.
  intros Hk Hn. pose proof (Z.pow_pos_nonneg 2 k ltac:(lia) ltac:(lia)).
  split; simpl; [split; simpl| | | | | |]; rewrite ?concat_replicate_nil, ?length_fmap, ?length_seq,
    ?length_replicate; try done; try lia.
  - by apply (fresh_seg junk n 0).
  - by intros b h l [-> _]%lookup_replicate [-> _]%lookup_replicate.
  - simpl. rewrite <- list_fmap_compose. by rewrite list_fmap_id.
  - by exists k.
  - by intros b l nd [-> _]%lookup_replicate ?%not_elem_of_nil.
Qed.

Lemma create_rep ok junk max_flows :
  0 ≤ max_flows < 2 ^ 50 →
  ∃ r, conntrack_create ok junk max_flows = Val r ∧
    if create_allocs ok max_flows
    then ∃ ct, r = Some ct ∧ ct_rep ct ∅ ∧ Z.of_nat (length (ct_slab ct)) = max_flows ∧
           4 * max_flows / 3 < conntrack_bucket_count ct ≤ 2 * (4 * max_flows / 3) + 1
    else r = None.
Proof.
  intros Hn. unfold conntrack_create, create_allocs.
  destruct (ok 0%nat); [|by exists None]. simpl.
  rewrite desired_buckets_spec, bind_Val by done. cbv beta.
  assert (0 ≤ 4 * max_flows / 3 < 2 ^ 51).
  { split; [apply Z.div_pos; lia|apply Z.div_lt_upper_bound; lia]. }
  assert (u64 (4 * max_flows / 3 + 1) = 4 * max_flows / 3 + 1) as -> by (apply Z.mod_small; lia).
  destruct (next_pow2_spec (4 * max_flows / 3 + 1)) as (k & Hk & -> & Hle & Hlast); [lia|].
  rewrite bind_Val. cbv beta.
  destruct (ok 1%nat); [|by exists None]. simpl.
  rewrite (bool_decide_ext (max_flows = 0) (¬ 0 < max_flows)) by lia.
  rewrite bool_decide_not. destruct (bool_decide (0 < max_flows) && negb (ok 2%nat)) eqn:E.
  { exists None. by apply andb_true_iff in E as [-> ->%negb_true_iff]. }
  assert (negb (bool_decide (0 < max_flows)) || ok 2%nat = true) as ->.
  { by destruct (bool_decide (0 < max_flows)), (ok 2%nat). }
  assert (u64 (sizeof_entry * max_flows) / sizeof_entry = max_flows) as ->.
  { unfold u64, sizeof_entry. rewrite Z.mod_small by lia. by rewrite Z.mul_comm, Z.div_mul. }
  destruct (Z_of_nat_complete max_flows) as [n ->]; [lia|]. rewrite Nat2Z.id.
  pose proof (link_slab_spec junk n 0 n eq_refl) as Hlink. change (Z.of_nat 0) with 0 in Hlink.
  simpl app in Hlink. rewrite Hlink, bind_Val.
  eexists. split; [done|]. eexists. split; [done|]. split_and!.
  - exists (replicate (Z.to_nat (2 ^ k)) []), ((λ i, (i, e_conn (junk i))) <$> seq 0 n).
    split; [|by rewrite concat_replicate_nil].
    replace (if decide (0 < Z.of_nat n) then _ else _)
      with (if decide (0 < n)%nat then Some 0%nat else None) by (repeat case_decide; done || lia).
    apply fresh_inv; lia.
  - simpl. by rewrite length_fmap, length_seq.
  - unfold conntrack_bucket_count. simpl. lia.
  - unfold conntrack_bucket_count. simpl.
    destruct Hlast as [->|Hlast]; [lia|].
    destruct (decide (k = 0)) as [->|]; [lia|].
    replace k with (Z.succ (k - 1)) by lia. rewrite Z.pow_succ_r; lia.
Qed.
End Create.
