(* ===== verification/ConntrackSpec.v ===== *)
(** * What the connection-tracking table promises

    The abstract flow table is a finite map with a sweep position.  Each
    operation of [Conntrack] refines its abstract counterpart, any interleaving
    of packets and reaper ticks does (a forward simulation over sequences of
    operations), and an idle flow is gone after one full sweep, whatever traffic
    other flows see meanwhile. *)

From Stdlib Require Import Lia.
From stdpp Require Import base list numbers gmap.
From S2P Require Import Prelude Net Hash Conntrack.
Import Flow.

Local Open Scope Z_scope.

(** ** Abstract table *)

Record flow_table := { ft_flows : flows; ft_cursor : Z }.

Inductive ct_op :=
  | OpPacket (key : flow_key) (backend_id now_ns : Z)
  | OpTick (now_ns tcp_timeout_ns udp_timeout_ns buckets : Z).

Section Spec.
Context {xx : XXHash}.

(** The effect of an operation on the abstract table of [capacity] flows over
    [bucket_count] buckets: a packet of a tracked flow refreshes it, a packet of
    a new flow is pinned if there is room, a tick drops the expired flows of the
    buckets it visits. *)
Definition spec_op (capacity : nat) (bucket_count : Z) (ft : flow_table) (op : ct_op) : flow_table :=
  match op with
  | OpPacket key b now =>
      {| ft_flows :=
           match ft_flows ft !! key with
           | Some (b0, _) => <[key:=(b0, now)]> (ft_flows ft)
           | None => if decide (size (ft_flows ft) = capacity) then ft_flows ft
                     else <[key:=(b, now)]> (ft_flows ft)
           end;
         ft_cursor := ft_cursor ft |}
  | OpTick now tcp udp n =>
      let n := Z.min n bucket_count in
      {| ft_flows := filter (λ d, ¬ swept now tcp udp bucket_count (ft_cursor ft) n d) (ft_flows ft);
         ft_cursor := (ft_cursor ft + n) mod bucket_count |}
  end.

(** The same operation on the table: the lookup and, on a miss, the insertion. *)
Definition run_op (ct : conntrack_table) (op : ct_op) : out conntrack_table :=
  match op with
  | OpPacket key b now =>
      '(ct, hit) ← conntrack_lookup ct key now;
      match hit with
      | Some _ => Val ct
      | None => '(ct, _) ← conntrack_insert ct key b now; Val ct
      end
  | OpTick now tcp udp n =>
      '(ct, _, _) ← conntrack_reap_slice None ct now tcp udp n tt; Val ct
  end.

Fixpoint run_ops (ct : conntrack_table) (ops : list ct_op) : out conntrack_table :=
  match ops with
  | [] => Val ct
  | op :: ops => ct ← run_op ct op; run_ops ct ops
  end.

Definition op_ok (op : ct_op) : Prop :=
  match op with OpPacket key _ _ => key_ok key | OpTick _ _ _ n => 0 ≤ n end.

(** The simulation relation. *)
Definition refines (capacity : nat) (bucket_count : Z) (ct : conntrack_table) (ft : flow_table) : Prop :=
  ct_rep ct (ft_flows ft) ∧ ct_sweep_cursor ct = ft_cursor ft ∧
  length (ct_slab ct) = capacity ∧ ct_bucket_count ct = bucket_count.

Lemma evict_all_None evs : evict_all None evs tt = Val tt.
Proof. induction evs as [|d evs IH]; [done|]. simpl. apply IH. Qed.

Lemma run_op_refines capacity bucket_count ct ft op :
  refines capacity bucket_count ct ft → op_ok op →
  ∃ ct', run_op ct op = Val ct' ∧ refines capacity bucket_count ct' (spec_op capacity bucket_count ft op).
Proof.
  intros (Hrep & Hcur & <- & <-) Hok. destruct op as [key b now|now tcp udp n]; simpl in Hok.
  - unfold run_op, refines. simpl. pose proof (lookup_rep ct _ key now Hrep Hok) as Hl.
    destruct (ft_flows ft !! key) as [[b0 t]|] eqn:Hk.
    { destruct Hl as (ct' & -> & Hrep' & [Hbc Hsl] & Hcur').
      rewrite bind_Val. cbv beta iota. exists ct'. by rewrite Hcur'. }
    rewrite Hl, bind_Val. cbv beta iota.
    pose proof (insert_rep ct _ key b now Hrep Hok Hk) as Hi. case_decide as Hfull.
    { rewrite Hi, bind_Val. by exists ct. }
    destruct Hi as (ct' & -> & Hrep' & [Hbc Hsl] & Hcur'). rewrite bind_Val. exists ct'.
    by rewrite Hcur'.
  - destruct (reap_slice_rep (C := unit) None ct (ft_flows ft) now tcp udp n Hrep Hok)
      as (ct' & evs & Hrep' & _ & [Hbc Hsl] & Hcur' & Heq).
    unfold run_op, refines. rewrite Heq, evict_all_None, !bind_Val. exists ct'. simpl.
    rewrite <- Hcur. done.
Qed.

Lemma run_ops_refines capacity bucket_count ops ct ft :
  refines capacity bucket_count ct ft → Forall op_ok ops →
  ∃ ct', run_ops ct ops = Val ct' ∧
    refines capacity bucket_count ct' (foldl (spec_op capacity bucket_count) ft ops).
Proof.
  revert ct ft. induction ops as [|op ops IH]; intros ct ft Hr Hok; [by exists ct|].
  apply Forall_cons in Hok as [Hop Hok].
  destruct (run_op_refines _ _ ct ft op Hr Hop) as (ct1 & E & Hr1).
  destruct (IH ct1 _ Hr1 Hok) as (ct' & E' & Hr'). exists ct'. simpl. by rewrite E, bind_Val.
Qed.

(** ** Idle flows *)

(** The buckets the ticks of a trace visit. *)
Definition swept_buckets (bucket_count : Z) (op : ct_op) : Z :=
  match op with OpPacket _ _ _ => 0 | OpTick _ _ _ n => Z.min n bucket_count end.

Definition total_swept (bucket_count : Z) (ops : list ct_op) : Z :=
  foldr Z.add 0 (swept_buckets bucket_count <$> ops).

(** The trace carries no packet of [key], and at each of its ticks a flow last
    seen at [t] has timed out. *)
Definition idle (key : flow_key) (t : Z) (op : ct_op) : Prop :=
  match op with
  | OpPacket k _ _ => k ≠ key
  | OpTick now tcp udp _ => expired now tcp udp (k_proto key) t
  end.

(** How many buckets the cursor is away from the bucket of [key]. *)
Definition sweep_distance (bucket_count cur : Z) (key : flow_key) : Z :=
  (Z.of_nat (bucket_of bucket_count key) - cur) mod bucket_count.

Lemma spec_op_absent capacity bucket_count ft op key t :
  idle key t op → ft_flows ft !! key = None →
  ft_flows (spec_op capacity bucket_count ft op) !! key = None.
Proof.
  destruct op as [k b now|now tcp udp n]; simpl; intros Hidle Hk.
  - destruct (ft_flows ft !! k) as [[b0 t0]|]; [by rewrite lookup_insert_ne|].
    case_decide; [done|]. by rewrite lookup_insert_ne.
  - apply map_lookup_filter_None. by left.
Qed.

Lemma spec_op_present capacity bucket_count ft op key b t :
  0 < bucket_count → op_ok op → idle key t op → ft_flows ft !! key = Some (b, t) →
  let ft' := spec_op capacity bucket_count ft op in
  ft_flows ft' !! key = None ∨
  ft_flows ft' !! key = Some (b, t) ∧
  sweep_distance bucket_count (ft_cursor ft') key =
    sweep_distance bucket_count (ft_cursor ft) key - swept_buckets bucket_count op.
Proof.
  intros Hbc Hok Hidle Hk. destruct op as [k b' now|now tcp udp n]; simpl in *.
  - right. rewrite Z.sub_0_r. split; [|done].
    destruct (ft_flows ft !! k) as [[b0 t0]|]; [by rewrite lookup_insert_ne|].
    case_decide; [done|]. by rewrite lookup_insert_ne.
  - set (w := Z.min n bucket_count).
    destruct (decide (sweep_distance bucket_count (ft_cursor ft) key < w)) as [Hin|Hout].
    + left. apply map_lookup_filter_None. right. intros v Hv Hns. simplify_eq. apply Hns.
      unfold swept, conn_expired. simpl. apply andb_True. split; [done|]. by apply bool_decide_pack.
    + right. split.
      * apply map_lookup_filter_Some. split; [done|]. unfold swept, in_window. simpl.
        rewrite bool_decide_false by done. rewrite andb_false_r. simpl. tauto.
      * unfold sweep_distance in *. rewrite Zminus_mod_idemp_r.
        pose proof (Z.mod_pos_bound (Z.of_nat (bucket_of bucket_count key) - ft_cursor ft) bucket_count Hbc).
        rewrite <- (Z.mod_small (_ mod _ - w) bucket_count) by lia.
        rewrite Zminus_mod_idemp_l. f_equal. lia.
Qed.

Lemma total_swept_cons bucket_count op ops :
  total_swept bucket_count (op :: ops) = swept_buckets bucket_count op + total_swept bucket_count ops.
Proof. done. Qed.

Lemma idle_flow_gone capacity bucket_count ops ft key b t :
  0 < bucket_count → Forall op_ok ops → Forall (idle key t) ops →
  ft_flows ft !! key = None ∨
  ft_flows ft !! key = Some (b, t) ∧
  sweep_distance bucket_count (ft_cursor ft) key < total_swept bucket_count ops →
  ft_flows (foldl (spec_op capacity bucket_count) ft ops) !! key = None.
Proof.
  intros Hbc. revert ft. induction ops as [|op ops IH]; intros ft Hok Hidle Hcase.
  - destruct Hcase as [?|[_ Hd]]; [done|]. cbn in Hd. unfold sweep_distance in Hd.
    pose proof (Z.mod_pos_bound (Z.of_nat (bucket_of bucket_count key) - ft_cursor ft) bucket_count Hbc).
    lia.
  - apply Forall_cons in Hok as [Hop Hok], Hidle as [Hi Hidle]. simpl. apply IH; [done..|].
    destruct Hcase as [Hnone|[Hsome Hd]]; [left; by eapply spec_op_absent|].
    destruct (spec_op_present capacity bucket_count ft op key b t Hbc Hop Hi Hsome) as [?|[? E]]; [by left|].
    right. split; [done|]. rewrite E. rewrite total_swept_cons in Hd. lia.
Qed.

(** ** Theorems *)

(** [conntrack_create] terminates for every capacity below 2^50: it returns
    NULL exactly when an allocation fails and otherwise an empty table with room
    for [max_flows] flows and more than [4/3 * max_flows] buckets (at most about
    twice that), whatever the uninitialised slab contained. *)
Theorem conntrack_create_correct ok junk max_flows (Hn : 0 ≤ max_flows < 2 ^ 50) :
  ∃ r, conntrack_create ok junk max_flows = Val r ∧
    if create_allocs ok max_flows
    then ∃ ct, r = Some ct ∧ ct_rep ct ∅ ∧ Z.of_nat (length (ct_slab ct)) = max_flows ∧
           4 * max_flows / 3 < conntrack_bucket_count ct ≤ 2 * (4 * max_flows / 3) + 1
    else r = None.
Proof. by apply create_rep. Qed.

(** [conntrack_lookup] implements the map lookup: on a hit it returns the
    pinned backend and refreshes the time of that flow only, on a miss it
    changes nothing. *)
Theorem conntrack_lookup_correct ct m key now (Hrep : ct_rep ct m) (Hkey : key_ok key) :
  match m !! key with
  | None => conntrack_lookup ct key now = Val (ct, None)
  | Some (b, _) => ∃ ct', conntrack_lookup ct key now = Val (ct', Some b) ∧
                     ct_rep ct' (<[key:=(b, now)]> m)
  end.
Proof.
  pose proof (lookup_rep ct m key now Hrep Hkey) as H. destruct (m !! key) as [[b t]|]; [|done].
  destruct H as (ct' & ? & ? & _). eauto.
Qed.

(** [conntrack_insert] of an untracked flow returns -1 and changes nothing
    exactly when as many flows are tracked as the slab has entries; otherwise it
    adds exactly that flow. *)
Theorem conntrack_insert_correct ct m key b now
    (Hrep : ct_rep ct m) (Hkey : key_ok key) (Hnew : m !! key = None) :
  if decide (size m = length (ct_slab ct))
  then conntrack_insert ct key b now = Val (ct, -1)
  else ∃ ct', conntrack_insert ct key b now = Val (ct', 0) ∧ ct_rep ct' (<[key:=(b, now)]> m).
Proof.
  pose proof (insert_rep ct m key b now Hrep Hkey Hnew) as H. case_decide; [done|].
  destruct H as (ct' & ? & ? & _). eauto.
Qed.

(** A reaper tick removes exactly the flows that have timed out and whose
    bucket is one of the next [max_buckets] (capped at the table size), calls
    the callback once for each of them, returns their number and moves the
    cursor on by the buckets visited. *)
Theorem conntrack_reap_correct {C : Type} (on_evict : option (Z → C → out C))
    ct m now tcp udp max_buckets (Hrep : ct_rep ct m) (Hmax : 0 ≤ max_buckets) :
  let n := Z.min max_buckets (ct_bucket_count ct) in
  let P := swept now tcp udp (ct_bucket_count ct) (ct_sweep_cursor ct) n in
  ∃ ct' evs, ct_rep ct' (filter (λ d, ¬ P d) m) ∧ map_to_list (filter P m) ≡ₚ evs ∧
    ct_sweep_cursor ct' = (ct_sweep_cursor ct + n) mod ct_bucket_count ct ∧
    ∀ ctx, reaper_on_timer_fired on_evict ct now tcp udp max_buckets ctx =
      (ctx ← evict_all on_evict evs ctx; Val (ct', Z.of_nat (length evs), ctx)).
Proof.
  intros n P. destruct (reap_slice_rep on_evict ct m now tcp udp max_buckets Hrep Hmax)
    as (ct' & evs & ? & ? & _ & ? & ?). by exists ct', evs.
Qed.

(** C4. Any sequence of packets and reaper ticks on a table just created runs
    without leaving an array or looping, and the table keeps refining the
    abstract one; in particular [conntrack_active_flows] is the number of
    tracked flows. *)
Theorem conntrack_trace_refines ok junk max_flows ct ops
    (Hn : 0 ≤ max_flows < 2 ^ 50) (Hct : conntrack_create ok junk max_flows = Val (Some ct))
    (Hops : Forall op_ok ops) :
  let ft := foldl (spec_op (Z.to_nat max_flows) (conntrack_bucket_count ct))
              {| ft_flows := ∅; ft_cursor := ct_sweep_cursor ct |} ops in
  ∃ ct', run_ops ct ops = Val ct' ∧ ct_rep ct' (ft_flows ft) ∧
    conntrack_active_flows ct' = Z.of_nat (size (ft_flows ft)).
Proof.
  destruct (create_rep ok junk max_flows Hn) as (r & E & H). rewrite Hct in E. injection E as <-.
  destruct (create_allocs ok max_flows); [|done]. destruct H as (ct0 & [= <-] & Hrep & Hlen & _).
  destruct (run_ops_refines (Z.to_nat max_flows) (conntrack_bucket_count ct) ops ct
    {| ft_flows := ∅; ft_cursor := ct_sweep_cursor ct |}) as (ct' & Hrun & Hrep' & _);
    [split_and!; [done|done|lia|done]|done|].
  exists ct'. split_and!; [done..|]. by apply rep_active.
Qed.

(** An idle flow does not survive a full sweep: if it is not seen during a
    trace, has timed out at each tick of it, and the ticks together visit as
    many buckets as the table has, then afterwards the lookup misses, whatever
    other traffic the trace carries. *)
Theorem idle_flow_reaped ct m ops key b t now
    (Hrep : ct_rep ct m) (Hkey : key_ok key) (Htracked : m !! key = Some (b, t))
    (Hops : Forall op_ok ops) (Hidle : Forall (idle key t) ops)
    (Hsweep : conntrack_bucket_count ct ≤ total_swept (conntrack_bucket_count ct) ops) :
  ∃ ct', run_ops ct ops = Val ct' ∧ conntrack_lookup ct' key now = Val (ct', None).
Proof.
  destruct (run_ops_refines (length (ct_slab ct)) (ct_bucket_count ct) ops ct
    {| ft_flows := m; ft_cursor := ct_sweep_cursor ct |}) as (ct' & Hrun & Hrep' & _); [done..|].
  assert (0 < ct_bucket_count ct).
  { destruct Hrep as (cs & fl & Hinv & _). pose proof (inv_cursor _ _ _ Hinv). lia. }
  exists ct'. split; [done|]. pose proof (lookup_rep ct' _ key now Hrep' Hkey) as Hl.
  rewrite (idle_flow_gone _ _ ops _ key b t) in Hl; [done|done|done|done|]. right. split; [done|].
  unfold conntrack_bucket_count in Hsweep. eapply Z.lt_le_trans; [|exact Hsweep].
  by apply Z.mod_pos_bound.
Qed.
End Spec.

(** ** Witnesses *)

Definition sample_junk (_ : nat) : conntrack_entry :=
  {| e_key := {| k_src_ip := 1; k_dst_ip := 2; k_src_port := 3; k_dst_port := 4; k_proto := 5 |};
     e_backend_id := 77; e_last_seen_ns := 99; e_next := Some 123%nat |}.

Definition sample_flow (sport : Z) : flow_key :=
  {| k_src_ip := 33579786; k_dst_ip := 1677746954;
     k_src_port := sport; k_dst_port := 36895; k_proto := 17 |}.

Lemma sample_flow_ok sport : 0 ≤ sport < 2 ^ 16 → key_ok (sample_flow sport).
Proof. intros. unfold key_ok. simpl. lia. Qed.

(** A table of four flows over eight buckets. *)
Definition sample_ct : conntrack_table := Eval vm_compute in
  match conntrack_create (λ _, true) sample_junk 4 with
  | Val (Some ct) => ct
  | _ => {| ct_buckets := []; ct_bucket_count := 0; ct_slab := []; ct_free_list := None;
            ct_sweep_cursor := 0; ct_active := 0 |}
  end.

Lemma sample_ct_create : conntrack_create (λ _, true) sample_junk 4 = Val (Some sample_ct).
Proof. by vm_compute. Qed.

Lemma sample_ct_rep {xx : XXHash} : ct_rep sample_ct ∅.
Proof.
  destruct (create_rep (λ _, true) sample_junk 4) as (r & E & ct & -> & H & _); [lia|].
  rewrite sample_ct_create in E. by injection E as <-.
Qed.

(** The same table with one flow pinned to backend 2 at time 1000. *)
Definition sample_ct1 : conntrack_table := Eval vm_compute in
  match run_ops (xx := sample_hash) sample_ct [OpPacket (sample_flow 16540) 2 1000] with
  | Val ct => ct
  | _ => sample_ct
  end.

Lemma sample_ct1_rep : ct_rep (xx := sample_hash) sample_ct1 {[ sample_flow 16540 := (2, 1000) ]}.
Proof.
  destruct (run_ops_refines (xx := sample_hash) 4 8 [OpPacket (sample_flow 16540) 2 1000] sample_ct
    {| ft_flows := ∅; ft_cursor := 0 |}) as (ct' & E & H & _).
  - by split; [apply sample_ct_rep|].
  - constructor; [by apply sample_flow_ok|constructor].
  - assert (run_ops (xx := sample_hash) sample_ct [OpPacket (sample_flow 16540) 2 1000] =
      Val sample_ct1) as E1 by by vm_compute.
    rewrite E1 in E. injection E as <-. exact H.
Qed.

Lemma conntrack_create_correct_witness :
  ∃ ct, conntrack_create (λ _, true) sample_junk 4 = Val (Some ct) ∧
    ct_rep (xx := sample_hash) ct ∅ ∧ conntrack_bucket_count ct = 8 ∧
    conntrack_create (λ i, negb (i =? 2)%nat) sample_junk 4 = Val None.
Proof.
  destruct (conntrack_create_correct (xx := sample_hash) (λ _, true) sample_junk 4)
    as (r & E & ct & -> & H & _); [lia|].
  exists ct. split; [exact E|]. rewrite sample_ct_create in E. injection E as <-. by split_and!.
Defined.

Lemma conntrack_lookup_correct_witness :
  (∃ ct', conntrack_lookup (xx := sample_hash) sample_ct1 (sample_flow 16540) 1500 = Val (ct', Some 2)) ∧
  conntrack_lookup (xx := sample_hash) sample_ct1 (sample_flow 16541) 1500 = Val (sample_ct1, None).
Proof.
  split.
  - pose proof (conntrack_lookup_correct (xx := sample_hash) sample_ct1 _ (sample_flow 16540) 1500
      sample_ct1_rep ltac:(by apply sample_flow_ok)) as H.
    rewrite lookup_singleton_eq in H. destruct H as (ct' & H & _). by exists ct'.
  - pose proof (conntrack_lookup_correct (xx := sample_hash) sample_ct1 _ (sample_flow 16541) 1500
      sample_ct1_rep ltac:(by apply sample_flow_ok)) as H.
    by rewrite lookup_singleton_ne in H.
Defined.

Lemma conntrack_insert_correct_witness :
  ∃ ct', conntrack_insert (xx := sample_hash) sample_ct1 (sample_flow 16541) 0 1500 = Val (ct', 0) ∧
    ct_rep (xx := sample_hash) ct'
      (<[sample_flow 16541 := (0, 1500)]> {[ sample_flow 16540 := (2, 1000) ]}).
Proof.
  pose proof (conntrack_insert_correct (xx := sample_hash) sample_ct1 _ (sample_flow 16541) 0 1500
    sample_ct1_rep ltac:(by apply sample_flow_ok) ltac:(by rewrite lookup_singleton_ne)) as H.
  rewrite decide_False in H by by vm_compute. exact H.
Defined.

(** The sweep of all eight buckets evicts the one flow and tells the callback so. *)
Lemma conntrack_reap_correct_witness :
  ∃ ct' m', ct_rep (xx := sample_hash) ct' m' ∧ m' !! sample_flow 16540 = None ∧
    reaper_on_timer_fired (Some (λ b l, Val (b :: l))) sample_ct1 2000 50 30 100 [] =
    Val (ct', 1, [2]).
Proof.
  destruct (conntrack_reap_correct (xx := sample_hash) (Some (λ b l, Val (b :: l))) sample_ct1 _
    2000 50 30 100 sample_ct1_rep ltac:(lia)) as (ct' & evs & Hrep & Hevs & _ & Heq).
  assert (∃ ct0, reaper_on_timer_fired (Some (λ b l, Val (b :: l))) sample_ct1 2000 50 30 100 [] =
    Val (ct0, 1, [2])) as [ct0 E] by (eexists; vm_compute; reflexivity).
  specialize (Heq []). rewrite E in Heq. destruct (evict_all _ evs []); [|discriminate Heq..].
  rewrite bind_Val in Heq. injection Heq as <- _ _.
  eexists ct0, _. split; [exact Hrep|]. split; [|exact E].
  apply map_lookup_filter_None. right. intros v Hv Hns. apply Hns.
  rewrite lookup_singleton_eq in Hv. injection Hv as <-. by vm_compute.
Defined.

Definition sample_trace : list ct_op :=
  [OpTick 2000 50 30 5; OpPacket (sample_flow 16541) 0 2001; OpTick 2002 50 30 5].

Lemma sample_trace_ok : Forall op_ok sample_trace.
Proof. repeat constructor; simpl; lia. Qed.

Lemma conntrack_trace_refines_witness :
  ∃ ct', run_ops (xx := sample_hash) sample_ct (OpPacket (sample_flow 16540) 2 1000 :: sample_trace)
    = Val ct' ∧ conntrack_active_flows ct' = 1.
Proof.
  destruct (conntrack_trace_refines (xx := sample_hash) (λ _, true) sample_junk 4 sample_ct
    (OpPacket (sample_flow 16540) 2 1000 :: sample_trace)) as (ct' & E & _ & Ha);
    [lia|exact sample_ct_create|constructor; [by apply sample_flow_ok|exact sample_trace_ok]|].
  exists ct'. split; [exact E|]. rewrite Ha. by vm_compute.
Defined.

Lemma idle_flow_reaped_witness :
  ∃ ct', run_ops (xx := sample_hash) sample_ct1 sample_trace = Val ct' ∧
    conntrack_lookup (xx := sample_hash) ct' (sample_flow 16540) 3000 = Val (ct', None).
Proof.
  apply (idle_flow_reaped (xx := sample_hash) sample_ct1 _ sample_trace (sample_flow 16540) 2 1000 3000
    sample_ct1_rep); [by apply sample_flow_ok|apply lookup_singleton_eq|exact sample_trace_ok| |by vm_compute].
  repeat constructor; by vm_compute.
Defined.
