(* ===== verification/Stats.v ===== *)
(** * The counter registry

    [src/src/stats/stats_registry.c]: global counters and one block of counters
    per backend id, bounds-checked.  A counter is a 64-bit integer that wraps;
    each [atomic_fetch_add] is one step, so a sequential update models it.
    [sr_backends = None] is the NULL pointer, before [stats_registry_init] or
    after [stats_registry_destroy]. *)

From Stdlib Require Import Lia.
From stdpp Require Import base numbers list.
From S2P Require Import Prelude.

Local Open Scope Z_scope.

Record per_backend_stats := {
  packets : Z;
  bytes : Z;
  active_flows : Z;
  flows_assigned : Z;
  health_check_failures : Z;
}.

(** The counters of [struct lb_stats] that are not per backend, by name. *)
Inductive counter :=
  | Rx_packets | Rx_bytes | Tx_packets | Tx_bytes
  | Drops_parse_error | Drops_no_backend | Drops_backend_unhealthy | Drops_conntrack_full
  | Conntrack_hits | Conntrack_misses | Conntrack_evictions.

#[export] Instance counter_eq_dec : EqDecision counter.
Proof. solve_decision. Defined.

Record global_stats := {
  rx_packets : Z; rx_bytes : Z;
  tx_packets : Z; tx_bytes : Z;
  drops_parse_error : Z; drops_no_backend : Z; drops_backend_unhealthy : Z;
  drops_conntrack_full : Z;
  conntrack_hits : Z; conntrack_misses : Z; conntrack_evictions : Z;
}.

Record lb_stats := {
  sr_global : global_stats;
  sr_backends : option (list per_backend_stats);
  sr_max_backends : Z;
}.

Definition zero_global : global_stats :=
  {| rx_packets := 0; rx_bytes := 0; tx_packets := 0; tx_bytes := 0; drops_parse_error := 0;
     drops_no_backend := 0; drops_backend_unhealthy := 0; drops_conntrack_full := 0;
     conntrack_hits := 0; conntrack_misses := 0; conntrack_evictions := 0 |}.

Definition zero_backend : per_backend_stats :=
  {| packets := 0; bytes := 0; active_flows := 0; flows_assigned := 0; health_check_failures := 0 |}.

(** [None] in the result is the return value -1; [ok] is the success of
    [calloc]. *)
Definition stats_registry_init (ok : bool) (max_backends : Z) : option lb_stats :=
  if decide (0 < max_backends) then
    if ok then Some {| sr_global := zero_global;
                       sr_backends := Some (replicate (Z.to_nat max_backends) zero_backend);
                       sr_max_backends := max_backends |}
    else None
  else Some {| sr_global := zero_global; sr_backends := None; sr_max_backends := max_backends |}.

Definition stats_registry_destroy (s : lb_stats) : lb_stats :=
  {| sr_global := sr_global s; sr_backends := None; sr_max_backends := sr_max_backends s |}.

(** [atomic_fetch_add_explicit(&stats-><c>, n, ...)] *)
Definition bump (c : counter) (n : Z) (s : lb_stats) : lb_stats :=
  let g := sr_global s in
  let add c' v := if decide (c = c') then u64 (v + n) else v in
  {| sr_global :=
       {| rx_packets := add Rx_packets (rx_packets g);
          rx_bytes := add Rx_bytes (rx_bytes g);
          tx_packets := add Tx_packets (tx_packets g);
          tx_bytes := add Tx_bytes (tx_bytes g);
          drops_parse_error := add Drops_parse_error (drops_parse_error g);
          drops_no_backend := add Drops_no_backend (drops_no_backend g);
          drops_backend_unhealthy := add Drops_backend_unhealthy (drops_backend_unhealthy g);
          drops_conntrack_full := add Drops_conntrack_full (drops_conntrack_full g);
          conntrack_hits := add Conntrack_hits (conntrack_hits g);
          conntrack_misses := add Conntrack_misses (conntrack_misses g);
          conntrack_evictions := add Conntrack_evictions (conntrack_evictions g) |};
     sr_backends := sr_backends s;
     sr_max_backends := sr_max_backends s |}.

(** The guarded access [&s->backends[backend_id]] of the per-backend updates. *)
Definition update_backend (s : lb_stats) (backend_id : Z)
    (f : per_backend_stats → per_backend_stats) : out lb_stats :=
  if decide (backend_id >= sr_max_backends s) then Val s
  else
    match sr_backends s with
    | None => Undef
    | Some bs =>
        b ← rd bs (Z.to_nat backend_id);
        bs ← wr bs (Z.to_nat backend_id) (f b);
        Val {| sr_global := sr_global s; sr_backends := Some bs;
               sr_max_backends := sr_max_backends s |}
    end.

Definition stats_record_backend_packet (s : lb_stats) (backend_id n_bytes : Z) : out lb_stats :=
  update_backend s backend_id (λ b,
    {| packets := u64 (packets b + 1); bytes := u64 (bytes b + n_bytes);
       active_flows := active_flows b; flows_assigned := flows_assigned b;
       health_check_failures := health_check_failures b |}).

Definition stats_backend_flow_opened (s : lb_stats) (backend_id : Z) : out lb_stats :=
  update_backend s backend_id (λ b,
    {| packets := packets b; bytes := bytes b; active_flows := u64 (active_flows b + 1);
       flows_assigned := u64 (flows_assigned b + 1);
       health_check_failures := health_check_failures b |}).

Definition stats_backend_flow_closed (s : lb_stats) (backend_id : Z) : out lb_stats :=
  update_backend s backend_id (λ b,
    {| packets := packets b; bytes := bytes b; active_flows := u64 (active_flows b - 1);
       flows_assigned := flows_assigned b; health_check_failures := health_check_failures b |}).

Definition stats_backend_health_check_failed (s : lb_stats) (backend_id : Z) : out lb_stats :=
  update_backend s backend_id (λ b,
    {| packets := packets b; bytes := bytes b; active_flows := active_flows b;
       flows_assigned := flows_assigned b;
       health_check_failures := u64 (health_check_failures b + 1) |}).

(** [struct lb_stats_snapshot] has the fields of [global_stats], and
    [struct per_backend_stats_snapshot] those of [per_backend_stats]. *)
Definition stats_registry_snapshot (s : lb_stats) : global_stats := sr_global s.

Definition stats_registry_snapshot_backend (s : lb_stats) (backend_id : Z) : out per_backend_stats :=
  if decide (backend_id >= sr_max_backends s) then Val zero_backend
  else match sr_backends s with None => Undef | Some bs => rd bs (Z.to_nat backend_id) end.

(** ** The registry between [init] and [destroy] *)

Definition gauge_ok (b : per_backend_stats) : Prop := 0 ≤ active_flows b < 2 ^ 64.

Definition stats_live (s : lb_stats) : Prop :=
  0 ≤ sr_max_backends s ∧
  match sr_backends s with
  | Some bs => Z.of_nat (length bs) = sr_max_backends s ∧ Forall gauge_ok bs
  | None => sr_max_backends s = 0
  end.

Lemma u64_range z : 0 ≤ u64 z < 2 ^ 64.
Proof. apply Z.mod_pos_bound. lia. Qed.

Lemma stats_registry_init_live ok max_backends s :
  0 ≤ max_backends → stats_registry_init ok max_backends = Some s → stats_live s.
Proof.
  intros Hm. unfold stats_registry_init. case_decide; [destruct ok|]; intros [= <-]; split; simpl; try lia.
  rewrite length_replicate. split; [lia|]. by apply Forall_replicate.
Qed.

Lemma bump_live c n s : stats_live s → stats_live (bump c n s).
Proof. done. Qed.

Lemma bump_snapshot_backend c n s id :
  stats_registry_snapshot_backend (bump c n s) id = stats_registry_snapshot_backend s id.
Proof. done. Qed.

Lemma snapshot_backend_Val s id :
  stats_live s → 0 ≤ id → ∃ b, stats_registry_snapshot_backend s id = Val b ∧ gauge_ok b.
Proof.
  intros [Hm Hb] Hid. unfold stats_registry_snapshot_backend. case_decide; [by exists zero_backend|].
  destruct (sr_backends s) as [bs|]; [|lia]. destruct Hb as [Hl Hok].
  destruct (rd_lt bs (Z.to_nat id)) as (b & Hlk & ->); [lia|]. exists b. split; [done|].
  by eapply Forall_lookup_1.
Qed.

(** An update succeeds on a live registry, changes the block of its backend
    only, and nothing at all when the id is out of range. *)
Lemma update_backend_spec s id f :
  stats_live s → 0 ≤ id → (∀ b, gauge_ok b → gauge_ok (f b)) →
  ∃ s', update_backend s id f = Val s' ∧ stats_live s' ∧ sr_global s' = sr_global s ∧
    sr_max_backends s' = sr_max_backends s ∧
    (∀ id' b, 0 ≤ id' → stats_registry_snapshot_backend s id' = Val b →
      stats_registry_snapshot_backend s' id' =
      Val (if decide (id' = id ∧ id < sr_max_backends s) then f b else b)).
Proof.
  intros [Hm Hb] Hid Hf. unfold update_backend. case_decide as Hge.
  { exists s. split_and!; try done. intros id' b _ ->. by rewrite decide_False by lia. }
  destruct (sr_backends s) as [bs|] eqn:Ebs; [|lia]. destruct Hb as [Hlen Hok].
  destruct (rd_lt bs (Z.to_nat id)) as (b0 & Hb0 & ->); [lia|].
  rewrite bind_Val, wr_lt, bind_Val by lia.
  eexists. split; [done|]. split.
  { split; simpl; [done|]. rewrite length_insert. split; [done|].
    apply Forall_insert; [done|]. apply Hf. by eapply Forall_lookup_1. }
  split_and!; [done..|].
  intros id' b Hid'. unfold stats_registry_snapshot_backend. simpl. rewrite Ebs.
  case_decide; [intros [= <-]; by rewrite decide_False by lia|].
  intros Hrd%rd_Val_inv. case_decide as E.
  - destruct E as [-> _]. apply rd_Some. rewrite list_lookup_insert_eq by lia. congruence.
  - apply rd_Some. rewrite list_lookup_insert_ne by lia. done.
Qed.

(** ** Theorems *)

(** Every per-backend update succeeds on a live registry, whatever the id;
    it changes the named counters of that backend's block by the documented
    amounts and no other block, and an id beyond the registry changes
    nothing. *)
Theorem stats_updates_local s id n_bytes (Hlive : stats_live s) (Hid : 0 ≤ id) :
  let inr := id < sr_max_backends s in
  ∃ s1 s2 s3 s4,
    stats_record_backend_packet s id n_bytes = Val s1 ∧ stats_backend_flow_opened s id = Val s2 ∧
    stats_backend_flow_closed s id = Val s3 ∧ stats_backend_health_check_failed s id = Val s4 ∧
    stats_live s1 ∧ stats_live s2 ∧ stats_live s3 ∧ stats_live s4 ∧
    ∀ id' b, 0 ≤ id' → stats_registry_snapshot_backend s id' = Val b →
      ∃ b1 b2 b3 b4,
        stats_registry_snapshot_backend s1 id' = Val b1 ∧ stats_registry_snapshot_backend s2 id' = Val b2 ∧
        stats_registry_snapshot_backend s3 id' = Val b3 ∧ stats_registry_snapshot_backend s4 id' = Val b4 ∧
        if decide (id' = id ∧ inr)
        then packets b1 = u64 (packets b + 1) ∧ bytes b1 = u64 (bytes b + n_bytes) ∧
             active_flows b1 = active_flows b ∧
             active_flows b2 = u64 (active_flows b + 1) ∧
             flows_assigned b2 = u64 (flows_assigned b + 1) ∧ packets b2 = packets b ∧
             active_flows b3 = u64 (active_flows b - 1) ∧ flows_assigned b3 = flows_assigned b ∧
             health_check_failures b4 = u64 (health_check_failures b + 1) ∧
             active_flows b4 = active_flows b
        else b1 = b ∧ b2 = b ∧ b3 = b ∧ b4 = b.
Proof.
  intros inr. unfold stats_record_backend_packet, stats_backend_flow_opened,
    stats_backend_flow_closed, stats_backend_health_check_failed.
  edestruct (update_backend_spec s id) as (s1 & -> & L1 & _ & _ & H1); [done|done| |].
  { intros b Hg. first [exact Hg | apply u64_range]. }
  edestruct (update_backend_spec s id) as (s2 & -> & L2 & _ & _ & H2); [done|done| |].
  { intros b Hg. first [exact Hg | apply u64_range]. }
  edestruct (update_backend_spec s id) as (s3 & -> & L3 & _ & _ & H3); [done|done| |].
  { intros b Hg. first [exact Hg | apply u64_range]. }
  edestruct (update_backend_spec s id) as (s4 & -> & L4 & _ & _ & H4); [done|done| |].
  { intros b Hg. first [exact Hg | apply u64_range]. }
  exists s1, s2, s3, s4. split_and!; [done..|]. intros id' b Hid' Hb. do 4 eexists.
  rewrite (H1 _ b), (H2 _ b), (H3 _ b), (H4 _ b) by done.
  split_and!; [done..|]. subst inr.
  destruct (decide (id' = id ∧ id < sr_max_backends s)); by split_and!.
Qed.

(** A per-backend update after [stats_registry_destroy] dereferences NULL:
    [max_backends] is not reset, so the bounds check does not stop it. *)
Lemma stats_update_after_destroy s id :
  id < sr_max_backends s →
  stats_backend_health_check_failed (stats_registry_destroy s) id = Undef.
Proof. intros Hid. unfold stats_backend_health_check_failed, update_backend. simpl. by rewrite decide_False by lia. Qed.

Definition sample_stats : lb_stats :=
  {| sr_global := zero_global; sr_backends := Some (replicate 4 zero_backend); sr_max_backends := 4 |}.

Lemma sample_stats_live : stats_live sample_stats.
Proof. split; [done|]. split; [done|]. by apply Forall_replicate. Qed.

Lemma stats_updates_local_witness :
  ∃ s2 b, stats_backend_flow_opened sample_stats 2 = Val s2 ∧
    stats_registry_snapshot_backend s2 2 = Val b ∧ active_flows b = 1 ∧ flows_assigned b = 1 ∧
    stats_registry_snapshot_backend s2 1 = Val zero_backend.
Proof.
  destruct (stats_updates_local sample_stats 2 60) as (s1 & s2 & s3 & s4 & _ & E2 & _ & _ & _ & _ & _ & _ & H);
    [apply sample_stats_live|lia|].
  destruct (H 2 zero_backend) as (b1 & b2 & b3 & b4 & _ & Hb2 & _ & _ & Heff); [lia|done|].
  rewrite decide_True in Heff by (simpl; lia).
  destruct (H 1 zero_backend) as (? & c2 & ? & ? & _ & Hc2 & _ & _ & Hsame); [lia|done|].
  rewrite decide_False in Hsame by lia. destruct Hsame as (_ & -> & _).
  exists s2, b2. destruct Heff as (_ & _ & _ & -> & -> & _). by split_and!.
Defined.
