(* ===== verification/BackendManager.v ===== *)
(** * The backend manager

    [src/src/backend/backend_manager.c]: 64 slots of backends under a mutex,
    with one subscriber that is told of every effective change after the mutex
    is released.

    The critical sections are functions on [backend_manager].  What the
    subscriber does is the business of another component: [ChangeListener] is
    the interface, a state that contains the backend manager with the callback
    the manager invokes, and its laws say that the callback does not touch the
    manager. *)

From Stdlib Require Import Lia.
From stdpp Require Import base numbers list.
From S2P Require Import Prelude.

Local Open Scope Z_scope.

Definition BACKEND_MAX : nat := 64.

Inductive backend_admin_state := BACKEND_ENABLED | BACKEND_DRAINING | BACKEND_DISABLED.

#[export] Instance admin_state_eq_dec : EqDecision backend_admin_state.
Proof. solve_decision. Defined.

Record backend := {
  b_id : Z;
  b_addr : Z;
  b_port : Z;
  b_mac : list Z;
  b_mac_resolved : bool;
  b_healthy : bool;
  b_admin_state : backend_admin_state;
}.

(** [bm_cb] tells whether a subscriber is registered. *)
Record backend_manager := {
  bm_backends : list backend;
  bm_slot_used : list bool;
  bm_next_id : Z;
  bm_cb : bool;
}.

Definition zeroed_backend : backend :=
  {| b_id := 0; b_addr := 0; b_port := 0; b_mac := [0; 0; 0; 0; 0; 0]; b_mac_resolved := false;
     b_healthy := false; b_admin_state := BACKEND_ENABLED |}.

Definition set_slot (bm : backend_manager) (i : nat) (b : backend) : out backend_manager :=
  bs ← wr (bm_backends bm) i b;
  Val {| bm_backends := bs; bm_slot_used := bm_slot_used bm; bm_next_id := bm_next_id bm;
         bm_cb := bm_cb bm |}.

Definition set_used (bm : backend_manager) (i : nat) (u : bool) : out backend_manager :=
  us ← wr (bm_slot_used bm) i u;
  Val {| bm_backends := bm_backends bm; bm_slot_used := us; bm_next_id := bm_next_id bm;
         bm_cb := bm_cb bm |}.

Definition set_next_id (bm : backend_manager) (n : Z) : backend_manager :=
  {| bm_backends := bm_backends bm; bm_slot_used := bm_slot_used bm; bm_next_id := n;
     bm_cb := bm_cb bm |}.

Definition set_healthy (h : bool) (b : backend) : backend :=
  {| b_id := b_id b; b_addr := b_addr b; b_port := b_port b; b_mac := b_mac b;
     b_mac_resolved := b_mac_resolved b; b_healthy := h; b_admin_state := b_admin_state b |}.

Definition set_admin (st : backend_admin_state) (b : backend) : backend :=
  {| b_id := b_id b; b_addr := b_addr b; b_port := b_port b; b_mac := b_mac b;
     b_mac_resolved := b_mac_resolved b; b_healthy := b_healthy b; b_admin_state := st |}.

Definition set_mac (mac : list Z) (b : backend) : backend :=
  {| b_id := b_id b; b_addr := b_addr b; b_port := b_port b; b_mac := mac;
     b_mac_resolved := true; b_healthy := b_healthy b; b_admin_state := b_admin_state b |}.

(** [NULL] on allocation failure. *)
Definition backend_manager_create (ok : bool) : option backend_manager :=
  if ok then Some {| bm_backends := replicate BACKEND_MAX zeroed_backend;
                     bm_slot_used := replicate BACKEND_MAX false; bm_next_id := 0; bm_cb := false |}
  else None.

(** ** Critical sections *)

(** [for (i = ...; i < BACKEND_MAX; i++) if (p(i)) ...; break], [n] iterations
    being left: the index the loop stops at. *)
Fixpoint first_slot (n i : nat) (p : nat → out bool) : out (option nat) :=
  match n with
  | O => Val None
  | S n => b ← p i; if b : bool then Val (Some i) else first_slot n (S i) p
  end.

(** [bm->slot_used[i] && bm->backends[i].id == id] *)
Definition slot_has_id (bm : backend_manager) (id : Z) (i : nat) : out bool :=
  u ← rd (bm_slot_used bm) i;
  if u : bool then b ← rd (bm_backends bm) i; Val (bool_decide (b_id b = id)) else Val false.

Definition find_slot (bm : backend_manager) (id : Z) : out (option nat) :=
  first_slot BACKEND_MAX 0 (slot_has_id bm id).

(** The id is [UINT32_MAX] when no slot is free. *)
Definition add_locked (bm : backend_manager) (addr port : Z) : out (backend_manager * Z) :=
  free ← first_slot BACKEND_MAX 0 (λ i, negb <$> rd (bm_slot_used bm) i);
  match free with
  | None => Val (bm, UINT32_MAX)
  | Some i =>
      bm ← set_used bm i true;
      let id := bm_next_id bm in
      let bm := set_next_id bm (u32 (bm_next_id bm + 1)) in
      bm ← set_slot bm i {| b_id := id; b_addr := addr; b_port := port;
                            b_mac := [0; 0; 0; 0; 0; 0]; b_mac_resolved := false;
                            b_healthy := true; b_admin_state := BACKEND_ENABLED |};
      Val (bm, id)
  end.

Definition remove_locked (bm : backend_manager) (id : Z) : out (backend_manager * bool) :=
  slot ← find_slot bm id;
  match slot with
  | None => Val (bm, false)
  | Some i => bm ← set_used bm i false; Val (bm, true)
  end.

(** The common shape of the three setters: find the backend and, if [differs]
    says so, update it. *)
Definition update_locked (bm : backend_manager) (id : Z) (differs : backend → bool)
    (f : backend → backend) : out (backend_manager * bool) :=
  slot ← find_slot bm id;
  match slot with
  | None => Val (bm, false)
  | Some i =>
      b ← rd (bm_backends bm) i;
      if differs b then bm ← set_slot bm i (f b); Val (bm, true) else Val (bm, false)
  end.

Definition set_health_locked (bm : backend_manager) (id : Z) (healthy : bool) :=
  update_locked bm id (λ b, bool_decide (b_healthy b ≠ healthy)) (set_healthy healthy).

Definition set_admin_state_locked (bm : backend_manager) (id : Z) (state : backend_admin_state) :=
  update_locked bm id (λ b, bool_decide (b_admin_state b ≠ state)) (set_admin state).

Definition set_mac_locked (bm : backend_manager) (id : Z) (mac : list Z) :=
  update_locked bm id (λ _, true) (set_mac mac).

(** [for (i = 0; i < BACKEND_MAX && n < out_cap; i++)] of the three snapshots. *)
Fixpoint collect (n i : nat) (bm : backend_manager) (out_cap : nat) (p : backend → bool)
    (out : list backend) : Prelude.out (list backend) :=
  match n with
  | O => Val out
  | S n =>
      if decide (length out < out_cap)%nat then
        u ← rd (bm_slot_used bm) i;
        if negb u then collect n (S i) bm out_cap p out
        else
          b ← rd (bm_backends bm) i;
          collect n (S i) bm out_cap p (if p b then out ++ [b] else out)
      else Val out
  end.

Definition eligible (b : backend) : bool :=
  bool_decide (b_admin_state b = BACKEND_ENABLED) && b_healthy b && b_mac_resolved b.

Definition routable (b : backend) : bool :=
  bool_decide (b_admin_state b ≠ BACKEND_DISABLED) && b_healthy b && b_mac_resolved b.

Definition backend_manager_snapshot_eligible (bm : backend_manager) (out_cap : nat) :=
  collect BACKEND_MAX 0 bm out_cap eligible [].

Definition backend_manager_snapshot_routable (bm : backend_manager) (out_cap : nat) :=
  collect BACKEND_MAX 0 bm out_cap routable [].

Definition backend_manager_snapshot_all (bm : backend_manager) (out_cap : nat) :=
  collect BACKEND_MAX 0 bm out_cap (λ _, true) [].

Definition backend_manager_subscribe (bm : backend_manager) : backend_manager :=
  {| bm_backends := bm_backends bm; bm_slot_used := bm_slot_used bm; bm_next_id := bm_next_id bm;
     bm_cb := true |}.

(** ** The interface to the subscriber, and the operations *)

Class ChangeListener (St : Type) := {
  get_bm : St → backend_manager;
  put_bm : backend_manager → St → St;
  on_change : St → out St;
  get_put_bm bm s : get_bm (put_bm bm s) = bm;
  put_get_bm s : put_bm (get_bm s) s = s;
  on_change_bm s s' : on_change s = Val s' → get_bm s' = get_bm s;
}.

Section Operations.
Context `{ChangeListener St}.

Definition notify (s : St) : out St := if bm_cb (get_bm s) then on_change s else Val s.

Definition backend_manager_add (s : St) (addr port : Z) : out (St * Z) :=
  '(bm, id) ← add_locked (get_bm s) addr port;
  let s := put_bm bm s in
  s ← (if decide (id ≠ UINT32_MAX) then notify s else Val s);
  Val (s, id).

(** Runs a critical section that says whether it changed something, and
    notifies if so. *)
Definition locked_then_notify (s : St) (section : backend_manager → out (backend_manager * bool)) :
    out (St * bool) :=
  '(bm, changed) ← section (get_bm s);
  let s := put_bm bm s in
  s ← (if changed : bool then notify s else Val s);
  Val (s, changed).

Definition backend_manager_remove (s : St) (id : Z) : out (St * Z) :=
  '(s, found) ← locked_then_notify s (λ bm, remove_locked bm id);
  Val (s, if found : bool then 0 else -1).

Definition backend_manager_set_health (s : St) (id : Z) (healthy : bool) : out (St * bool) :=
  locked_then_notify s (λ bm, set_health_locked bm id healthy).

Definition backend_manager_set_admin_state (s : St) (id : Z) (state : backend_admin_state) :
    out (St * bool) :=
  locked_then_notify s (λ bm, set_admin_state_locked bm id state).

Definition backend_manager_set_mac (s : St) (id : Z) (mac : list Z) : out St :=
  '(s, _) ← locked_then_notify s (λ bm, set_mac_locked bm id mac); Val s.
End Operations.

(** ** The backends in use *)

Definition slot_backend (p : bool * backend) : option backend := if p.1 then Some p.2 else None.

(** The backends of the used slots, in slot order. *)
Definition live (bm : backend_manager) : list backend :=
  omap slot_backend (zip (bm_slot_used bm) (bm_backends bm)).

(** [b] sits in the used slot [i]. *)
Definition at_slot (bm : backend_manager) (i : nat) (b : backend) : Prop :=
  bm_slot_used bm !! i = Some true ∧ bm_backends bm !! i = Some b.

Record bm_ok (bm : backend_manager) : Prop := {
  ok_backends : length (bm_backends bm) = BACKEND_MAX;
  ok_used : length (bm_slot_used bm) = BACKEND_MAX;
  ok_next : 0 ≤ bm_next_id bm;
  ok_ids i b : at_slot bm i b → 0 ≤ b_id b < bm_next_id bm;
  ok_unique i j b b' : at_slot bm i b → at_slot bm j b' → b_id b = b_id b' → i = j;
}.

Lemma elem_of_live bm b : b ∈ live bm ↔ ∃ i, at_slot bm i b.
Proof.
  unfold live, at_slot. rewrite list_elem_of_omap. split.
  - intros ([u b'] & Hin & Hs). apply list_elem_of_lookup in Hin as [i Hi].
    apply lookup_zip_Some in Hi as [Hu Hb]. unfold slot_backend in Hs. simpl in *.
    destruct u; simplify_eq. eauto.
  - intros (i & Hu & Hb). exists (true, b). split; [|done].
    apply list_elem_of_lookup_2 with i. by apply lookup_zip_Some.
Qed.

Lemma live_ids_NoDup bm : bm_ok bm → NoDup (b_id <$> live bm).
Proof.
  intros Hok. unfold live.
  assert (∀ i j b b', zip (bm_slot_used bm) (bm_backends bm) !! i = Some (true, b) →
    zip (bm_slot_used bm) (bm_backends bm) !! j = Some (true, b') → b_id b = b_id b' → i = j) as Hu.
  { intros i j b b' [??]%lookup_zip_Some [??]%lookup_zip_Some. by apply (ok_unique _ Hok). }
  revert Hu. generalize (zip (bm_slot_used bm) (bm_backends bm)) as l.
  induction l as [|[u b] l IH]; intros Hu; [constructor|].
  assert (NoDup (b_id <$> omap slot_backend l)) as IH'.
  { apply IH. intros i j b1 b2 H1 H2 E. assert (S i = S j); [|lia]. by eapply Hu. }
  destruct u; [|done]. cbn. apply NoDup_cons_2; [|done].
  intros (b' & E & Hin)%list_elem_of_fmap. apply list_elem_of_omap in Hin as ([[] b2] & Hin & [= ->]).
  apply list_elem_of_lookup in Hin as [j Hj]. discriminate (Hu 0%nat (S j) b b' eq_refl Hj E).
Qed.

(** ** The loops over the slots *)

Lemma first_slot_spec n i p q :
  (∀ j, (i ≤ j < i + n)%nat → p j = Val (q j)) →
  ∃ r, first_slot n i p = Val r ∧
    match r with
    | Some k => (i ≤ k < i + n)%nat ∧ q k = true
    | None => ∀ j, (i ≤ j < i + n)%nat → q j = false
    end.
Proof.
  revert i. induction n as [|n IH]; intros i Hp; simpl.
  - exists None. split; [done|]. lia.
  - rewrite Hp, bind_Val by lia. destruct (q i) eqn:Hq.
    + exists (Some i). split; [done|]. split; [lia|done].
    + destruct (IH (S i)) as (r & -> & Hr); [intros; apply Hp; lia|].
      exists r. split; [done|]. destruct r as [k|].
      * destruct Hr. split; [lia|done].
      * intros j Hj. destruct (decide (j = i)) as [-> |]; [done|]. apply Hr. lia.
Qed.

(** What slot [i] holds, for any [i] in range. *)
Lemma slot_cases bm i :
  bm_ok bm → (i < BACKEND_MAX)%nat →
  ∃ u b, bm_slot_used bm !! i = Some u ∧ bm_backends bm !! i = Some b.
Proof.
  intros Hok Hi.
  destruct (lookup_lt_is_Some_2 (bm_slot_used bm) i) as [u Hu]; [by rewrite (ok_used _ Hok)|].
  destruct (lookup_lt_is_Some_2 (bm_backends bm) i) as [b Hb]; [by rewrite (ok_backends _ Hok)|].
  eauto.
Qed.

Lemma at_slot_lt bm i b : bm_ok bm → at_slot bm i b → (i < BACKEND_MAX)%nat.
Proof. intros Hok [Hu _]. rewrite <- (ok_used _ Hok). by eapply lookup_lt_Some. Qed.

Lemma find_slot_spec bm id :
  bm_ok bm →
  ∃ r, find_slot bm id = Val r ∧
    match r with
    | Some i => ∃ b, at_slot bm i b ∧ b_id b = id
    | None => id ∉ b_id <$> live bm
    end.
Proof.
  intros Hok.
  set (q i := match bm_slot_used bm !! i, bm_backends bm !! i with
              | Some true, Some b => bool_decide (b_id b = id) | _, _ => false end).
  destruct (first_slot_spec BACKEND_MAX 0 (slot_has_id bm id) q) as (r & E & Hr).
  { intros j Hj. destruct (slot_cases bm j Hok) as (u & b & Hu & Hb); [lia|].
    unfold slot_has_id, q. rewrite (rd_Some _ _ _ Hu), bind_Val, Hu, Hb.
    destruct u; [|done]. by rewrite (rd_Some _ _ _ Hb), bind_Val. }
  exists r. split; [done|]. unfold q in Hr. destruct r as [i|].
  - destruct Hr as [_ Hr]. destruct (bm_slot_used bm !! i) as [[]|] eqn:Hu; [|done..].
    destruct (bm_backends bm !! i) as [b|] eqn:Hb; [|done].
    apply bool_decide_eq_true in Hr. by exists b.
  - intros (b & -> & (i & Hi)%elem_of_live)%list_elem_of_fmap.
    specialize (Hr i). destruct Hi as [Hu Hb] eqn:E'. rewrite Hu, Hb in Hr.
    rewrite bool_decide_true in Hr by done. discriminate Hr.
    pose proof (at_slot_lt bm i b Hok (conj Hu Hb)). lia.
Qed.

(** The snapshots copy the live backends that satisfy the predicate, up to the
    capacity. *)
Lemma collect_spec n i bm cap p out :
  bm_ok bm → (i + n = BACKEND_MAX)%nat →
  collect n i bm cap p out =
  Val (out ++ take (cap - length out)
    (filter p (omap slot_backend (drop i (zip (bm_slot_used bm) (bm_backends bm)))))).
Proof.
  intros Hok. revert i out. induction n as [|n IH]; intros i out Hi; cbn [collect].
  - rewrite drop_ge by (rewrite length_zip, (ok_used _ Hok); lia). cbn.
    by rewrite take_nil, app_nil_r.
  - case_decide; [|by replace (cap - length out)%nat with 0%nat by lia; rewrite take_0, app_nil_r].
    destruct (slot_cases bm i Hok) as (u & b & Hu & Hb); [lia|].
    rewrite (rd_Some _ _ _ Hu), bind_Val.
    erewrite (drop_S _ (u, b) i) by (by apply lookup_zip_Some).
    destruct u; simpl negb; cbv iota; [|rewrite IH by lia; done].
    rewrite (rd_Some _ _ _ Hb), bind_Val, IH by lia. cbn [omap list_omap slot_backend fst snd].
    destruct (p b) eqn:Hp.
    + rewrite filter_cons_True by (by rewrite Hp). rewrite length_app, <- (assoc_L (++)). simpl.
      replace (cap - length out)%nat with (S (cap - (length out + 1))) by lia. done.
    + rewrite filter_cons_False by (rewrite Hp; simpl; tauto). done.
Qed.

Lemma live_length bm : bm_ok bm → (length (live bm) ≤ BACKEND_MAX)%nat.
Proof.
  intros Hok. unfold live.
  assert (∀ l, (length (omap slot_backend l) ≤ length l)%nat) as H.
  { induction l as [|[[] b] l IH]; cbn; lia. }
  etransitivity; [apply H|]. rewrite length_zip, (ok_used _ Hok). lia.
Qed.

Lemma collect_all bm p :
  bm_ok bm → collect BACKEND_MAX 0 bm BACKEND_MAX p [] = Val (filter p (live bm)).
Proof.
  intros Hok. rewrite collect_spec by done. simpl app. rewrite drop_0, take_ge; [done|].
  simpl length. etransitivity; [apply length_filter|by apply live_length].
Qed.

(** ** The critical sections on the live backends *)

Lemma omap_slot_fmap (g : backend → backend) (c : backend → bool) (l : list (bool * backend)) :
  omap slot_backend ((λ p, (p.1, if p.1 && c p.2 then g p.2 else p.2)) <$> l) =
  (λ b, if c b then g b else b) <$> omap slot_backend l.
Proof. induction l as [|[[] b] l IH]; [done| |]; cbn; by rewrite IH. Qed.

Lemma omap_slot_filter (c : backend → bool) (l : list (bool * backend)) :
  omap slot_backend ((λ p, (p.1 && negb (c p.2), p.2)) <$> l) =
  filter (λ b, c b = false) (omap slot_backend l).
Proof.
  induction l as [|[[] b] l IH]; [done| |]; cbn [fmap list_fmap omap list_omap slot_backend fst snd andb].
  - destruct (c b) eqn:E; cbn [negb].
    + by rewrite IH, filter_cons_False by (by rewrite E).
    + rewrite filter_cons_True by done. by rewrite IH.
  - by rewrite IH.
Qed.

(** Updating the backend in slot [i] is the update of the backend with that id. *)
Lemma live_set_slot bm i b f bm' :
  bm_ok bm → at_slot bm i b → b_id (f b) = b_id b → set_slot bm i (f b) = Val bm' →
  bm_ok bm' ∧ live bm' = (λ b', if decide (b_id b' = b_id b) then f b' else b') <$> live bm.
Proof.
  intros Hok Hat Hf Hset. pose proof (at_slot_lt _ _ _ Hok Hat) as Hi. destruct Hat as [Hu Hb].
  unfold set_slot in Hset. rewrite wr_lt in Hset by (by rewrite (ok_backends _ Hok)).
  rewrite bind_Val in Hset. injection Hset as <-.
  assert (∀ j b', at_slot {| bm_backends := <[i:=f b]> (bm_backends bm); bm_slot_used := bm_slot_used bm;
    bm_next_id := bm_next_id bm; bm_cb := bm_cb bm |} j b' →
    ∃ b0, at_slot bm j b0 ∧ b_id b0 = b_id b') as Hold.
  { intros j b' [Huj Hbj]. simpl in *. destruct (decide (j = i)) as [-> |Hne].
    - rewrite list_lookup_insert_eq in Hbj by (rewrite (ok_backends _ Hok); lia).
      injection Hbj as <-. by exists b.
    - rewrite list_lookup_insert_ne in Hbj by done. by exists b'. }
  split.
  - split; simpl; [by rewrite length_insert, (ok_backends _ Hok)|apply Hok|apply Hok| |].
    + intros j b' (b0 & H0 & <-)%Hold. by eapply ok_ids.
    + intros j k b1 b2 (b1' & H1 & <-)%Hold (b2' & H2 & <-)%Hold. by eapply ok_unique.
  - unfold live. simpl.
    transitivity (omap slot_backend ((λ p, (p.1, if p.1 && bool_decide (b_id p.2 = b_id b) then f p.2 else p.2))
      <$> zip (bm_slot_used bm) (bm_backends bm))).
    + f_equal. apply list_eq. intros j. rewrite list_lookup_fmap.
      destruct (decide (j < BACKEND_MAX)%nat) as [Hj|Hj].
      2:{ rewrite !lookup_ge_None_2; [done|..]; rewrite length_zip, ?length_insert, (ok_used _ Hok); lia. }
      destruct (slot_cases bm j Hok Hj) as (u & bj & Huj & Hbj).
      assert (zip (bm_slot_used bm) (bm_backends bm) !! j = Some (u, bj)) as -> by (by apply lookup_zip_Some).
      simpl.
      apply lookup_zip_Some. simpl. split; [done|]. rewrite list_lookup_insert.
      destruct (decide (i = j)) as [<- |Hne].
      * rewrite decide_True by (rewrite (ok_backends _ Hok); lia). simplify_eq.
        by rewrite bool_decide_true.
      * rewrite decide_False by tauto. rewrite Hbj. f_equal. destruct u; [|done]. simpl.
        rewrite bool_decide_false; [done|]. intros E. apply Hne. by eapply (ok_unique _ Hok).
    + refine (eq_trans (omap_slot_fmap f (λ b0, bool_decide (b_id b0 = b_id b)) _) _). apply list_fmap_ext. intros k b' _. simpl.
      by case_bool_decide; case_decide.
Qed.

Lemma update_locked_spec bm id differs f :
  bm_ok bm → (∀ b, b_id (f b) = b_id b) →
  ∃ bm' changed, update_locked bm id differs f = Val (bm', changed) ∧ bm_ok bm' ∧
    bm_cb bm' = bm_cb bm ∧ bm_next_id bm' = bm_next_id bm ∧
    (changed = true ↔ ∃ b, b ∈ live bm ∧ b_id b = id ∧ differs b = true) ∧
    live bm' = if changed then (λ b, if decide (b_id b = id) then f b else b) <$> live bm else live bm.
Proof.
  intros Hok Hf. unfold update_locked. destruct (find_slot_spec bm id Hok) as (r & -> & Hr).
  rewrite bind_Val. destruct r as [i|].
  - destruct Hr as (b & Hat & <-). rewrite (rd_Some _ _ _ (proj2 Hat)), bind_Val.
    assert (∀ b', b' ∈ live bm → b_id b' = b_id b → b' = b) as Huniq.
    { intros b' (j & Hj)%elem_of_live E. assert (j = i) as -> by by eapply ok_unique.
      destruct Hat, Hj. congruence. }
    assert (b ∈ live bm) by (apply elem_of_live; eauto).
    destruct (differs b) eqn:Hd.
    + destruct (set_slot bm i (f b)) as [bm'| |] eqn:Es;
        unfold set_slot in Es; rewrite wr_lt in Es by (rewrite (ok_backends _ Hok); by eapply at_slot_lt);
        try discriminate Es.
      destruct (live_set_slot bm i b f bm' Hok Hat (Hf b)) as [Hok' Hl].
      { unfold set_slot. rewrite wr_lt by (rewrite (ok_backends _ Hok); by eapply at_slot_lt). done. }
      rewrite bind_Val in Es. injection Es as <-.
      do 2 eexists. split; [done|]. split_and!; try done; naive_solver.
    + exists bm, false. split_and!; try done. split; [done|]. intros (b' & Hin & E & Hdb).
      rewrite (Huniq b' Hin E) in Hdb. congruence.
  - exists bm, false. split_and!; try done. split; [done|]. intros (b & Hin & <- & _).
    exfalso. apply Hr. by apply list_elem_of_fmap_2.
Qed.

Lemma remove_locked_spec bm id :
  bm_ok bm →
  ∃ bm' found, remove_locked bm id = Val (bm', found) ∧ bm_ok bm' ∧ bm_cb bm' = bm_cb bm ∧
    bm_next_id bm' = bm_next_id bm ∧ (found = true ↔ id ∈ b_id <$> live bm) ∧
    live bm' = filter (λ b, b_id b ≠ id) (live bm).
Proof.
  intros Hok. unfold remove_locked. destruct (find_slot_spec bm id Hok) as (r & -> & Hr).
  rewrite bind_Val. destruct r as [i|].
  - destruct Hr as (b & Hat & <-). pose proof (at_slot_lt _ _ _ Hok Hat) as Hi.
    unfold set_used. rewrite wr_lt, !bind_Val by (by rewrite (ok_used _ Hok)).
    do 2 eexists. split; [done|]. simpl.
    assert (∀ j b', <[i:=false]> (bm_slot_used bm) !! j = Some true ∧ bm_backends bm !! j = Some b' →
      at_slot bm j b' ∧ j ≠ i) as Hold.
    { intros j b' [Hu Hb]. rewrite list_lookup_insert in Hu. case_decide; [done|].
      split; [done|]. intros ->. apply H. split; [done|]. by rewrite (ok_used _ Hok). }
    split_and!; try done.
    + split; simpl; [apply Hok|by rewrite length_insert, (ok_used _ Hok)|apply Hok| |].
      * intros j b' [H _]%Hold. by eapply ok_ids.
      * intros j k b1 b2 [H1 _]%Hold [H2 _]%Hold. by eapply ok_unique.
    + split; [|done]. intros _. apply list_elem_of_fmap_2, elem_of_live. eauto.
    + unfold live. simpl.
      transitivity (omap slot_backend ((λ p, (p.1 && negb (bool_decide (b_id p.2 = b_id b)), p.2))
        <$> zip (bm_slot_used bm) (bm_backends bm))).
      * f_equal. apply list_eq. intros j. rewrite list_lookup_fmap.
        destruct (decide (j < BACKEND_MAX)%nat) as [Hj|Hj].
        2:{ rewrite !lookup_ge_None_2; [done|..]; rewrite length_zip, ?length_insert, (ok_used _ Hok); lia. }
        destruct (slot_cases bm j Hok Hj) as (u & bj & Huj & Hbj).
        assert (zip (bm_slot_used bm) (bm_backends bm) !! j = Some (u, bj)) as -> by (by apply lookup_zip_Some).
        simpl. apply lookup_zip_Some. simpl. split; [|done]. rewrite list_lookup_insert.
        destruct (decide (i = j)) as [<- |Hne].
        -- rewrite decide_True by (rewrite (ok_used _ Hok); lia). destruct Hat. simplify_eq.
           rewrite bool_decide_true by done. by rewrite andb_false_r.
        -- rewrite decide_False by tauto. rewrite Huj. f_equal. destruct u; [|done]. simpl.
           rewrite bool_decide_false; [done|]. intros E. apply Hne. by eapply (ok_unique _ Hok).
      * refine (eq_trans (omap_slot_filter (λ b0, bool_decide (b_id b0 = b_id b)) _) _).
        apply list_filter_iff. intros b'. by rewrite bool_decide_eq_false.
  - exists bm, false. split; [done|]. split; [done|]. split; [done|]. split; [done|].
    split; [by split; [|intros ?%Hr]|].
    symmetry. apply filter_Forall, Forall_forall. intros b Hb E. apply Hr.
    rewrite <- E. by apply list_elem_of_fmap_2.
Qed.

Lemma omap_slot_full (l : list (bool * backend)) :
  (∀ i p, l !! i = Some p → p.1 = true) → length (omap slot_backend l) = length l.
Proof.
  induction l as [|[u b] l IH]; intros Hl; [done|].
  assert (u = true) as -> by (by apply (Hl 0%nat (u, b))). cbn. f_equal.
  apply IH. intros i p Hp. by apply (Hl (S i) p).
Qed.

Lemma omap_slot_insert (l : list (bool * backend)) i b b' :
  l !! i = Some (false, b) → omap slot_backend (<[i:=(true, b')]> l) ≡ₚ b' :: omap slot_backend l.
Proof.
  intros Hi. pose proof (lookup_lt_Some _ _ _ Hi).
  rewrite insert_take_drop by done. rewrite <- (take_drop_middle l i (false, b) Hi) at 3.
  rewrite !omap_app. cbn. by rewrite Permutation_middle.
Qed.

Definition fresh_backend (id addr port : Z) : backend :=
  {| b_id := id; b_addr := addr; b_port := port; b_mac := [0; 0; 0; 0; 0; 0]; b_mac_resolved := false;
     b_healthy := true; b_admin_state := BACKEND_ENABLED |}.

Lemma add_slot_ok bm i b addr port :
  bm_ok bm → bm_slot_used bm !! i = Some false → bm_backends bm !! i = Some b →
  let bm' := {| bm_backends := <[i:=fresh_backend (bm_next_id bm) addr port]> (bm_backends bm);
                bm_slot_used := <[i:=true]> (bm_slot_used bm);
                bm_next_id := bm_next_id bm + 1; bm_cb := bm_cb bm |} in
  bm_ok bm' ∧ live bm' ≡ₚ fresh_backend (bm_next_id bm) addr port :: live bm.
Proof.
  intros Hok Hu Hb bm'. pose proof (ok_next _ Hok) as Hn0.
  assert (i < BACKEND_MAX)%nat as Hi by (rewrite <- (ok_used _ Hok); by eapply lookup_lt_Some).
  assert (∀ j b', at_slot bm' j b' →
    j = i ∧ b' = fresh_backend (bm_next_id bm) addr port ∨ j ≠ i ∧ at_slot bm j b') as Hcase.
  { intros j b' [Huj Hbj]. simpl in *. destruct (decide (j = i)) as [-> |Hne].
    - rewrite list_lookup_insert_eq in Hbj by (by rewrite (ok_backends _ Hok)). left. by simplify_eq.
    - rewrite list_lookup_insert_ne in Huj by done. rewrite list_lookup_insert_ne in Hbj by done. by right. }
  split.
  - split; simpl; [by rewrite length_insert, (ok_backends _ Hok)|by rewrite length_insert, (ok_used _ Hok)|lia| |].
    + intros j b' [[-> ->]|[_ H]]%Hcase; simpl; [lia|]. pose proof (ok_ids _ Hok _ _ H). lia.
    + intros j k b1 b2 [[-> ->]|[_ H1]]%Hcase [[-> ->]|[_ H2]]%Hcase E; simpl in E; [done|..].
      * pose proof (ok_ids _ Hok _ _ H2). lia.
      * pose proof (ok_ids _ Hok _ _ H1). lia.
      * by eapply (ok_unique _ Hok).
  - unfold live. simpl. rewrite <- (omap_slot_insert _ i b) by (by apply lookup_zip_Some).
    rewrite insert_zip_with. done.
Qed.

Lemma add_locked_spec bm addr port :
  bm_ok bm → bm_next_id bm < UINT32_MAX →
  if decide (length (live bm) = BACKEND_MAX)
  then add_locked bm addr port = Val (bm, UINT32_MAX)
  else ∃ bm', add_locked bm addr port = Val (bm', bm_next_id bm) ∧ bm_ok bm' ∧
    bm_cb bm' = bm_cb bm ∧ bm_next_id bm' = bm_next_id bm + 1 ∧
    live bm' ≡ₚ fresh_backend (bm_next_id bm) addr port :: live bm.
Proof.
  intros Hok Hn. unfold add_locked. pose proof (ok_next _ Hok) as Hn0.
  destruct (first_slot_spec BACKEND_MAX 0 (λ i, negb <$> rd (bm_slot_used bm) i)
    (λ i, negb (default false (bm_slot_used bm !! i)))) as (r & -> & Hr).
  { intros j Hj. destruct (slot_cases bm j Hok) as (u & b & Hu & _); [lia|].
    by rewrite (rd_Some _ _ _ Hu), Hu. }
  rewrite bind_Val. destruct r as [i|].
  - destruct Hr as [Hi Hfree]. destruct (slot_cases bm i Hok) as (u & b & Hu & Hb); [lia|].
    rewrite Hu in Hfree. destruct u; [done|].
    destruct (add_slot_ok bm i b addr port Hok Hu Hb) as [Hok' Hlive].
    rewrite decide_False.
    2:{ pose proof (live_length _ Hok'). apply Permutation_length in Hlive. simpl in Hlive. lia. }
    unfold set_used. rewrite wr_lt, !bind_Val by (rewrite (ok_used _ Hok); lia). cbv beta zeta.
    unfold set_slot, set_next_id. simpl. unfold u32.
    rewrite wr_lt, bind_Val, Z.mod_small by (unfold UINT32_MAX in Hn; rewrite ?(ok_backends _ Hok); lia).
    eexists. split; [done|]. by split_and!.
  - rewrite decide_True; [done|]. unfold live. rewrite omap_slot_full.
    + rewrite length_zip, (ok_used _ Hok), (ok_backends _ Hok). done.
    + intros i [u b] [Hu _]%lookup_zip_Some. simpl in *.
      assert (i < BACKEND_MAX)%nat by (rewrite <- (ok_used _ Hok); by eapply lookup_lt_Some).
      specialize (Hr i ltac:(lia)). rewrite Hu in Hr. simpl in Hr. by destruct u.
Qed.

(** ** The operations *)

Section OperationLemmas.
Context `{ChangeListener St}.

(** What an operation does when its critical section returns [(bm', changed)]. *)
Definition committed (s : St) (bm' : backend_manager) (changed : bool) : out (St * bool) :=
  s' ← (if changed && bm_cb (get_bm s) then on_change (put_bm bm' s) else Val (put_bm bm' s));
  Val (s', changed).

Lemma locked_then_notify_committed s section bm' changed :
  section (get_bm s) = Val (bm', changed) → bm_cb bm' = bm_cb (get_bm s) →
  locked_then_notify s section = committed s bm' changed.
Proof.
  intros E Hcb. unfold locked_then_notify, committed, notify. rewrite E, bind_Val. cbv beta iota zeta.
  rewrite get_put_bm, Hcb. by destruct changed, (bm_cb (get_bm s)).
Qed.

(** Whatever the subscriber does, the manager afterwards is the one the critical
    section left. *)
Lemma committed_bm s bm' changed s' c :
  committed s bm' changed = Val (s', c) → c = changed ∧ get_bm s' = bm'.
Proof.
  unfold committed. intros (s1 & E & [= <- <-])%bind_Val_inv. split; [done|].
  destruct (changed && bm_cb (get_bm s)).
  - apply on_change_bm in E. by rewrite E, get_put_bm.
  - injection E as <-. apply get_put_bm.
Qed.

(** The effect of a setter that applies [f] to the backend [id] if [differs]. *)
Definition sets (s : St) (id : Z) (differs : backend → bool) (f : backend → backend)
    (result : out (St * bool)) : Prop :=
  ∃ bm' changed, bm_ok bm' ∧
    (changed = true ↔ ∃ b, b ∈ live (get_bm s) ∧ b_id b = id ∧ differs b = true) ∧
    live bm' = (if changed then (λ b, if decide (b_id b = id) then f b else b) <$> live (get_bm s)
                else live (get_bm s)) ∧
    result = committed s bm' changed.

Lemma setter_sets s id differs f :
  bm_ok (get_bm s) → (∀ b, b_id (f b) = b_id b) →
  sets s id differs f (locked_then_notify s (λ bm, update_locked bm id differs f)).
Proof.
  intros Hok Hf. destruct (update_locked_spec (get_bm s) id differs f Hok Hf)
    as (bm' & changed & E & Hok' & Hcb & _ & Hch & Hl).
  exists bm', changed. split_and!; try done; [apply Hch..|]. by apply locked_then_notify_committed.
Qed.

(** ** Theorems *)

(** A health or admin-state change rewrites exactly the backend with that
    id, reports a change exactly when that backend exists and was in another
    state, and only then runs the subscriber, on the updated manager and after
    the critical section; resolving a MAC always notifies if the backend
    exists. *)
Theorem backend_manager_setters_exact (s : St) (id : Z) (healthy : bool)
    (state : backend_admin_state) (mac : list Z) (Hok : bm_ok (get_bm s)) :
  sets s id (λ b, bool_decide (b_healthy b ≠ healthy)) (set_healthy healthy)
    (backend_manager_set_health s id healthy) ∧
  sets s id (λ b, bool_decide (b_admin_state b ≠ state)) (set_admin state)
    (backend_manager_set_admin_state s id state) ∧
  ∃ r, sets s id (λ _, true) (set_mac mac) r ∧ backend_manager_set_mac s id mac = fst <$> r.
Proof.
  split_and!; [by apply setter_sets..|]. eexists. split; [by apply setter_sets|].
  unfold backend_manager_set_mac, set_mac_locked. by destruct (locked_then_notify _ _) as [[??]| |].
Qed.

(** Adding a backend fails with [UINT32_MAX], without a notification,
    exactly when 64 backends are in use; otherwise the new backend gets the next
    id, is enabled and healthy but has no MAC yet, the others are untouched and
    the subscriber runs.  Removing drops exactly the backend with that id. *)
Theorem backend_manager_add_remove_exact (s : St) (addr port id : Z)
    (Hok : bm_ok (get_bm s)) (Hids : bm_next_id (get_bm s) < UINT32_MAX) :
  (if decide (length (live (get_bm s)) = BACKEND_MAX)
   then backend_manager_add s addr port = Val (s, UINT32_MAX)
   else ∃ bm', bm_ok bm' ∧
     live bm' ≡ₚ fresh_backend (bm_next_id (get_bm s)) addr port :: live (get_bm s) ∧
     backend_manager_add s addr port =
       (λ p, (p.1, bm_next_id (get_bm s))) <$> committed s bm' true) ∧
  ∃ bm' found, bm_ok bm' ∧ (found = true ↔ id ∈ b_id <$> live (get_bm s)) ∧
    live bm' = filter (λ b, b_id b ≠ id) (live (get_bm s)) ∧
    backend_manager_remove s id =
      (λ p, (p.1, if p.2 : bool then 0 else -1)) <$> committed s bm' found.
Proof.
  split.
  - pose proof (add_locked_spec (get_bm s) addr port Hok Hids) as Ha. unfold backend_manager_add.
    case_decide.
    { rewrite Ha, bind_Val. cbv beta iota zeta. rewrite decide_False by tauto. by rewrite put_get_bm. }
    destruct Ha as (bm' & -> & Hok' & Hcb & _ & Hl). exists bm'. split_and!; [done..|].
    rewrite bind_Val. cbv beta iota zeta. rewrite decide_True by lia.
    unfold committed, notify. rewrite get_put_bm, Hcb. simpl.
    destruct (bm_cb (get_bm s)); [|done]. by destruct (on_change _).
  - destruct (remove_locked_spec (get_bm s) id Hok) as (bm' & found & E & Hok' & Hcb & _ & Hf & Hl).
    exists bm', found. split_and!; try done; [apply Hf..|]. unfold backend_manager_remove.
    rewrite (locked_then_notify_committed s _ bm' found) by done.
    by destruct (committed s bm' found) as [[??]| |].
Qed.
End OperationLemmas.

(** The snapshots copy exactly the backends their predicate admits, in slot
    order.  The backends eligible for new flows are among the routable ones,
    these among all; a backend is routable without being eligible exactly when
    it is draining, healthy and resolved. *)
Theorem backend_manager_snapshots_nested bm (Hok : bm_ok bm) :
  ∃ el ro al,
    backend_manager_snapshot_eligible bm BACKEND_MAX = Val el ∧
    backend_manager_snapshot_routable bm BACKEND_MAX = Val ro ∧
    backend_manager_snapshot_all bm BACKEND_MAX = Val al ∧
    al = live bm ∧ el `sublist_of` ro ∧ ro `sublist_of` al ∧
    ∀ b, b ∈ live bm →
      (b ∈ ro ∧ b ∉ el ↔ b_admin_state b = BACKEND_DRAINING ∧ b_healthy b ∧ b_mac_resolved b).
Proof.
  do 3 eexists. unfold backend_manager_snapshot_eligible, backend_manager_snapshot_routable,
    backend_manager_snapshot_all. rewrite !collect_all by done. split_and!; try done.
  - apply filter_Forall, Forall_true. done.
  - rewrite <- (list_filter_filter_l eligible routable (live bm)).
    + apply sublist_filter.
    + intros b. unfold eligible, routable. destruct (b_admin_state b); simpl; tauto.
  - rewrite (filter_Forall (λ _, true)) by (by apply Forall_true). apply sublist_filter.
  - intros b Hb. rewrite !list_elem_of_filter. unfold eligible, routable.
    destruct (b_admin_state b), (b_healthy b), (b_mac_resolved b); simpl; naive_solver.
Qed.

(** ** Reachable managers *)

Inductive bm_reachable : backend_manager → Prop :=
  | reach_create bm : backend_manager_create true = Some bm → bm_reachable bm
  | reach_subscribe bm : bm_reachable bm → bm_reachable (backend_manager_subscribe bm)
  | reach_add bm addr port bm' id :
      bm_reachable bm → bm_next_id bm < UINT32_MAX →
      add_locked bm addr port = Val (bm', id) → bm_reachable bm'
  | reach_remove bm id bm' found :
      bm_reachable bm → remove_locked bm id = Val (bm', found) → bm_reachable bm'
  | reach_health bm id h bm' c :
      bm_reachable bm → set_health_locked bm id h = Val (bm', c) → bm_reachable bm'
  | reach_admin bm id st bm' c :
      bm_reachable bm → set_admin_state_locked bm id st = Val (bm', c) → bm_reachable bm'
  | reach_mac bm id mac bm' c :
      bm_reachable bm → set_mac_locked bm id mac = Val (bm', c) → bm_reachable bm'.

Lemma created_ok :
  bm_ok {| bm_backends := replicate BACKEND_MAX zeroed_backend;
           bm_slot_used := replicate BACKEND_MAX false; bm_next_id := 0; bm_cb := false |}.
Proof.
  assert (∀ n i, replicate n false !! i = Some true → False) as Hno
    by (intros n i [? _]%lookup_replicate; done).
  split; simpl; [done..| |].
  - intros i b [Hu _]. by apply (Hno BACKEND_MAX) in Hu.
  - intros i j b b' [Hu _]. by apply (Hno BACKEND_MAX) in Hu.
Qed.

Lemma reachable_ok bm : bm_reachable bm → bm_ok bm.
Proof.
  induction 1 as [bm Hc|bm _ IH|bm addr port bm' id _ IH Hn E|bm id bm' found _ IH E|
    bm id h bm' c _ IH E|bm id st bm' c _ IH E|bm id mac bm' c _ IH E].
  - injection Hc as <-. by apply created_ok.
  - by destruct IH; split.
  - pose proof (add_locked_spec bm addr port IH Hn) as H. case_decide.
    { rewrite H in E. by injection E as <- <-. }
    destruct H as (bm1 & E' & Hok & _). rewrite E' in E. by injection E as <- _.
  - destruct (remove_locked_spec bm id IH) as (bm1 & f1 & E' & Hok & _).
    rewrite E' in E. by injection E as <- _.
  - edestruct (update_locked_spec bm id) as (? & ? & E' & ? & _); [done| |
      unfold set_health_locked in E; rewrite E' in E; by injection E as <- _]. done.
  - edestruct (update_locked_spec bm id) as (? & ? & E' & ? & _); [done| |
      unfold set_admin_state_locked in E; rewrite E' in E; by injection E as <- _]. done.
  - edestruct (update_locked_spec bm id) as (? & ? & E' & ? & _); [done| |
      unfold set_mac_locked in E; rewrite E' in E; by injection E as <- _]. done.
Qed.

(** In every manager reachable from creation by the operations of the
    interface, backends in use have distinct ids, all of them issued before
    [next_id], and at most 64 are in use. *)
Theorem bm_reachable_ids_unique bm (Hreach : bm_reachable bm) :
  NoDup (b_id <$> live bm) ∧ Forall (λ b, 0 ≤ b_id b < bm_next_id bm) (live bm) ∧
  (length (live bm) ≤ BACKEND_MAX)%nat.
Proof.
  pose proof (reachable_ok bm Hreach) as Hok. split_and!.
  - by apply live_ids_NoDup.
  - apply Forall_forall. intros b (i & Hi)%elem_of_live. by eapply ok_ids.
  - by apply live_length.
Qed.

(** ** Witnesses *)

(** A subscriber that counts its notifications. *)
#[local] Instance counting_listener : ChangeListener (backend_manager * nat).
Proof.
  refine {| get_bm := fst; put_bm bm s := (bm, s.2); on_change s := Val (s.1, S s.2) |}.
  - done.
  - by intros [??].
  - intros s s' [= <-]. done.
Defined.

Definition run_or {A} (d : A) (o : out A) : A := match o with Val a => a | _ => d end.

(** Two subscribed backends with their MACs resolved, the second one draining. *)
Definition sample_bm0 : backend_manager := Eval vm_compute in
  match backend_manager_create true with
  | Some bm => backend_manager_subscribe bm
  | None => Build_backend_manager [] [] 0 false
  end.
Definition sample_bm1 := Eval vm_compute in (run_or (sample_bm0, 0) (add_locked sample_bm0 184574730 9000)).1.
Definition sample_bm2 := Eval vm_compute in (run_or (sample_bm0, 0) (add_locked sample_bm1 201351946 9000)).1.
Definition sample_bm3 := Eval vm_compute in
  (run_or (sample_bm0, false) (set_mac_locked sample_bm2 0 [2; 0; 0; 0; 0; 11])).1.
Definition sample_bm4 := Eval vm_compute in
  (run_or (sample_bm0, false) (set_mac_locked sample_bm3 1 [2; 0; 0; 0; 0; 12])).1.
Definition sample_bm := Eval vm_compute in
  (run_or (sample_bm0, false) (set_admin_state_locked sample_bm4 1 BACKEND_DRAINING)).1.

Lemma sample_bm_reachable : bm_reachable sample_bm.
Proof.
  eapply (reach_admin sample_bm4 1 BACKEND_DRAINING); [|vm_compute; reflexivity].
  eapply (reach_mac sample_bm3 1 [2; 0; 0; 0; 0; 12]); [|vm_compute; reflexivity].
  eapply (reach_mac sample_bm2 0 [2; 0; 0; 0; 0; 11]); [|vm_compute; reflexivity].
  eapply (reach_add sample_bm1 201351946 9000); [|done|vm_compute; reflexivity].
  eapply (reach_add sample_bm0 184574730 9000); [|done|vm_compute; reflexivity].
  eapply (reach_subscribe (Build_backend_manager _ _ _ false)). apply reach_create. by vm_compute.
Qed.

Lemma bm_reachable_ids_unique_witness : NoDup (b_id <$> live sample_bm) ∧ length (live sample_bm) = 2%nat.
Proof. split; [apply (bm_reachable_ids_unique sample_bm), sample_bm_reachable|by vm_compute]. Defined.

(** Backend 1 is routable and not eligible. *)
Lemma backend_manager_snapshots_nested_witness :
  ∃ el ro, backend_manager_snapshot_eligible sample_bm BACKEND_MAX = Val el ∧
    backend_manager_snapshot_routable sample_bm BACKEND_MAX = Val ro ∧
    el `sublist_of` ro ∧ b_id <$> el = [0] ∧ b_id <$> ro = [0; 1].
Proof.
  destruct (backend_manager_snapshots_nested sample_bm) as (el & ro & al & He & Hr & _ & _ & Hsub & _);
    [apply reachable_ok, sample_bm_reachable|].
  exists el, ro. split_and!; [done..| |].
  - assert (backend_manager_snapshot_eligible sample_bm BACKEND_MAX = Val el) as E by done.
    vm_compute in E. injection E as <-. done.
  - assert (backend_manager_snapshot_routable sample_bm BACKEND_MAX = Val ro) as E by done.
    vm_compute in E. injection E as <-. done.
Defined.

(** Re-enabling backend 1 notifies once; repeating it is no change. *)
Lemma backend_manager_setters_exact_witness :
  sets (sample_bm, 5%nat) 1 (λ b, bool_decide (b_admin_state b ≠ BACKEND_ENABLED))
    (set_admin BACKEND_ENABLED) (backend_manager_set_admin_state (sample_bm, 5%nat) 1 BACKEND_ENABLED) ∧
  backend_manager_set_admin_state (sample_bm, 5%nat) 1 BACKEND_ENABLED = Val ((sample_bm4, 6%nat), true) ∧
  backend_manager_set_admin_state (sample_bm, 5%nat) 0 BACKEND_ENABLED = Val ((sample_bm, 5%nat), false).
Proof.
  split_and!; [|by vm_compute..].
  apply (backend_manager_setters_exact (sample_bm, 5%nat) 1 true BACKEND_ENABLED []).
  apply reachable_ok, sample_bm_reachable.
Defined.

Lemma backend_manager_add_remove_exact_witness :
  (∃ bm', live bm' ≡ₚ fresh_backend 2 218129162 9000 :: live sample_bm ∧
     backend_manager_add (sample_bm, 0%nat) 218129162 9000 = Val ((bm', 1%nat), 2)) ∧
  ∃ bm', live bm' = filter (λ b, b_id b ≠ 7) (live sample_bm) ∧
     backend_manager_remove (sample_bm, 0%nat) 7 = Val ((bm', 0%nat), -1).
Proof.
  destruct (backend_manager_add_remove_exact (sample_bm, 0%nat) 218129162 9000 7)
    as [Ha (bm' & found & _ & Hf & Hl & Hr)]; [apply reachable_ok, sample_bm_reachable|done|].
  split.
  - rewrite decide_False in Ha by by vm_compute. destruct Ha as (bm1 & _ & Hl1 & Ha).
    exists bm1. split; [done|]. exact Ha.
  - exists bm'. split; [done|]. destruct found; [|exact Hr].
    destruct Hf as [Hf _]. specialize (Hf eq_refl). exfalso.
    apply (bool_decide_unpack (¬ (7 ∈ b_id <$> live sample_bm))); [by vm_compute|exact Hf].
Defined.
