(* ===== verification/TableGenerator.v ===== *)
(** * The table generator

    [src/src/backend/table_generator.c]: rebuilds the routing snapshot when the
    backend set changes, publishes it with an atomic exchange, and reclaims the
    snapshots it replaced.

    Snapshots live in a heap from locations to snapshots; freeing a location
    that is not allocated is undefined, so a double free or a use after free
    shows.  The steps of [table_generator_rebuild_and_install] that other
    threads can observe ([install], [retire]) and those of
    [table_generator_reclaim] ([take_retired], [free_snapshot]) are separate
    functions: the sequential operations compose them, and so does the
    interleaving of the writer and the reader thread in [Reclamation]. *)

From Stdlib Require Import Lia.
From stdpp Require Import base numbers list gmap sorting.
From S2P Require Import Prelude Net Hash Maglev BackendManager.
Import Flow.

Local Open Scope Z_scope.

Abbreviation loc := nat.
Abbreviation snap_heap := (gmap loc routing_snapshot).

(** [tg_retired] is the array of retired snapshots, of [n_retired] elements;
    [tg_retired_cap] its capacity. *)
Record table_generator := {
  tg_m : Z;
  tg_active : option loc;
  tg_generation : Z;
  tg_last_regen_us : Z;
  tg_retired : list loc;
  tg_retired_cap : Z;
}.

(** What the environment answers during one rebuild: the allocations of the
    snapshot, the growth of the retired array and the time it took. *)
Record rebuild_env := {
  re_ok : nat → bool;
  re_realloc : bool;
  re_elapsed : Z;
}.

(** The generator with the manager it reads, the heap, and the answers of the
    environment to the rebuilds to come ([sys_env n] is for the [n]-th one). *)
Record tg_sys := {
  sys_bm : backend_manager;
  sys_tg : table_generator;
  sys_heap : snap_heap;
  sys_env : nat → rebuild_env;
  sys_rebuilds : nat;
}.

(** [None] when [calloc] fails. *)
Definition table_generator_create (ok : bool) (m : Z) : option table_generator :=
  if ok then Some {| tg_m := m; tg_active := None; tg_generation := 0; tg_last_regen_us := 0;
                     tg_retired := []; tg_retired_cap := 0 |}
  else None.

Definition copy_view (b : backend) : backend_view :=
  {| v_id := b_id b; v_addr := b_addr b; v_port := b_port b; v_mac := b_mac b |}.

Definition copy_views (bs : list backend) : list backend_view := copy_view <$> bs.

(** ** Steps visible to the other thread *)

(** [atomic_exchange] of [active], then the stores of the generation and the
    time; the result is the snapshot that was active. *)
Definition install (tg : table_generator) (new_snap : loc) (new_generation elapsed : Z) :
    table_generator * option loc :=
  ({| tg_m := tg_m tg; tg_active := Some new_snap; tg_generation := new_generation;
      tg_last_regen_us := elapsed; tg_retired := tg_retired tg;
      tg_retired_cap := tg_retired_cap tg |}, tg_active tg).

(** The critical section that queues the old snapshot; [false] means that it
    had to be leaked. *)
Definition retire (realloc_ok : bool) (tg : table_generator) (old : loc) : table_generator * bool :=
  let n_retired := Z.of_nat (length (tg_retired tg)) in
  let cap :=
    if decide (n_retired = tg_retired_cap tg) then
      if realloc_ok then (if decide (tg_retired_cap tg = 0) then 8 else tg_retired_cap tg * 2)
      else tg_retired_cap tg
    else tg_retired_cap tg in
  let fits := bool_decide (n_retired < cap) in
  ({| tg_m := tg_m tg; tg_active := tg_active tg; tg_generation := tg_generation tg;
      tg_last_regen_us := tg_last_regen_us tg;
      tg_retired := if fits then tg_retired tg ++ [old] else tg_retired tg;
      tg_retired_cap := cap |}, fits).

(** The critical section of [table_generator_reclaim]. *)
Definition take_retired (tg : table_generator) : table_generator * list loc :=
  ({| tg_m := tg_m tg; tg_active := tg_active tg; tg_generation := tg_generation tg;
      tg_last_regen_us := tg_last_regen_us tg; tg_retired := []; tg_retired_cap := 0 |},
   tg_retired tg).

(** [routing_snapshot_free] of an allocated snapshot. *)
Definition free_snapshot (h : snap_heap) (l : loc) : out snap_heap :=
  match h !! l with Some _ => Val (delete l h) | None => Undef end.

Fixpoint free_all (h : snap_heap) (ls : list loc) : out snap_heap :=
  match ls with
  | [] => Val h
  | l :: ls => h ← free_snapshot h l; free_all h ls
  end.

(** ** Operations *)

Section Operations.
Context {xx : XXHash}.

Definition table_generator_rebuild_and_install (s : tg_sys) : out (tg_sys * Z) :=
  let env := sys_env s (sys_rebuilds s) in
  let tg := sys_tg s in
  ro ← backend_manager_snapshot_routable (sys_bm s) BACKEND_MAX;
  el ← backend_manager_snapshot_eligible (sys_bm s) BACKEND_MAX;
  let new_generation := u64 (tg_generation tg + 1) in
  snap ← routing_snapshot_create (re_ok env) (copy_views ro) (copy_views el) (tg_m tg) new_generation;
  match snap with
  | None =>
      Val ({| sys_bm := sys_bm s; sys_tg := tg; sys_heap := sys_heap s; sys_env := sys_env s;
              sys_rebuilds := S (sys_rebuilds s) |}, -1)
  | Some snap =>
      let l := fresh (dom (sys_heap s)) in
      let '(tg, old) := install tg l new_generation (re_elapsed env) in
      let tg := match old with Some o => (retire (re_realloc env) tg o).1 | None => tg end in
      Val ({| sys_bm := sys_bm s; sys_tg := tg; sys_heap := <[l:=snap]> (sys_heap s);
              sys_env := sys_env s; sys_rebuilds := S (sys_rebuilds s) |}, 0)
  end.

(** [on_backend_change] ignores the result. *)
Definition on_backend_change (s : tg_sys) : out tg_sys :=
  '(s, _) ← table_generator_rebuild_and_install s; Val s.
End Operations.

Definition table_generator_reclaim (s : tg_sys) : out tg_sys :=
  let '(tg, to_free) := take_retired (sys_tg s) in
  h ← free_all (sys_heap s) to_free;
  Val {| sys_bm := sys_bm s; sys_tg := tg; sys_heap := h; sys_env := sys_env s;
         sys_rebuilds := sys_rebuilds s |}.

Definition table_generator_install_as_subscriber (s : tg_sys) : tg_sys :=
  {| sys_bm := backend_manager_subscribe (sys_bm s); sys_tg := sys_tg s; sys_heap := sys_heap s;
     sys_env := sys_env s; sys_rebuilds := sys_rebuilds s |}.

(** The active snapshot, dereferenced; a pointer to a freed snapshot is
    undefined. *)
Definition deref (h : snap_heap) (p : option loc) : out (option routing_snapshot) :=
  match p with
  | None => Val None
  | Some l => match h !! l with Some snap => Val (Some snap) | None => Undef end
  end.

Definition table_generator_get_active (s : tg_sys) : out (option routing_snapshot) :=
  deref (sys_heap s) (tg_active (sys_tg s)).

Definition table_generator_last_regen_us (tg : table_generator) : Z := tg_last_regen_us tg.

Definition table_generator_generation (tg : table_generator) : Z := tg_generation tg.

(** Frees the active snapshot and all retired ones; returns the heap left. *)
Definition table_generator_destroy (s : tg_sys) : out snap_heap :=
  h ← (match tg_active (sys_tg s) with Some l => free_snapshot (sys_heap s) l | None => Val (sys_heap s) end);
  free_all h (tg_retired (sys_tg s)).

(** ** The generator as the manager's subscriber *)

Definition set_sys_bm (bm : backend_manager) (s : tg_sys) : tg_sys :=
  {| sys_bm := bm; sys_tg := sys_tg s; sys_heap := sys_heap s; sys_env := sys_env s;
     sys_rebuilds := sys_rebuilds s |}.

Lemma rebuild_bm `{XXHash} s s' rc :
  table_generator_rebuild_and_install s = Val (s', rc) → sys_bm s' = sys_bm s.
Proof.
  unfold table_generator_rebuild_and_install.
  intros (ro & _ & (el & _ & (snap & _ & E)%bind_Val_inv)%bind_Val_inv)%bind_Val_inv.
  destruct snap; [|by injection E as <- _]. simpl in E. by injection E as <- _.
Qed.

#[export] Instance tg_listener `{XXHash} : ChangeListener tg_sys.
Proof.
  refine {| get_bm := sys_bm; put_bm := set_sys_bm; on_change := on_backend_change |}.
  - done.
  - by intros [].
  - intros s s'. unfold on_backend_change. intros ([s1 rc] & E & [= <-])%bind_Val_inv.
    by eapply rebuild_bm.
Defined.

(** ** What a snapshot promises for a backend set *)

Section Serves.
Context {xx : XXHash}.

(** [snap] serves the manager [bm]: every flow is mapped to an eligible backend
    the snapshot resolves (or to none when there is none), and exactly the
    routable backends are resolved. *)
Record serves (bm : backend_manager) (snap : routing_snapshot) : Prop := {
  sv_lookup key : ∃ id, maglev_table_lookup (s_table snap) key = Val id ∧
    (filter eligible (live bm) = [] ∧ id = -1 ∨
     ∃ b, b ∈ live bm ∧ eligible b ∧ b_id b = id ∧
       routing_snapshot_find_backend snap id = Some (copy_view b));
  sv_routable b : b ∈ live bm → routable b →
    routing_snapshot_find_backend snap (b_id b) = Some (copy_view b);
  sv_resolved id v : routing_snapshot_find_backend snap id = Some v →
    ∃ b, b ∈ live bm ∧ routable b ∧ b_id b = id ∧ v = copy_view b;
}.

(** The ids and ports of the backends fit the types of the views. *)
Definition bm_wf (bm : backend_manager) : Prop :=
  bm_ok bm ∧ bm_next_id bm ≤ 2 ^ 31 ∧ Forall (λ b, 0 ≤ b_port b < 2 ^ 16) (live bm).

Lemma eligible_routable b : eligible b → routable b.
Proof. unfold eligible, routable. destruct (b_admin_state b); simpl; tauto. Qed.

Lemma copy_views_ok bm (p : backend → bool) :
  bm_wf bm → Forall view_ok (copy_views (filter p (live bm))).
Proof.
  intros (Hok & Hn & Hp). apply Forall_fmap, Forall_forall. intros b [_ Hb]%list_elem_of_filter.
  rewrite Forall_forall in Hp. specialize (Hp b Hb). apply elem_of_live in Hb as [i Hi].
  pose proof (ok_ids _ Hok _ _ Hi). unfold view_ok. simpl. lia.
Qed.

Lemma copy_views_ids bs : v_id <$> copy_views bs = b_id <$> bs.
Proof. unfold copy_views. by rewrite <- list_fmap_compose. Qed.

Lemma find_copy_view bm id v :
  bm_wf bm → find_by_id (copy_views (filter routable (live bm))) id = Some v →
  ∃ b, b ∈ live bm ∧ routable b ∧ b_id b = id ∧ v = copy_view b.
Proof.
  intros Hwf Hf. apply find_by_id_Some in Hf as [Hin <-]; [|by apply copy_views_ok].
  apply list_elem_of_fmap in Hin as (b & -> & [Hr Hb]%list_elem_of_filter). by exists b.
Qed.

Lemma live_unique bm b b' : bm_ok bm → b ∈ live bm → b' ∈ live bm → b_id b = b_id b' → b = b'.
Proof.
  intros Hok [i Hi]%elem_of_live [j Hj]%elem_of_live E.
  assert (i = j) as -> by by eapply (ok_unique _ Hok). destruct Hi, Hj. congruence.
Qed.

Lemma routable_resolves bm b :
  bm_wf bm → b ∈ live bm → routable b →
  find_by_id (copy_views (filter routable (live bm))) (b_id b) = Some (copy_view b).
Proof.
  intros Hwf Hb Hr.
  destruct (find_by_id_is_Some (copy_views (filter routable (live bm))) (b_id b)) as (v & Hv & _).
  { by apply copy_views_ok. }
  { rewrite copy_views_ids. apply list_elem_of_fmap_2, list_elem_of_filter. done. }
  rewrite Hv. f_equal. destruct (find_copy_view bm _ _ Hwf Hv) as (b' & Hb' & _ & E & ->).
  f_equal. by apply (live_unique bm); [apply Hwf|..].
Qed.

Lemma snapshot_create_total ok ro el m gen :
  Z.prime m → 2 < m < 2 ^ 32 → Forall view_ok el →
  ∃ r, routing_snapshot_create ok ro el m gen = Val r ∧ ((∀ i, ok i = true) → is_Some r).
Proof.
  intros Hp Hm Hel. unfold routing_snapshot_create.
  assert (∃ t, maglev_table_generate ok el m = Val t ∧ ((∀ i, ok i = true) → is_Some t)) as (t & -> & Ht).
  { destruct (decide (el = [])) as [-> |Hne].
    - rewrite maglev_table_generate_empty. eexists. split; [done|]. intros Hall. by rewrite !Hall.
    - rewrite maglev_table_generate_spec by done. eexists. split; [done|].
      intros Hall. unfold generate_allocs. by rewrite !Hall. }
  rewrite bind_Val. destruct t as [t|].
  - destruct (ok 6%nat) eqn:E6; simpl.
    2:{ exists None. split; [done|]. intros Hall. by rewrite Hall in E6. }
    case_decide; [destruct (ok 7%nat) eqn:E7; simpl|]; eexists; (split; [done|]); try done.
    intros Hall. by rewrite Hall in E7.
  - exists None. split; [done|]. intros Hall. by destruct (Ht Hall).
Qed.

Lemma snapshot_serves bm ok m gen snap :
  Z.prime m → 2 < m < 2 ^ 32 → bm_wf bm →
  routing_snapshot_create ok (copy_views (filter routable (live bm)))
    (copy_views (filter eligible (live bm))) m gen = Val (Some snap) →
  serves bm snap ∧ s_generation snap = gen.
Proof.
  intros Hp Hm Hwf (t & Ht & ->)%routing_snapshot_create_inv. split; [|done].
  split; unfold routing_snapshot_find_backend; simpl.
  - intros key. destruct (maglev_lookup_spec ok _ m t key Hp Hm (copy_views_ok bm eligible Hwf) Ht)
      as (id & Hid & Hcase). exists id. split; [done|].
    destruct Hcase as [[Hnil ->]|Hin]; [left; split; [|done]; by apply fmap_nil_inv in Hnil|right].
    rewrite copy_views_ids in Hin.
    apply list_elem_of_fmap in Hin as (b & -> & [He Hb]%list_elem_of_filter).
    exists b. split_and!; [done..|]. apply routable_resolves; [done..|]. by apply eligible_routable.
  - intros b. by apply routable_resolves.
  - intros id v. by apply find_copy_view.
Qed.
End Serves.

(** ** The generator's invariant *)

(** The snapshots the generator still owns. *)
Definition owned (tg : table_generator) : list loc := option_list (tg_active tg) ++ tg_retired tg.

Record sys_ok (s : tg_sys) : Prop := {
  so_bm : bm_wf (sys_bm s);
  so_m : Z.prime (tg_m (sys_tg s)) ∧ 2 < tg_m (sys_tg s) < 2 ^ 32;
  so_owned : NoDup (owned (sys_tg s));
  so_alloc l : l ∈ owned (sys_tg s) → is_Some (sys_heap s !! l);
  so_cap : Z.of_nat (length (tg_retired (sys_tg s))) ≤ tg_retired_cap (sys_tg s);
  (** a snapshot is leaked only when [realloc] fails *)
  so_leak : (∀ n, re_realloc (sys_env s n) = true) →
    ∀ l, is_Some (sys_heap s !! l) → l ∈ owned (sys_tg s);
}.

Lemma retire_owned realloc_ok tg o :
  (retire realloc_ok tg o).1 = 
    {| tg_m := tg_m tg; tg_active := tg_active tg; tg_generation := tg_generation tg;
       tg_last_regen_us := tg_last_regen_us tg;
       tg_retired := if (retire realloc_ok tg o).2 then tg_retired tg ++ [o] else tg_retired tg;
       tg_retired_cap := tg_retired_cap (retire realloc_ok tg o).1 |}.
Proof. done. Qed.

(** Installing a fresh snapshot and retiring the old one. *)
Lemma install_retire_owned tg l gen el realloc_ok :
  NoDup (owned tg) → l ∉ owned tg → Z.of_nat (length (tg_retired tg)) ≤ tg_retired_cap tg →
  let tg1 := (install tg l gen el).1 in
  let tg2 := match tg_active tg with Some o => (retire realloc_ok tg1 o).1 | None => tg1 end in
  NoDup (owned tg2) ∧ (∀ l', l' ∈ owned tg2 → l' = l ∨ l' ∈ owned tg) ∧
  tg_active tg2 = Some l ∧ tg_m tg2 = tg_m tg ∧ tg_generation tg2 = gen ∧
  Z.of_nat (length (tg_retired tg2)) ≤ tg_retired_cap tg2 ∧
  (realloc_ok = true → ∀ l', l' = l ∨ l' ∈ owned tg → l' ∈ owned tg2).
Proof.
  unfold owned. intros Hnd Hl Hcap. destruct (tg_active tg) as [o|]; simpl in *.
  - apply NoDup_cons in Hnd as [Ho Hnd]. apply not_elem_of_cons in Hl as [Hlo Hl].
    case_bool_decide as Hfits; split_and!; try done.
    + apply NoDup_cons. rewrite NoDup_app, not_elem_of_app. split_and!; [done|set_solver|done| |apply NoDup_singleton].
      intros x Hx ->%list_elem_of_singleton. done.
    + set_solver.
    + rewrite length_app. simpl. lia.
    + set_solver.
    + by apply NoDup_cons.
    + set_solver.
    + repeat case_match; lia.
    + intros ->. exfalso. apply Hfits. repeat case_decide; lia.
  - split_and!; try done; [by apply NoDup_cons|set_solver|set_solver].
Qed.

(** Freeing distinct allocated snapshots succeeds and frees just those. *)
Lemma free_all_spec ls : ∀ h, NoDup ls → (∀ l, l ∈ ls → is_Some (h !! l)) →
  ∃ h', free_all h ls = Val h' ∧ ∀ l, h' !! l = if decide (l ∈ ls) then None else h !! l.
Proof.
  induction ls as [|l ls IH]; intros h Hnd Hal; [by exists h|].
  apply NoDup_cons in Hnd as [Hl Hnd].
  destruct (Hal l) as [snap Hs]; [by left|]. cbn. unfold free_snapshot. rewrite Hs, bind_Val.
  destruct (IH (delete l h) Hnd) as (h' & E & Hh').
  { intros l' Hl'. rewrite lookup_delete_ne; [|by intros ->]. apply Hal. by right. }
  exists h'. split; [done|]. intros l'. rewrite Hh'. destruct (decide (l' = l)) as [->|Hne].
  - rewrite lookup_delete_eq, (decide_True (P := l ∈ l :: ls)) by left. by case_decide.
  - rewrite lookup_delete_ne by done. repeat case_decide; set_solver.
Qed.

(** Reclaiming keeps the active snapshot and frees all retired ones. *)
Lemma reclaim_spec s :
  sys_ok s →
  ∃ s', table_generator_reclaim s = Val s' ∧ sys_ok s' ∧ sys_bm s' = sys_bm s ∧ sys_env s' = sys_env s ∧
    table_generator_get_active s' = table_generator_get_active s ∧ owned (sys_tg s') = option_list (tg_active (sys_tg s)).
Proof.
  intros Hok. pose proof (so_owned _ Hok) as Hnd. unfold owned in Hnd. apply NoDup_app in Hnd as (Hna & Hdis & Hnr).
  destruct (free_all_spec (tg_retired (sys_tg s)) (sys_heap s) Hnr) as (h & E & Hh).
  { intros l Hl. apply (so_alloc _ Hok), elem_of_app. by right. }
  unfold table_generator_reclaim, take_retired. rewrite E, bind_Val. eexists. split; [done|].
  assert (∀ l, l ∈ option_list (tg_active (sys_tg s)) → h !! l = sys_heap s !! l) as Hact.
  { intros l Hl. rewrite Hh, decide_False; [done|]. by apply Hdis. }
  split; [|split_and!; try done].
  - destruct Hok. split; cbn; try done; unfold owned; cbn; rewrite app_nil_r; [done| |].
    + intros l Hl. rewrite (Hact l Hl). apply so_alloc0, elem_of_app. by left.
    + intros Hre l Hl. rewrite Hh in Hl. case_decide as Hin; [by destruct Hl|].
      apply so_leak0, elem_of_app in Hl as [?|?]; done.
  - unfold table_generator_get_active, deref. cbn. destruct (tg_active (sys_tg s)) as [l|]; [|done].
    by rewrite Hact by left.
  - unfold owned. cbn. apply app_nil_r.
Qed.

Section Rebuild.
Context {xx : XXHash}.

Lemma rebuild_spec s :
  sys_ok s →
  ∃ s' rc, table_generator_rebuild_and_install s = Val (s', rc) ∧ sys_ok s' ∧
    sys_bm s' = sys_bm s ∧ sys_env s' = sys_env s ∧ sys_rebuilds s' = S (sys_rebuilds s) ∧
    ((∀ i, re_ok (sys_env s (sys_rebuilds s)) i = true) → rc = 0) ∧
    (rc = 0 ∧ (∃ snap, table_generator_get_active s' = Val (Some snap) ∧ serves (sys_bm s) snap ∧
        s_generation snap = tg_generation (sys_tg s')) ∧
      tg_generation (sys_tg s') = u64 (tg_generation (sys_tg s) + 1) ∧
      (∀ l snap, sys_heap s !! l = Some snap → sys_heap s' !! l = Some snap) ∨
     rc = -1 ∧ sys_tg s' = sys_tg s ∧ sys_heap s' = sys_heap s).
Proof.
  intros Hok. pose proof (so_bm _ Hok) as Hwf. destruct (so_m _ Hok) as [Hp Hm].
  unfold table_generator_rebuild_and_install, backend_manager_snapshot_routable,
    backend_manager_snapshot_eligible.
  rewrite !collect_all, !bind_Val by apply Hwf. cbv beta zeta.
  set (env := sys_env s (sys_rebuilds s)). set (gen := u64 (tg_generation (sys_tg s) + 1)).
  destruct (snapshot_create_total (re_ok env) (copy_views (filter routable (live (sys_bm s))))
    (copy_views (filter eligible (live (sys_bm s)))) (tg_m (sys_tg s)) gen Hp Hm
    (copy_views_ok _ _ Hwf)) as (r & E & Hr).
  rewrite E, bind_Val. destruct r as [snap|].
  - destruct (snapshot_serves _ _ _ _ _ Hp Hm Hwf E) as [Hserves Hgen].
    set (l := fresh (dom (sys_heap s))).
    assert (sys_heap s !! l = None) as Hl by (apply not_elem_of_dom, is_fresh).
    destruct (install_retire_owned (sys_tg s) l gen (re_elapsed env) (re_realloc env)
      (so_owned _ Hok)) as (Hnd & Hown & Hact & Hm' & Hg & Hcap & Hkeep); [|apply Hok|].
    { intros Hin. destruct (so_alloc _ Hok l Hin). congruence. }
    simpl in *. do 2 eexists. split; [done|]. split_and!; try done.
    + split; simpl; [done|by rewrite Hm'|done| |done|].
      * intros l' [-> |Hin]%Hown; [by rewrite lookup_insert_eq|].
        destruct (so_alloc _ Hok l' Hin) as [x Hx]. exists x. rewrite lookup_insert_ne; [done|congruence].
      * intros Hre l' Hl'. apply Hkeep; [apply Hre|]. destruct (decide (l' = l)) as [->|Hne]; [by left|right].
        rewrite lookup_insert_ne in Hl' by done. by apply (so_leak _ Hok).
    + left. split; [done|]. split_and!; [|done|].
      * exists snap. unfold table_generator_get_active, deref. simpl. rewrite Hact, lookup_insert_eq.
        split_and!; [done..|]. by rewrite Hg.
      * intros l' snap' Hl'. simpl. rewrite lookup_insert_ne; [done|congruence].
  - do 2 eexists. split; [done|]. split_and!; try done.
    + by destruct Hok; split.
    + intros Hall. by destruct (Hr Hall).
    + by right.
Qed.

(** An effective setter on a subscribed manager installs a snapshot that serves
    the updated backend set, provided memory lasts. *)
Lemma setter_installs s id differs f b :
  sys_ok s → bm_cb (sys_bm s) = true →
  (∀ b, b_id (f b) = b_id b ∧ b_port (f b) = b_port b) →
  b ∈ live (sys_bm s) → b_id b = id → differs b = true →
  (∀ i, re_ok (sys_env s (sys_rebuilds s)) i = true) →
  ∃ s' snap, locked_then_notify s (λ bm, update_locked bm id differs f) = Val (s', true) ∧ sys_ok s' ∧
    table_generator_get_active s' = Val (Some snap) ∧ serves (sys_bm s') snap ∧
    live (sys_bm s') = (λ b, if decide (b_id b = id) then f b else b) <$> live (sys_bm s).
Proof.
  intros Hok Hcb Hf Hb Hid Hd Hmem. destruct (so_bm _ Hok) as (Hbok & Hn & Hports).
  destruct (update_locked_spec (sys_bm s) id differs f Hbok (λ b, proj1 (Hf b)))
    as (bm' & changed & E & Hok' & Hcb' & Hn' & Hch & Hl).
  assert (changed = true) as -> by (apply Hch; eauto).
  assert (sys_ok (set_sys_bm bm' s)) as Hs.
  { destruct Hok. split; try done. split; [done|]. split; [simpl; lia|]. simpl. rewrite Hl.
    apply Forall_fmap, (Forall_impl _ _ _ Hports). intros b' Hb'. simpl. case_decide; [|done].
    by rewrite (proj2 (Hf b')). }
  destruct (rebuild_spec _ Hs) as (s' & rc & Er & Hok1 & Hbm & _ & _ & Hrc & Hcase).
  specialize (Hrc Hmem). subst rc. destruct Hcase as [(_ & (snap & Hact & Hsv & _) & _)|[? _]]; [|done].
  exists s', snap. split_and!; try done.
  - rewrite (locked_then_notify_committed s _ bm' true) by done. unfold committed. simpl.
    rewrite Hcb. simpl. unfold on_backend_change. by rewrite Er.
  - by rewrite Hbm.
  - by rewrite Hbm.
Qed.

Lemma serves_not_eligible bm snap b key :
  bm_ok bm → serves bm snap → b ∈ live bm → ¬ eligible b →
  ∃ id, maglev_table_lookup (s_table snap) key = Val id ∧ id ≠ b_id b.
Proof.
  intros Hok Hsv Hb Hne. destruct (sv_lookup _ _ Hsv key) as (id & Hid & Hcase).
  exists id. split; [done|]. destruct Hcase as [[_ ->]|(b' & Hb' & He & <- & _)].
  - apply elem_of_live in Hb as [i Hi]. pose proof (ok_ids _ Hok _ _ Hi). lia.
  - intros E. rewrite (live_unique bm b' b) in He by done. done.
Qed.

(** ** Theorems *)

(** A rebuild always returns.  It either installs a snapshot that serves
    the current backend set under the next generation number, without freeing
    or changing any other snapshot, or fails with -1 and leaves the generator
    and its active snapshot as they were; it fails only when an allocation
    fails. *)
Theorem rebuild_installs_serving_snapshot s (Hok : sys_ok s) :
  ∃ s' rc, table_generator_rebuild_and_install s = Val (s', rc) ∧ sys_ok s' ∧
    ((∀ i, re_ok (sys_env s (sys_rebuilds s)) i = true) → rc = 0) ∧
    (rc = 0 ∧ (∃ snap, table_generator_get_active s' = Val (Some snap) ∧ serves (sys_bm s) snap ∧
        s_generation snap = tg_generation (sys_tg s')) ∧
      tg_generation (sys_tg s') = u64 (tg_generation (sys_tg s) + 1) ∧
      (∀ l snap, sys_heap s !! l = Some snap → sys_heap s' !! l = Some snap) ∨
     rc = -1 ∧ sys_tg s' = sys_tg s ∧ sys_heap s' = sys_heap s).
Proof.
  destruct (rebuild_spec s Hok) as (s' & rc & ? & ? & _ & _ & _ & ? & ?). by exists s', rc.
Qed.

(** Draining a backend installs a table in which no flow is mapped to it,
    while flows pinned to it still resolve as long as it is healthy. *)
Theorem drain_stops_new_flows_only s b
    (Hok : sys_ok s) (Hcb : bm_cb (sys_bm s) = true) (Hb : b ∈ live (sys_bm s))
    (Hst : b_admin_state b ≠ BACKEND_DRAINING)
    (Hmem : ∀ i, re_ok (sys_env s (sys_rebuilds s)) i = true) :
  ∃ s' snap, backend_manager_set_admin_state s (b_id b) BACKEND_DRAINING = Val (s', true) ∧
    table_generator_get_active s' = Val (Some snap) ∧
    (∀ key, ∃ id, maglev_table_lookup (s_table snap) key = Val id ∧ id ≠ b_id b) ∧
    (b_healthy b → b_mac_resolved b →
      routing_snapshot_find_backend snap (b_id b) = Some (copy_view b)).
Proof.
  destruct (setter_installs s (b_id b) (λ b, bool_decide (b_admin_state b ≠ BACKEND_DRAINING))
    (set_admin BACKEND_DRAINING) b) as (s' & snap & E & Hok' & Hact & Hsv & Hl); try done.
  { by apply bool_decide_eq_true. }
  destruct (so_bm _ Hok') as (Hbok & _).
  assert (set_admin BACKEND_DRAINING b ∈ live (sys_bm s')) as Hb'.
  { rewrite Hl. apply list_elem_of_fmap. exists b. by rewrite decide_True. }
  exists s', snap. split_and!; try done.
  - intros key. apply (serves_not_eligible _ _ (set_admin BACKEND_DRAINING b) key Hbok Hsv Hb').
    unfold eligible. simpl. tauto.
  - intros Hh Hmac. apply (sv_routable _ _ Hsv _ Hb'). unfold routable. simpl.
    by destruct (b_healthy b), (b_mac_resolved b).
Qed.

(** When the health checker reports a healthy backend as failed, the new
    table maps no flow to it and the snapshot no longer resolves it, so neither
    new nor pinned flows are sent to it. *)
Theorem unhealthy_backend_withdrawn s b
    (Hok : sys_ok s) (Hcb : bm_cb (sys_bm s) = true) (Hb : b ∈ live (sys_bm s))
    (Hst : b_healthy b = true)
    (Hmem : ∀ i, re_ok (sys_env s (sys_rebuilds s)) i = true) :
  ∃ s' snap, backend_manager_set_health s (b_id b) false = Val (s', true) ∧
    table_generator_get_active s' = Val (Some snap) ∧
    (∀ key, ∃ id, maglev_table_lookup (s_table snap) key = Val id ∧ id ≠ b_id b) ∧
    routing_snapshot_find_backend snap (b_id b) = None.
Proof.
  destruct (setter_installs s (b_id b) (λ b, bool_decide (b_healthy b ≠ false))
    (set_healthy false) b) as (s' & snap & E & Hok' & Hact & Hsv & Hl); try done.
  { apply bool_decide_eq_true. by rewrite Hst. }
  destruct (so_bm _ Hok') as (Hbok & _).
  assert (set_healthy false b ∈ live (sys_bm s')) as Hb'.
  { rewrite Hl. apply list_elem_of_fmap. exists b. by rewrite decide_True. }
  exists s', snap. split_and!; try done.
  - intros key. apply (serves_not_eligible _ _ (set_healthy false b) key Hbok Hsv Hb').
    unfold eligible. simpl. rewrite andb_false_r. simpl. tauto.
  - destruct (routing_snapshot_find_backend snap (b_id b)) as [v|] eqn:Ef; [|done].
    destruct (sv_resolved _ _ Hsv _ _ Ef) as (b' & Hin & Hr & Hid & _).
    rewrite (live_unique _ b' (set_healthy false b) Hbok Hin Hb' Hid) in Hr.
    unfold routable in Hr. simpl in Hr. by rewrite andb_false_r in Hr.
Qed.
End Rebuild.

(** ** Witnesses *)

Definition sample_sys : tg_sys :=
  {| sys_bm := sample_bm4;
     sys_tg := {| tg_m := 13; tg_active := None; tg_generation := 0; tg_last_regen_us := 0;
                  tg_retired := []; tg_retired_cap := 0 |};
     sys_heap := ∅;
     sys_env := λ _, {| re_ok := λ _, true; re_realloc := true; re_elapsed := 7 |};
     sys_rebuilds := 0 |}.

Lemma sample_bm4_reachable : bm_reachable sample_bm4.
Proof. eapply (reach_admin sample_bm 1 BACKEND_ENABLED); [apply sample_bm_reachable|vm_compute; reflexivity]. Qed.

Lemma sample_sys_ok : sys_ok sample_sys.
Proof.
  split; simpl.
  - split; [apply reachable_ok, sample_bm4_reachable|]. split; [done|].
    apply (bool_decide_unpack _). by vm_compute.
  - split; [apply prime_13|lia].
  - constructor.
  - intros l ?%not_elem_of_nil. done.
  - done.
  - intros _ l [x Hx]. by rewrite lookup_empty in Hx.
Qed.

Definition sample_backend : backend :=
  {| b_id := 1; b_addr := 201351946; b_port := 9000; b_mac := [2; 0; 0; 0; 0; 12];
     b_mac_resolved := true; b_healthy := true; b_admin_state := BACKEND_ENABLED |}.
Lemma sample_backend_live : sample_backend ∈ live (sys_bm sample_sys).
Proof.
  assert (live (sys_bm sample_sys) =
    [{| b_id := 0; b_addr := 184574730; b_port := 9000; b_mac := [2; 0; 0; 0; 0; 11];
        b_mac_resolved := true; b_healthy := true; b_admin_state := BACKEND_ENABLED |};
     sample_backend]) as -> by by vm_compute.
  right. left.
Qed.

Lemma rebuild_installs_serving_snapshot_witness :
  ∃ s' snap, table_generator_rebuild_and_install (xx := sample_hash) sample_sys = Val (s', 0) ∧
    table_generator_get_active s' = Val (Some snap) ∧ serves (xx := sample_hash) sample_bm4 snap ∧
    s_generation snap = 1.
Proof.
  destruct (rebuild_installs_serving_snapshot (xx := sample_hash) sample_sys sample_sys_ok)
    as (s' & rc & E & _ & Hrc & Hcase).
  specialize (Hrc (λ _, eq_refl)). subst rc.
  destruct Hcase as [(_ & (snap & Ha & Hs & Hg) & Hgen & _)|[[=] _]].
  exists s', snap. split_and!; [exact E|exact Ha|exact Hs|]. rewrite Hg, Hgen. reflexivity.
Defined.

Lemma drain_stops_new_flows_only_witness :
  ∃ s' snap, backend_manager_set_admin_state (H := tg_listener (H := sample_hash)) sample_sys 1 BACKEND_DRAINING
      = Val (s', true) ∧
    table_generator_get_active s' = Val (Some snap) ∧
    (∀ key, ∃ id, maglev_table_lookup (xx := sample_hash) (s_table snap) key = Val id ∧ id ≠ 1) ∧
    routing_snapshot_find_backend snap 1 = Some (copy_view sample_backend).
Proof.
  destruct (drain_stops_new_flows_only (xx := sample_hash) sample_sys sample_backend sample_sys_ok eq_refl
    sample_backend_live ltac:(done) (λ _, eq_refl)) as (s' & snap & E & Ha & Hk & Hr).
  exists s', snap. split_and!; [exact E|exact Ha|exact Hk|]. by apply Hr.
Defined.

Lemma unhealthy_backend_withdrawn_witness :
  ∃ s' snap, backend_manager_set_health (H := tg_listener (H := sample_hash)) sample_sys 1 false
      = Val (s', true) ∧
    table_generator_get_active s' = Val (Some snap) ∧ routing_snapshot_find_backend snap 1 = None.
Proof.
  destruct (unhealthy_backend_withdrawn (xx := sample_hash) sample_sys sample_backend sample_sys_ok eq_refl
    sample_backend_live eq_refl (λ _, eq_refl)) as (s' & snap & E & Ha & _ & Hr).
  exists s', snap. split_and!; [exact E|exact Ha|exact Hr].
Defined.
