(* ===== verification/Reclamation.v ===== *)
(** * Reclaiming snapshots while two threads run

    The thread that changes backends (the health checker, and the main thread
    before it starts) rebuilds and installs snapshots; the datapath thread loads
    the active one for each packet and, between packets, reclaims the retired
    ones.  The step relation interleaves the visible steps of both, taken from
    [TableGenerator]: [install] is the atomic exchange, [retire] and
    [take_retired] are critical sections of the same mutex, the other steps are
    thread-local or single atomic accesses.  An allocation may return any address
    that is not allocated, so addresses of freed snapshots can come back. *)

From Stdlib Require Import Lia.
From stdpp Require Import base numbers list gmap.
From S2P Require Import Prelude Maglev TableGenerator.

(** Where each thread is: the writer has built snapshot [l] and not yet
    installed it, or has taken out [old] and not yet retired it; the reader
    holds the pointer it loaded, or is freeing what it took. *)
Inductive writer := WIdle | WBuilt (l : loc) | WRetiring (old : option loc).
Inductive reader := RIdle | RHolding (p : option loc) | RFreeing (ls : list loc).

(** [w_leaked] records the snapshots [retire] could not queue. *)
Record world := {
  w_tg : table_generator;
  w_heap : snap_heap;
  w_writer : writer;
  w_reader : reader;
  w_leaked : list loc;
}.

Inductive step : world → world → Prop :=
  | step_build tg h rd lk l snap :
      l ∉ dom h →
      step {| w_tg := tg; w_heap := h; w_writer := WIdle; w_reader := rd; w_leaked := lk |}
           {| w_tg := tg; w_heap := <[l:=snap]> h; w_writer := WBuilt l; w_reader := rd; w_leaked := lk |}
  | step_install tg h rd lk l gen el :
      step {| w_tg := tg; w_heap := h; w_writer := WBuilt l; w_reader := rd; w_leaked := lk |}
           {| w_tg := (install tg l gen el).1; w_heap := h;
              w_writer := WRetiring (install tg l gen el).2; w_reader := rd; w_leaked := lk |}
  | step_retire tg h rd lk o realloc_ok :
      step {| w_tg := tg; w_heap := h; w_writer := WRetiring (Some o); w_reader := rd; w_leaked := lk |}
           {| w_tg := (retire realloc_ok tg o).1; w_heap := h; w_writer := WIdle; w_reader := rd;
              w_leaked := if (retire realloc_ok tg o).2 then lk else o :: lk |}
  | step_retire_none tg h rd lk :
      step {| w_tg := tg; w_heap := h; w_writer := WRetiring None; w_reader := rd; w_leaked := lk |}
           {| w_tg := tg; w_heap := h; w_writer := WIdle; w_reader := rd; w_leaked := lk |}
  | step_load tg h wr lk :
      step {| w_tg := tg; w_heap := h; w_writer := wr; w_reader := RIdle; w_leaked := lk |}
           {| w_tg := tg; w_heap := h; w_writer := wr; w_reader := RHolding (tg_active tg); w_leaked := lk |}
  | step_release tg h wr lk p :
      step {| w_tg := tg; w_heap := h; w_writer := wr; w_reader := RHolding p; w_leaked := lk |}
           {| w_tg := tg; w_heap := h; w_writer := wr; w_reader := RIdle; w_leaked := lk |}
  | step_take tg h wr lk :
      step {| w_tg := tg; w_heap := h; w_writer := wr; w_reader := RIdle; w_leaked := lk |}
           {| w_tg := (take_retired tg).1; w_heap := h; w_writer := wr;
              w_reader := RFreeing (take_retired tg).2; w_leaked := lk |}
  | step_free tg h wr lk l ls h' :
      free_snapshot h l = Val h' →
      step {| w_tg := tg; w_heap := h; w_writer := wr; w_reader := RFreeing (l :: ls); w_leaked := lk |}
           {| w_tg := tg; w_heap := h'; w_writer := wr; w_reader := RFreeing ls; w_leaked := lk |}
  | step_free_done tg h wr lk :
      step {| w_tg := tg; w_heap := h; w_writer := wr; w_reader := RFreeing []; w_leaked := lk |}
           {| w_tg := tg; w_heap := h; w_writer := wr; w_reader := RIdle; w_leaked := lk |}.

(** Worlds reachable from a generator just created. *)
Inductive reachable (m : Z) : world → Prop :=
  | reachable_init tg :
      table_generator_create true m = Some tg →
      reachable m {| w_tg := tg; w_heap := ∅; w_writer := WIdle; w_reader := RIdle; w_leaked := [] |}
  | reachable_step w w' : reachable m w → step w w' → reachable m w'.

(** ** Invariant: every allocated snapshot has exactly one owner *)

Definition writer_locs (wr : writer) : list loc :=
  match wr with WIdle => [] | WBuilt l => [l] | WRetiring old => option_list old end.

Definition freeing (rd : reader) : list loc :=
  match rd with RFreeing ls => ls | _ => [] end.

Definition accounted (w : world) : list loc :=
  option_list (tg_active (w_tg w)) ++ writer_locs (w_writer w) ++ tg_retired (w_tg w) ++
  freeing (w_reader w) ++ w_leaked w.

Record winv (w : world) : Prop := {
  wi_nodup : NoDup (accounted w);
  wi_heap : dom (w_heap w) = list_to_set (accounted w);
  wi_held l : w_reader w = RHolding (Some l) → l ∈ accounted w;
}.

(** A step that only moves snapshots between owners. *)
Lemma winv_move w w' :
  winv w → accounted w' ≡ₚ accounted w → dom (w_heap w') = dom (w_heap w) →
  (∀ l, w_reader w' = RHolding (Some l) → l ∈ accounted w) → winv w'.
Proof.
  intros Hinv Hp Hd Hheld. split.
  - rewrite Hp. apply Hinv.
  - by rewrite Hd, Hp, (wi_heap _ Hinv).
  - intros l Hl. rewrite Hp. by apply Hheld.
Qed.

Lemma step_winv w w' : winv w → step w w' → winv w'.
Proof.
  intros Hinv Hstep. destruct Hstep.
  - assert (accounted {| w_tg := tg; w_heap := <[l:=snap]> h; w_writer := WBuilt l; w_reader := rd; w_leaked := lk |}
      ≡ₚ l :: accounted {| w_tg := tg; w_heap := h; w_writer := WIdle; w_reader := rd; w_leaked := lk |}) as Hp.
    { unfold accounted. simpl. solve_Permutation. }
    pose proof (wi_heap _ Hinv) as Hd. simpl in Hd.
    split.
    + rewrite Hp. apply NoDup_cons. split; [|apply Hinv].
      intros Hin. apply H. rewrite Hd. by apply elem_of_list_to_set.
    + simpl. rewrite dom_insert_L, Hp, Hd. done.
    + intros l' Hl'. rewrite Hp. right. by apply (wi_held _ Hinv).
  - apply (winv_move _ _ Hinv); [|done|apply Hinv]. unfold accounted. simpl. solve_Permutation.
  - apply (winv_move _ _ Hinv); [|done|apply Hinv]. unfold accounted. simpl.
    case_bool_decide; solve_Permutation.
  - apply (winv_move _ _ Hinv); [done|done|apply Hinv].
  - apply (winv_move _ _ Hinv); [done|done|]. simpl. intros l [= E]. unfold accounted. simpl.
    rewrite E. left.
  - by apply (winv_move _ _ Hinv).
  - apply (winv_move _ _ Hinv); [|done|done]. unfold accounted. simpl. solve_Permutation.
  - unfold free_snapshot in H. destruct (h !! l) as [snap|] eqn:El; [|done]. injection H as <-.
    assert (accounted {| w_tg := tg; w_heap := h; w_writer := wr; w_reader := RFreeing (l :: ls); w_leaked := lk |}
      ≡ₚ l :: accounted {| w_tg := tg; w_heap := delete l h; w_writer := wr; w_reader := RFreeing ls; w_leaked := lk |}) as Hp.
    { unfold accounted. simpl. solve_Permutation. }
    pose proof (wi_nodup _ Hinv) as Hnd. rewrite Hp in Hnd. apply NoDup_cons in Hnd as [Hl Hnd].
    split; [done| |done]. simpl. rewrite dom_delete_L.
    pose proof (wi_heap _ Hinv) as Hd. rewrite Hp in Hd. simpl in Hd. rewrite Hd.
    apply set_eq. intros x. rewrite elem_of_difference, elem_of_union, !elem_of_list_to_set. set_solver.
  - by apply (winv_move _ _ Hinv).
Qed.

Lemma reachable_winv m w : reachable m w → winv w.
Proof.
  induction 1 as [tg [= <-]|w w' _ IH Hstep]; [|by eapply step_winv].
  split; [constructor|done|done].
Qed.

Lemma accounted_alloc w l : winv w → l ∈ accounted w → is_Some (w_heap w !! l).
Proof. intros Hinv Hl. apply elem_of_dom. rewrite (wi_heap _ Hinv). by apply elem_of_list_to_set. Qed.

Lemma freeing_alloc w l ls : winv w → w_reader w = RFreeing (l :: ls) → is_Some (w_heap w !! l).
Proof.
  intros Hinv E. apply accounted_alloc; [done|]. unfold accounted. rewrite E. simpl. set_solver.
Qed.

(** ** Theorems *)

(** C8. No interleaving of the two threads uses a freed snapshot or frees one
    twice: whatever pointer the datapath thread holds dereferences, and whatever
    it is about to free is allocated, even though the writer may have replaced
    and retired the snapshot meanwhile. *)
Theorem no_use_after_free m w (Hreach : reachable m w) :
  (∀ p, w_reader w = RHolding p → ∃ r, deref (w_heap w) p = Val r ∧ (is_Some r ↔ is_Some p)) ∧
  (∀ l ls, w_reader w = RFreeing (l :: ls) → ∃ h', free_snapshot (w_heap w) l = Val h').
Proof.
  pose proof (reachable_winv m w Hreach) as Hinv. split.
  - intros [l|] Hp; [|by exists None]. destruct (accounted_alloc w l Hinv) as [snap E].
    { by apply (wi_held _ Hinv). }
    exists (Some snap). simpl. rewrite E. by split.
  - intros l ls Hr. destruct (freeing_alloc w l ls Hinv Hr) as [snap E].
    unfold free_snapshot. rewrite E. eauto.
Qed.

(** The reader frees everything it took, one step at a time. *)
Lemma free_run tg wr lk ls h :
  winv {| w_tg := tg; w_heap := h; w_writer := wr; w_reader := RFreeing ls; w_leaked := lk |} →
  ∃ h', rtc step
    {| w_tg := tg; w_heap := h; w_writer := wr; w_reader := RFreeing ls; w_leaked := lk |}
    {| w_tg := tg; w_heap := h'; w_writer := wr; w_reader := RIdle; w_leaked := lk |} ∧
    dom h' = dom h ∖ list_to_set ls.
Proof.
  revert h. induction ls as [|l ls IH]; intros h Hinv.
  - exists h. split; [apply rtc_once, step_free_done|set_solver].
  - destruct (freeing_alloc _ l ls Hinv eq_refl) as [snap E]. simpl in E.
    assert (step
      {| w_tg := tg; w_heap := h; w_writer := wr; w_reader := RFreeing (l :: ls); w_leaked := lk |}
      {| w_tg := tg; w_heap := delete l h; w_writer := wr; w_reader := RFreeing ls; w_leaked := lk |}) as Hs.
    { apply step_free. unfold free_snapshot. by rewrite E. }
    destruct (IH (delete l h)) as (h' & Hrun & Hd); [by eapply step_winv|].
    exists h'. split; [by eapply rtc_l|]. rewrite Hd, dom_delete_L. set_solver.
Qed.

(** Reclamation is complete: from any reachable world the idle reader can,
    by its own steps, free every retired snapshot, and nothing else; with the
    writer idle and no failed [realloc] the active snapshot is then the only
    one allocated. *)
Theorem reclaim_frees_all_retired m w (Hreach : reachable m w) (Hidle : w_reader w = RIdle) :
  ∃ w', rtc step w w' ∧ w_reader w' = RIdle ∧ tg_retired (w_tg w') = [] ∧
    tg_active (w_tg w') = tg_active (w_tg w) ∧
    dom (w_heap w') = dom (w_heap w) ∖ list_to_set (tg_retired (w_tg w)) ∧
    (w_writer w = WIdle → w_leaked w = [] →
      dom (w_heap w') = list_to_set (option_list (tg_active (w_tg w)))).
Proof.
  pose proof (reachable_winv m w Hreach) as Hinv. destruct w as [tg h wr rd lk]. simpl in *. subst rd.
  assert (step _ _) as Hs by apply (step_take tg h wr lk).
  destruct (free_run (take_retired tg).1 wr lk (tg_retired tg) h) as (h' & Hrun & Hd).
  { by eapply step_winv. }
  eexists. split; [eapply rtc_l; [exact Hs|exact Hrun]|]. simpl. split_and!; try done.
  intros -> ->. rewrite Hd. pose proof (wi_heap _ Hinv) as Hh. simpl in Hh. rewrite Hh.
  pose proof (wi_nodup _ Hinv) as Hnd. unfold accounted in *. simpl in *.
  rewrite !app_nil_r in *. apply NoDup_app in Hnd as (_ & Hdis & _).
  apply set_eq. intros x. rewrite elem_of_difference, !elem_of_list_to_set, elem_of_app. naive_solver.
Qed.

(** ** Witnesses *)

Definition sample_snapshot : routing_snapshot :=
  {| s_table := {| t_m := 3; t_lookup := [-1; -1; -1] |}; s_backends := []; s_generation := 1 |}%Z.

Definition sample_tg0 : table_generator :=
  {| tg_m := 3; tg_active := None; tg_generation := 0; tg_last_regen_us := 0;
     tg_retired := []; tg_retired_cap := 0 |}%Z.
Definition sample_tg1 : table_generator := (install sample_tg0 0%nat 1%Z 5%Z).1.
Definition sample_tg2 : table_generator := (install sample_tg1 1%nat 2%Z 5%Z).1.

(** The writer has installed a second snapshot and retired the first one, which
    the reader may still hold. *)
Definition sample_world (rd : reader) : world :=
  {| w_tg := (retire true sample_tg2 0%nat).1;
     w_heap := <[1%nat := sample_snapshot]> (<[0%nat := sample_snapshot]> ∅);
     w_writer := WIdle; w_reader := rd; w_leaked := [] |}.

Lemma sample_world_reachable : reachable 3 (sample_world (RHolding (Some 0%nat))).
Proof.
  eapply reachable_step; [|apply (step_retire sample_tg2 _ _ [] 0%nat true)].
  eapply reachable_step; [|apply (step_install sample_tg1)].
  eapply reachable_step; [|by apply step_build].
  eapply reachable_step; [|apply step_load].
  eapply reachable_step; [|apply step_retire_none].
  eapply reachable_step; [|apply (step_install sample_tg0)].
  eapply reachable_step; [|by apply step_build].
  by apply reachable_init.
Qed.

Lemma no_use_after_free_witness :
  ∃ r, deref (w_heap (sample_world (RHolding (Some 0%nat)))) (Some 0%nat) = Val r ∧ is_Some r.
Proof.
  destruct (no_use_after_free 3 _ sample_world_reachable) as [H _].
  destruct (H (Some 0%nat) eq_refl) as (r & E & Hr). exists r. split; [exact E|]. by apply Hr.
Defined.

Lemma reclaim_frees_all_retired_witness :
  ∃ w', rtc step (sample_world RIdle) w' ∧ dom (w_heap w') = {[ 1%nat ]}.
Proof.
  destruct (reclaim_frees_all_retired 3 (sample_world RIdle)) as (w' & Hrun & _ & _ & _ & _ & Hd).
  - eapply reachable_step; [exact sample_world_reachable|apply step_release].
  - reflexivity.
  - exists w'. split; [exact Hrun|]. rewrite Hd by reflexivity. by vm_compute.
Defined.
