(* ===== verification/Datapath.v ===== *)
(** * The datapath

    [src/src/forward/datapath.c]: one thread that receives frames, picks the
    backend of each flow (the pinned one, else the one of the Maglev table),
    wraps the packet in GRE and sends it, and that sweeps the connection table
    on a timer.

    The kernel's answers are inputs: the bytes a [recv] returned, the clock, the
    result of a [send], the events of an [epoll_wait].  The routing snapshot is
    the one [table_generator_get_active] loaded for the packet, so another
    thread may install a different one for every packet. *)

From Stdlib Require Import Lia.
From stdpp Require Import base numbers list gmap.
From S2P Require Import Prelude Net Hash Maglev Conntrack ConntrackSpec Stats BackendManager TableGenerator.
Import Ipv4 Gre Flow.

Local Open Scope Z_scope.

Definition RX_BUF_LEN : nat := 2048.
Definition TX_BUF_LEN : nat := 2048.

(** The fields of [struct datapath_config] and [struct datapath] that do not
    change while it runs. *)
Record datapath_config := {
  dc_vip : Z;
  dc_director_ip : Z;
  dc_ttl : Z;
  dc_tcp_timeout_ns : Z;
  dc_udp_timeout_ns : Z;
  dc_own_mac : list Z;
  dc_buckets_per_tick : Z;
}.

(** [dp_sent] records the frames handed to [raw_socket_send]. *)
Record dp_state := {
  dp_ct : conntrack_table;
  dp_stats : lb_stats;
  dp_rx_buf : list Z;
  dp_tx_buf : list Z;
  dp_sent : list (list Z);
}.

Definition with_stats (f : lb_stats → lb_stats) (st : dp_state) : dp_state :=
  {| dp_ct := dp_ct st; dp_stats := f (dp_stats st); dp_rx_buf := dp_rx_buf st;
     dp_tx_buf := dp_tx_buf st; dp_sent := dp_sent st |}.

Definition with_ct (ct : conntrack_table) (st : dp_state) : dp_state :=
  {| dp_ct := ct; dp_stats := dp_stats st; dp_rx_buf := dp_rx_buf st;
     dp_tx_buf := dp_tx_buf st; dp_sent := dp_sent st |}.

Definition with_rx (rx : list Z) (st : dp_state) : dp_state :=
  {| dp_ct := dp_ct st; dp_stats := dp_stats st; dp_rx_buf := rx;
     dp_tx_buf := dp_tx_buf st; dp_sent := dp_sent st |}.

Definition with_tx (tx : list Z) (st : dp_state) : dp_state :=
  {| dp_ct := dp_ct st; dp_stats := dp_stats st; dp_rx_buf := dp_rx_buf st;
     dp_tx_buf := tx; dp_sent := dp_sent st |}.

Definition log_sent (frame : list Z) (st : dp_state) : dp_state :=
  {| dp_ct := dp_ct st; dp_stats := dp_stats st; dp_rx_buf := dp_rx_buf st;
     dp_tx_buf := dp_tx_buf st; dp_sent := dp_sent st ++ [frame] |}.

(** What the kernel answers while one packet is handled. *)
Record packet_env := {
  pe_recv : option (list Z);       (* the bytes received, [None] on error *)
  pe_now : Z;                      (* the monotonic clock *)
  pe_snap : option routing_snapshot;  (* the active snapshot *)
  pe_send : list Z → Z;            (* the result of sending a frame *)
}.

Section Datapath.
Context {xx : XXHash} (cfg : datapath_config).

(** From the encapsulation to the end of [handle_packet]. *)
Definition forward (st : dp_state) (env : packet_env) (fx : flow_extract_result)
    (backend_id : Z) (backend : backend_view) : out dp_state :=
  inner_packet ← ptr_off (dp_rx_buf st) (ip_offset fx);
  '(frame_len, tx) ← gre_encap_build (dp_tx_buf st) (v_mac backend) (dc_own_mac cfg)
    (dc_director_ip cfg) (v_addr backend) (dc_ttl cfg) inner_packet (ip_total_len fx);
  let st := with_tx tx st in
  if decide (frame_len = 0%nat) then Val (with_stats (bump Drops_parse_error 1) st)
  else
    frame ← rd_list (dp_tx_buf st) 0 frame_len;
    let sent := pe_send env frame in
    let st := log_sent frame st in
    if decide (sent > 0) then
      let st := with_stats (bump Tx_packets 1) st in
      let st := with_stats (bump Tx_bytes (u64 sent)) st in
      stats ← stats_record_backend_packet (dp_stats st) (u32 backend_id) (u64 sent);
      Val (with_stats (λ _, stats) st)
    else Val st.

(** The body of [if (!hit)]: [None] means the packet was dropped. *)
Definition assign_backend (st : dp_state) (snap : routing_snapshot) (key : flow_key) (now : Z) :
    out (dp_state * option Z) :=
  backend_id ← maglev_table_lookup (s_table snap) key;
  if decide (backend_id < 0) then Val (with_stats (bump Drops_no_backend 1) st, None)
  else
    '(ct, rc) ← conntrack_insert (dp_ct st) key backend_id now;
    let st := with_ct ct st in
    if decide (rc ≠ 0) then Val (with_stats (bump Drops_conntrack_full 1) st, None)
    else
      stats ← stats_backend_flow_opened (dp_stats st) (u32 backend_id);
      Val (with_stats (λ _, stats) st, Some backend_id).

(** [handle_packet] from the connection lookup on, for a frame that parsed and is
    addressed to the VIP. *)
Definition handle_flow (st : dp_state) (env : packet_env) (fx : flow_extract_result) : out dp_state :=
  '(ct, hit) ← conntrack_lookup (dp_ct st) (key fx) (pe_now env);
  let st := with_ct ct st in
  let st := with_stats (bump (match hit with Some _ => Conntrack_hits
                              | None => Conntrack_misses end) 1) st in
  match pe_snap env with
  | None => Val (with_stats (bump Drops_no_backend 1) st)
  | Some snap =>
      '(st, chosen) ← (match hit with
                       | Some backend_id => Val (st, Some backend_id)
                       | None => assign_backend st snap (key fx) (pe_now env)
                       end);
      match chosen with
      | None => Val st
      | Some backend_id =>
          match routing_snapshot_find_backend snap backend_id with
          | None => Val (with_stats (bump Drops_backend_unhealthy 1) st)
          | Some backend => forward st env fx backend_id backend
          end
      end
  end.

Definition handle_packet (st : dp_state) (env : packet_env) : out dp_state :=
  match pe_recv env with
  | None => Val st
  | Some data =>
      if decide (length data = 0%nat) then Val st
      else
        rx ← wr_list (dp_rx_buf st) 0 data;
        let st := with_rx rx st in
        let st := with_stats (bump Rx_packets 1) st in
        let st := with_stats (bump Rx_bytes (Z.of_nat (length data))) st in
        '(ps, r) ← packet_extract_flow (take (length data) rx);
        match ps, r with
        | PARSE_OK, Some fx =>
            if decide (k_dst_ip (key fx) ≠ dc_vip cfg) then Val st
            else handle_flow st env fx
        | PARSE_TRUNCATED, _ => Val (with_stats (bump Drops_parse_error 1) st)
        | _, _ => Val st
        end
  end.

(** [on_flow_evicted] *)
Definition on_flow_evicted (backend_id : Z) (stats : lb_stats) : out lb_stats :=
  if decide (backend_id >= 0) then stats_backend_flow_closed stats (u32 backend_id) else Val stats.

(** The timer branch of the event loop, without the reclamation of snapshots,
    which works on the generator's state. *)
Definition handle_timer (st : dp_state) (now : Z) : out dp_state :=
  '(ct, reaped, stats) ← reaper_on_timer_fired (Some on_flow_evicted) (dp_ct st) now
    (dc_tcp_timeout_ns cfg) (dc_udp_timeout_ns cfg) (dc_buckets_per_tick cfg) (dp_stats st);
  Val (with_stats (bump Conntrack_evictions reaped) (with_stats (λ _, stats) (with_ct ct st))).

(** [conntrack_bucket_count(ct) / 60 + 1] *)
Definition reaper_buckets_per_tick (ct : conntrack_table) : Z :=
  u64 (conntrack_bucket_count ct / 60 + 1).

(** ** The event loop *)

Inductive event :=
  | EvSignal (full_read : bool)   (* did the read of the signal succeed *)
  | EvTimer (now : Z)
  | EvRaw (env : packet_env)
  | EvOther.

(** One [epoll_wait]: an error, with whether it was EINTR, or the ready events. *)
Inductive wait_result := WaitError (eintr : bool) | WaitEvents (evs : list event).

(** The [for] loop over one batch; the flag is [keep_running].  A signal event
    ends the batch. *)
Fixpoint handle_events (st : dp_state) (evs : list event) : out (dp_state * bool) :=
  match evs with
  | [] => Val (st, true)
  | EvSignal full_read :: _ => Val (st, negb full_read)
  | EvTimer now :: evs => st ← handle_timer st now; handle_events st evs
  | EvRaw env :: evs => st ← handle_packet st env; handle_events st evs
  | EvOther :: evs => handle_events st evs
  end.

(** [while (keep_running)] over the answers of the kernel.  [Some rc] is the
    return of [datapath_run]; [None], it waits for the next event. *)
Fixpoint event_loop (st : dp_state) (waits : list wait_result) : out (dp_state * option Z) :=
  match waits with
  | [] => Val (st, None)
  | WaitError true :: waits => event_loop st waits
  | WaitError false :: _ => Val (st, Some (-1))
  | WaitEvents evs :: waits =>
      '(st, keep_running) ← handle_events st evs;
      if keep_running : bool then event_loop st waits else Val (st, Some 0)
  end.
End Datapath.

(** ** Counting the flows pinned to a backend *)

Definition pinned_in (L : list conn) (id : Z) : nat := length (filter (λ d : conn, d.2.1 = id) L).

Definition pinned (m : flows) (id : Z) : nat := pinned_in (map_to_list m) id.

#[export] Instance pinned_in_proper : Proper ((≡ₚ) ==> (=) ==> (=)) pinned_in.
Proof. intros L1 L2 HL id _ <-. unfold pinned_in. by rewrite HL. Qed.

Lemma pinned_in_app L1 L2 id : pinned_in (L1 ++ L2) id = (pinned_in L1 id + pinned_in L2 id)%nat.
Proof. unfold pinned_in. by rewrite list.filter_app, length_app. Qed.

Lemma pinned_in_cons d L id :
  pinned_in (d :: L) id = ((if decide (d.2.1 = id) then 1 else 0) + pinned_in L id)%nat.
Proof. unfold pinned_in. rewrite filter_cons. by case_decide. Qed.

Lemma pinned_insert m k b t id :
  m !! k = None →
  pinned (<[k:=(b, t)]> m) id = ((if decide (b = id) then 1 else 0) + pinned m id)%nat.
Proof. intros Hk. unfold pinned. by rewrite map_to_list_insert, pinned_in_cons. Qed.

Lemma pinned_refresh m k b t t' id :
  m !! k = Some (b, t) → pinned (<[k:=(b, t')]> m) id = pinned m id.
Proof.
  intros Hk. unfold pinned. rewrite <- (map_to_list_delete m k (b, t)) by done.
  rewrite (bindings_update m k (b, t) (b, t') (map_to_list (delete k m)))
    by (by rewrite map_to_list_delete). by rewrite !pinned_in_cons.
Qed.

(** ** The statistics along a packet *)

Definition apply_bumps (s : lb_stats) (l : list (counter * Z)) : lb_stats :=
  foldl (λ s p, bump p.1 p.2 s) s l.

(** From [s] to [s'] the global counters grow by [l] and the active-flow counter
    of backend [id] by [delta id]. *)
Record stats_step (s s' : lb_stats) (l : list (counter * Z)) (delta : Z → Z) : Prop := {
  ss_live : stats_live s → stats_live s';
  ss_max : sr_max_backends s' = sr_max_backends s;
  ss_global : sr_global s' = sr_global (apply_bumps s l);
  ss_active id b : stats_live s → 0 ≤ id < sr_max_backends s →
    stats_registry_snapshot_backend s id = Val b →
    ∃ b', stats_registry_snapshot_backend s' id = Val b' ∧
      active_flows b' = u64 (active_flows b + delta id);
}.

Definition no_delta (_ : Z) : Z := 0.

Lemma bump_global c n s s' : sr_global s = sr_global s' → sr_global (bump c n s) = sr_global (bump c n s').
Proof. unfold bump. simpl. by intros ->. Qed.

Lemma apply_bumps_global l s s' :
  sr_global s = sr_global s' → sr_global (apply_bumps s l) = sr_global (apply_bumps s' l).
Proof.
  revert s s'. induction l as [|[c n] l IH]; intros s s' E; [done|]. apply IH. by apply bump_global.
Qed.

Lemma u32_nonneg z : 0 ≤ u32 z.
Proof. apply Z.mod_pos_bound. lia. Qed.

Lemma gauge_unchanged s id b :
  stats_live s → 0 ≤ id < sr_max_backends s → stats_registry_snapshot_backend s id = Val b →
  active_flows b = u64 (active_flows b + 0).
Proof.
  intros Hl Hid Hb. destruct (snapshot_backend_Val s id Hl) as (b' & Hb' & Hg); [lia|].
  rewrite Hb in Hb'. injection Hb' as <-. unfold u64. rewrite Z.add_0_r, Z.mod_small; [done|apply Hg].
Qed.

Lemma stats_step_bump s c n : stats_step s (bump c n s) [(c, n)] no_delta.
Proof.
  split; [by apply bump_live|done|done|]. intros id b Hl Hid Hb. exists b.
  rewrite bump_snapshot_backend. split; [done|]. by eapply gauge_unchanged.
Qed.

Lemma stats_step_refl s : stats_step s s [] no_delta.
Proof.
  split; [done..|]. intros id b Hl Hid Hb. exists b. split; [done|]. by eapply gauge_unchanged.
Qed.

Lemma stats_step_trans s1 s2 s3 l1 l2 d1 d2 :
  stats_step s1 s2 l1 d1 → stats_step s2 s3 l2 d2 →
  stats_step s1 s3 (l1 ++ l2) (λ id, d1 id + d2 id).
Proof.
  intros H1 H2. split.
  - intros Hl. by apply H2, H1.
  - by rewrite (ss_max _ _ _ _ H2), (ss_max _ _ _ _ H1).
  - rewrite (ss_global _ _ _ _ H2). unfold apply_bumps at 2. rewrite foldl_app.
    apply apply_bumps_global, H1.
  - intros id b Hl Hid Hb. destruct (ss_active _ _ _ _ H1 id b) as (b1 & Hb1 & E1); [done..|].
    destruct (ss_active _ _ _ _ H2 id b1) as (b2 & Hb2 & E2); [by apply H1|by rewrite (ss_max _ _ _ _ H1)|done|].
    exists b2. split; [done|]. rewrite E2, E1. unfold u64. rewrite Zplus_mod_idemp_l.
    f_equal. lia.
Qed.

Lemma stats_step_ext s s' l d1 d2 : (∀ id, d1 id = d2 id) → stats_step s s' l d1 → stats_step s s' l d2.
Proof. intros E []. split; try done. intros. rewrite <- E. eauto. Qed.

(** A per-backend update of backend [i] that adds [k] to its active flows. *)
Lemma stats_step_update s i f k :
  stats_live s → 0 ≤ i → (∀ b, gauge_ok b → active_flows (f b) = u64 (active_flows b + k)) →
  ∃ s', update_backend s i f = Val s' ∧
    stats_step s s' [] (λ id, if decide (id = i) then k else 0).
Proof.
  intros Hl Hi Hf. destruct (update_backend_spec s i f Hl Hi) as (s' & E & Hl' & Hg & Hm & Hb).
  { intros b Hb. unfold gauge_ok. rewrite Hf by done. apply u64_range. }
  exists s'. split; [done|]. split; [done..|]. intros id b _ Hid Hs.
  destruct (snapshot_backend_Val s id Hl) as (b' & Hb' & Hgauge); [lia|]. rewrite Hs in Hb'.
  injection Hb' as <-. eexists. split; [apply Hb; [lia|done]|].
  destruct (decide (id = i)) as [-> |].
  - rewrite decide_True by lia. by apply Hf.
  - rewrite decide_False by tauto. by apply (gauge_unchanged s id).
Qed.

(** ** The invariant of the datapath thread *)

Section Invariant.
Context {xx : XXHash} (cfg : datapath_config).

(** What the datapath needs of the routing snapshot it loads: the table
    answers, with an id the snapshot resolves or -1, and resolved backends have
    a MAC of six bytes. *)
Definition snap_ok (snap : routing_snapshot) : Prop :=
  (∀ key, ∃ id, maglev_table_lookup (s_table snap) key = Val id ∧
     (id = -1 ∨ 0 ≤ id < 2 ^ 31 ∧ is_Some (routing_snapshot_find_backend snap id))) ∧
  ∀ id v, routing_snapshot_find_backend snap id = Some v → length (v_mac v) = 6%nat.

Definition cfg_ok : Prop := length (dc_own_mac cfg) = 6%nat ∧ byte_ok (dc_ttl cfg) ∧
  0 ≤ dc_buckets_per_tick cfg.

(** What the kernel may answer: at most a buffer full of bytes, and whatever
    snapshot is active. *)
Definition env_ok (env : packet_env) : Prop :=
  (∀ data, pe_recv env = Some data → bytes_ok data ∧ (length data ≤ RX_BUF_LEN)%nat) ∧
  (∀ snap, pe_snap env = Some snap → snap_ok snap).

(** The state [st] tracks exactly the flows [m], and the active-flow counter of
    each backend in the registry is the number of flows pinned to it. *)
Record dp_ok (st : dp_state) (m : flows) : Prop := {
  dk_ct : ct_rep (dp_ct st) m;
  dk_stats : stats_live (dp_stats st);
  dk_active id b : 0 ≤ id < sr_max_backends (dp_stats st) →
    stats_registry_snapshot_backend (dp_stats st) id = Val b →
    active_flows b = u64 (Z.of_nat (pinned m id));
  dk_max : sr_max_backends (dp_stats st) ≤ 2 ^ 31;
  dk_ids k b t : m !! k = Some (b, t) → 0 ≤ b < 2 ^ 31;
  dk_rx : length (dp_rx_buf st) = RX_BUF_LEN;
  dk_tx : length (dp_tx_buf st) = TX_BUF_LEN;
}.

(** A step of the datapath that changes the flows from [m] to [m'] keeps the
    invariant if the active-flow counters follow. *)
Lemma dp_ok_step st m ct' stats' rx' tx' sent' m' l delta :
  dp_ok st m → stats_step (dp_stats st) stats' l delta → ct_rep ct' m' →
  (∀ id, 0 ≤ id < 2 ^ 31 → Z.of_nat (pinned m' id) = Z.of_nat (pinned m id) + delta id) →
  (∀ k b t, m' !! k = Some (b, t) → 0 ≤ b < 2 ^ 31) →
  length rx' = RX_BUF_LEN → length tx' = TX_BUF_LEN →
  dp_ok {| dp_ct := ct'; dp_stats := stats'; dp_rx_buf := rx'; dp_tx_buf := tx'; dp_sent := sent' |} m'.
Proof.
  intros Hok Hst Hct Hpin Hids Hrx Htx. pose proof (dk_max _ _ Hok) as Hmax. split; simpl; try done.
  - apply Hst, Hok.
  - intros id b' Hid Hb'. rewrite (ss_max _ _ _ _ Hst) in Hid.
    destruct (snapshot_backend_Val (dp_stats st) id (dk_stats _ _ Hok)) as (b & Hb & _); [lia|].
    destruct (ss_active _ _ _ _ Hst id b (dk_stats _ _ Hok) Hid Hb) as (b1 & Hb1 & E).
    rewrite Hb' in Hb1. injection Hb1 as <-. rewrite E, (dk_active _ _ Hok id b Hid Hb).
    unfold u64. rewrite Zplus_mod_idemp_l, Hpin by lia. done.
  - by rewrite (ss_max _ _ _ _ Hst).
Qed.

Lemma wire_frame_key_ok buf fx : bytes_ok buf → wire_frame buf fx → key_ok (key fx).
Proof.
  intros Hok Hw. destruct Hw as [macs mid ck src dst opts sp dp rest ihl tos hi lo proto
    Hmacs Hmid Hck Hsrc Hdst Hsp Hdp Hihl Hopts Hproto Htl].
  repeat match goal with H : bytes_ok (_ ++ _) |- _ => apply Forall_app in H as [? H] end.
  assert (∀ l, length l = 4%nat → bytes_ok l → 0 ≤ le_combine l < 2 ^ 32) as Hb4.
  { intros l Hl Hb. pose proof (le_combine_bound l Hb) as B. by rewrite Hl in B. }
  assert (∀ l, length l = 2%nat → bytes_ok l → 0 ≤ le_combine l < 2 ^ 16) as Hb2.
  { intros l Hl Hb. pose proof (le_combine_bound l Hb) as B. by rewrite Hl in B. }
  split_and!; simpl; try (by apply Hb4); try (by apply Hb2); unfold IPPROTO_TCP, IPPROTO_UDP in *; lia.
Qed.

(** ** The specification of a packet *)

Inductive verdict :=
  | Ignored
  | Dropped (c : counter)
  | Forwarded (fx : flow_extract_result) (backend_id : Z) (backend : backend_view).

(** The verdict once the backend id is known. *)
Definition resolve (snap : routing_snapshot) (fx : flow_extract_result) (id : Z) : verdict :=
  match routing_snapshot_find_backend snap id with
  | Some v => if decide (38 + ip_total_len fx ≤ TX_BUF_LEN)%nat then Forwarded fx id v
              else Dropped Drops_parse_error
  | None => Dropped Drops_backend_unhealthy
  end.

(** Where a packet of flow [key] goes, and the flows tracked afterwards. *)
Definition route (capacity : nat) (m : flows) (snap : option routing_snapshot)
    (fx : flow_extract_result) (now : Z) : flows * verdict :=
  match m !! key fx with
  | Some (id, _) =>
      (<[key fx:=(id, now)]> m,
       match snap with Some snap => resolve snap fx id | None => Dropped Drops_no_backend end)
  | None =>
      match snap with
      | None => (m, Dropped Drops_no_backend)
      | Some snap =>
          match maglev_table_lookup (s_table snap) (key fx) with
          | Val id =>
              if decide (id < 0) then (m, Dropped Drops_no_backend)
              else if decide (size m = capacity) then (m, Dropped Drops_conntrack_full)
              else (<[key fx:=(id, now)]> m, resolve snap fx id)
          | _ => (m, Ignored)
          end
      end
  end.

Definition packet_spec (capacity : nat) (m : flows) (snap : option routing_snapshot)
    (data : list Z) (now : Z) : flows * verdict :=
  match packet_extract_flow data with
  | Val (PARSE_OK, Some fx) =>
      if decide (k_dst_ip (key fx) ≠ dc_vip cfg) then (m, Ignored) else route capacity m snap fx now
  | Val (PARSE_TRUNCATED, _) => (m, Dropped Drops_parse_error)
  | _ => (m, Ignored)
  end.

(** The hit or miss the packet counts. *)
Definition lookup_bumps (m : flows) (data : list Z) : list (counter * Z) :=
  match packet_extract_flow data with
  | Val (PARSE_OK, Some fx) =>
      if decide (k_dst_ip (key fx) ≠ dc_vip cfg) then []
      else [(match m !! key fx with Some _ => Conntrack_hits | None => Conntrack_misses end, 1)]
  | _ => []
  end.

(** The frame of a verdict, for the checksum bytes [ck]. *)
Definition frame_of (data : list Z) (ck : list Z) (fx : flow_extract_result) (v : backend_view) : list Z :=
  encap_frame (v_mac v) (dc_own_mac cfg) (dc_director_ip cfg) (v_addr v) (dc_ttl cfg) ck
    (take (ip_total_len fx) (drop 14 data)).

Definition tx_bumps (sent : Z) : list (counter * Z) :=
  if decide (sent > 0) then [(Tx_packets, 1); (Tx_bytes, u64 sent)] else [].

(** From [st] to [st'] exactly what the verdict says happened: frames sent and
    counters. *)
Definition verdict_done (st st' : dp_state) (data : list Z) (send : list Z → Z)
    (before : list (counter * Z)) (vd : verdict) : Prop :=
  match vd with
  | Ignored => dp_sent st' = dp_sent st ∧ sr_global (dp_stats st') = sr_global (apply_bumps (dp_stats st) before)
  | Dropped c => dp_sent st' = dp_sent st ∧
      sr_global (dp_stats st') = sr_global (apply_bumps (dp_stats st) (before ++ [(c, 1)]))
  | Forwarded fx id v => ∃ hi lo,
      ipv4_checksum (take 20 (drop 14 (frame_of data [hi; lo] fx v))) = Val 0 ∧
      dp_sent st' = dp_sent st ++ [frame_of data [hi; lo] fx v] ∧
      sr_global (dp_stats st') =
        sr_global (apply_bumps (dp_stats st) (before ++ tx_bumps (send (frame_of data [hi; lo] fx v))))
  end.

Lemma verdict_done_shift st0 st st' data send before vd :
  dp_sent st = dp_sent st0 → sr_global (dp_stats st) = sr_global (apply_bumps (dp_stats st0) before) →
  verdict_done st st' data send [] vd → verdict_done st0 st' data send before vd.
Proof.
  intros Hs Hg.
  assert (∀ l, sr_global (apply_bumps (dp_stats st) l) =
    sr_global (apply_bumps (dp_stats st0) (before ++ l))) as Happ.
  { intros l. unfold apply_bumps at 2. rewrite foldl_app. by apply apply_bumps_global. }
  destruct vd as [|c|fx id v]; unfold verdict_done.
  - intros [-> ->]. split; [done|]. by rewrite <- Hg.
  - intros [-> ->]. split; [done|]. apply Happ.
  - intros (hi & lo & Hck & -> & ->). exists hi, lo. rewrite Hs. split_and!; [done..|]. apply Happ.
Qed.

(** The tail of [forward], after the send. *)
Lemma send_spec st m sent id :
  dp_ok st m → 0 ≤ id < 2 ^ 31 →
  ∃ st', (if decide (sent > 0) then
      let st := with_stats (bump Tx_packets 1) st in
      let st := with_stats (bump Tx_bytes (u64 sent)) st in
      stats ← stats_record_backend_packet (dp_stats st) (u32 id) (u64 sent);
      Val (with_stats (λ _, stats) st)
    else Val st) = Val st' ∧ dp_ok st' m ∧ dp_ct st' = dp_ct st ∧ dp_sent st' = dp_sent st ∧
    sr_global (dp_stats st') = sr_global (apply_bumps (dp_stats st) (tx_bumps sent)).
Proof.
  intros Hok Hid. unfold tx_bumps. case_decide; [|by exists st].
  cbv zeta. unfold stats_record_backend_packet.
  destruct (stats_step_update (dp_stats (with_stats (bump Tx_bytes (u64 sent)) (with_stats (bump Tx_packets 1) st)))
    (u32 id) (λ b, {| packets := u64 (packets b + 1); bytes := u64 (bytes b + u64 sent);
       active_flows := active_flows b; flows_assigned := flows_assigned b;
       health_check_failures := health_check_failures b |}) 0) as (s' & -> & Hst).
  { apply bump_live, bump_live, Hok. } { apply u32_nonneg. }
  { intros b Hb. simpl. unfold u64. rewrite Z.add_0_r, Z.mod_small; [done|apply Hb]. }
  rewrite bind_Val. eexists. split; [done|].
  assert (stats_step (dp_stats st) s' ([(Tx_packets, 1)] ++ [(Tx_bytes, u64 sent)] ++ [])
    (λ i, no_delta i + (no_delta i + if decide (i = u32 id) then 0 else 0))) as Hall.
  { eapply stats_step_trans; [apply stats_step_bump|]. eapply stats_step_trans; [apply stats_step_bump|].
    exact Hst. }
  split_and!; [|done|done|apply Hall].
  eapply (dp_ok_step st m); [done|exact Hall|apply Hok| |apply Hok..].
  intros i _. unfold no_delta. case_decide; lia.
Qed.

(** The encapsulation and the send. *)
Lemma forward_spec st m env fx id v data rest :
  cfg_ok → dp_ok st m → dp_rx_buf st = data ++ rest → ip_offset fx = 14%nat →
  (14 + ip_total_len fx ≤ length data)%nat → length (v_mac v) = 6%nat → 0 ≤ id < 2 ^ 31 →
  ∃ st', forward cfg st env fx id v = Val st' ∧ dp_ok st' m ∧ dp_ct st' = dp_ct st ∧
    verdict_done st st' data (pe_send env) []
      (if decide (38 + ip_total_len fx ≤ TX_BUF_LEN)%nat then Forwarded fx id v
       else Dropped Drops_parse_error).
Proof.
  intros (Hmac & Httl & _) Hok Hrx Hoff Hlen Hv Hid. unfold forward. rewrite Hrx, Hoff.
  rewrite ptr_off_le, bind_Val by (rewrite length_app; lia).
  pose proof (dk_tx _ _ Hok) as Htx. case_decide as Hfit.
  - destruct (gre_encap_build_spec (dp_tx_buf st) (v_mac v) (dc_own_mac cfg) (dc_director_ip cfg)
      (v_addr v) (dc_ttl cfg) (drop 14 (data ++ rest)) (ip_total_len fx))
      as (hi & lo & Hhi & Hlo & Hck & ->);
      [done..|rewrite length_drop, length_app; lia|lia|unfold TX_BUF_LEN in Hfit; lia|].
    rewrite bind_Val. cbv beta iota zeta. rewrite decide_False by lia.
    assert (take (ip_total_len fx) (drop 14 (data ++ rest)) = take (ip_total_len fx) (drop 14 data)) as Hin.
    { rewrite drop_app_le by lia. rewrite take_app_le; [done|]. rewrite length_drop. lia. }
    rewrite Hin. fold (frame_of data [hi; lo] fx v).
    assert (length (take (ip_total_len fx) (drop 14 data)) = ip_total_len fx) as Hil.
    { apply length_take_le. rewrite length_drop. lia. }
    destruct (encap_frame_parts (v_mac v) (dc_own_mac cfg) (dc_director_ip cfg) (v_addr v) (dc_ttl cfg)
      [hi; lo] (take (ip_total_len fx) (drop 14 data)) Hv Hmac eq_refl) as [Hfl Hhdr].
    fold (frame_of data [hi; lo] fx v) in Hfl, Hhdr. rewrite Hil in Hfl, Hhdr.
    rewrite rd_list_take_drop, bind_Val by (simpl; rewrite length_app, length_drop; lia).
    cbn [dp_tx_buf with_tx]. rewrite drop_0, take_app_length' by done.
    set (frame := frame_of data [hi; lo] fx v) in *. cbv zeta.
    destruct (send_spec (log_sent frame (with_tx (frame ++ drop (38 + ip_total_len fx) (dp_tx_buf st)) st))
      m (pe_send env frame) id) as (st' & E & Hok' & Hct & Hsent & Hg); [|done|].
    { eapply (dp_ok_step st m _ _ _ _ _ m [] no_delta); try apply Hok; try done.
      - apply stats_step_refl.
      - intros. unfold no_delta. lia.
      - simpl. rewrite length_app, length_drop. lia. }
    exists st'. split; [exact E|]. split; [done|]. split; [by rewrite Hct|]. exists hi, lo. fold frame.
    rewrite Hsent, Hhdr. split_and!; [done|done|]. rewrite Hg. done.
  - unfold gre_encap_build, ETH_HDR_LEN, IPV4_MIN_HDR_LEN, GRE_HDR_LEN.
    rewrite decide_True, bind_Val by lia. cbv beta iota zeta. rewrite decide_True by done.
    eexists. split; [done|]. split; [|by split_and!].
    eapply (dp_ok_step st m); [done|apply stats_step_bump|apply Hok| |apply Hok|apply Hok|done].
    intros. unfold no_delta. lia.
Qed.

(** Counting a drop keeps the invariant. *)
Lemma drop_ok st m c : dp_ok st m → dp_ok (with_stats (bump c 1) st) m.
Proof.
  intros Hok. eapply (dp_ok_step st m); [done|apply stats_step_bump|apply Hok| |apply Hok..].
  intros. unfold no_delta. lia.
Qed.

Lemma resolve_spec st m env snap fx id data rest :
  cfg_ok → snap_ok snap → dp_ok st m → dp_rx_buf st = data ++ rest → ip_offset fx = 14%nat →
  (14 + ip_total_len fx ≤ length data)%nat → 0 ≤ id < 2 ^ 31 →
  ∃ st', (match routing_snapshot_find_backend snap id with
          | None => Val (with_stats (bump Drops_backend_unhealthy 1) st)
          | Some backend => forward cfg st env fx id backend
          end) = Val st' ∧ dp_ok st' m ∧ dp_ct st' = dp_ct st ∧
    verdict_done st st' data (pe_send env) [] (resolve snap fx id).
Proof.
  intros Hcfg [_ Hmac] Hok Hrx Hoff Hlen Hid. unfold resolve.
  destruct (routing_snapshot_find_backend snap id) as [v|] eqn:Hf.
  - by apply (forward_spec st m env fx id v data rest); [..|eapply Hmac|].
  - eexists. split; [done|]. split; [by apply drop_ok|]. by split_and!.
Qed.

(** What packets leave alone in the connection table: its dimensions and the
    sweep cursor. *)
Definition same_table (ct ct' : conntrack_table) : Prop :=
  same_frame ct ct' ∧ ct_sweep_cursor ct' = ct_sweep_cursor ct.

(** The flow of a packet that misses is given a backend, if there is one and
    there is room. *)
Lemma assign_spec st m snap k now id :
  snap_ok snap → dp_ok st m → key_ok k → m !! k = None →
  maglev_table_lookup (s_table snap) k = Val id →
  ∃ st' chosen, assign_backend st snap k now = Val (st', chosen) ∧
    dp_sent st' = dp_sent st ∧ dp_rx_buf st' = dp_rx_buf st ∧ same_table (dp_ct st) (dp_ct st') ∧
    if decide (id < 0) then chosen = None ∧ dp_ok st' m ∧
      sr_global (dp_stats st') = sr_global (bump Drops_no_backend 1 (dp_stats st))
    else if decide (size m = length (ct_slab (dp_ct st))) then chosen = None ∧ dp_ok st' m ∧
      sr_global (dp_stats st') = sr_global (bump Drops_conntrack_full 1 (dp_stats st))
    else chosen = Some id ∧ 0 ≤ id < 2 ^ 31 ∧ dp_ok st' (<[k:=(id, now)]> m) ∧
      sr_global (dp_stats st') = sr_global (dp_stats st).
Proof.
  intros [Hlook _] Hok Hk Hnew Hid. unfold assign_backend.
  destruct (Hlook k) as (id' & Hid' & Hcase). rewrite Hid in Hid'. injection Hid' as <-.
  rewrite Hid, bind_Val. cbv beta. case_decide as Hneg.
  { do 2 eexists. split; [done|]. split_and!; try done. by apply drop_ok. }
  destruct Hcase as [-> |[Hrange _]]; [lia|].
  pose proof (insert_rep (dp_ct st) m k id now (dk_ct _ _ Hok) Hk Hnew) as Hins.
  case_decide as Hfull.
  { rewrite Hins, bind_Val. cbv beta iota zeta. rewrite decide_True by done.
    do 2 eexists. split; [done|]. split_and!; try done.
    apply (drop_ok (with_ct (dp_ct st) st)). by destruct st. }
  destruct Hins as (ct' & -> & Hrep & Hframe). rewrite bind_Val. cbv beta iota zeta.
  rewrite decide_False by tauto. unfold stats_backend_flow_opened.
  destruct (stats_step_update (dp_stats (with_ct ct' st)) (u32 id) (λ b,
    {| packets := packets b; bytes := bytes b; active_flows := u64 (active_flows b + 1);
       flows_assigned := u64 (flows_assigned b + 1);
       health_check_failures := health_check_failures b |}) 1) as (s' & -> & Hst);
    [apply Hok|apply u32_nonneg|done|].
  rewrite bind_Val. do 2 eexists. split; [done|]. split_and!; try done; try lia; [|apply (ss_global _ _ _ _ Hst)].
  eapply (dp_ok_step st m); [done|exact Hst|done| | |apply Hok..].
  - intros i Hi. rewrite pinned_insert by done. unfold u32. rewrite Z.mod_small by lia.
    repeat case_decide; lia.
  - intros k' b t. rewrite lookup_insert. case_decide; [by intros [= <- _]|apply Hok].
Qed.

Lemma handle_flow_spec st m env fx data rest :
  cfg_ok → env_ok env → dp_ok st m → dp_rx_buf st = data ++ rest → ip_offset fx = 14%nat →
  (14 + ip_total_len fx ≤ length data)%nat → key_ok (key fx) →
  ∃ st', handle_flow cfg st env fx = Val st' ∧ same_table (dp_ct st) (dp_ct st') ∧
    let '(m', vd) := route (length (ct_slab (dp_ct st))) m (pe_snap env) fx (pe_now env) in
    dp_ok st' m' ∧
    verdict_done st st' data (pe_send env)
      [(match m !! key fx with Some _ => Conntrack_hits | None => Conntrack_misses end, 1)] vd.
Proof.
  intros Hcfg [_ Hsnap] Hok Hrx Hoff Hlen Hk. unfold handle_flow, route.
  pose proof (lookup_rep (dp_ct st) m (key fx) (pe_now env) (dk_ct _ _ Hok) Hk) as Hl.
  destruct (m !! key fx) as [[id t]|] eqn:Hm.
  - destruct Hl as (ct' & -> & Hrep & Hframe). rewrite bind_Val. cbv beta iota zeta.
    set (st1 := with_stats _ _).
    assert (dp_ok st1 (<[key fx:=(id, pe_now env)]> m)) as Hok1.
    { eapply (dp_ok_step st m); [done|apply stats_step_bump|done| | |apply Hok..].
      - intros i _. rewrite (pinned_refresh m _ id t) by done. unfold no_delta. lia.
      - intros k' b t'. rewrite lookup_insert. case_decide; [intros [= <- _]; by eapply (dk_ids _ _ Hok)|apply Hok]. }
    destruct (pe_snap env) as [snap|].
    + rewrite bind_Val. cbv beta iota.
      destruct (resolve_spec st1 (<[key fx:=(id, pe_now env)]> m) env snap fx id data rest) as (st' & -> & Hok' & Hct & Hv); try done.
      { by apply Hsnap. } { by eapply (dk_ids _ _ Hok). }
      exists st'. split; [done|]. split; [by rewrite Hct|]. split; [done|].
      by eapply verdict_done_shift; [..|exact Hv].
    + eexists. split; [done|]. split; [done|]. split; [by apply drop_ok|]. by split.
  - rewrite Hl, bind_Val. cbv beta iota zeta. set (st1 := with_stats _ _).
    assert (dp_ok st1 m) as Hok1 by (apply (drop_ok (with_ct (dp_ct st) st)); by destruct st).
    destruct (pe_snap env) as [snap|].
    2:{ eexists. split; [done|]. split; [done|]. split; [by apply drop_ok|]. by split. }
    specialize (Hsnap snap eq_refl). destruct (proj1 Hsnap (key fx)) as (id & Hid & _).
    destruct (assign_spec st1 m snap (key fx) (pe_now env) id) as (st2 & chosen & -> & Hsent & Hrx2 & Hfr & Hcase);
      [done..|]. rewrite Hid, bind_Val. cbv beta iota.
    change (ct_slab (dp_ct st1)) with (ct_slab (dp_ct st)) in Hcase.
    case_decide as Hneg; [|case_decide as Hfull].
    + destruct Hcase as (-> & Hok2 & Hg). exists st2. split; [done|]. split; [exact Hfr|]. split; [done|]. by split.
    + destruct Hcase as (-> & Hok2 & Hg). exists st2. split; [done|]. split; [exact Hfr|]. split; [done|]. by split.
    + destruct Hcase as (-> & Hr & Hok2 & Hg).
      destruct (resolve_spec st2 (<[key fx:=(id, pe_now env)]> m) env snap fx id data rest) as (st' & -> & Hok' & Hct & Hv); try done.
      { by rewrite Hrx2. }
      exists st'. split; [done|]. split; [by rewrite Hct|]. split; [done|].
      eapply verdict_done_shift; [|exact Hg|exact Hv]. by rewrite Hsent.
Qed.

Lemma handle_packet_spec st m env :
  cfg_ok → env_ok env → dp_ok st m →
  ∃ st', handle_packet cfg st env = Val st' ∧ same_table (dp_ct st) (dp_ct st') ∧
    match pe_recv env with
    | Some (x :: data') =>
        let data := x :: data' in
        let '(m', vd) := packet_spec (length (ct_slab (dp_ct st))) m (pe_snap env) data (pe_now env) in
        dp_ok st' m' ∧
        verdict_done st st' data (pe_send env)
          ([(Rx_packets, 1); (Rx_bytes, Z.of_nat (length data))] ++ lookup_bumps m data) vd
    | _ => st' = st
    end.
Proof.
  intros Hcfg Henv Hok. unfold handle_packet. pose proof (proj1 Henv) as Hdata.
  destruct (pe_recv env) as [data|]; [|by exists st]. specialize (Hdata data eq_refl) as [Hbytes Hle].
  destruct data as [|x data']; [by exists st|]. cbv zeta.
  rewrite decide_False by done. remember (x :: data') as data eqn:Hd. clear x data' Hd. pose proof (dk_rx _ _ Hok) as Hrx.
  assert (wr_list (dp_rx_buf st) 0 data = Val (data ++ drop (length data) (dp_rx_buf st))) as ->.
  { apply (wr_list_at _ _ _ [] (take (length data) (dp_rx_buf st)));
      [by rewrite take_drop|done|rewrite length_take; lia]. }
  rewrite bind_Val. cbv beta zeta.
  rewrite take_app_length. set (st1 := with_stats _ _).
  assert (dp_ok st1 m) as Hok1.
  { eapply (dp_ok_step st m); [done|eapply stats_step_trans; apply stats_step_bump|apply Hok| |apply Hok| |apply Hok].
    - intros. unfold no_delta. lia.
    - simpl. rewrite length_app, length_drop. lia. }
  assert (∀ st' vd l, verdict_done st1 st' data (pe_send env) l vd →
    verdict_done st st' data (pe_send env)
      ([(Rx_packets, 1); (Rx_bytes, Z.of_nat (length data))] ++ l) vd) as Hshift.
  { intros st' vd l Hv. destruct vd; exact Hv. }
  destruct (packet_extract_flow_cases data) as (ps & r & Hp & Hcase).
  unfold packet_spec, lookup_bumps. rewrite Hp, bind_Val. cbv beta iota. destruct ps.
  - destruct Hcase as (fx & -> & Hoff & _ & Hlen & _).
    apply packet_extract_flow_sound in Hp; [|done].
    case_decide as Hvip; [exists st1; split; [done|]; split; [done|]; split; [done|]; by apply Hshift|].
    destruct (handle_flow_spec st1 m env fx data (drop (length data) (dp_rx_buf st)))
      as (st' & -> & Hfr & H); try done; [by rewrite Hoff in Hlen|by eapply wire_frame_key_ok|].
    exists st'. split; [done|]. split; [done|].
    change (length (ct_slab (dp_ct st1))) with (length (ct_slab (dp_ct st))) in H.
    destruct (route _ m (pe_snap env) fx (pe_now env)) as [m' vd]. destruct H as [? Hv].
    split; [done|]. by apply Hshift.
  - eexists. split; [done|]. split; [done|]. split; [by apply drop_ok|]. by split.
  - exists st1. split; [done|]. split; [done|]. split; [done|]. by apply Hshift.
Qed.

(** ** The timer *)

Lemma evict_all_stats evs s :
  stats_live s → Forall (λ d : conn, 0 ≤ d.2.1 < 2 ^ 31) evs →
  ∃ s', evict_all (Some on_flow_evicted) evs s = Val s' ∧
    stats_step s s' [] (λ id, - Z.of_nat (pinned_in evs id)).
Proof.
  revert s. induction evs as [|d evs IH]; intros s Hl Hr.
  - exists s. split; [done|]. eapply stats_step_ext, stats_step_refl. done.
  - apply Forall_cons in Hr as [Hd Hr]. cbn [evict_all call_evict].
    assert (on_flow_evicted d.2.1 s = stats_backend_flow_closed s (u32 d.2.1)) as ->.
    { unfold on_flow_evicted. by rewrite decide_True by lia. }
    unfold stats_backend_flow_closed.
    destruct (stats_step_update s (u32 d.2.1) (λ b,
      {| packets := packets b; bytes := bytes b; active_flows := u64 (active_flows b - 1);
         flows_assigned := flows_assigned b; health_check_failures := health_check_failures b |}) (-1))
      as (s1 & -> & H1); [done|apply u32_nonneg|done|].
    rewrite bind_Val. destruct (IH s1) as (s' & -> & H2); [by apply H1|done|].
    exists s'. split; [done|]. eapply stats_step_ext; [|apply (stats_step_trans _ _ _ _ _ _ _ H1 H2)].
    intros id. rewrite pinned_in_cons. unfold u32. rewrite Z.mod_small by lia.
    simpl. repeat case_decide; lia.
Qed.

Lemma handle_timer_spec st m now :
  cfg_ok → dp_ok st m →
  let n := Z.min (dc_buckets_per_tick cfg) (ct_bucket_count (dp_ct st)) in
  let P := swept now (dc_tcp_timeout_ns cfg) (dc_udp_timeout_ns cfg) (ct_bucket_count (dp_ct st))
             (ct_sweep_cursor (dp_ct st)) n in
  ∃ st', handle_timer cfg st now = Val st' ∧ same_frame (dp_ct st) (dp_ct st') ∧
    dp_ok st' (filter (λ d, ¬ P d) m) ∧ dp_sent st' = dp_sent st ∧
    sr_global (dp_stats st') =
      sr_global (bump Conntrack_evictions (Z.of_nat (size (filter P m))) (dp_stats st)) ∧
    ct_sweep_cursor (dp_ct st') = (ct_sweep_cursor (dp_ct st) + n) mod ct_bucket_count (dp_ct st).
Proof.
  intros (_ & _ & Hb) Hok n P. unfold handle_timer, reaper_on_timer_fired.
  destruct (reap_slice_rep (Some on_flow_evicted) (dp_ct st) m now (dc_tcp_timeout_ns cfg)
    (dc_udp_timeout_ns cfg) (dc_buckets_per_tick cfg) (dk_ct _ _ Hok) Hb)
    as (ct' & evs & Hrep & Hevs & Hfr & Hcur & Heq). fold n P in Hrep, Hevs, Hcur.
  assert (∀ k b t, filter (λ d, ¬ P d) m !! k = Some (b, t) → 0 ≤ b < 2 ^ 31) as Hids.
  { intros k b t [? _]%map_lookup_filter_Some. by eapply (dk_ids _ _ Hok). }
  destruct (evict_all_stats evs (dp_stats st) (dk_stats _ _ Hok)) as (s' & Es & Hst).
  { apply Forall_forall. intros [k [b t]] Hin. rewrite <- Hevs in Hin.
    apply elem_of_map_to_list, map_lookup_filter_Some in Hin as [? _]. by eapply (dk_ids _ _ Hok). }
  rewrite Heq, Es, !bind_Val. cbv beta iota.
  assert (length evs = size (filter P m)) as Hlen.
  { rewrite <- length_map_to_list. by rewrite (Permutation_length Hevs). }
  eexists. split; [done|]. split; [done|]. split_and!; [|done| |done].
  - eapply (dp_ok_step st m); [done|eapply stats_step_trans; [exact Hst|apply stats_step_bump]|done| |done|apply Hok..].
    intros id _. unfold no_delta, pinned.
    rewrite (bindings_split m P), pinned_in_app, Hevs. lia.
  - rewrite Hlen. apply (bump_global _ _ s' (dp_stats st)), Hst.
Qed.

(** ** Sequences of events *)

Definition event_ok (ev : event) : Prop := match ev with EvRaw env => env_ok env | _ => True end.

Definition wait_ok (w : wait_result) : Prop :=
  match w with WaitEvents evs => Forall event_ok evs | WaitError _ => True end.

(** The abstract effect of an event on the flow table of [capacity] flows over
    [bc] buckets. *)
Definition spec_event (capacity : nat) (bc : Z) (ft : flow_table) (ev : event) : flow_table :=
  match ev with
  | EvRaw env =>
      match pe_recv env with
      | Some (x :: data) =>
          {| ft_flows := (packet_spec capacity (ft_flows ft) (pe_snap env) (x :: data) (pe_now env)).1;
             ft_cursor := ft_cursor ft |}
      | _ => ft
      end
  | EvTimer now =>
      let n := Z.min (dc_buckets_per_tick cfg) bc in
      {| ft_flows := filter (λ d, ¬ swept now (dc_tcp_timeout_ns cfg) (dc_udp_timeout_ns cfg) bc
                                     (ft_cursor ft) n d) (ft_flows ft);
         ft_cursor := (ft_cursor ft + n) mod bc |}
  | _ => ft
  end.

(** Everything but a signal that was read keeps the loop going. *)
Definition continues (ev : event) : Prop := match ev with EvSignal _ => False | _ => True end.

Definition sim (capacity : nat) (bc : Z) (st : dp_state) (ft : flow_table) : Prop :=
  dp_ok st (ft_flows ft) ∧ length (ct_slab (dp_ct st)) = capacity ∧
  ct_bucket_count (dp_ct st) = bc ∧ ct_sweep_cursor (dp_ct st) = ft_cursor ft.

Lemma handle_event_sim capacity bc st ft ev :
  cfg_ok → event_ok ev → continues ev → sim capacity bc st ft →
  ∃ st', handle_events cfg st [ev] = Val (st', true) ∧ sim capacity bc st' (spec_event capacity bc ft ev).
Proof.
  intros Hcfg Hev Hc (Hok & Hcap & Hbc & Hcur). destruct ev as [r|now|env|]; simpl; [done| | |by exists st].
  - destruct (handle_timer_spec st _ now Hcfg Hok) as (st' & -> & [Hb Hs] & Hok' & _ & _ & Hcur').
    rewrite bind_Val. exists st'. split; [done|]. rewrite Hbc, Hcur in Hok', Hcur'.
    split_and!; simpl; [done|congruence|congruence|done].
  - destruct (handle_packet_spec st _ env Hcfg Hev Hok) as (st' & -> & [[Hb Hs] Hcur'] & H).
    rewrite bind_Val. exists st'. split; [done|]. rewrite Hcap in H.
    destruct (pe_recv env) as [[|x data]|]; [by subst st'| |by subst st']. cbv zeta in H.
    destruct (packet_spec capacity (ft_flows ft) (pe_snap env) (x :: data) (pe_now env)) as [m' vd].
    destruct H as [Hok' _]. split_and!; simpl; [done|congruence|congruence|congruence].
Qed.

Lemma handle_events_cons st ev evs :
  continues ev →
  handle_events cfg st (ev :: evs) =
  ('(st, k) ← handle_events cfg st [ev]; handle_events cfg st evs).
Proof.
  destruct ev as [r|now|env|]; simpl; [done| | |done]; intros _.
  - by destruct (handle_timer cfg st now).
  - by destruct (handle_packet cfg st env).
Qed.

Lemma handle_events_sim capacity bc evs st ft :
  cfg_ok → Forall event_ok evs → Forall continues evs → sim capacity bc st ft →
  ∃ st', handle_events cfg st evs = Val (st', true) ∧
    sim capacity bc st' (foldl (spec_event capacity bc) ft evs).
Proof.
  intros Hcfg. revert st ft. induction evs as [|ev evs IH]; intros st ft Hev Hc Hsim; [by exists st|].
  apply Forall_cons in Hev as [Hev1 Hev], Hc as [Hc1 Hc].
  destruct (handle_event_sim capacity bc st ft ev Hcfg Hev1 Hc1 Hsim) as (st1 & E & Hsim1).
  rewrite handle_events_cons, E, bind_Val by done. by apply IH.
Qed.

(** The invariant with some flows; what a whole run keeps. *)
Definition dp_inv (capacity : nat) (bc : Z) (st : dp_state) : Prop := ∃ ft, sim capacity bc st ft.

Lemma handle_events_inv capacity bc evs st :
  cfg_ok → Forall event_ok evs → dp_inv capacity bc st →
  ∃ st' keep, handle_events cfg st evs = Val (st', keep) ∧ dp_inv capacity bc st'.
Proof.
  intros Hcfg. revert st. induction evs as [|ev evs IH]; intros st Hev Hinv; [by exists st, true|].
  apply Forall_cons in Hev as [Hev1 Hev]. destruct ev as [r|now|env|] eqn:Eev; [by exists st, (negb r)|..];
    rewrite <- Eev in *;
    (destruct Hinv as [ft Hsim];
     destruct (handle_event_sim capacity bc st ft ev Hcfg Hev1) as (st1 & E & Hsim1); [by rewrite Eev|done|];
     rewrite handle_events_cons, E, bind_Val by (by rewrite Eev); apply IH; [done|by eexists]).
Qed.

(** ** Pinned flows stay pinned *)

(** No packet, of whatever flow and under whatever snapshot, moves a pinned flow. *)
Lemma packet_spec_keeps capacity m snap data now k b t :
  m !! k = Some (b, t) →
  ∃ t', (packet_spec capacity m snap data now).1 !! k = Some (b, t') ∧ (t' = t ∨ t' = now).
Proof.
  intros Hk. unfold packet_spec.
  destruct (packet_extract_flow data) as [[[] [fx|]]| |]; simpl; try (by exists t; auto).
  case_decide; simpl; [by exists t; auto|]. unfold route.
  destruct (decide (key fx = k)) as [<- |Hne].
  - rewrite Hk. simpl. rewrite lookup_insert_eq. eauto.
  - destruct (m !! key fx) as [[id t0]|]; simpl.
    { rewrite lookup_insert_ne by done. eauto. }
    destruct snap as [snap|]; simpl; [|eauto].
    destruct (maglev_table_lookup (s_table snap) (key fx)) as [id| |]; simpl; [|eauto..].
    repeat case_decide; simpl; [eauto..|]. rewrite lookup_insert_ne by done. eauto.
Qed.

Definition packet_times (evs : list event) : list Z :=
  omap (λ ev, match ev with EvRaw env => Some (pe_now env) | _ => None end) evs.

(** No timer of the trace finds flow [k] timed out, whichever of the times [ts]
    it was last seen at. *)
Definition stays_fresh (k : flow_key) (ts : list Z) (ev : event) : Prop :=
  match ev with
  | EvTimer now => ∀ t, t ∈ ts →
      expired now (dc_tcp_timeout_ns cfg) (dc_udp_timeout_ns cfg) (k_proto k) t = false
  | _ => True
  end.

Lemma spec_event_keeps capacity bc ft ev k b t ts :
  ft_flows ft !! k = Some (b, t) → t ∈ ts → packet_times [ev] ⊆ ts → stays_fresh k ts ev →
  ∃ t', ft_flows (spec_event capacity bc ft ev) !! k = Some (b, t') ∧ t' ∈ ts.
Proof.
  intros Hk Ht Hts Hfresh. destruct ev as [r|now|env|]; simpl in *; [by eauto| | |by eauto].
  - exists t. split; [|done]. apply map_lookup_filter_Some. split; [done|].
    unfold swept, conn_expired. simpl. rewrite Hfresh by done. simpl. tauto.
  - destruct (pe_recv env) as [[|x data]|]; simpl; [by eauto| |by eauto].
    destruct (packet_spec_keeps capacity _ (pe_snap env) (x :: data) (pe_now env) k b t Hk)
      as (t' & -> & Hcase). exists t'. split; [done|].
    destruct Hcase as [-> | ->]; [done|]. apply Hts. left.
Qed.

Lemma spec_events_keep capacity bc evs ft k b t ts :
  ft_flows ft !! k = Some (b, t) → t ∈ ts → packet_times evs ⊆ ts → Forall (stays_fresh k ts) evs →
  ∃ t', ft_flows (foldl (spec_event capacity bc) ft evs) !! k = Some (b, t') ∧ t' ∈ ts.
Proof.
  revert ft t. induction evs as [|ev evs IH]; intros ft t Hk Ht Hts Hfresh; [by exists t|].
  apply Forall_cons in Hfresh as [H1 H2].
  assert (packet_times (ev :: evs) = packet_times [ev] ++ packet_times evs) as Ecat.
  { unfold packet_times. simpl. by destruct ev. }
  rewrite Ecat in Hts.
  destruct (spec_event_keeps capacity bc ft ev k b t ts Hk Ht) as (t1 & Hk1 & Ht1);
    [set_solver|done|].
  simpl. apply (IH _ t1); [done..|set_solver|done].
Qed.

(** ** Theorems *)

(** C1. [handle_packet] refines the packet specification for every frame and
    every snapshot: it never leaves a buffer, a parsed frame addressed to the
    VIP goes where [route] says (the pinned backend, else the table's choice,
    unless the table is full), the frame sent is the GRE encapsulation of the
    IP packet received to that backend with a valid header checksum, the tracked
    flows are updated accordingly and exactly the counters of that verdict
    grow. *)
Theorem handle_packet_correct st m env
    (Hcfg : cfg_ok) (Henv : env_ok env) (Hok : dp_ok st m) :
  ∃ st', handle_packet cfg st env = Val st' ∧
    match pe_recv env with
    | Some (x :: data') =>
        let data := x :: data' in
        let '(m', vd) := packet_spec (length (ct_slab (dp_ct st))) m (pe_snap env) data (pe_now env) in
        dp_ok st' m' ∧
        verdict_done st st' data (pe_send env)
          ([(Rx_packets, 1); (Rx_bytes, Z.of_nat (length data))] ++ lookup_bumps m data) vd
    | _ => st' = st
    end.
Proof.
  destruct (handle_packet_spec st m env Hcfg Henv Hok) as (st' & ? & _ & ?). by exists st'.
Qed.

(** C2. A flow sticks to its backend: after any sequence of packets (of any
    flows, each under any snapshot) and of timer ticks that do not find it timed
    out, the next packet of a flow pinned to [b] is sent to [b] as the current
    snapshot resolves it, whatever the current table would choose for the flow;
    if the snapshot does not resolve [b] the packet is dropped, never sent
    elsewhere. *)
Theorem flow_sticks_to_backend st m evs k b t env x data' fx
    (Hcfg : cfg_ok) (Hok : dp_ok st m) (Hpin : m !! k = Some (b, t))
    (Hevs : Forall event_ok evs) (Hcont : Forall continues evs)
    (Hfresh : Forall (stays_fresh k (t :: packet_times evs)) evs)
    (Henv : env_ok env) (Hrecv : pe_recv env = Some (x :: data'))
    (Hparse : packet_extract_flow (x :: data') = Val (PARSE_OK, Some fx))
    (Hkey : key fx = k) (Hvip : k_dst_ip k = dc_vip cfg) :
  ∃ st1 st2, handle_events cfg st evs = Val (st1, true) ∧ handle_packet cfg st1 env = Val st2 ∧
    match pe_snap env ≫= (λ snap, routing_snapshot_find_backend snap b) with
    | Some v =>
        if decide (38 + ip_total_len fx ≤ TX_BUF_LEN)%nat
        then ∃ hi lo, dp_sent st2 = dp_sent st1 ++ [frame_of (x :: data') [hi; lo] fx v]
        else dp_sent st2 = dp_sent st1
    | None => dp_sent st2 = dp_sent st1
    end.
Proof.
  destruct (handle_events_sim (length (ct_slab (dp_ct st))) (ct_bucket_count (dp_ct st)) evs st
    {| ft_flows := m; ft_cursor := ct_sweep_cursor (dp_ct st) |} Hcfg Hevs Hcont)
    as (st1 & E1 & Hok1 & Hcap & _); [done|].
  destruct (spec_events_keep (length (ct_slab (dp_ct st))) (ct_bucket_count (dp_ct st)) evs
    {| ft_flows := m; ft_cursor := ct_sweep_cursor (dp_ct st) |} k b t (t :: packet_times evs))
    as (t' & Hk & _); [done|left|set_solver|done|].
  set (m1 := ft_flows (foldl _ _ _)) in *.
  destruct (handle_packet_spec st1 m1 env Hcfg Henv Hok1) as (st2 & E2 & _ & H).
  exists st1, st2. split; [done|]. split; [done|]. rewrite Hrecv in H. cbv zeta in H.
  unfold packet_spec in H. rewrite Hparse in H. subst k.
  rewrite decide_False in H by tauto. unfold route in H. rewrite Hk in H. destruct H as [_ Hv].
  destruct (pe_snap env) as [snap|]; cbn [mbind option_bind]; [|exact (proj1 Hv)]. unfold resolve in Hv.
  destruct (routing_snapshot_find_backend snap b) as [v|]; [|exact (proj1 Hv)].
  case_decide; [|exact (proj1 Hv)]. destruct Hv as (hi & lo & _ & Hs & _). by exists hi, lo.
Qed.

Lemma event_loop_inv capacity bc waits st :
  cfg_ok → Forall wait_ok waits → dp_inv capacity bc st →
  ∃ st' rc, event_loop cfg st waits = Val (st', rc) ∧ dp_inv capacity bc st'.
Proof.
  intros Hcfg. revert st. induction waits as [|w waits IH]; intros st Hok Hinv; [by exists st, None|].
  apply Forall_cons in Hok as [Hw Hok]. destruct w as [[]|evs]; simpl; [by apply IH|by exists st, (Some (-1))|].
  destruct (handle_events_inv capacity bc evs st Hcfg Hw Hinv) as (st1 & keep & -> & Hinv1).
  rewrite bind_Val. destruct keep; [by apply IH|by exists st1, (Some 0)].
Qed.

(** The gauges are exact: the number of flows fits the counter. *)
Lemma dp_gauge st m id :
  dp_ok st m → 0 ≤ id < sr_max_backends (dp_stats st) →
  ∃ b, stats_registry_snapshot_backend (dp_stats st) id = Val b ∧ active_flows b = Z.of_nat (pinned m id).
Proof.
  intros Hok Hid. destruct (snapshot_backend_Val (dp_stats st) id (dk_stats _ _ Hok)) as (b & Hb & _); [lia|].
  exists b. split; [done|]. rewrite (dk_active _ _ Hok id b Hid Hb).
  destruct (dk_ct _ _ Hok) as (cs & fl & Hinv & Hperm). unfold u64. apply Z.mod_small.
  unfold pinned, pinned_in. rewrite Hperm. pose proof (inv_slab _ _ _ Hinv).
  pose proof (shape_length _ _ _ (inv_shape _ _ _ Hinv)).
  pose proof (length_filter (λ d : conn, d.2.1 = id) (concat cs).*2) as Hle. rewrite length_fmap in Hle. lia.
Qed.

(** C9. The event loop handles every sequence of kernel answers without
    undefined behaviour, and at every point the active-flow gauge of each
    registered backend equals the number of flows the connection table pins to
    it, and the table's own count the number of flows. *)
Theorem event_loop_gauges_exact st m waits
    (Hcfg : cfg_ok) (Hok : dp_ok st m) (Hwaits : Forall wait_ok waits) :
  ∃ st' rc m', event_loop cfg st waits = Val (st', rc) ∧ ct_rep (dp_ct st') m' ∧
    conntrack_active_flows (dp_ct st') = Z.of_nat (size m') ∧
    ∀ id, 0 ≤ id < sr_max_backends (dp_stats st') →
      ∃ b, stats_registry_snapshot_backend (dp_stats st') id = Val b ∧
        active_flows b = Z.of_nat (pinned m' id).
Proof.
  destruct (event_loop_inv (length (ct_slab (dp_ct st))) (ct_bucket_count (dp_ct st)) waits st Hcfg Hwaits)
    as (st' & rc & E & ft & Hok' & _).
  { by exists {| ft_flows := m; ft_cursor := ct_sweep_cursor (dp_ct st) |}. }
  exists st', rc, (ft_flows ft). split_and!; [done|apply Hok'|apply rep_active, Hok'|].
  intros id Hid. by apply (dp_gauge st').
Qed.

(** ** Where packets may go *)

Lemma serves_snap_ok bm snap :
  bm_wf bm → Forall (λ b, length (b_mac b) = 6%nat) (live bm) → serves bm snap → snap_ok snap.
Proof.
  intros (Hok & Hn & _) Hmacs Hsv. split.
  - intros k. destruct (sv_lookup _ _ Hsv k) as (id & Hid & Hcase). exists id. split; [done|].
    destruct Hcase as [[_ ->]|(b & [i Hi]%elem_of_live & _ & <- & Hf)]; [by left|right].
    pose proof (ok_ids _ Hok _ _ Hi). split; [lia|]. by eexists.
  - intros id v Hv. destruct (sv_resolved _ _ Hsv id v Hv) as (b & Hb & _ & _ & ->).
    rewrite Forall_forall in Hmacs. by apply Hmacs.
Qed.

Lemma forwarded_serving bm snap capacity m data now m' fx id v
    (Hsv : serves bm snap)
    (Hfwd : packet_spec capacity m (Some snap) data now = (m', Forwarded fx id v)) :
  ∃ b, b ∈ live bm ∧ b_id b = id ∧ v = copy_view b ∧ routable b ∧
    packet_extract_flow data = Val (PARSE_OK, Some fx) ∧
    (m !! key fx = None → eligible b).
Proof.
  unfold packet_spec in Hfwd. destruct (packet_extract_flow data) as [[[] [fx0|]]| |]; try discriminate Hfwd.
  case_decide; [discriminate Hfwd|]. unfold route, resolve in Hfwd.
  destruct (m !! key fx0) as [[id0 t0]|] eqn:Hm.
  - destruct (routing_snapshot_find_backend snap id0) as [v0|] eqn:Hf; [|discriminate Hfwd].
    case_decide; [|discriminate Hfwd]. injection Hfwd as <- <- <- <-.
    destruct (sv_resolved _ _ Hsv id0 v0 Hf) as (b & Hb & Hr & Hid & Hv).
    exists b. rewrite Hm. by split_and!.
  - destruct (sv_lookup _ _ Hsv (key fx0)) as (id0 & Hl & Hcase). rewrite Hl in Hfwd.
    case_decide; [discriminate Hfwd|]. case_decide; [discriminate Hfwd|].
    destruct Hcase as [[_ ->]|(b & Hb & He & Hid & Hf)]; [lia|]. rewrite Hf in Hfwd.
    case_decide; [|discriminate Hfwd]. injection Hfwd as <- <- <- <-.
    exists b. split_and!; try done. by apply eligible_routable.
Qed.

(** A packet is only ever sent to a backend that was healthy, resolved and
    not disabled when the snapshot was built, and the first packet of a flow only
    to one that was also enabled, so never to a draining backend. *)
Theorem forwarded_only_to_serving_backends bm snap st m env x data'
    (Hcfg : cfg_ok) (Henv : env_ok env) (Hok : dp_ok st m) (Hsv : serves bm snap)
    (Hsnap : pe_snap env = Some snap) (Hrecv : pe_recv env = Some (x :: data')) :
  ∃ st', handle_packet cfg st env = Val st' ∧
    (dp_sent st' = dp_sent st ∨
     ∃ fx b hi lo, packet_extract_flow (x :: data') = Val (PARSE_OK, Some fx) ∧
       b ∈ live bm ∧ routable b ∧ (m !! key fx = None → eligible b) ∧
       dp_sent st' = dp_sent st ++ [frame_of (x :: data') [hi; lo] fx (copy_view b)]).
Proof.
  destruct (handle_packet_spec st m env Hcfg Henv Hok) as (st' & E & _ & H). exists st'. split; [done|].
  rewrite Hrecv, Hsnap in H. cbv zeta in H.
  destruct (packet_spec _ m (Some snap) (x :: data') (pe_now env)) as [m' vd] eqn:Es.
  destruct H as [_ Hv]. destruct vd as [|c|fx id v]; [left; exact (proj1 Hv)..|right].
  destruct Hv as (hi & lo & _ & Hs & _).
  destruct (forwarded_serving _ _ _ _ _ _ _ _ _ _ Hsv Es) as (b & Hb & _ & -> & Hr & Hp & He).
  exists fx, b, hi, lo. by split_and!.
Qed.

(** ** The reaper's schedule *)

(** The ticks of a trace, each of the size the datapath configures. *)
Definition full_tick (ct : conntrack_table) (op : ct_op) : bool :=
  match op with OpTick _ _ _ n => bool_decide (n = reaper_buckets_per_tick ct) | _ => false end.

Definition full_ticks (ct : conntrack_table) (ops : list ct_op) : nat := length (filter (full_tick ct) ops).

Lemma full_ticks_swept ct ops :
  0 < ct_bucket_count ct < 2 ^ 64 - 60 → Forall op_ok ops →
  Z.of_nat (full_ticks ct ops) * Z.min (ct_bucket_count ct / 60 + 1) (ct_bucket_count ct) ≤
  total_swept (ct_bucket_count ct) ops.
Proof.
  intros Hbc. assert (0 ≤ ct_bucket_count ct / 60 < ct_bucket_count ct) as Hd.
  { split; [apply Z.div_pos; lia|apply Z.div_lt; lia]. }
  assert (reaper_buckets_per_tick ct = ct_bucket_count ct / 60 + 1) as Er by (apply Z.mod_small; lia).
  induction 1 as [|op ops Hop _ IH]; [cbn; lia|].
  rewrite total_swept_cons. unfold full_ticks in *. rewrite filter_cons.
  destruct op as [k b now|now tcp udp n]; simpl in Hop |- *; [lia|].
  case_decide as En; [|lia]. apply bool_decide_spec in En. simpl length. rewrite Nat2Z.inj_succ, En, Er. lia.
Qed.

(** Sixty ticks of the size the datapath configures sweep the whole table:
    a flow that stays idle, and is timed out at each of them, is no longer
    tracked afterwards. *)
Theorem sixty_ticks_reap_idle_flow ct m ops k b t now
    (Hrep : ct_rep ct m) (Hkey : key_ok k) (Htracked : m !! k = Some (b, t))
    (Hops : Forall op_ok ops) (Hidle : Forall (idle k t) ops) (Hticks : (60 ≤ full_ticks ct ops)%nat) :
  ∃ ct', run_ops ct ops = Val ct' ∧ conntrack_lookup ct' k now = Val (ct', None).
Proof.
  pose proof Hrep as (cs & fl & Hinv & Hm).
  destruct (run_ops_refines (length (ct_slab ct)) (ct_bucket_count ct) ops ct
    {| ft_flows := m; ft_cursor := ct_sweep_cursor ct |}) as (ct' & Hrun & Hrep' & _); [by split_and!|done|].
  destruct (inv_pow2 _ _ _ Hinv) as (e & He & Epow). pose proof (inv_cursor _ _ _ Hinv).
  assert (2 ^ e ≤ 2 ^ 63) by (apply Z.pow_le_mono_r; lia).
  exists ct'. split; [done|]. pose proof (lookup_rep ct' _ k now Hrep' Hkey) as Hl.
  rewrite (idle_flow_gone _ _ ops _ k b t) in Hl; [done|lia|done|done|]. right. split; [done|].
  pose proof (full_ticks_swept ct ops ltac:(lia) Hops) as Hs. eapply Z.lt_le_trans; [|exact Hs].
  eapply Z.lt_le_trans; [apply Z.mod_pos_bound; lia|].
  pose proof (Z.div_mod (ct_bucket_count ct) 60 ltac:(lia)).
  pose proof (Z.mod_pos_bound (ct_bucket_count ct) 60 ltac:(lia)). nia.
Qed.
End Invariant.

(** ** Witnesses *)

Definition sample_cfg : datapath_config :=
  {| dc_vip := 1677746954; dc_director_ip := 16802570; dc_ttl := 64; dc_tcp_timeout_ns := 5000;
     dc_udp_timeout_ns := 3000; dc_own_mac := [2; 0; 0; 0; 0; 1]; dc_buckets_per_tick := 1 |}.

Lemma sample_cfg_ok : cfg_ok sample_cfg.
Proof. split; [done|]. split; [unfold byte_ok; simpl; lia|simpl; lia]. Qed.

(** A snapshot over the backends 0 and 1 of [sample_bm4]. *)
Definition sample_snap : routing_snapshot := Eval vm_compute in
  match routing_snapshot_create (xx := sample_hash) (λ _, true)
    (copy_views (filter routable (live sample_bm4))) (copy_views (filter eligible (live sample_bm4))) 13 1 with
  | Val (Some snap) => snap
  | _ => {| s_table := {| t_m := 0; t_lookup := [] |}; s_backends := []; s_generation := 0 |}
  end.

Lemma sample_bm4_wf : bm_wf sample_bm4.
Proof. apply (so_bm _ sample_sys_ok). Qed.

Lemma sample_snap_serves : serves (xx := sample_hash) sample_bm4 sample_snap.
Proof.
  apply (snapshot_serves (xx := sample_hash) sample_bm4 (λ _, true) 13 1 sample_snap prime_13 ltac:(lia)
    sample_bm4_wf). by vm_compute.
Qed.

Lemma sample_snap_ok : snap_ok (xx := sample_hash) sample_snap.
Proof.
  apply (serves_snap_ok (xx := sample_hash) sample_bm4); [apply sample_bm4_wf| |apply sample_snap_serves].
  apply (bool_decide_unpack _). by vm_compute.
Qed.

(** The flow of [sample_udp_frame] pinned to backend 1 at time 1000. *)
Definition sample_pinned : conntrack_table := Eval vm_compute in
  match run_ops (xx := sample_hash) sample_ct [OpPacket (sample_flow 16540) 1 1000] with
  | Val ct => ct
  | _ => sample_ct
  end.

Definition sample_flows : flows := {[ sample_flow 16540 := (1, 1000) ]}.

Lemma sample_pinned_rep : ct_rep (xx := sample_hash) sample_pinned sample_flows.
Proof.
  destruct (run_ops_refines (xx := sample_hash) 4 8 [OpPacket (sample_flow 16540) 1 1000] sample_ct
    {| ft_flows := ∅; ft_cursor := 0 |}) as (ct' & E & H & _).
  - by split; [apply sample_ct_rep|].
  - constructor; [by apply sample_flow_ok|constructor].
  - assert (run_ops (xx := sample_hash) sample_ct [OpPacket (sample_flow 16540) 1 1000] =
      Val sample_pinned) as E1 by by vm_compute.
    rewrite E1 in E. injection E as <-. exact H.
Qed.

Definition sample_dp_stats : lb_stats :=
  {| sr_global := zero_global;
     sr_backends := Some [zero_backend;
       {| packets := 3; bytes := 300; active_flows := 1; flows_assigned := 4; health_check_failures := 0 |}];
     sr_max_backends := 2 |}.

Definition sample_dp : dp_state :=
  {| dp_ct := sample_pinned; dp_stats := sample_dp_stats; dp_rx_buf := replicate RX_BUF_LEN 0;
     dp_tx_buf := replicate TX_BUF_LEN 0; dp_sent := [] |}.

Lemma sample_dp_ok : dp_ok (xx := sample_hash) sample_dp sample_flows.
Proof.
  split.
  - apply sample_pinned_rep.
  - split; [done|]. split; [done|]. repeat constructor; simpl; lia.
  - intros id b Hid. assert (id = 0 ∨ id = 1) as [-> | ->] by (simpl in Hid; lia); intros [= <-]; by vm_compute.
  - simpl. lia.
  - unfold sample_flows. intros k b t [<- [= <- <-]]%lookup_singleton_Some. lia.
  - apply length_replicate.
  - apply length_replicate.
Qed.

Definition sample_env (frame : list Z) (now : Z) : packet_env :=
  {| pe_recv := Some frame; pe_now := now; pe_snap := Some sample_snap; pe_send := λ f, Z.of_nat (length f) |}.

Lemma sample_env_ok frame now :
  bytes_ok frame → (length frame ≤ RX_BUF_LEN)%nat → env_ok (xx := sample_hash) (sample_env frame now).
Proof.
  intros Hb Hl. split; [by intros data [= <-]|]. intros snap [= <-]. apply sample_snap_ok.
Qed.

Lemma sample_udp_frame_ok : bytes_ok sample_udp_frame ∧ (length sample_udp_frame ≤ RX_BUF_LEN)%nat.
Proof. split; [unfold sample_udp_frame; solve_bytes|unfold RX_BUF_LEN; simpl; lia]. Qed.

Definition sample_fx : flow_extract_result :=
  {| key := sample_flow 16540; ip_offset := 14; ip_total_len := 30 |}.

Lemma sample_extract : packet_extract_flow sample_udp_frame = Val (PARSE_OK, Some sample_fx).
Proof. by vm_compute. Qed.

Lemma sample_resolves : routing_snapshot_find_backend sample_snap 1 = Some (copy_view sample_backend).
Proof. by vm_compute. Qed.

Lemma sample_packet_spec now :
  packet_spec (xx := sample_hash) sample_cfg 4 sample_flows (Some sample_snap) sample_udp_frame now =
  (<[sample_flow 16540 := (1, now)]> sample_flows, Forwarded sample_fx 1 (copy_view sample_backend)).
Proof.
  unfold packet_spec. rewrite sample_extract. rewrite decide_False by (by intros []).
  unfold route. change (key sample_fx) with (sample_flow 16540). unfold sample_flows at 1.
  rewrite lookup_singleton_eq. unfold resolve. rewrite sample_resolves.
  rewrite decide_True; [done|]. unfold TX_BUF_LEN. simpl ip_total_len. lia.
Qed.

(** The packet of the pinned flow is sent, encapsulated, to backend 1. *)
Lemma handle_packet_correct_witness :
  ∃ st' hi lo, handle_packet (xx := sample_hash) sample_cfg sample_dp (sample_env sample_udp_frame 2000) = Val st' ∧
    dp_sent st' = [frame_of sample_cfg sample_udp_frame [hi; lo] sample_fx (copy_view sample_backend)] ∧
    dp_ok (xx := sample_hash) st' (<[sample_flow 16540 := (1, 2000)]> sample_flows).
Proof.
  destruct (handle_packet_correct (xx := sample_hash) sample_cfg sample_dp sample_flows
    (sample_env sample_udp_frame 2000) sample_cfg_ok) as (st' & E & H);
    [by apply sample_env_ok; apply sample_udp_frame_ok|apply sample_dp_ok|].
  cbn [pe_recv sample_env pe_snap pe_now] in H.
  change (let '(m', vd) := packet_spec (xx := sample_hash) sample_cfg 4 sample_flows (Some sample_snap)
    sample_udp_frame 2000 in dp_ok (xx := sample_hash) st' m' ∧ verdict_done sample_cfg sample_dp st'
    sample_udp_frame (λ f, Z.of_nat (length f))
    ([(Rx_packets, 1); (Rx_bytes, Z.of_nat (length sample_udp_frame))] ++
     lookup_bumps sample_cfg sample_flows sample_udp_frame) vd) in H.
  rewrite sample_packet_spec in H. destruct H as [Hok (hi & lo & _ & Hs & _)].
  exists st', hi, lo. split; [exact E|]. split; [exact Hs|exact Hok].
Defined.

Lemma sample_events_ok now now' :
  Forall (event_ok (xx := sample_hash)) [EvRaw (sample_env sample_udp_frame now); EvTimer now'].
Proof.
  apply Forall_cons. split; [apply sample_env_ok; apply sample_udp_frame_ok|].
  apply Forall_cons. split; [done|]. apply Forall_nil. done.
Qed.

(** A packet, a tick that finds the flow fresh, and the next packet. *)
Lemma flow_sticks_to_backend_witness :
  ∃ st1 st2 hi lo,
    handle_events (xx := sample_hash) sample_cfg sample_dp
      [EvRaw (sample_env sample_udp_frame 2000); EvTimer 2500] = Val (st1, true) ∧
    handle_packet (xx := sample_hash) sample_cfg st1 (sample_env sample_udp_frame 2600) = Val st2 ∧
    dp_sent st2 = dp_sent st1 ++
      [frame_of sample_cfg sample_udp_frame [hi; lo] sample_fx (copy_view sample_backend)].
Proof.
  destruct (flow_sticks_to_backend (xx := sample_hash) sample_cfg sample_dp sample_flows
    [EvRaw (sample_env sample_udp_frame 2000); EvTimer 2500] (sample_flow 16540) 1 1000
    (sample_env sample_udp_frame 2600) 2 (drop 1 sample_udp_frame) sample_fx sample_cfg_ok sample_dp_ok)
    as (st1 & st2 & E1 & E2 & H).
  - apply lookup_singleton_eq.
  - apply sample_events_ok.
  - by repeat (apply Forall_cons; split); [..|apply Forall_nil].
  - apply Forall_cons. split; [done|]. apply Forall_cons. split; [|by apply Forall_nil]. intros t Ht. simpl in Ht.
    apply elem_of_cons in Ht as [-> |Ht]; [by vm_compute|].
    apply list_elem_of_singleton in Ht as ->. by vm_compute.
  - apply sample_env_ok; apply sample_udp_frame_ok.
  - reflexivity.
  - apply sample_extract.
  - reflexivity.
  - reflexivity.
  - cbn [pe_snap sample_env mbind option_bind] in H. rewrite sample_resolves in H.
    rewrite decide_True in H by (unfold TX_BUF_LEN; simpl ip_total_len; lia).
    destruct H as (hi & lo & Hs). exists st1, st2, hi, lo. split_and!; [exact E1|exact E2|exact Hs].
Defined.

Lemma event_loop_gauges_exact_witness :
  ∃ st' rc m', event_loop (xx := sample_hash) sample_cfg sample_dp
      [WaitError true; WaitEvents [EvRaw (sample_env sample_udp_frame 2000); EvTimer 9000];
       WaitEvents [EvSignal true]] = Val (st', rc) ∧
    ct_rep (xx := sample_hash) (dp_ct st') m' ∧
    ∃ b, stats_registry_snapshot_backend (dp_stats st') 1 = Val b ∧ active_flows b = Z.of_nat (pinned m' 1).
Proof.
  destruct (event_loop_gauges_exact (xx := sample_hash) sample_cfg sample_dp sample_flows
    [WaitError true; WaitEvents [EvRaw (sample_env sample_udp_frame 2000); EvTimer 9000];
     WaitEvents [EvSignal true]] sample_cfg_ok sample_dp_ok) as (st' & rc & m' & E & Hrep & _ & H).
  - apply Forall_cons. split; [done|]. apply Forall_cons. split; [apply sample_events_ok|].
    apply Forall_cons. split; [by apply Forall_cons; split; [|apply Forall_nil]|by apply Forall_nil].
  - exists st', rc, m'. split; [exact E|]. split; [exact Hrep|]. apply H.
    enough (sr_max_backends (dp_stats st') = 2) as -> by lia.
    enough (∀ s, Val (s, rc) = event_loop (xx := sample_hash) sample_cfg sample_dp
      [WaitError true; WaitEvents [EvRaw (sample_env sample_udp_frame 2000); EvTimer 9000];
       WaitEvents [EvSignal true]] → sr_max_backends (dp_stats s) = 2) as Hm by (by apply Hm).
    intros s Es. vm_compute in Es. injection Es as -> _. reflexivity.
Defined.

Lemma forwarded_only_to_serving_backends_witness :
  ∃ st', handle_packet (xx := sample_hash) sample_cfg sample_dp (sample_env sample_udp_frame 2000) = Val st' ∧
    (dp_sent st' = [] ∨
     ∃ fx b hi lo, b ∈ live sample_bm4 ∧ routable b ∧
       dp_sent st' = [frame_of sample_cfg sample_udp_frame [hi; lo] fx (copy_view b)]).
Proof.
  destruct (forwarded_only_to_serving_backends (xx := sample_hash) sample_cfg sample_bm4 sample_snap sample_dp
    sample_flows (sample_env sample_udp_frame 2000) 2 (drop 1 sample_udp_frame) sample_cfg_ok)
    as (st' & E & H); [apply sample_env_ok; apply sample_udp_frame_ok|apply sample_dp_ok|
      apply sample_snap_serves|reflexivity|reflexivity|].
  exists st'. split; [exact E|]. destruct H as [H|(fx & b & hi & lo & _ & Hb & Hr & _ & Hs)]; [left; exact H|right].
  exists fx, b, hi, lo. split_and!; [exact Hb|exact Hr|exact Hs].
Defined.

Lemma sixty_ticks_reap_idle_flow_witness :
  ∃ ct', run_ops (xx := sample_hash) sample_pinned (replicate 60 (OpTick 10000 5000 3000 1)) = Val ct' ∧
    conntrack_lookup (xx := sample_hash) ct' (sample_flow 16540) 10001 = Val (ct', None).
Proof.
  apply (sixty_ticks_reap_idle_flow (xx := sample_hash) sample_pinned sample_flows
    (replicate 60 (OpTick 10000 5000 3000 1)) (sample_flow 16540) 1 1000 10001 sample_pinned_rep).
  - by apply sample_flow_ok.
  - apply lookup_singleton_eq.
  - by apply Forall_replicate.
  - apply Forall_replicate. by vm_compute.
  - by vm_compute.
Defined.
