(* ===== verification/HealthChecker.v ===== *)
(** * The health checker thread

    [src/src/backend/health_checker.c]: rounds of concurrent TCP connects, rise
    and fall counters per backend, and the admin FIFO with its DRAIN and UNDRAIN
    commands.

    The system calls are oracles: what [socket], [connect], [epoll_ctl],
    [clock_gettime], [epoll_wait], [getsockopt] and [read] return is an input of
    the functions that call them.  The descriptors opened for probes are tracked
    in a set, so that leaks and double closes are visible.  The backend manager
    and whatever its subscriber owns is a state of the [ChangeListener]
    interface. *)

From Stdlib Require Import Lia String.
From stdpp Require Import base numbers list gmap.
From S2P Require Import Prelude Net Hash Text Kernel Maglev Stats BackendManager TableGenerator.

Local Open Scope Z_scope.

Definition HC_ADMIN_LINE_MAX : nat := 128.

Record probe_state := {
  ps_backend_id : Z;
  consecutive_ok : Z;
  consecutive_fail : Z;
  in_use : bool;
}.

Record health_check_cfg := {
  interval_ms : Z;
  timeout_ms : Z;
  rise : Z;
  fall : Z;
  hc_admin_fifo : list Z;
}.

Definition unused_state : probe_state :=
  {| ps_backend_id := 0; consecutive_ok := 0; consecutive_fail := 0; in_use := false |}.

(** ** Connecting *)

(** What the calls made for one probe return: [socket], [connect] with [errno]
    as functions of the address, and [epoll_ctl]. *)
Record probe_env := {
  pe_socket : Z;
  pe_connect : sockaddr_in → Z * Z;
  pe_ctl : Z;
}.

Definition start_connect (e : probe_env) (open : fds) (addr port : Z) : out (fds * Z) :=
  let fd := pe_socket e in
  if decide (fd < 0) then Val (open, -1)
  else
    let open := {[fd]} ∪ open in
    let sa := {| sin_family := AF_INET; sin_port := htons port; sin_addr := addr |} in
    let '(r, errno) := pe_connect e sa in
    if decide (r = 0 ∨ errno = EINPROGRESS) then Val (open, fd)
    else open ← close_fd open fd; Val (open, -1).

(** ** Rise and fall counters *)

(** [for (size_t i = 0; i < BACKEND_MAX; i++)], [n] iterations left: the index
    of the state of [backend_id], or the first free slot. *)
Fixpoint scan_states (n i : nat) (states : list probe_state) (backend_id : Z)
    (free_slot : option nat) : out (nat + option nat) :=
  match n with
  | O => Val (inr free_slot)
  | S n =>
      st ← rd states i;
      if in_use st && bool_decide (ps_backend_id st = backend_id) then Val (inl i)
      else scan_states n (S i) states backend_id
             (if negb (in_use st) && bool_decide (free_slot = None) then Some i else free_slot)
  end.

Definition find_or_create_state (states : list probe_state) (backend_id : Z) :
    out (list probe_state * option nat) :=
  r ← scan_states BACKEND_MAX 0 states backend_id None;
  match r with
  | inl i => Val (states, Some i)
  | inr None => Val (states, None)
  | inr (Some i) =>
      states ← wr states i {| ps_backend_id := backend_id; consecutive_ok := 0;
                              consecutive_fail := 0; in_use := true |};
      Val (states, Some i)
  end.

(** What the result of a probe and an admin command act on: [hc->cfg],
    [hc->states], the structures behind [hc->bm] and, unless NULL, behind
    [hc->stats]. *)
Record hc_core (St : Type) := {
  hc_cfg : health_check_cfg;
  hc_states : list probe_state;
  hc_bm : St;
  hc_stats : option lb_stats;
}.
Arguments Build_hc_core {St}.
Arguments hc_cfg {St}.
Arguments hc_states {St}.
Arguments hc_bm {St}.
Arguments hc_stats {St}.

(** [struct health_checker] with what its pointers refer to; [pthread_t] is left
    to the operating system. *)
Record health_checker (St : Type) := {
  hc_core_of : hc_core St;
  hc_wake_fd : Z;
  hc_admin_fifo_fd : Z;
  hc_admin_buf : list Z;
  hc_admin_buf_len : nat;
  hc_running : bool;
  hc_stop_requested : bool;
}.
Arguments Build_health_checker {St}.
Arguments hc_core_of {St}.
Arguments hc_wake_fd {St}.
Arguments hc_admin_fifo_fd {St}.
Arguments hc_admin_buf {St}.
Arguments hc_admin_buf_len {St}.
Arguments hc_running {St}.
Arguments hc_stop_requested {St}.

(** ** Waiting *)

(** One entry of the array [epoll_wait] fills, with what handling it will
    observe: the bytes each [read] of the FIFO delivers, the [SO_ERROR] of
    probe [i]. *)
Inductive hc_event :=
  | Ev_wake
  | Ev_admin (reads : list (list Z))
  | Ev_probe (i : nat) (err : Z).

Inductive hc_wait :=
  | Wait_eintr
  | Wait_error
  | Wait_events (evs : list hc_event).

Definition now_ms (tv_sec tv_nsec : Z) : Z := u64 (u64 (tv_sec * 1000) + tv_nsec / 1000000).

Section Thread.
Context {St : Type} `{L : ChangeListener St}.
Implicit Types (c : hc_core St) (hc : health_checker St).

Definition set_states (states : list probe_state) c : hc_core St :=
  {| hc_cfg := hc_cfg c; hc_states := states; hc_bm := hc_bm c; hc_stats := hc_stats c |}.
Definition set_hc_bm (bm : St) c : hc_core St :=
  {| hc_cfg := hc_cfg c; hc_states := hc_states c; hc_bm := bm; hc_stats := hc_stats c |}.
Definition set_hc_stats (stats : option lb_stats) c : hc_core St :=
  {| hc_cfg := hc_cfg c; hc_states := hc_states c; hc_bm := hc_bm c; hc_stats := stats |}.
Definition set_core c hc : health_checker St :=
  {| hc_core_of := c; hc_wake_fd := hc_wake_fd hc; hc_admin_fifo_fd := hc_admin_fifo_fd hc;
     hc_admin_buf := hc_admin_buf hc; hc_admin_buf_len := hc_admin_buf_len hc;
     hc_running := hc_running hc; hc_stop_requested := hc_stop_requested hc |}.
Definition set_admin_buf (buf : list Z) (len : nat) hc : health_checker St :=
  {| hc_core_of := hc_core_of hc; hc_wake_fd := hc_wake_fd hc;
     hc_admin_fifo_fd := hc_admin_fifo_fd hc; hc_admin_buf := buf; hc_admin_buf_len := len;
     hc_running := hc_running hc; hc_stop_requested := hc_stop_requested hc |}.

(** NULL when [calloc] or [eventfd] fails; [fifo_fd] is the result of [open],
    attempted only if a path is configured. *)
Definition health_checker_create (calloc_ok : bool) (wake_fd fifo_fd : Z) (bm : St)
    (cfg : health_check_cfg) (stats : option lb_stats) : out (option (health_checker St)) :=
  if negb calloc_ok then Val None
  else if decide (wake_fd < 0) then Val None
  else
    c0 ← rd (hc_admin_fifo cfg) 0;
    Val (Some {| hc_core_of := {| hc_cfg := cfg; hc_states := replicate BACKEND_MAX unused_state;
                                  hc_bm := bm; hc_stats := stats |};
                 hc_wake_fd := wake_fd;
                 hc_admin_fifo_fd := if decide (c0 ≠ 0) then fifo_fd else -1;
                 hc_admin_buf := replicate HC_ADMIN_LINE_MAX 0; hc_admin_buf_len := 0;
                 hc_running := false; hc_stop_requested := false |}).

Definition put_state c (i : nat) (st : probe_state) : out (hc_core St) :=
  states ← wr (hc_states c) i st; Val (set_states states c).

(** [backend_manager_set_health] at the threshold; its result only selects a log
    line. *)
Definition flip c (backend_id : Z) (healthy : bool) : out (hc_core St) :=
  '(bm, _) ← backend_manager_set_health (hc_bm c) backend_id healthy; Val (set_hc_bm bm c).

Definition record_result c (backend_id : Z) (ok : bool) : out (hc_core St) :=
  '(states, slot) ← find_or_create_state (hc_states c) backend_id;
  let c := set_states states c in
  match slot with
  | None => Val c
  | Some i =>
      st ← rd (hc_states c) i;
      if ok then
        if decide (consecutive_ok st < rise (hc_cfg c)) then
          let n := u32 (consecutive_ok st + 1) in
          c ← put_state c i {| ps_backend_id := ps_backend_id st; consecutive_ok := n;
                               consecutive_fail := 0; in_use := in_use st |};
          if decide (n = rise (hc_cfg c)) then flip c backend_id true else Val c
        else put_state c i {| ps_backend_id := ps_backend_id st; consecutive_ok := consecutive_ok st;
                              consecutive_fail := 0; in_use := in_use st |}
      else
        c ← match hc_stats c with
            | None => Val c
            | Some stats =>
                stats ← stats_backend_health_check_failed stats backend_id;
                Val (set_hc_stats (Some stats) c)
            end;
        if decide (consecutive_fail st < fall (hc_cfg c)) then
          let n := u32 (consecutive_fail st + 1) in
          c ← put_state c i {| ps_backend_id := ps_backend_id st; consecutive_ok := 0;
                               consecutive_fail := n; in_use := in_use st |};
          if decide (n = fall (hc_cfg c)) then flip c backend_id false else Val c
        else put_state c i {| ps_backend_id := ps_backend_id st; consecutive_ok := 0;
                              consecutive_fail := consecutive_fail st; in_use := in_use st |}
  end.

(** ** The admin FIFO *)

Definition handle_admin_line c (line : list Z) : out (hc_core St) :=
  match sscanf_15s_lu line with
  | None => Val c
  | Some (verb, id) =>
      let apply state :=
        '(bm, _) ← backend_manager_set_admin_state (hc_bm c) (u32 id) state;
        Val (set_hc_bm bm c) in
      if decide (verb = text "DRAIN") then apply BACKEND_DRAINING
      else if decide (verb = text "UNDRAIN") then apply BACKEND_ENABLED
      else Val c
  end.

(** One byte of the inner loop of [process_admin_fifo]. *)
Definition admin_byte hc (b : Z) : out (health_checker St) :=
  let len := hc_admin_buf_len hc in
  if decide (b = 10) then
    buf ← wr (hc_admin_buf hc) len 0;
    let hc := set_admin_buf buf len hc in
    hc ← (if decide (0 < len)%nat then
            line ← c_string (hc_admin_buf hc);
            c ← handle_admin_line (hc_core_of hc) line;
            Val (set_core c hc)
          else Val hc);
    Val (set_admin_buf (hc_admin_buf hc) 0 hc)
  else if decide (len + 1 < HC_ADMIN_LINE_MAX)%nat then
    buf ← wr (hc_admin_buf hc) len b;
    Val (set_admin_buf buf (S len) hc)
  else Val (set_admin_buf (hc_admin_buf hc) 0 hc).

Fixpoint admin_bytes hc (bs : list Z) : out (health_checker St) :=
  match bs with
  | [] => Val hc
  | b :: bs => hc ← admin_byte hc b; admin_bytes hc bs
  end.

(** [reads] are the results of the [read] calls that return a positive count,
    at most [sizeof(buf)] = 128 bytes each. *)
Fixpoint process_admin_fifo hc (reads : list (list Z)) : out (health_checker St) :=
  match reads with
  | [] => Val hc
  | bs :: reads => hc ← admin_bytes hc bs; process_admin_fifo hc reads
  end.

(** ** A probe round *)

(** The locals of [run_probe_round]; the arrays are indexed up to the backend
    being connected. *)
Record round := {
  r_open : fds;
  r_socks : list Z;
  r_done : list bool;
  r_pending : Z;
}.

(** A probe that failed at once: its result is already recorded. *)
Definition skip_probe (open : fds) (sock : Z) (r : round) : round :=
  {| r_open := open; r_socks := r_socks r ++ [sock]; r_done := r_done r ++ [true];
     r_pending := r_pending r |}.

(** The first loop, from backend [i] on. *)
Fixpoint connect_all hc (env : nat → probe_env) (i : nat) (bs : list backend) (r : round) :
    out (health_checker St * round) :=
  match bs with
  | [] => Val (hc, r)
  | b :: bs =>
      '(open, sock) ← start_connect (env i) (r_open r) (b_addr b) (b_port b);
      if decide (sock < 0) then
        c ← record_result (hc_core_of hc) (b_id b) false;
        connect_all (set_core c hc) env (S i) bs (skip_probe open sock r)
      else if decide (pe_ctl (env i) ≠ 0) then
        open ← close_fd open sock;
        c ← record_result (hc_core_of hc) (b_id b) false;
        connect_all (set_core c hc) env (S i) bs (skip_probe open sock r)
      else
        connect_all hc env (S i) bs
          {| r_open := open; r_socks := r_socks r ++ [sock]; r_done := r_done r ++ [false];
             r_pending := u64 (r_pending r + 1) |}
  end.

(** The events of one [epoll_wait]; the flag is [aborted]. *)
Fixpoint round_events hc (bs : list backend) (evs : list hc_event) (r : round) :
    out (health_checker St * round * bool) :=
  match evs with
  | [] => Val (hc, r, false)
  | Ev_wake :: _ => Val (hc, r, true)
  | Ev_admin reads :: evs => hc ← process_admin_fifo hc reads; round_events hc bs evs r
  | Ev_probe i err :: evs =>
      sock ← rd (r_socks r) i;
      open ← close_fd (r_open r) sock;
      done ← wr (r_done r) i true;
      b ← rd bs i;
      c ← record_result (hc_core_of hc) (b_id b) (bool_decide (err = 0));
      round_events (set_core c hc) bs evs
        {| r_open := open; r_socks := r_socks r; r_done := done; r_pending := u64 (r_pending r - 1) |}
  end.

(** The waiting loop; each entry of [waits] is the clock at the top of an
    iteration and the outcome of its [epoll_wait]. *)
Fixpoint round_wait hc (bs : list backend) (deadline : Z) (waits : list (Z * hc_wait)) (r : round) :
    out (health_checker St * round * bool) :=
  if decide (r_pending r = 0) then Val (hc, r, false)
  else
    match waits with
    | [] => NoFuel
    | (now, w) :: waits =>
        if decide (s64 deadline - s64 now ≤ 0) then Val (hc, r, false)
        else
          match w with
          | Wait_eintr => round_wait hc bs deadline waits r
          | Wait_error => Val (hc, r, false)
          | Wait_events evs =>
              '(hc, r, aborted) ← round_events hc bs evs r;
              if aborted : bool then Val (hc, r, true) else round_wait hc bs deadline waits r
          end
    end.

(** The last loop: [bs], [socks] and [done] from the current index on. *)
Fixpoint close_rest hc (aborted : bool) (bs : list backend) (socks : list Z) (done : list bool)
    (open : fds) : out (health_checker St * fds) :=
  match bs with
  | [] => Val (hc, open)
  | b :: bs =>
      match socks, done with
      | sock :: socks, d :: done =>
          if negb d then
            open ← close_fd open sock;
            hc ← (if negb aborted then
                    c ← record_result (hc_core_of hc) (b_id b) false; Val (set_core c hc)
                  else Val hc);
            close_rest hc aborted bs socks done open
          else close_rest hc aborted bs socks done open
      | _, _ => Undef
      end
  end.

(** [now] is the clock read that sets the deadline.  The result says whether the
    round was aborted. *)
Definition run_probe_round hc (env : nat → probe_env) (now : Z) (waits : list (Z * hc_wait))
    (open : fds) : out (health_checker St * fds * bool) :=
  bs ← backend_manager_snapshot_all (get_bm (hc_bm (hc_core_of hc))) BACKEND_MAX;
  match bs with
  | [] => Val (hc, open, false)
  | _ =>
      '(hc, r) ← connect_all hc env 0 bs {| r_open := open; r_socks := []; r_done := []; r_pending := 0 |};
      let deadline := u64 (now + timeout_ms (hc_cfg (hc_core_of hc))) in
      '(hc, r, aborted) ← round_wait hc bs deadline waits r;
      '(hc, open) ← close_rest hc aborted bs (r_socks r) (r_done r) (r_open r);
      Val (hc, open, aborted)
  end.

(** [None]: a timeout or an error. *)
Definition wait_next_interval hc (ev : option hc_event) : out (health_checker St) :=
  match ev with
  | Some (Ev_admin reads) => process_admin_fifo hc reads
  | _ => Val hc
  end.

(** ** The thread *)

(** One iteration of [thread_main]: the two reads of [stop_requested] and what
    the round and the wait observe. *)
Record iteration := {
  it_stop : bool;
  it_env : nat → probe_env;
  it_now : Z;
  it_waits : list (Z * hc_wait);
  it_stop_after : bool;
  it_event : option hc_event;
}.

Fixpoint thread_loop hc (its : list iteration) (open : fds) : out (health_checker St * fds) :=
  match its with
  | [] => NoFuel
  | it :: its =>
      if it_stop it then Val (hc, open)
      else
        '(hc, open, _) ← run_probe_round hc (it_env it) (it_now it) (it_waits it) open;
        if it_stop_after it then Val (hc, open)
        else
          hc ← wait_next_interval hc (it_event it);
          thread_loop hc its open
  end.

(** [epfd] is the result of [epoll_create1]. *)
Definition thread_main hc (epfd : Z) (its : list iteration) : out (health_checker St * fds) :=
  if decide (epfd < 0) then Val (hc, ∅) else thread_loop hc its ∅.

Definition set_flags (running stop_requested : bool) hc : health_checker St :=
  {| hc_core_of := hc_core_of hc; hc_wake_fd := hc_wake_fd hc;
     hc_admin_fifo_fd := hc_admin_fifo_fd hc; hc_admin_buf := hc_admin_buf hc;
     hc_admin_buf_len := hc_admin_buf_len hc; hc_running := running;
     hc_stop_requested := stop_requested |}.

(** [created] is the success of [pthread_create]. *)
Definition health_checker_start hc (created : bool) : health_checker St * Z :=
  if negb created then (hc, -1) else (set_flags true (hc_stop_requested hc) hc, 0).

(** [join] is what the thread still does until it returns. *)
Definition health_checker_stop hc (join : health_checker St → out (health_checker St)) :
    out (health_checker St) :=
  if negb (hc_running hc) then Val hc
  else
    hc ← join (set_flags (hc_running hc) true hc);
    Val (set_flags false (hc_stop_requested hc) hc).

Definition health_checker_destroy (k : kernel) (hc : option (health_checker St)) (e : option Z) : out kernel :=
  match hc with
  | None => Val k
  | Some hc =>
      k ← close_if_open k (hc_wake_fd hc) e;
      close_if_open k (hc_admin_fifo_fd hc) e
  end.
End Thread.

(** ** The FIFO byte stream does not depend on how [read] cuts it *)

Section Stream.
Context {St : Type} `{L : ChangeListener St}.
Implicit Types (hc : health_checker St).

Lemma admin_bytes_app hc s t : admin_bytes hc (s ++ t) = hc ← admin_bytes hc s; admin_bytes hc t.
Proof.
  revert hc. induction s as [|b s IH]; intros hc; simpl; [done|]. destruct (admin_byte hc b); [|done..].
  rewrite !bind_Val. apply IH.
Qed.

Lemma process_admin_fifo_concat hc reads : process_admin_fifo hc reads = admin_bytes hc (concat reads).
Proof.
  revert hc. induction reads as [|bs reads IH]; intros hc; simpl; [done|].
  rewrite admin_bytes_app. destruct (admin_bytes hc bs); [|done..]. rewrite !bind_Val. apply IH.
Qed.

End Stream.

(** ** The interface to the backend manager

    What the thread needs of the manager and its subscriber: an invariant under
    which the setters succeed, and which they keep. *)

Class SettersSound {St : Type} `{ChangeListener St} (Inv : St → Prop) : Prop := {
  inv_bm_ok s : Inv s → bm_ok (get_bm s);
  inv_setter s id differs f :
    Inv s → (∀ b, b_id (f b) = b_id b ∧ b_port (f b) = b_port b) →
    ∃ s' changed, locked_then_notify s (λ bm, update_locked bm id differs f) = Val (s', changed) ∧ Inv s';
}.

(** The table generator as subscriber: a setter regenerates the table, or leaves
    the old one if memory runs out. *)
Lemma table_generator_setter `{xx : XXHash} (s : tg_sys) id differs f :
  sys_ok s → (∀ b, b_id (f b) = b_id b ∧ b_port (f b) = b_port b) →
  ∃ s' changed, locked_then_notify s (λ bm, update_locked bm id differs f) = Val (s', changed) ∧ sys_ok s' ∧
    sys_env s' = sys_env s.
Proof.
  intros Hok Hf. destruct (so_bm _ Hok) as (Hbok & Hn & Hports).
  destruct (update_locked_spec (sys_bm s) id differs f Hbok (λ b, proj1 (Hf b)))
    as (bm' & changed & E & Hok' & Hcb & Hn' & _ & Hl).
  assert (sys_ok (set_sys_bm bm' s)) as Hs.
  { destruct Hok. split; try done. split; [done|]. split; [simpl; lia|]. simpl. rewrite Hl.
    destruct changed; [|done]. apply Forall_fmap, (Forall_impl _ _ _ Hports). intros b' Hb'. simpl.
    case_decide; [|done]. by rewrite (proj2 (Hf b')). }
  destruct (rebuild_spec _ Hs) as (s' & rc & Er & Hok1 & _ & Henv & _).
  rewrite (locked_then_notify_committed s _ bm' changed) by done. unfold committed. simpl.
  destruct (changed && bm_cb (sys_bm s)).
  - unfold on_backend_change. rewrite Er. by do 2 eexists.
  - by do 2 eexists.
Qed.

#[export] Instance table_generator_setters `{xx : XXHash} : SettersSound (St := tg_sys) sys_ok.
Proof.
  split; [intros s Hok; apply Hok|]. intros s id differs f Hok Hf.
  destruct (table_generator_setter s id differs f Hok Hf) as (s' & changed & E & Hok' & _). eauto.
Qed.

(** The outcomes of the rebuilds to come stay those given. *)
Definition sys_ok_in (env : nat → rebuild_env) (s : tg_sys) : Prop := sys_ok s ∧ sys_env s = env.

#[export] Instance table_generator_setters_in `{xx : XXHash} env : SettersSound (St := tg_sys) (sys_ok_in env).
Proof.
  split; [intros s Hok; apply Hok|]. intros s id differs f [Hok <-] Hf.
  destruct (table_generator_setter s id differs f Hok Hf) as (s' & changed & E & Hok' & He).
  exists s', changed. split; [done|]. by split.
Qed.

Section Setters.
Context {St : Type} `{SettersSound St Inv}.

(** A setter that writes [f b] unless it would change nothing. *)
Lemma setter_spec s id differs f :
  Inv s → (∀ b, b_id (f b) = b_id b ∧ b_port (f b) = b_port b) →
  (∀ b, differs b = false → f b = b) →
  ∃ s' changed, locked_then_notify s (λ bm, update_locked bm id differs f) = Val (s', changed) ∧ Inv s' ∧
    live (get_bm s') = (λ b, if decide (b_id b = id) then f b else b) <$> live (get_bm s).
Proof.
  intros Hs Hf Hid. pose proof (inv_bm_ok s Hs) as Hok.
  destruct (inv_setter s id differs f Hs Hf) as (s' & ch & E & Hs').
  destruct (setter_sets s id differs f Hok (λ b, proj1 (Hf b))) as (bm' & ch' & _ & Hch & Hl & E').
  exists s', ch. do 2 (split; [done|]). rewrite E' in E. apply committed_bm in E as [-> ->].
  rewrite Hl. destruct ch'; [done|]. symmetry. rewrite <- (list_fmap_id (live (get_bm s))) at 2.
  apply list_fmap_ext. intros i b Hb. case_decide; [|done]. apply Hid.
  destruct (differs b) eqn:Hd; [|done]. apply list_elem_of_lookup_2 in Hb. destruct Hch as [_ Hch].
  discriminate Hch. eauto.
Qed.

Lemma set_health_spec s id h :
  Inv s → ∃ s' changed, backend_manager_set_health s id h = Val (s', changed) ∧ Inv s' ∧
    live (get_bm s') = (λ b, if decide (b_id b = id) then set_healthy h b else b) <$> live (get_bm s).
Proof.
  intros Hs. apply setter_spec; [done|done|]. intros b Hb%bool_decide_eq_false.
  destruct b as [???? ? h' ?]. unfold set_healthy. simpl in *. f_equal. destruct (decide (h' = h)); [done|tauto].
Qed.

Lemma set_admin_spec s id st :
  Inv s → ∃ s' changed, backend_manager_set_admin_state s id st = Val (s', changed) ∧ Inv s' ∧
    live (get_bm s') = (λ b, if decide (b_id b = id) then set_admin st b else b) <$> live (get_bm s).
Proof.
  intros Hs. apply setter_spec; [done|done|]. intros b Hb%bool_decide_eq_false.
  destruct b as [???? ? ? st']. unfold set_admin. simpl in *. f_equal. destruct (decide (st' = st)); [done|tauto].
Qed.
End Setters.

(** ** The counters as a function of the backend *)

Definition uses (states : list probe_state) (i : nat) (st : probe_state) : Prop :=
  states !! i = Some st ∧ in_use st = true.

(** Every id has at most one slot, and all are among [ids]. *)
Record states_ok (ids : list Z) (states : list probe_state) : Prop := {
  so_len : length states = BACKEND_MAX;
  so_uniq i j st st' :
    uses states i st → uses states j st' → ps_backend_id st = ps_backend_id st' → i = j;
  so_ids i st : uses states i st → ps_backend_id st ∈ ids;
}.

(** [C id] are the counters of [id], zero before its first probe. *)
Definition tracks (states : list probe_state) (C : Z → Z * Z) : Prop :=
  (∀ i st, uses states i st → C (ps_backend_id st) = (consecutive_ok st, consecutive_fail st)) ∧
  (∀ id, (∀ i st, uses states i st → ps_backend_id st ≠ id) → C id = (0, 0)).

Lemma scan_states_spec n i states id fs :
  (i + n ≤ length states)%nat →
  ∃ r, scan_states n i states id fs = Val r ∧
    match r with
    | inl k => ∃ st, uses states k st ∧ ps_backend_id st = id
    | inr o =>
        (∀ j st, (i ≤ j < i + n)%nat → uses states j st → ps_backend_id st ≠ id) ∧
        match o with
        | Some k => fs = Some k ∨ (k < length states)%nat ∧ ∃ st, states !! k = Some st ∧ in_use st = false
        | None => fs = None ∧ ∀ j, (i ≤ j < i + n)%nat → ∃ st, uses states j st
        end
    end.
Proof.
  revert i fs. induction n as [|n IH]; intros i fs Hl; simpl.
  { exists (inr fs). split; [done|]. split; [lia|]. destruct fs; [by left|]. split; [done|lia]. }
  destruct (rd_lt states i) as (st & Hst & ->); [lia|]. rewrite bind_Val.
  destruct (in_use st) eqn:Hu; [case_bool_decide as Hid|]; cbn [andb negb].
  { exists (inl i). split; [done|]. by exists st. }
  - destruct (IH (S i) fs) as (r & -> & Hr); [lia|]. exists r. split; [done|]. destruct r as [k|o]; [done|].
    destruct Hr as [Hne Ho]. split.
    + intros j st' Hj Hu'. destruct (decide (j = i)) as [-> |]; [|apply (Hne j); [lia|done]].
      destruct Hu'. by simplify_eq.
    + destruct o; [done|]. destruct Ho as [-> Ho]. split; [done|]. intros j Hj.
      destruct (decide (j = i)) as [-> |]; [by exists st|]. apply Ho. lia.
  - destruct (IH (S i) (if bool_decide (fs = None) then Some i else fs)) as (r & -> & Hr); [lia|].
    exists r. split; [done|]. destruct r as [k|o]; [done|]. destruct Hr as [Hne Ho]. split.
    + intros j st' Hj Hu'. destruct (decide (j = i)) as [-> |]; [|apply (Hne j); [lia|done]].
      destruct Hu'. congruence.
    + case_bool_decide; subst.
      * destruct o as [k|]; [|by destruct Ho]. right. destruct Ho as [[= <-]|Ho]; [|done]. split; [lia|by exists st].
      * destruct o; [done|]. by destruct Ho.
Qed.

(** 64 slots in use by distinct backends of a set of at most 64 leave no other. *)
Lemma states_full ids states id :
  states_ok ids states → (length ids ≤ BACKEND_MAX)%nat → id ∈ ids →
  (∀ j, (j < BACKEND_MAX)%nat → ∃ st, uses states j st) →
  ∃ i st, uses states i st ∧ ps_backend_id st = id.
Proof.
  intros Hok Hl Hid Hall. destruct (decide (id ∈ ps_backend_id <$> states)) as [Hin|Hnin].
  { apply list_elem_of_fmap in Hin as (st & -> & [i Hi]%list_elem_of_lookup). exists i, st. split; [|done].
    destruct (Hall i) as (st' & Hst' & ?); [rewrite <- (so_len _ _ Hok); by eapply lookup_lt_Some|].
    split; [done|]. congruence. }
  assert (id :: (ps_backend_id <$> states) ⊆+ ids) as Hsub%submseteq_length.
  { apply NoDup_submseteq.
    - apply NoDup_cons. split; [done|]. apply NoDup_alt. intros i j x Hi Hj.
      rewrite list_lookup_fmap in Hi, Hj. destruct (states !! i) as [st|] eqn:Ei; [|done].
      destruct (states !! j) as [st'|] eqn:Ej; [|done]. simplify_eq/=.
      destruct (Hall i) as (s1 & H1 & ?); [rewrite <- (so_len _ _ Hok); by eapply lookup_lt_Some|].
      destruct (Hall j) as (s2 & H2 & ?); [rewrite <- (so_len _ _ Hok); by eapply lookup_lt_Some|].
      simplify_eq. eapply (so_uniq _ _ Hok i j); [by split|by split|congruence].
    - intros x [-> |Hx]%elem_of_cons; [done|]. apply list_elem_of_fmap in Hx as (st & -> & [i Hi]%list_elem_of_lookup).
      destruct (Hall i) as (s1 & H1 & ?); [rewrite <- (so_len _ _ Hok); by eapply lookup_lt_Some|].
      simplify_eq. by apply (so_ids _ _ Hok i). }
  simpl in Hsub. rewrite length_fmap, (so_len _ _ Hok) in Hsub. lia.
Qed.

(** Writing the counters of the slot of [id]. *)
Lemma states_write ids states i st st' C :
  states_ok ids states → tracks states C → (i < length states)%nat → states !! i = Some st →
  (in_use st = true → ps_backend_id st = ps_backend_id st') →
  (in_use st = false → ∀ j s, uses states j s → ps_backend_id s ≠ ps_backend_id st') →
  in_use st' = true → ps_backend_id st' ∈ ids →
  states_ok ids (<[i:=st']> states) ∧
  tracks (<[i:=st']> states)
    (λ id, if decide (id = ps_backend_id st') then (consecutive_ok st', consecutive_fail st') else C id).
Proof.
  intros Hok [Ht Hz] Hi Hst Hsame Hnew Huse Hin.
  assert (∀ j s, uses (<[i:=st']> states) j s → j = i ∧ s = st' ∨ j ≠ i ∧ uses states j s ∧
    ps_backend_id s ≠ ps_backend_id st') as Hcase.
  { intros j s [Hj Hu]. destruct (decide (j = i)) as [-> |Hne].
    - rewrite list_lookup_insert_eq in Hj by done. left. by simplify_eq.
    - rewrite list_lookup_insert_ne in Hj by done. right. split_and!; [done..|].
      destruct (in_use st) eqn:Es; [|by eapply Hnew]. intros E. apply Hne.
      eapply (so_uniq _ _ Hok j i s st); [done|done|]. rewrite E. symmetry. by apply Hsame. }
  split; [split|split].
  - by rewrite length_insert, (so_len _ _ Hok).
  - intros j k s s' [[-> ->]|(? & Hj & Hj')]%Hcase [[-> ->]|(? & Hk & Hk')]%Hcase E; [done|congruence..|].
    by eapply (so_uniq _ _ Hok).
  - intros j s [[-> ->]|(_ & Hj & _)]%Hcase; [done|]. by eapply (so_ids _ _ Hok).
  - intros j s [[-> ->]|(_ & Hj & Hne)]%Hcase; [by rewrite decide_True|]. rewrite decide_False by done. by eapply Ht.
  - intros id Hnone. assert (ps_backend_id st' ≠ id) as Hne.
    { apply (Hnone i). split; [by apply list_lookup_insert_eq|done]. }
    rewrite decide_False by congruence. apply Hz. intros j s [Hj Hu]. destruct (decide (j = i)) as [-> |Hji].
    + rewrite Hst in Hj. injection Hj as <-. by rewrite Hsame.
    + apply (Hnone j). by split; [rewrite list_lookup_insert_ne|].
Qed.

Lemma tracks_ext states C C' : (∀ id, C id = C' id) → tracks states C → tracks states C'.
Proof. intros E [Ht Hz]. split; [intros; rewrite <- E; eauto|intros; rewrite <- E; eauto]. Qed.

Lemma find_or_create_spec ids states id C :
  states_ok ids states → tracks states C → (length ids ≤ BACKEND_MAX)%nat → id ∈ ids →
  ∃ states' i st, find_or_create_state states id = Val (states', Some i) ∧ states_ok ids states' ∧
    tracks states' C ∧ uses states' i st ∧ ps_backend_id st = id ∧
    C id = (consecutive_ok st, consecutive_fail st).
Proof.
  intros Hok Ht Hl Hid. unfold find_or_create_state.
  destruct (scan_states_spec BACKEND_MAX 0 states id None) as (r & -> & Hr); [by rewrite (so_len _ _ Hok)|].
  rewrite bind_Val. destruct r as [i|[i|]].
  - destruct Hr as (st & Hu & <-). exists states, i, st. split_and!; try done; apply Hu || by eapply (proj1 Ht).
  - destruct Hr as [Hne [?|(Hi & st & Hst & Huse)]]; [done|]. rewrite wr_lt, bind_Val by done.
    assert (∀ j s, uses states j s → ps_backend_id s ≠ id) as Hnone.
    { intros j s Hj. apply (Hne j); [|done]. rewrite <- (so_len _ _ Hok). split; [lia|].
      eapply lookup_lt_Some, Hj. }
    set (st' := {| ps_backend_id := id; consecutive_ok := 0; consecutive_fail := 0; in_use := true |}).
    destruct (states_write ids states i st st' C) as [Hok' Ht']; try done; [congruence|].
    exists (<[i:=st']> states), i, st'. split_and!; try done.
    + eapply tracks_ext, Ht'. intros id'. simpl. case_decide as E; [|done]. subst. symmetry. by apply (proj2 Ht).
    + split; [by apply list_lookup_insert_eq|done].
    + by apply (proj2 Ht).
  - destruct Hr as [Hne [_ Hall]]. destruct (states_full ids states id) as (i & st & Hu & E); try done.
    { intros j Hj. apply Hall. lia. }
    exfalso. apply (Hne i st); [|done|done]. rewrite <- (so_len _ _ Hok). split; [lia|]. eapply lookup_lt_Some, Hu.
Qed.

(** ** Verdicts over the history of probe results *)

(** The results recorded, newest first. *)
Abbreviation history := (list (Z * bool)).

Definition results (id : Z) (h : history) : list bool :=
  omap (λ p, if decide (p.1 = id) then Some p.2 else None) h.

(** How many of the newest results are [ok]. *)
Fixpoint run_length (ok : bool) (rs : list bool) : Z :=
  match rs with
  | r :: rs => if decide (r = ok) then 1 + run_length ok rs else 0
  | [] => 0
  end.

(** The health a backend should have: decided by the most recent moment at which
    the last [rise] results were all successes or the last [fall] all failures,
    and [h0] if there was none. *)
Fixpoint verdict (rise fall : Z) (h0 : bool) (rs : list bool) : bool :=
  match rs with
  | [] => h0
  | _ :: older =>
      if decide (0 < rise ≤ run_length true rs) then true
      else if decide (0 < fall ≤ run_length false rs) then false
      else verdict rise fall h0 older
  end.

Definition capped (rise fall : Z) (rs : list bool) : Z * Z :=
  (Z.min rise (run_length true rs), Z.min fall (run_length false rs)).

Lemma run_length_nonneg ok rs : 0 ≤ run_length ok rs.
Proof. induction rs as [|r rs IH]; simpl; [lia|]. case_decide; lia. Qed.

Lemma run_length_other ok rs : 0 < run_length ok rs → run_length (negb ok) rs = 0.
Proof. destruct rs as [|r rs]; simpl; [lia|]. intros H.
  destruct (decide (r = ok)) as [-> |]; [|lia]. by rewrite decide_False by (by destruct ok). Qed.

(** What one more result does to the counters and to the verdict. *)
Lemma verdict_cons_ok rise fall h0 rs :
  0 ≤ rise → 0 ≤ fall → let k := Z.min rise (run_length true rs) in
  capped rise fall (true :: rs) = (if decide (k < rise) then k + 1 else k, 0) ∧
  verdict rise fall h0 (true :: rs) =
    (if decide (k < rise ∧ k + 1 = rise) then true else verdict rise fall h0 rs).
Proof.
  intros Hr Hf k. subst k. pose proof (run_length_nonneg true rs). unfold capped. simpl.
  split; [f_equal; [case_decide|]; lia|].
  destruct (decide (0 < rise ≤ 1 + run_length true rs)).
  - destruct (decide (Z.min rise (run_length true rs) < rise ∧ _)); [done|].
    destruct rs as [|r rs]; [simpl in *; lia|]. cbn [verdict]. by rewrite decide_True by lia.
  - rewrite !decide_False by lia. done.
Qed.

Lemma verdict_cons_fail rise fall h0 rs :
  0 ≤ rise → 0 ≤ fall → let k := Z.min fall (run_length false rs) in
  capped rise fall (false :: rs) = (0, if decide (k < fall) then k + 1 else k) ∧
  verdict rise fall h0 (false :: rs) =
    (if decide (k < fall ∧ k + 1 = fall) then false else verdict rise fall h0 rs).
Proof.
  intros Hr Hf k. subst k. pose proof (run_length_nonneg false rs). unfold capped. simpl.
  split; [f_equal; [|case_decide]; lia|]. rewrite (decide_False (P := 0 < rise ≤ 0)) by lia.
  destruct (decide (0 < fall ≤ 1 + run_length false rs)).
  - destruct (decide (Z.min fall (run_length false rs) < fall ∧ _)); [done|].
    destruct rs as [|r rs]; [simpl in *; lia|]. cbn [verdict].
    pose proof (run_length_other false (r :: rs) ltac:(lia)) as E. cbn [negb] in E.
    rewrite E, decide_False by lia. by rewrite decide_True by lia.
  - rewrite decide_False by lia. done.
Qed.

(** ** The invariant of the thread *)

Section Monitor.
Context {St : Type} `{Snd : SettersSound St Inv}.
Implicit Types (c : hc_core St) (hc : health_checker St).

Definition backends_of c : list backend := live (get_bm (hc_bm c)).
Abbreviation ids_of c := (b_id <$> backends_of c).

Record core_ok c : Prop := {
  co_inv : Inv (hc_bm c);
  co_states : states_ok (ids_of c) (hc_states c);
  co_stats stats : hc_stats c = Some stats → stats_live stats;
  co_cfg : 0 ≤ rise (hc_cfg c) < 2 ^ 32 ∧ 0 ≤ fall (hc_cfg c) < 2 ^ 32;
}.

(** The counters and the health of every backend are those of the history [h],
    [h0] being the health before the first probe. *)
Definition monitored (h0 : Z → bool) (h : history) c : Prop :=
  tracks (hc_states c) (λ id, capped (rise (hc_cfg c)) (fall (hc_cfg c)) (results id h)) ∧
  Forall (λ b, b_healthy b =
    verdict (rise (hc_cfg c)) (fall (hc_cfg c)) (h0 (b_id b)) (results (b_id b) h)) (backends_of c).

Lemma ids_range c id : core_ok c → id ∈ ids_of c → 0 ≤ id.
Proof.
  intros Hok Hid. pose proof (inv_bm_ok _ (co_inv _ Hok)) as Hb.
  apply list_elem_of_fmap in Hid as (b & -> & [i Hi]%elem_of_live).
  pose proof (ok_ids _ Hb i b Hi). lia.
Qed.

Lemma ids_length c : core_ok c → (length (ids_of c) ≤ BACKEND_MAX)%nat.
Proof. intros Hok. rewrite length_fmap. apply live_length, inv_bm_ok, Hok. Qed.

(** Updates of the health of a backend. *)
Definition update_health (id : Z) (call : option bool) (bs : list backend) : list backend :=
  match call with
  | Some h => (λ b, if decide (b_id b = id) then set_healthy h b else b) <$> bs
  | None => bs
  end.

Lemma update_health_ids id call bs : b_id <$> update_health id call bs = b_id <$> bs.
Proof.
  destruct call as [h|]; [|done]. simpl. rewrite <- list_fmap_compose. apply list_fmap_ext.
  intros i b _. simpl. by case_decide.
Qed.

Lemma update_health_rest id call bs :
  set_healthy false <$> update_health id call bs = set_healthy false <$> bs.
Proof.
  destruct call as [h|]; [|done]. simpl. rewrite <- list_fmap_compose. apply list_fmap_ext.
  intros i b _. simpl. by case_decide.
Qed.

(** The tail of [record_result]: store the counters, then maybe set the
    health. *)
Definition store_and_flip c i st (call : option bool) : out (hc_core St) :=
  c ← put_state c i st; match call with Some h => flip c (ps_backend_id st) h | None => Val c end.

Lemma store_and_flip_spec c i st st' call C :
  core_ok c → tracks (hc_states c) C → uses (hc_states c) i st →
  ps_backend_id st' = ps_backend_id st → in_use st' = true →
  ∃ c', store_and_flip c i st' call = Val c' ∧ core_ok c' ∧ hc_cfg c' = hc_cfg c ∧
    tracks (hc_states c') (λ id, if decide (id = ps_backend_id st')
      then (consecutive_ok st', consecutive_fail st') else C id) ∧
    backends_of c' = update_health (ps_backend_id st') call (backends_of c).
Proof.
  intros Hok Ht Hu Hid Huse. pose proof Hok as [Hinv Hst Hstats Hcfg].
  assert (i < length (hc_states c))%nat as Hi by (eapply lookup_lt_Some, Hu).
  destruct (states_write _ (hc_states c) i st st' C Hst Ht Hi (proj1 Hu)) as [Hst' Ht'].
  { intros _. done. }
  { destruct Hu. congruence. }
  { done. }
  { rewrite Hid. by eapply (so_ids _ _ Hst). }
  unfold store_and_flip, put_state. rewrite wr_lt, !bind_Val by done.
  destruct call as [h|].
  - unfold flip. destruct (set_health_spec (hc_bm c) (ps_backend_id st') h Hinv) as (s' & ch & E & Hs' & Hl).
    simpl hc_bm. rewrite E, bind_Val. eexists. split; [done|]. split_and!; try done.
    split; simpl; try done. unfold backends_of. simpl. rewrite Hl.
    pose proof (update_health_ids (ps_backend_id st') (Some h) (live (get_bm (hc_bm c)))) as Hids.
    simpl in Hids. rewrite Hids. done.
  - eexists. split; [done|]. by split_and!; [split|..].
Qed.

Lemma count_failure_spec c id :
  core_ok c → id ∈ ids_of c →
  ∃ c', match hc_stats c with
        | None => Val c
        | Some stats =>
            stats ← stats_backend_health_check_failed stats id; Val (set_hc_stats (Some stats) c)
        end = Val c' ∧ core_ok c' ∧ hc_cfg c' = hc_cfg c ∧ hc_states c' = hc_states c ∧ hc_bm c' = hc_bm c.
Proof.
  intros Hok Hid. pose proof (ids_range _ _ Hok Hid). destruct (hc_stats c) as [stats|] eqn:Es; [|by exists c].
  unfold stats_backend_health_check_failed.
  edestruct (update_backend_spec stats id) as (s' & -> & Hl & _); [by apply (co_stats _ Hok)|done| |].
  { intros b Hg. exact Hg. }
  rewrite bind_Val. eexists. split; [done|]. split_and!; try done. destruct Hok. split; try done.
  intros ? [= <-]. done.
Qed.

Lemma results_cons id h id' ok :
  results id' ((id, ok) :: h) = if decide (id' = id) then ok :: results id' h else results id' h.
Proof. unfold results. cbn. destruct (decide (id = id')), (decide (id' = id)); congruence. Qed.

(** Counters and healths that were right for [h] are right for one more
    result. *)
Lemma monitored_step h0 h c c' id ok st call :
  monitored h0 h c → hc_cfg c' = hc_cfg c → ps_backend_id st = id →
  capped (rise (hc_cfg c)) (fall (hc_cfg c)) (ok :: results id h) = (consecutive_ok st, consecutive_fail st) →
  (∀ v0, verdict (rise (hc_cfg c)) (fall (hc_cfg c)) v0 (ok :: results id h) =
    default (verdict (rise (hc_cfg c)) (fall (hc_cfg c)) v0 (results id h)) call) →
  tracks (hc_states c') (λ id, if decide (id = ps_backend_id st)
    then (consecutive_ok st, consecutive_fail st)
    else capped (rise (hc_cfg c)) (fall (hc_cfg c)) (results id h)) →
  backends_of c' = update_health id call (backends_of c) →
  monitored h0 ((id, ok) :: h) c'.
Proof.
  intros [_ Hh] Hcfg Hid Hcap Hv Ht Hl. unfold monitored. rewrite Hcfg. split.
  - eapply tracks_ext, Ht. intros id'. cbv beta. rewrite results_cons, Hid.
    by case_decide; subst.
  - rewrite Hl. destruct call as [v|]; cbn [update_health].
    + apply Forall_fmap, (Forall_impl _ _ _ Hh). intros b Hb. unfold compose. case_decide as E.
      * cbn [b_id b_healthy set_healthy]. by rewrite results_cons, decide_True, E, Hv.
      * by rewrite results_cons, decide_False.
    + apply (Forall_impl _ _ _ Hh). intros b Hb. rewrite Hb, results_cons. case_decide as E; [|done].
      by rewrite E, Hv.
Qed.

(** The two branches of [record_result]: the counter [n], its threshold [t] and
    the state [mk] to store. *)
Definition count_branch c (i : nat) (t : health_check_cfg → Z) (n : Z) (mk : Z → probe_state)
    (id : Z) (healthy : bool) : out (hc_core St) :=
  if decide (n < t (hc_cfg c)) then
    c ← put_state c i (mk (u32 (n + 1)));
    if decide (u32 (n + 1) = t (hc_cfg c)) then flip c id healthy else Val c
  else put_state c i (mk n).

Definition next_count (t n : Z) : Z := if decide (n < t) then n + 1 else n.
Definition threshold_call (t n : Z) (healthy : bool) : option bool :=
  if decide (n < t ∧ n + 1 = t) then Some healthy else None.

Lemma count_branch_eq c i t n mk id healthy :
  0 ≤ n → t (hc_cfg c) < 2 ^ 32 → (i < length (hc_states c))%nat → (∀ k, ps_backend_id (mk k) = id) →
  count_branch c i t n mk id healthy =
  store_and_flip c i (mk (next_count (t (hc_cfg c)) n)) (threshold_call (t (hc_cfg c)) n healthy).
Proof.
  intros Hn Ht Hi Hid. unfold count_branch, store_and_flip, next_count, threshold_call, put_state.
  rewrite Hid, !wr_lt by done. destruct (decide (n < t (hc_cfg c))).
  - unfold u32. rewrite Z.mod_small, !bind_Val by lia. simpl hc_cfg.
    destruct (decide (n + 1 = t (hc_cfg c))); [by rewrite decide_True|by rewrite decide_False by tauto].
  - by rewrite decide_False by tauto.
Qed.

Lemma record_result_spec h0 h c id ok :
  core_ok c → monitored h0 h c → id ∈ ids_of c →
  ∃ c', record_result c id ok = Val c' ∧ core_ok c' ∧ monitored h0 ((id, ok) :: h) c' ∧
    hc_cfg c' = hc_cfg c ∧ set_healthy false <$> backends_of c' = set_healthy false <$> backends_of c.
Proof.
  intros Hok Hmon Hid. pose proof (co_cfg _ Hok) as [Hrise Hfall].
  destruct (find_or_create_spec _ _ id _ (co_states _ Hok) (proj1 Hmon) (ids_length _ Hok) Hid)
    as (states & i & st & E & Hst & Ht & Hu & Hsid & HC).
  unfold record_result. rewrite E, bind_Val. cbv beta iota zeta.
  set (c1 := set_states states c). assert (core_ok c1) as Hok1 by (destruct Hok; by split).
  change (hc_states c1) with states. rewrite (rd_Some _ _ _ (proj1 Hu)), bind_Val.
  assert (i < length states)%nat as Hi by (eapply lookup_lt_Some, Hu).
  unfold capped in HC. injection HC as Hkok Hkfail.
  pose proof (run_length_nonneg true (results id h)). pose proof (run_length_nonneg false (results id h)).
  destruct ok.
  - set (mk k := {| ps_backend_id := ps_backend_id st; consecutive_ok := k; consecutive_fail := 0;
                    in_use := in_use st |}).
    change (∃ c', count_branch c1 i rise (consecutive_ok st) mk id true = Val c' ∧ core_ok c' ∧
      monitored h0 ((id, true) :: h) c' ∧ hc_cfg c' = hc_cfg c ∧
      set_healthy false <$> backends_of c' = set_healthy false <$> backends_of c).
    rewrite count_branch_eq by (done || simpl; lia). 
    destruct (store_and_flip_spec c1 i st (mk (next_count (rise (hc_cfg c)) (consecutive_ok st)))
      (threshold_call (rise (hc_cfg c)) (consecutive_ok st) true) _ Hok1 Ht Hu eq_refl (proj2 Hu))
      as (c' & Ec & Hok' & Hcfg & Ht' & Hl).
    exists c'. do 2 (split; [done|]). split; [|split; [done|by rewrite Hl, update_health_rest]].
    eapply (monitored_step h0 h c c' id true (mk _)); [done|done|exact Hsid| | |exact Ht'|by rewrite Hl; simpl; rewrite Hsid].
    + destruct (verdict_cons_ok (rise (hc_cfg c)) (fall (hc_cfg c)) true (results id h)) as [-> _]; [lia..|].
      by rewrite Hkok.
    + intros v0. destruct (verdict_cons_ok (rise (hc_cfg c)) (fall (hc_cfg c)) v0 (results id h)) as [_ ->]; [lia..|].
      rewrite Hkok. unfold threshold_call. by case_decide.
  - destruct (count_failure_spec c1 id Hok1 Hid) as (c2 & -> & Hok2 & Hcfg2 & Hst2 & Hbm2).
    rewrite bind_Val. set (mk k := {| ps_backend_id := ps_backend_id st; consecutive_ok := 0;
      consecutive_fail := k; in_use := in_use st |}).
    change (∃ c', count_branch c2 i fall (consecutive_fail st) mk id false = Val c' ∧ core_ok c' ∧
      monitored h0 ((id, false) :: h) c' ∧ hc_cfg c' = hc_cfg c ∧
      set_healthy false <$> backends_of c' = set_healthy false <$> backends_of c).
    assert (backends_of c2 = backends_of c) as Hb2 by (unfold backends_of; by rewrite Hbm2).
    change states with (hc_states c1) in Ht, Hu, Hi. rewrite <- Hst2 in Ht, Hu, Hi.
    rewrite count_branch_eq by (done || rewrite ?Hcfg2; simpl; lia). rewrite Hcfg2.
    destruct (store_and_flip_spec c2 i st (mk (next_count (fall (hc_cfg c)) (consecutive_fail st)))
      (threshold_call (fall (hc_cfg c)) (consecutive_fail st) false) _ Hok2 Ht Hu eq_refl (proj2 Hu))
      as (c' & Ec & Hok' & Hcfg & Ht' & Hl).
    exists c'. do 2 (split; [done|]). split; [|split; [by rewrite Hcfg|by rewrite Hl, update_health_rest, Hb2]].
    eapply (monitored_step h0 h c c' id false (mk _)); [done|by rewrite Hcfg|exact Hsid| | |exact Ht'|by rewrite Hl, Hb2; simpl; rewrite Hsid].
    + destruct (verdict_cons_fail (rise (hc_cfg c)) (fall (hc_cfg c)) true (results id h)) as [-> _]; [lia..|].
      by rewrite Hkfail.
    + intros v0. destruct (verdict_cons_fail (rise (hc_cfg c)) (fall (hc_cfg c)) v0 (results id h)) as [_ ->]; [lia..|].
      rewrite Hkfail. unfold threshold_call. by case_decide.
Qed.

Lemma same_ids (l l' : list backend) :
  set_healthy false <$> l' = set_healthy false <$> l → b_id <$> l' = b_id <$> l.
Proof.
  intros E. assert (∀ l, b_id <$> l = b_id <$> (set_healthy false <$> l)) as H'
    by (intros; by rewrite <- list_fmap_compose). by rewrite (H' l), (H' l'), E.
Qed.

(** What an admin command does. *)
Definition set_admin_of c (id : Z) (st : backend_admin_state) : out (hc_core St) :=
  '(bm, _) ← backend_manager_set_admin_state (hc_bm c) id st; Val (set_hc_bm bm c).

Lemma set_admin_of_spec h0 h c id st :
  core_ok c → monitored h0 h c →
  ∃ c', set_admin_of c id st = Val c' ∧ core_ok c' ∧ monitored h0 h c' ∧ hc_cfg c' = hc_cfg c ∧
    ids_of c' = ids_of c ∧
    backends_of c' = (λ b, if decide (b_id b = id) then set_admin st b else b) <$> backends_of c.
Proof.
  intros Hok [Ht Hh]. destruct (set_admin_spec (hc_bm c) id st (co_inv _ Hok)) as (s' & ch & E & Hs' & Hl).
  unfold set_admin_of. rewrite E, bind_Val. eexists. split; [done|].
  assert (ids_of (set_hc_bm s' c) = ids_of c) as Hids.
  { unfold backends_of. simpl. rewrite Hl, <- list_fmap_compose. apply list_fmap_ext. intros i b _. simpl.
    by case_decide. }
  assert (backends_of (set_hc_bm s' c) =
    (λ b, if decide (b_id b = id) then set_admin st b else b) <$> backends_of c) as Hb by exact Hl.
  split; [destruct Hok; split; try done; by rewrite Hids|]. split; [|done].
  split; [done|]. rewrite Hb. apply Forall_fmap, (Forall_impl _ _ _ Hh). intros b Hv.
  unfold compose. by case_decide.
Qed.

Lemma handle_admin_line_spec h0 h c line :
  core_ok c → monitored h0 h c →
  ∃ c', handle_admin_line c line = Val c' ∧ core_ok c' ∧ monitored h0 h c' ∧ hc_cfg c' = hc_cfg c ∧
    ids_of c' = ids_of c.
Proof.
  intros Hok Hmon. unfold handle_admin_line. destruct (sscanf_15s_lu line) as [[verb id]|]; [|by exists c].
  case_decide; [|case_decide; [|by exists c]];
    edestruct (set_admin_of_spec h0 h c (u32 id)) as (c' & E & ? & ? & ? & ? & _); try done; by exists c'.
Qed.

(** ** The thread as a sequence of results and commands *)

Inductive hc_op :=
  | Op_probe (id : Z) (ok : bool)
  | Op_line (line : list Z).

Definition run_op c (op : hc_op) : out (hc_core St) :=
  match op with
  | Op_probe id ok => record_result c id ok
  | Op_line line => handle_admin_line c line
  end.

Fixpoint run_ops c (ops : list hc_op) : out (hc_core St) :=
  match ops with
  | [] => Val c
  | op :: ops => c ← run_op c op; run_ops c ops
  end.

(** The probe results among [ops], in order. *)
Definition probes (ops : list hc_op) : history :=
  omap (λ op, match op with Op_probe id ok => Some (id, ok) | Op_line _ => None end) ops.

Definition fifo_ok hc : Prop :=
  length (hc_admin_buf hc) = HC_ADMIN_LINE_MAX ∧ (hc_admin_buf_len hc < HC_ADMIN_LINE_MAX)%nat.

Definition hc_good (h0 : Z → bool) (h : history) hc : Prop :=
  core_ok (hc_core_of hc) ∧ monitored h0 h (hc_core_of hc) ∧ fifo_ok hc.

(** From [hc] the thread gets to [hc'] by [ops]. *)
Record advance (h0 : Z → bool) (h : history) hc (ops : list hc_op) hc' : Prop := {
  ad_run : run_ops (hc_core_of hc) ops = Val (hc_core_of hc');
  ad_good : hc_good h0 (reverse (probes ops) ++ h) hc';
  ad_cfg : hc_cfg (hc_core_of hc') = hc_cfg (hc_core_of hc);
  ad_ids : ids_of (hc_core_of hc') = ids_of (hc_core_of hc);
}.

Lemma run_ops_app c ops1 ops2 : run_ops c (ops1 ++ ops2) = c ← run_ops c ops1; run_ops c ops2.
Proof.
  revert c. induction ops1 as [|op ops1 IH]; intros c; simpl; [done|].
  destruct (run_op c op); [|done|done]. rewrite !bind_Val. apply IH.
Qed.

Lemma probes_app ops1 ops2 : probes (ops1 ++ ops2) = probes ops1 ++ probes ops2.
Proof. apply omap_app. Qed.

Lemma advance_refl h0 h hc : hc_good h0 h hc → advance h0 h hc [] hc.
Proof. intros. by split. Qed.

Lemma advance_trans h0 h hc1 hc2 hc3 ops1 ops2 :
  advance h0 h hc1 ops1 hc2 → advance h0 (reverse (probes ops1) ++ h) hc2 ops2 hc3 →
  advance h0 h hc1 (ops1 ++ ops2) hc3.
Proof.
  intros [R1 G1 C1 I1] [R2 G2 C2 I2]. split.
  - by rewrite run_ops_app, R1.
  - by rewrite probes_app, reverse_app, <- (assoc_L (++)).
  - by rewrite C2.
  - by rewrite I2.
Qed.

Lemma advance_probe h0 h hc id ok :
  hc_good h0 h hc → id ∈ ids_of (hc_core_of hc) →
  ∃ c', record_result (hc_core_of hc) id ok = Val c' ∧ advance h0 h hc [Op_probe id ok] (set_core c' hc).
Proof.
  intros (Hok & Hmon & Hf) Hid.
  destruct (record_result_spec h0 h _ id ok Hok Hmon Hid) as (c' & E & Hok' & Hmon' & Hcfg & Hl).
  exists c'. split; [done|]. split; [cbn [run_ops run_op]; by rewrite E|done|done|by apply same_ids].
Qed.

(** A step that changes the line buffer only. *)
Lemma advance_buf h0 h hc buf len :
  hc_good h0 h hc → length buf = HC_ADMIN_LINE_MAX → (len < HC_ADMIN_LINE_MAX)%nat →
  advance h0 h hc [] (set_admin_buf buf len hc).
Proof. intros (Hok & Hmon & Hf) Hb Hl. by split. Qed.

Lemma advance_line h0 h hc line :
  hc_good h0 h hc →
  ∃ c', handle_admin_line (hc_core_of hc) line = Val c' ∧ advance h0 h hc [Op_line line] (set_core c' hc).
Proof.
  intros (Hok & Hmon & Hf). destruct (handle_admin_line_spec h0 h _ line Hok Hmon) as (c' & E & ? & ? & ? & ?).
  exists c'. split; [done|]. split; [cbn [run_ops run_op]; by rewrite E|done..].
Qed.

(** ** The FIFO *)

Lemma admin_byte_advance h0 h hc b :
  hc_good h0 h hc →
  ∃ hc' ops, admin_byte hc b = Val hc' ∧ advance h0 h hc ops hc' ∧ probes ops = [].
Proof.
  intros Hg. pose proof Hg as (Hok & Hmon & Hbuf & Hlen). unfold admin_byte. case_decide.
  - rewrite wr_lt, bind_Val by lia. cbv beta zeta.
    set (hc1 := set_admin_buf (<[hc_admin_buf_len hc:=0]> (hc_admin_buf hc)) (hc_admin_buf_len hc) hc).
    assert (advance h0 h hc [] hc1) as A1 by (apply advance_buf; [done|by rewrite length_insert|done]).
    case_decide.
    + destruct (c_string_total (hc_admin_buf hc1) (hc_admin_buf_len hc)) as (line & ->).
      { simpl. apply list_lookup_insert_eq. lia. }
      rewrite bind_Val. destruct (advance_line h0 h hc1 line (ad_good _ _ _ _ _ A1)) as (c' & -> & A2).
      rewrite !bind_Val. eexists _, _. split; [done|]. split.
      * eapply advance_trans; [exact A1|]. eapply advance_trans; [exact A2|].
        apply advance_buf; [apply A2|apply (ad_good _ _ _ _ _ A1)|unfold HC_ADMIN_LINE_MAX; lia].
      * done.
    + rewrite bind_Val. eexists _, []. split; [done|]. split; [|done].
      eapply (advance_trans _ _ _ hc1 _ [] []); [exact A1|].
      apply advance_buf; [apply A1|apply (ad_good _ _ _ _ _ A1)|unfold HC_ADMIN_LINE_MAX; lia].
  - case_decide.
    + rewrite wr_lt, bind_Val by lia. eexists _, []. split; [done|]. split; [|done].
      apply advance_buf; [done|by rewrite length_insert|lia].
    + eexists _, []. split; [done|]. split; [|done].
      apply advance_buf; [done|done|unfold HC_ADMIN_LINE_MAX; lia].
Qed.

Lemma process_admin_fifo_advance h0 h hc reads :
  hc_good h0 h hc →
  ∃ hc' ops, process_admin_fifo hc reads = Val hc' ∧ advance h0 h hc ops hc' ∧ probes ops = [].
Proof.
  rewrite process_admin_fifo_concat. generalize (concat reads). clear reads.
  intros bs. revert hc. induction bs as [|b bs IH]; intros hc Hg; cbn [admin_bytes].
  { exists hc, []. split; [done|]. split; [by apply advance_refl|done]. }
  destruct (admin_byte_advance h0 h hc b Hg) as (hc1 & ops1 & -> & A1 & P1). rewrite bind_Val.
  destruct (IH hc1) as (hc2 & ops2 & -> & A2 & P2).
  { pose proof (ad_good _ _ _ _ _ A1) as G. by rewrite P1 in G. }
  exists hc2, (ops1 ++ ops2). split; [done|]. split; [|by rewrite probes_app, P1, P2].
  eapply advance_trans; [done|]. by rewrite P1.
Qed.
End Monitor.

(** ** Admin commands *)

Section Commands.
Context {St : Type} `{L : ChangeListener St}.
Implicit Types (c : hc_core St) (hc : health_checker St).

(** [DRAIN id] and [UNDRAIN id]. *)
Record command := { cmd_drain : bool; cmd_id : Z }.

Definition print_command (cmd : command) : list Z :=
  text (if cmd_drain cmd then "DRAIN" else "UNDRAIN") ++ [32] ++ fmt_u (cmd_id cmd).

Definition command_ok (cmd : command) : Prop := 0 ≤ cmd_id cmd < 2 ^ 64.

Definition run_command c (cmd : command) : out (hc_core St) :=
  set_admin_of c (u32 (cmd_id cmd)) (if cmd_drain cmd then BACKEND_DRAINING else BACKEND_ENABLED).

Fixpoint run_commands c (cmds : list command) : out (hc_core St) :=
  match cmds with
  | [] => Val c
  | cmd :: cmds => c ← run_command c cmd; run_commands c cmds
  end.

Lemma handle_command c cmd :
  command_ok cmd → handle_admin_line c (print_command cmd) = run_command c cmd.
Proof.
  intros Hc. unfold handle_admin_line, print_command, run_command.
  assert (∀ verb, verb = text "DRAIN" ∨ verb = text "UNDRAIN" →
    sscanf_15s_lu (verb ++ [32] ++ fmt_u (cmd_id cmd)) = Some (verb, cmd_id cmd)) as Hs.
  { intros verb Hv. assert (sscanf_15s_lu (verb ++ [32] ++ fmt_u (cmd_id cmd)) =
      match scan_int (32 :: fmt_u (cmd_id cmd)) with
      | None => None | Some (neg, v, _) => Some (verb, ulong_value neg v) end) as ->
      by (destruct Hv as [-> | ->]; reflexivity).
    rewrite scan_int_space, <- (app_nil_r (fmt_u _)), scan_int_fmt by done.
    unfold ulong_value. rewrite decide_False by (unfold command_ok, ULONG_MAX in *; lia). done. }
  destruct (cmd_drain cmd); rewrite Hs by auto; done.
Qed.

(** Lines a command occupies: no newline, no NUL, short enough. *)
Definition plain_line (s : list Z) : Prop :=
  Forall (λ b, b ≠ 0 ∧ b ≠ 10) s ∧ (0 < length s < HC_ADMIN_LINE_MAX)%nat.

Lemma print_command_plain cmd : command_ok cmd → plain_line (print_command cmd).
Proof.
  intros Hc. unfold print_command. split.
  - rewrite !Forall_app. split; [|split].
    + apply (Forall_impl (λ b, 32 < b)); [|lia]. destruct (cmd_drain cmd); by repeat constructor.
    + by repeat constructor.
    + apply (Forall_impl _ _ _ (fmt_u_digits _)). lia.
  - pose proof (fmt_u_length (cmd_id cmd) 20) as Hl. unfold command_ok in Hc.
    rewrite !length_app. destruct (cmd_drain cmd); simpl; unfold HC_ADMIN_LINE_MAX; simpl in Hl; lia.
Qed.

(** Bytes that are not newlines accumulate in the buffer. *)
Lemma admin_bytes_fill hc p s r :
  hc_admin_buf hc = p ++ r → hc_admin_buf_len hc = length p → length (p ++ r) = HC_ADMIN_LINE_MAX →
  Forall (λ b, b ≠ 10) s → (length p + length s < HC_ADMIN_LINE_MAX)%nat →
  ∃ r', admin_bytes hc s = Val (set_admin_buf ((p ++ s) ++ r') (length (p ++ s)) hc) ∧
    length ((p ++ s) ++ r') = HC_ADMIN_LINE_MAX.
Proof.
  intros Hb Hl Hlen Hs. revert hc p r Hb Hl Hlen. induction Hs as [|b s Hne _ IH]; intros hc p r Hb Hl Hlen Hfit.
  - exists r. rewrite app_nil_r. split; [|done]. simpl. rewrite <- Hb, <- Hl. by destruct hc.
  - simpl in Hfit. cbn [admin_bytes]. unfold admin_byte. rewrite decide_False, decide_True by (done || lia).
    destruct r as [|x r]; [rewrite app_nil_r in Hlen; lia|].
    rewrite (wr_at _ _ _ p x r Hb Hl), !bind_Val.
    destruct (IH (set_admin_buf (p ++ b :: r) (S (hc_admin_buf_len hc)) hc) (p ++ [b]) r) as (r' & E & Hlr).
    + simpl. by rewrite <- (assoc_L (++)).
    + simpl. rewrite length_app. simpl. lia.
    + rewrite !length_app in *. simpl in *. lia.
    + rewrite length_app. simpl. lia.
    + exists r'. replace (p ++ b :: s) with ((p ++ [b]) ++ s) by (by rewrite <- (assoc_L (++))). by rewrite E.
Qed.

Definition idle_fifo hc : Prop :=
  length (hc_admin_buf hc) = HC_ADMIN_LINE_MAX ∧ hc_admin_buf_len hc = 0%nat.

(** A complete line is handed to [handle_admin_line]. *)
Lemma admin_bytes_line hc s t :
  idle_fifo hc → plain_line s →
  ∃ buf, length buf = HC_ADMIN_LINE_MAX ∧
    admin_bytes hc (s ++ 10 :: t) =
    c ← handle_admin_line (hc_core_of hc) s; admin_bytes (set_core c (set_admin_buf buf 0 hc)) t.
Proof.
  intros [Hlen H0] [Hs Hl].
  destruct (admin_bytes_fill hc [] s (hc_admin_buf hc)) as (r & E & Hr); [done|done|done| |simpl; lia|].
  { apply (Forall_impl _ _ _ Hs). tauto. }
  simpl in E, Hr.
  rewrite admin_bytes_app, E, bind_Val. cbn [admin_bytes]. unfold admin_byte. rewrite decide_True by done.
  destruct r as [|x r]; [rewrite app_nil_r in Hr; lia|].
  simpl hc_admin_buf. simpl hc_admin_buf_len. rewrite (wr_at _ _ _ s x r) by done. rewrite bind_Val. cbv zeta.
  rewrite decide_True by lia. simpl hc_admin_buf.
  rewrite c_string_app by (apply (Forall_impl _ _ _ Hs); tauto). rewrite !bind_Val.
  exists (s ++ 0 :: r). split; [rewrite !length_app in *; simpl in *; lia|].
  change (hc_core_of (set_admin_buf _ _ _)) with (hc_core_of hc).
  destruct (handle_admin_line (hc_core_of hc) s); [|done..]. by rewrite !bind_Val.
Qed.
End Commands.

(** ** A round *)

(** Whether the socket of a probe is registered with epoll. *)
Definition connects (e : probe_env) (b : backend) : bool :=
  bool_decide (0 ≤ pe_socket e) &&
  (let '(r, errno) := pe_connect e {| sin_family := AF_INET; sin_port := htons (b_port b);
                                      sin_addr := b_addr b |} in
   bool_decide (r = 0 ∨ errno = EINPROGRESS)) &&
  bool_decide (pe_ctl e = 0).

(** [socket] returns descriptors that are not open. *)
Fixpoint sockets_fresh (env : nat → probe_env) (i : nat) (bs : list backend) (open : fds) : Prop :=
  match bs with
  | [] => True
  | b :: bs =>
      (0 ≤ pe_socket (env i) → pe_socket (env i) ∉ open) ∧
      sockets_fresh env (S i) bs (if connects (env i) b then {[pe_socket (env i)]} ∪ open else open)
  end.

Fixpoint registered (env : nat → probe_env) (i : nat) (bs : list backend) : gset nat :=
  match bs with
  | [] => ∅
  | b :: bs => (if connects (env i) b then {[i]} else ∅) ∪ registered env (S i) bs
  end.

(** [epoll_wait] reports registered sockets only, each at most once: a socket is
    removed when its event is handled. *)
Fixpoint events_of (reg : gset nat) (evs : list hc_event) : Prop :=
  match evs with
  | [] | Ev_wake :: _ => True
  | Ev_admin _ :: evs => events_of reg evs
  | Ev_probe i _ :: evs => i ∈ reg ∧ events_of (reg ∖ {[i]}) evs
  end.

Fixpoint remaining (reg : gset nat) (evs : list hc_event) : gset nat :=
  match evs with
  | [] | Ev_wake :: _ => reg
  | Ev_admin _ :: evs => remaining reg evs
  | Ev_probe i _ :: evs => remaining (reg ∖ {[i]}) evs
  end.

Fixpoint waits_of (reg : gset nat) (waits : list (Z * hc_wait)) : Prop :=
  match waits with
  | [] => True
  | (_, Wait_events evs) :: waits => events_of reg evs ∧ waits_of (remaining reg evs) waits
  | _ :: waits => waits_of reg waits
  end.

(** Probe [i] is reported connected in [waits]. *)
Definition answers (waits : list (Z * hc_wait)) (i : nat) : Prop :=
  ∃ now evs, (now, Wait_events evs) ∈ waits ∧ Ev_probe i 0 ∈ evs.

Definition woken (waits : list (Z * hc_wait)) : Prop :=
  ∃ now evs, (now, Wait_events evs) ∈ waits ∧ Ev_wake ∈ evs.

(** The first [n] probes have been started and those in [reg] are in flight. *)
Record round_inv (open0 : fds) (reg : gset nat) (n : nat) (r : round) : Prop := {
  ri_socks : length (r_socks r) = n;
  ri_done_length : length (r_done r) = n;
  ri_done i : (i < n)%nat → r_done r !! i = Some (bool_decide (i ∉ reg));
  ri_lt i : i ∈ reg → (i < n)%nat;
  ri_pending : r_pending r = Z.of_nat (size reg);
  ri_open fd : fd ∈ r_open r ↔ fd ∈ open0 ∨ ∃ i, i ∈ reg ∧ r_socks r !! i = Some fd;
  ri_inj i j fd : i ∈ reg → j ∈ reg → r_socks r !! i = Some fd → r_socks r !! j = Some fd → i = j;
  ri_new i fd : i ∈ reg → r_socks r !! i = Some fd → fd ∉ open0;
}.

Lemma reg_size (reg : gset nat) n : (∀ i, i ∈ reg → (i < n)%nat) → (size reg ≤ n)%nat.
Proof.
  intros H. rewrite <- (size_set_seq (C := gset nat) 0 n). apply subseteq_size.
  intros i Hi. apply elem_of_set_seq. specialize (H i Hi). lia.
Qed.

(** A probe that fails at once leaves nothing behind. *)
Lemma round_inv_skip open0 reg n r open sock :
  round_inv open0 reg n r → open = r_open r → round_inv open0 reg (S n) (skip_probe open sock r).
Proof.
  intros [Hs Hd Hdone Hlt Hp Ho Hinj Hnew] ->.
  assert (∀ i, i ∈ reg → (r_socks r ++ [sock]) !! i = r_socks r !! i) as Hold.
  { intros i Hi%Hlt. apply lookup_app_l. lia. }
  split; simpl; try done.
  - rewrite length_app. simpl. lia.
  - rewrite length_app. simpl. lia.
  - intros i Hi. destruct (decide (i = n)) as [-> |].
    + rewrite lookup_app_r, Hd, Nat.sub_diag by lia. rewrite bool_decide_true; [done|]. intros ?%Hlt. lia.
    + rewrite lookup_app_l by lia. apply Hdone. lia.
  - intros i Hi%Hlt. lia.
  - intros fd. rewrite Ho. split; intros [?|(i & Hi & E)]; [by left| |by left|]; right; exists i.
    + by rewrite Hold.
    + by rewrite Hold in E.
  - intros i j fd Hi Hj. rewrite !Hold by done. by apply Hinj.
  - intros i fd Hi. rewrite Hold by done. by apply Hnew.
Qed.

Lemma round_inv_start open0 reg n r sock :
  round_inv open0 reg n r → sock ∉ r_open r → (n < BACKEND_MAX)%nat →
  round_inv open0 ({[n]} ∪ reg) (S n)
    {| r_open := {[sock]} ∪ r_open r; r_socks := r_socks r ++ [sock]; r_done := r_done r ++ [false];
       r_pending := u64 (r_pending r + 1) |}.
Proof.
  intros [Hs Hd Hdone Hlt Hp Ho Hinj Hnew] Hsock Hn.
  assert (n ∉ reg) as Hnr by (intros ?%Hlt; lia).
  assert (∀ i, i ∈ reg → (r_socks r ++ [sock]) !! i = r_socks r !! i) as Hold.
  { intros i Hi%Hlt. apply lookup_app_l. lia. }
  assert ((r_socks r ++ [sock]) !! n = Some sock) as Hlast by (by rewrite lookup_app_r, Hs, Nat.sub_diag by lia).
  assert (∀ i, i ∈ reg → r_socks r !! i ≠ Some sock) as Hne.
  { intros i Hi E. apply Hsock, Ho. eauto. }
  split; simpl.
  - rewrite length_app. simpl. lia.
  - rewrite length_app. simpl. lia.
  - intros i Hi. destruct (decide (i = n)) as [-> |].
    + rewrite lookup_app_r, Hd, Nat.sub_diag by lia. rewrite bool_decide_false; [done|set_solver].
    + rewrite lookup_app_l, Hdone by lia. f_equal. apply bool_decide_ext. set_solver.
  - intros i [->%elem_of_singleton|Hi%Hlt]%elem_of_union; lia.
  - pose proof (reg_size reg n Hlt). rewrite size_union, size_singleton by set_solver.
    unfold u64, BACKEND_MAX in *. rewrite Z.mod_small; lia.
  - intros fd. rewrite elem_of_union, elem_of_singleton, Ho. setoid_rewrite elem_of_union. split.
    + intros [-> |[?|(i & Hi & E)]]; [right; exists n|by left|right; exists i].
      * split; [set_solver|done].
      * split; [by right|by rewrite Hold].
    + intros [?|(i & [->%elem_of_singleton|Hi] & E)]; [by right; left|left; congruence|].
      right; right. exists i. by rewrite Hold in E.
  - intros i j fd [->%elem_of_singleton|Hi]%elem_of_union [->%elem_of_singleton|Hj]%elem_of_union;
      rewrite ?Hlast, ?Hold by done; [done|intros [= <-] ?; by apply Hne in Hj..| |].
    + intros ? [= <-]. by apply Hne in Hi.
    + by apply Hinj.
  - intros i fd [->%elem_of_singleton|Hi]%elem_of_union; rewrite ?Hlast, ?Hold by done.
    + intros [= <-] Hin. apply Hsock, Ho. by left.
    + by apply Hnew.
Qed.

(** Handling the event of probe [i]. *)
Lemma round_inv_event open0 reg n r i :
  round_inv open0 reg n r → i ∈ reg → (n ≤ BACKEND_MAX)%nat →
  ∃ sock, rd (r_socks r) i = Val sock ∧ close_fd (r_open r) sock = Val (r_open r ∖ {[sock]}) ∧
    wr (r_done r) i true = Val (<[i:=true]> (r_done r)) ∧
    round_inv open0 (reg ∖ {[i]}) n
      {| r_open := r_open r ∖ {[sock]}; r_socks := r_socks r; r_done := <[i:=true]> (r_done r);
         r_pending := u64 (r_pending r - 1) |}.
Proof.
  intros [Hs Hd Hdone Hlt Hp Ho Hinj Hnew] Hi Hn. pose proof (Hlt i Hi) as Hin.
  destruct (rd_lt (r_socks r) i) as (sock & Hsock & ->); [lia|]. exists sock. split; [done|].
  assert (sock ∈ r_open r) as Hopen by (apply Ho; eauto).
  unfold close_fd. rewrite decide_True by done. split; [done|]. rewrite wr_lt by lia. split; [done|].
  split; simpl; try done.
  - by rewrite length_insert.
  - intros j Hj. destruct (decide (j = i)) as [-> |].
    + rewrite list_lookup_insert_eq by lia. rewrite bool_decide_true; [done|set_solver].
    + rewrite list_lookup_insert_ne, Hdone by done. f_equal. apply bool_decide_ext. set_solver.
  - intros j Hj. apply Hlt. set_solver.
  - rewrite Hp. pose proof (reg_size reg n Hlt). rewrite (union_difference_L {[i]} reg) at 1 by set_solver.
    rewrite (union_difference_L {[i]} reg) in H at 1 by set_solver.
    rewrite size_union, size_singleton in * by set_solver. unfold u64, BACKEND_MAX in *.
    rewrite Z.mod_small; lia.
  - intros fd. rewrite elem_of_difference, elem_of_singleton, Ho. split.
    + intros [[?|(j & Hj & E)] Hne]; [by left|]. right. exists j. split; [|done].
      apply elem_of_difference. split; [done|]. intros ->%elem_of_singleton. congruence.
    + intros [Hfd|(j & [Hj Hji]%elem_of_difference & E)].
      * split; [by left|]. intros ->. by apply (Hnew i sock).
      * split; [eauto|]. intros ->. apply Hji, elem_of_singleton. by eapply Hinj.
  - intros j k fd [Hj _]%elem_of_difference [Hk _]%elem_of_difference. by apply Hinj.
  - intros j fd [Hj _]%elem_of_difference. by apply Hnew.
Qed.

(** ** One result per backend *)

(** [ops] contains exactly one result for each backend whose index is in [fin];
    a success only for those in [A]. *)
Record settled (bs : list backend) (fin A : nat → Prop) (ops : list hc_op) : Prop := {
  se_nodup : NoDup (fst <$> probes ops);
  se_iff id : id ∈ fst <$> probes ops ↔ ∃ i b, fin i ∧ bs !! i = Some b ∧ b_id b = id;
  se_ok id : (id, true) ∈ probes ops → ∃ i b, A i ∧ bs !! i = Some b ∧ b_id b = id;
}.

Lemma settled_iff bs fin fin' A ops :
  settled bs fin A ops → (∀ i, (i < length bs)%nat → fin i ↔ fin' i) → settled bs fin' A ops.
Proof.
  intros [Hn Hi Ho] H. split; [done| |done]. intros id. rewrite Hi.
  split; intros (i & b & Hf & Hb & E); exists i, b; (split; [|done]);
    apply H; try done; by eapply lookup_lt_Some.
Qed.

Lemma settled_lines bs fin A ops ops' : settled bs fin A ops → probes ops' = [] → settled bs fin A (ops ++ ops').
Proof.
  intros [Hn Hi Ho] E. assert (probes (ops ++ ops') = probes ops) as E' by (by rewrite probes_app, E, app_nil_r).
  split; by rewrite E'.
Qed.

Lemma settled_probe bs (fin fin' A : nat → Prop) ops i b ok :
  NoDup (b_id <$> bs) → settled bs fin A ops → bs !! i = Some b → ¬ fin i → (ok = true → A i) →
  (∀ j, (j < length bs)%nat → fin' j ↔ fin j ∨ j = i) →
  settled bs fin' A (ops ++ [Op_probe (b_id b) ok]).
Proof.
  intros Hnd [Hn Hi Ho] Hb Hfin Hok Hfin'. assert (probes (ops ++ [Op_probe (b_id b) ok]) = probes ops ++ [(b_id b, ok)]) as E
    by (by rewrite probes_app).
  assert (∀ j b', bs !! j = Some b' → b_id b' = b_id b → j = i) as Huniq.
  { intros j b' Hj Eid. eapply (NoDup_lookup _ _ _ (b_id b) Hnd); rewrite list_lookup_fmap.
    - rewrite Hj. simpl. by rewrite Eid.
    - by rewrite Hb. }
  split; rewrite E.
  - rewrite fmap_app. apply NoDup_app. split; [done|]. split; [|apply NoDup_singleton].
    intros id Hin ->%list_elem_of_singleton. apply Hi in Hin as (j & b' & Hj & Hb' & Eid).
    apply Hfin. by rewrite <- (Huniq j b').
  - intros id. rewrite fmap_app, elem_of_app, Hi. cbn [fmap list_fmap fst]. rewrite list_elem_of_singleton. split.
    + intros [(j & b' & Hj & Hb' & Eid)| ->]; [exists j, b'|exists i, b]; (split; [|done]);
        apply Hfin'; (by eapply lookup_lt_Some) || auto.
    + intros (j & b' & Hj & Hb' & Eid). apply Hfin' in Hj as [Hj| ->]; [left; eauto|right; by simplify_eq|].
      by eapply lookup_lt_Some.
  - intros id [Hin|[= -> Eok]%list_elem_of_singleton]%elem_of_app; [by apply Ho|]. exists i, b. auto.
Qed.

Lemma settled_nil bs fin A : (∀ i, (i < length bs)%nat → ¬ fin i) → settled bs fin A [].
Proof.
  intros Hf. split; simpl; [constructor| |by intros id ?%not_elem_of_nil].
  intros id. split; [by intros ?%not_elem_of_nil|]. intros (i & b & Hi & Hb & _). exfalso.
  by eapply Hf, Hi; eapply lookup_lt_Some.
Qed.

(** ** The loops of a round *)

Section Round.
Context {St : Type} `{Snd : SettersSound St Inv}.
Implicit Types (c : hc_core St) (hc : health_checker St).
Context (h0 : Z → bool) (bs : list backend) (open0 : fds) (A : nat → Prop).
Hypothesis (Hnd : NoDup (b_id <$> bs)).
Hypothesis (Hmax : (length bs ≤ BACKEND_MAX)%nat).

(** The backends probed are those of the manager throughout. *)
Definition probing (h : history) hc : Prop :=
  hc_good (Inv := Inv) h0 h hc ∧ b_id <$> backends_of (hc_core_of hc) = b_id <$> bs.

Lemma probing_advance h hc ops hc' :
  probing h hc → advance (Inv := Inv) h0 h hc ops hc' → probing (reverse (probes ops) ++ h) hc'.
Proof. intros [_ Hids] Ha. split; [apply Ha|]. by rewrite (ad_ids _ _ _ _ _ Ha). Qed.

Lemma probing_record h hc i b ok :
  probing h hc → bs !! i = Some b →
  ∃ c', record_result (hc_core_of hc) (b_id b) ok = Val c' ∧
    advance (Inv := Inv) h0 h hc [Op_probe (b_id b) ok] (set_core c' hc).
Proof.
  intros [Hg Hids] Hb. apply advance_probe; [done|]. rewrite Hids.
  apply list_elem_of_fmap_2. by eapply list_elem_of_lookup_2.
Qed.

Lemma start_connect_spec e open b :
  (0 ≤ pe_socket e → pe_socket e ∉ open) →
  ∃ open' sock, start_connect e open (b_addr b) (b_port b) = Val (open', sock) ∧
    (sock < 0 ∧ open' = open ∧ connects e b = false ∨
     0 ≤ sock ∧ sock = pe_socket e ∧ open' = {[sock]} ∪ open ∧ connects e b = bool_decide (pe_ctl e = 0)).
Proof.
  intros Hfresh. unfold start_connect, connects. case_decide as Hneg.
  { do 2 eexists. split; [done|]. left. rewrite bool_decide_false by lia. by split_and!. }
  rewrite (bool_decide_true (0 ≤ _)) by lia. destruct (pe_connect e _) as [r errno].
  case_decide as Hc.
  - rewrite bool_decide_true by done. do 2 eexists. split; [done|]. right. by split_and!; [lia|..].
  - unfold close_fd. rewrite decide_True, bind_Val by set_solver. do 2 eexists. split; [done|]. left.
    rewrite bool_decide_false by done. split_and!; [lia| |done].
    specialize (Hfresh ltac:(lia)). apply leibniz_equiv. set_solver.
Qed.

Lemma connect_all_spec h hc env i bs' r reg ops0 :
  probing h hc → bs' = drop i bs → (i ≤ length bs)%nat → round_inv open0 reg i r →
  sockets_fresh env i bs' (r_open r) → settled bs (λ j, (j < i)%nat ∧ j ∉ reg) A ops0 →
  ∃ hc' r' ops, connect_all hc env i bs' r = Val (hc', r') ∧ advance (Inv := Inv) h0 h hc ops hc' ∧
    round_inv open0 (reg ∪ registered env i bs') (length bs) r' ∧
    settled bs (λ j, j ∉ reg ∪ registered env i bs') A (ops0 ++ ops).
Proof.
  revert h hc i r reg ops0. induction bs' as [|b bs' IH]; intros h hc i r reg ops0 Hg Hbs Hi Hr Hf Hs.
  - cbn [connect_all registered]. assert (i = length bs) as ->.
    { assert (length (drop i bs) = 0%nat) by (by rewrite <- Hbs). rewrite length_drop in *. lia. }
    exists hc, r, []. split; [done|]. rewrite app_nil_r, union_empty_r_L. split_and!; [|done|].
    + apply advance_refl, Hg.
    + eapply settled_iff; [done|]. intros j Hj. simpl. rewrite union_empty_r_L. tauto.
  - assert (bs !! i = Some b ∧ bs' = drop (S i) bs ∧ (i < length bs)%nat) as (Hb & Hbs' & Hlt).
    { assert (i < length bs)%nat as Hlt.
      { apply (f_equal length) in Hbs. rewrite length_drop in Hbs. simpl in Hbs. lia. }
      destruct (lookup_lt_is_Some_2 bs i Hlt) as [b' Hb']. rewrite (drop_S _ _ _ Hb') in Hbs. by simplify_eq. }
    assert (i ∉ reg) as Hireg by (intros ?%(ri_lt _ _ _ _ Hr); lia).
    cbn [connect_all sockets_fresh registered] in *. destruct Hf as [Hf1 Hf].
    destruct (start_connect_spec (env i) (r_open r) b Hf1) as (open & sock & -> & Hcase). rewrite bind_Val.
    assert (∀ open sock, open = r_open r → connects (env i) b = false →
      ∃ hc' r' ops, (c ← record_result (hc_core_of hc) (b_id b) false;
          connect_all (set_core c hc) env (S i) bs' (skip_probe open sock r)) = Val (hc', r') ∧
        advance (Inv := Inv) h0 h hc ops hc' ∧
        round_inv open0 (reg ∪ (∅ ∪ registered env (S i) bs')) (length bs) r' ∧
        settled bs (λ j, j ∉ reg ∪ (∅ ∪ registered env (S i) bs')) A (ops0 ++ ops)) as Hfail.
    { intros open' sock' -> Hc. destruct (probing_record h hc i b false Hg Hb) as (c' & -> & A1). rewrite bind_Val.
      destruct (IH (reverse (probes [Op_probe (b_id b) false]) ++ h) (set_core c' hc) (S i)
        (skip_probe (r_open r) sock' r) reg (ops0 ++ [Op_probe (b_id b) false]))
        as (hc' & r' & ops & -> & A2 & Hr' & Hs').
      - by eapply probing_advance.
      - done.
      - done.
      - by apply round_inv_skip.
      - by rewrite Hc in Hf.
      - eapply settled_probe; [done|done|done|simpl; lia|done|]. intros j _. simpl.
        destruct (decide (j = i)) as [-> |]; [naive_solver lia|]. split; intros; [left|]; naive_solver lia.
      - exists hc', r', (Op_probe (b_id b) false :: ops).
        assert (∅ ∪ registered env (S i) bs' = registered env (S i) bs') as -> by apply union_empty_l_L.
        split_and!; [done| |done|].
        + by apply (advance_trans _ _ _ _ _ [Op_probe (b_id b) false] ops A1).
        + by rewrite <- (assoc_L (++)) in Hs'. }
    destruct Hcase as [(Hneg & -> & Hc)|(Hpos & -> & -> & Hc)].
    + rewrite decide_True, Hc by done. by apply Hfail.
    + rewrite decide_False by lia. destruct (decide (pe_ctl (env i) ≠ 0)) as [Hctl|Hctl].
      * rewrite bool_decide_false in Hc by done. unfold close_fd. rewrite decide_True, bind_Val by set_solver.
        rewrite Hc. apply Hfail; [|done]. apply leibniz_equiv. specialize (Hf1 Hpos). set_solver.
      * rewrite bool_decide_true in Hc by (destruct (decide (pe_ctl (env i) = 0)); tauto). rewrite Hc in Hf |- *.
        destruct (IH h hc (S i) {| r_open := {[pe_socket (env i)]} ∪ r_open r; r_socks := r_socks r ++ [pe_socket (env i)];
            r_done := r_done r ++ [false]; r_pending := u64 (r_pending r + 1) |} ({[i]} ∪ reg) ops0)
          as (hc' & r' & ops & -> & A2 & Hr' & Hs'); try done.
        { apply round_inv_start; [done|by apply Hf1|lia]. }
        { eapply settled_iff; [done|]. intros j _. simpl. rewrite not_elem_of_union, not_elem_of_singleton.
          destruct (decide (j = i)) as [-> |]; [naive_solver lia|]. naive_solver lia. }
        exists hc', r', ops.
        replace (reg ∪ ({[i]} ∪ registered env (S i) bs')) with ({[i]} ∪ reg ∪ registered env (S i) bs')
          by (apply leibniz_equiv; set_solver). done.
Qed.

Lemma round_events_spec h hc evs r reg ops0 :
  probing h hc → round_inv open0 reg (length bs) r → events_of reg evs →
  (∀ i, Ev_probe i 0 ∈ evs → A i) → settled bs (λ j, j ∉ reg) A ops0 →
  ∃ hc' r' aborted ops, round_events hc bs evs r = Val (hc', r', aborted) ∧
    advance (Inv := Inv) h0 h hc ops hc' ∧ round_inv open0 (remaining reg evs) (length bs) r' ∧
    settled bs (λ j, j ∉ remaining reg evs) A (ops0 ++ ops) ∧ (aborted = true → Ev_wake ∈ evs).
Proof.
  revert h hc r reg ops0. induction evs as [|[|reads|i err] evs IH]; intros h hc r reg ops0 Hg Hr He HA Hs;
    cbn [round_events events_of remaining] in *.
  - exists hc, r, false, []. rewrite app_nil_r. split_and!; try done. apply advance_refl, Hg.
  - exists hc, r, true, []. rewrite app_nil_r. split_and!; try done; [apply advance_refl, Hg|]. left.
  - destruct (process_admin_fifo_advance h0 h hc reads (proj1 Hg)) as (hc1 & ops1 & -> & A1 & P1).
    rewrite bind_Val. destruct (IH (reverse (probes ops1) ++ h) hc1 r reg (ops0 ++ ops1))
      as (hc' & r' & ab & ops & -> & A2 & Hr' & Hs' & Hab); try done.
    + by eapply probing_advance.
    + intros i Hi. apply HA. by right.
    + by apply settled_lines.
    + exists hc', r', ab, (ops1 ++ ops). rewrite (assoc_L (++)). split_and!; try done.
      * by eapply advance_trans.
      * intros Hw%Hab. by right.
  - destruct He as [Hi He]. pose proof (ri_lt _ _ _ _ Hr i Hi) as Hlt.
    destruct (round_inv_event open0 reg _ r i Hr Hi Hmax) as (sock & -> & E1 & E2 & Hr1). rewrite bind_Val, E1, bind_Val, E2, bind_Val.
    destruct (rd_lt bs i Hlt) as (b & Hb & ->). rewrite bind_Val.
    set (ok := bool_decide (err = 0)).
    destruct (probing_record h hc i b ok Hg Hb) as (c' & -> & A1). rewrite bind_Val.
    match type of Hr1 with round_inv _ _ _ ?r1 => set (r1' := r1) in * end.
    destruct (IH (reverse (probes [Op_probe (b_id b) ok]) ++ h) (set_core c' hc) r1' (reg ∖ {[i]})
      (ops0 ++ [Op_probe (b_id b) ok])) as (hc' & r' & ab & ops & -> & A2 & Hr' & Hs' & Hab); [|exact Hr1|done|..].
    + by eapply probing_advance.
    + intros j Hj. apply HA. by right.
    + eapply settled_probe; [done|done|done|naive_solver| |].
      * intros ->%bool_decide_eq_true. apply HA. left.
      * intros j _. rewrite not_elem_of_difference, elem_of_singleton. done.
    + exists hc', r', ab, ([Op_probe (b_id b) ok] ++ ops). rewrite (assoc_L (++)). split_and!; try done.
      * by eapply advance_trans.
      * intros Hw%Hab. by right.
Qed.

Lemma round_wait_spec h hc deadline waits r reg ops0 :
  probing h hc → round_inv open0 reg (length bs) r → waits_of reg waits →
  (∀ i, answers waits i → A i) → settled bs (λ j, j ∉ reg) A ops0 →
  Exists (λ w, s64 deadline - s64 w.1 ≤ 0) waits →
  ∃ hc' r' aborted ops reg', round_wait hc bs deadline waits r = Val (hc', r', aborted) ∧
    advance (Inv := Inv) h0 h hc ops hc' ∧ round_inv open0 reg' (length bs) r' ∧
    settled bs (λ j, j ∉ reg') A (ops0 ++ ops) ∧ (aborted = true → woken waits).
Proof.
  revert h hc r reg ops0. induction waits as [|[now w] waits IH]; intros h hc r reg ops0 Hg Hr Hw HA Hs Hex.
  { by apply Exists_nil in Hex. }
  assert (∀ hc r reg ops, round_inv open0 reg (length bs) r → probing h hc →
    settled bs (λ j, j ∉ reg) A ops → ∃ hc' r' aborted ops' reg', Val (hc, r, false) = Val (hc', r', aborted) ∧
    advance (Inv := Inv) h0 h hc ops' hc' ∧ round_inv open0 reg' (length bs) r' ∧
    settled bs (λ j, j ∉ reg') A (ops ++ ops') ∧ (aborted = true → woken ((now, w) :: waits))) as Hstop.
  { intros hc1 r1 reg1 ops1 ? [Hg1 ?] ?. exists hc1, r1, false, [], reg1. rewrite app_nil_r.
    by split_and!. }
  cbn [round_wait]. case_decide; [by eapply Hstop|]. case_decide as Hdl; [by eapply Hstop|].
  assert (Exists (λ w, s64 deadline - s64 w.1 ≤ 0) waits) as Hex' by (apply Exists_cons in Hex as [?|?]; [simpl in *; lia|done]).
  assert (∀ i, answers waits i → A i) as HA'.
  { intros i (n & evs & Hin & ?). apply HA. exists n, evs. split; [by right|done]. }
  assert (woken waits → woken ((now, w) :: waits)) as Hwk.
  { intros (n & evs & Hin & ?). exists n, evs. split; [by right|done]. }
  destruct w as [| |evs]; cbn [waits_of] in Hw.
  - destruct (IH h hc r reg ops0) as (hc' & r' & ab & ops & reg' & -> & ? & ? & ? & Hab); try done.
    exists hc', r', ab, ops, reg'. split_and!; try done. auto.
  - by eapply Hstop.
  - destruct Hw as [Hev Hw].
    destruct (round_events_spec h hc evs r reg ops0) as (hc1 & r1 & ab1 & ops1 & -> & A1 & Hr1 & Hs1 & Hab1); try done.
    { intros i Hi. apply HA. exists now, evs. split; [left|done]. }
    rewrite bind_Val. destruct ab1.
    + exists hc1, r1, true, ops1, (remaining reg evs). split_and!; try done. intros _.
      exists now, evs. split; [left|auto].
    + destruct (IH (reverse (probes ops1) ++ h) hc1 r1 (remaining reg evs) (ops0 ++ ops1))
        as (hc' & r' & ab & ops & reg' & -> & A2 & ? & Hs2 & Hab); try done.
      { by eapply probing_advance. }
      exists hc', r', ab, (ops1 ++ ops), reg'. rewrite (assoc_L (++)). split_and!; try done; [|auto].
      by eapply advance_trans.
Qed.

Lemma close_rest_spec h hc aborted i bs' r reg open ops0 :
  probing h hc → round_inv open0 reg (length bs) r → bs' = drop i bs → (i ≤ length bs)%nat →
  (∀ fd, fd ∈ open ↔ fd ∈ open0 ∨ ∃ j, (i ≤ j)%nat ∧ j ∈ reg ∧ r_socks r !! j = Some fd) →
  settled bs (λ j, (j < i)%nat ∨ j ∉ reg) A ops0 ∨ aborted = true →
  ∃ hc' ops, close_rest hc aborted bs' (drop i (r_socks r)) (drop i (r_done r)) open = Val (hc', open0) ∧
    advance (Inv := Inv) h0 h hc ops hc' ∧
    (aborted = true ∧ ops = [] ∨ aborted = false ∧ settled bs (λ _, True) A (ops0 ++ ops)).
Proof.
  revert h hc i open ops0. induction bs' as [|b bs' IH]; intros h hc i open ops0 Hg Hr Hbs Hi Ho Hs.
  - assert (i = length bs) as ->.
    { assert (length (drop i bs) = 0%nat) by (by rewrite <- Hbs). rewrite length_drop in *. lia. }
    exists hc, []. cbn [close_rest]. rewrite app_nil_r. split_and!.
    + do 2 f_equal. apply leibniz_equiv. intros fd. rewrite Ho. split; [|by left].
      intros [?|(j & ? & ?%(ri_lt _ _ _ _ Hr) & _)]; [done|lia].
    + apply advance_refl, Hg.
    + destruct aborted; [by left|]. right. destruct Hs as [Hs|]; [|done]. split; [done|].
      eapply settled_iff; [done|]. simpl. intros j Hj. tauto.
  - assert (i < length bs)%nat as Hlt.
    { apply (f_equal length) in Hbs. rewrite length_drop in Hbs. simpl in Hbs. lia. }
    destruct (lookup_lt_is_Some_2 bs i Hlt) as [b' Hb]. rewrite (drop_S _ _ _ Hb) in Hbs. injection Hbs as -> Hbs.
    destruct (lookup_lt_is_Some_2 (r_socks r) i) as [sock Hsock]; [by rewrite (ri_socks _ _ _ _ Hr)|].
    rewrite (drop_S _ _ _ Hsock), (drop_S _ _ _ (ri_done _ _ _ _ Hr i Hlt)). cbn [close_rest].
    case_bool_decide as Hreg; cbn [negb].
    + apply IH; try done. 2:{ destruct Hs as [Hs|]; [left|by right]. eapply settled_iff; [done|]. intros j _. simpl.
        destruct (decide (j = i)) as [-> |]; [naive_solver lia|]. naive_solver lia. }
      intros fd. rewrite Ho. split; intros [?|(j & ? & ? & ?)]; [by left| |by left|]; right; exists j; split_and!; try done; [|lia].
      destruct (decide (j = i)) as [-> |]; [done|lia].
    + unfold close_fd. rewrite decide_True, bind_Val by (apply Ho; right; eauto).
      assert (∀ fd, fd ∈ open ∖ {[sock]} ↔ fd ∈ open0 ∨ ∃ j, (S i ≤ j)%nat ∧ j ∈ reg ∧ r_socks r !! j = Some fd) as Ho'.
      { intros fd. rewrite elem_of_difference, elem_of_singleton, Ho. split.
        - intros [[?|(j & ? & ? & ?)] Hne]; [by left|]. right. exists j. split_and!; try done.
          destruct (decide (j = i)) as [-> |]; [congruence|lia].
        - intros [Hfd|(j & ? & ? & ?)].
          + split; [by left|]. intros ->. by apply (ri_new _ _ _ _ Hr i sock).
          + split; [right; exists j; split_and!; try done; lia|]. intros ->.
            assert (i = j) by (by eapply (ri_inj _ _ _ _ Hr)). lia. }
      destruct aborted; cbn [negb].
      * rewrite bind_Val. apply IH; try done. by right.
      * destruct Hs as [Hs|]; [|done]. destruct (probing_record h hc i b' false Hg Hb) as (c' & -> & A1). rewrite !bind_Val.
        destruct (IH (reverse (probes [Op_probe (b_id b') false]) ++ h) (set_core c' hc) (S i) (open ∖ {[sock]})
          (ops0 ++ [Op_probe (b_id b') false])) as (hc' & ops & -> & A2 & Hcase); try done.
        { by eapply probing_advance. }
        { left. eapply settled_probe; [done|done|done|naive_solver lia|done|]. intros j _. simpl.
          destruct (decide (j = i)) as [-> |]; [naive_solver lia|]. naive_solver lia. }
        exists hc', ([Op_probe (b_id b') false] ++ ops). rewrite (assoc_L (++)). split_and!; try done.
        { by eapply advance_trans. }
        right. destruct Hcase as [[? _]|Hcase]; done.
Qed.
End Round.
