(* ===== verification/HealthCheckerSpec.v ===== *)
(** * What the health checker guarantees

    A probe round records exactly one result per backend and closes every socket
    it opened; the health of a backend is the one its history of results calls
    for; the thread stops cleanly when asked; commands written to the FIFO are
    executed however [read] cuts them. *)

From Stdlib Require Import Lia String.
From stdpp Require Import base numbers list gmap.
From S2P Require Import Prelude Net Hash Text Kernel Maglev Stats BackendManager TableGenerator HealthChecker.

Local Open Scope Z_scope.

Section Theorems.
Context {St : Type} `{Snd : SettersSound St Inv}.
Implicit Types (c : hc_core St) (hc : health_checker St).

(** The kernel behaves during a round: descriptors are fresh, events are those
    of registered sockets, and the clock gets past the deadline. *)
Record round_honest hc (env : nat → probe_env) (now : Z) (waits : list (Z * hc_wait)) (open : fds) : Prop := {
  rh_sockets : sockets_fresh env 0 (backends_of (hc_core_of hc)) open;
  rh_waits : waits_of (registered env 0 (backends_of (hc_core_of hc))) waits;
  rh_clock : Exists (λ w, s64 (u64 (now + timeout_ms (hc_cfg (hc_core_of hc)))) - s64 w.1 ≤ 0) waits;
}.

(** What a round from [hc] to [hc'] did: [ops], with at most one result per
    backend, exactly one unless it was aborted by a wakeup, and success only for
    a probe the kernel reported connected. *)
Record round_done hc (waits : list (Z * hc_wait)) hc' (aborted : bool) (ops : list hc_op) : Prop := {
  rd_run : run_ops (hc_core_of hc) ops = Val (hc_core_of hc');
  rd_once : NoDup (fst <$> probes ops);
  rd_all : aborted = false → fst <$> probes ops ≡ₚ b_id <$> backends_of (hc_core_of hc);
  rd_woken : aborted = true → woken waits;
  rd_success id : (id, true) ∈ probes ops →
    ∃ i b, answers waits i ∧ backends_of (hc_core_of hc) !! i = Some b ∧ b_id b = id;
}.

Lemma run_probe_round_spec h0 h hc env now waits open :
  hc_good (Inv := Inv) h0 h hc → round_honest hc env now waits open →
  ∃ hc' aborted ops, run_probe_round hc env now waits open = Val (hc', open, aborted) ∧
    round_done hc waits hc' aborted ops ∧ advance (Inv := Inv) h0 h hc ops hc'.
Proof.
  intros Hg [Hf Hw Hclk]. pose proof Hg as (Hok & _ & _).
  pose proof (inv_bm_ok _ (co_inv _ Hok)) as Hbm.
  unfold run_probe_round, backend_manager_snapshot_all. rewrite collect_all, filter_Forall, bind_Val by (done || by apply Forall_true).
  change (live (get_bm (hc_bm (hc_core_of hc)))) with (backends_of (hc_core_of hc)).
  destruct (backends_of (hc_core_of hc)) as [|b0 bs0] eqn:Ebs.
  { exists hc, false, []. split; [done|]. split; [|by apply advance_refl].
    split; simpl; [done|constructor|intros _; rewrite Ebs; reflexivity|done|by intros ? ?%not_elem_of_nil]. }
  rewrite <- Ebs in *. clear Ebs b0 bs0. set (bs := backends_of (hc_core_of hc)) in *.
  assert (NoDup (b_id <$> bs)) as Hnd by (by apply live_ids_NoDup).
  assert (length bs ≤ BACKEND_MAX)%nat as Hmax by (by apply live_length).
  set (r0 := {| r_open := open; r_socks := []; r_done := []; r_pending := 0 |}).
  assert (round_inv open ∅ 0 r0) as Hr0.
  { split; simpl; try done; try lia; set_solver. }
  destruct (connect_all_spec (Inv := Inv) h0 bs open (answers waits) Hnd Hmax h hc env 0 bs r0 ∅ [])
    as (hc1 & r1 & ops1 & -> & A1 & Hr1 & Hs1); try done.
  { lia. }
  { apply settled_nil. intros i _. lia. }
  rewrite bind_Val. cbv zeta. rewrite (ad_cfg _ _ _ _ _ A1). rewrite union_empty_l_L in Hr1.
  assert (probing (Inv := Inv) h0 bs (reverse (probes ops1) ++ h) hc1) as Hg1 by (by eapply probing_advance).
  assert (settled bs (λ j, j ∉ registered env 0 bs) (answers waits) ops1) as Hs1'.
  { eapply settled_iff; [exact Hs1|]. intros j _. simpl. by rewrite union_empty_l_L. }
  destruct (round_wait_spec (Inv := Inv) h0 bs open (answers waits) Hnd Hmax _ hc1 _ waits r1 _ ops1
    Hg1 Hr1 Hw (λ i Hi, Hi) Hs1' Hclk) as (hc2 & r2 & ab & ops2 & reg & -> & A2 & Hr2 & Hs2 & Hab).
  rewrite bind_Val. pose proof (probing_advance _ _ _ _ _ _ Hg1 A2) as Hg2.
  destruct (close_rest_spec (Inv := Inv) h0 bs open (answers waits) Hnd Hmax _ hc2 ab 0 bs r2 reg (r_open r2) (ops1 ++ ops2) Hg2 Hr2)
    as (hc3 & ops3 & E & A3 & Hcase); try done; [lia| | |].
  { intros fd. rewrite (ri_open _ _ _ _ Hr2). split; intros [?|(j & H1)]; [by left| |by left|]; right; exists j; [|tauto].
    split; [lia|done]. }
  { left. eapply settled_iff; [exact Hs2|]. intros j _. simpl. split; [tauto|]. intros [?|?]; [lia|done]. }
  rewrite !drop_0 in E. rewrite E, bind_Val. exists hc3, ab, (ops1 ++ ops2 ++ ops3). split; [done|].
  assert (advance (Inv := Inv) h0 h hc (ops1 ++ ops2 ++ ops3) hc3) as Aall.
  { eapply advance_trans; [done|]. by eapply advance_trans. }
  split; [|done]. rewrite (assoc_L (++)) in Aall |- *.
  destruct Hcase as [[-> ->]|[-> Hs3]].
  - rewrite app_nil_r in *. split; [apply Aall|apply Hs2|done|done|]. intros id Hid.
    apply (se_ok _ _ _ _ Hs2) in Hid as (i & b & ? & ? & ?). eauto.
  - split; [apply Aall|apply Hs3| |done|].
    + intros _. apply NoDup_Permutation; [apply Hs3|done|]. intros id. rewrite (se_iff _ _ _ _ Hs3), list_elem_of_fmap.
      split.
      * intros (i & b & _ & Hb & <-). exists b. split; [done|]. by eapply list_elem_of_lookup_2.
      * intros (b & -> & [i Hi]%list_elem_of_lookup). eauto.
    + intros id Hid. apply (se_ok _ _ _ _ Hs3) in Hid as (i & b & ? & ? & ?). eauto.
Qed.

Lemma wait_next_interval_advance h0 h hc ev :
  hc_good (Inv := Inv) h0 h hc →
  ∃ hc' ops, wait_next_interval hc ev = Val hc' ∧ advance (Inv := Inv) h0 h hc ops hc' ∧ probes ops = [].
Proof.
  intros Hg. destruct ev as [[|reads|i err]|]; cbn [wait_next_interval];
    [|by apply process_admin_fifo_advance|..]; exists hc, []; (split; [done|]); (split; [by apply advance_refl|done]).
Qed.

(** ** The thread *)

(** The kernel behaves in every round the thread runs. *)
Fixpoint kernel_honest hc (its : list iteration) (open : fds) : Prop :=
  match its with
  | [] => True
  | it :: its =>
      it_stop it = false →
      round_honest hc (it_env it) (it_now it) (it_waits it) open ∧
      ∀ hc1 open1 aborted hc2,
        run_probe_round hc (it_env it) (it_now it) (it_waits it) open = Val (hc1, open1, aborted) →
        it_stop_after it = false → wait_next_interval hc1 (it_event it) = Val hc2 →
        kernel_honest hc2 its open1
  end.

(** One iteration that does not stop. *)
Lemma thread_loop_step h0 h hc it its open :
  hc_good (Inv := Inv) h0 h hc → kernel_honest hc (it :: its) open →
  it_stop it = false → it_stop_after it = false →
  ∃ hc1 hc2 aborted ops ops', round_done hc (it_waits it) hc1 aborted ops ∧ probes ops' = [] ∧
    advance (Inv := Inv) h0 h hc (ops ++ ops') hc2 ∧ kernel_honest hc2 its open ∧
    thread_loop hc (it :: its) open = thread_loop hc2 its open.
Proof.
  intros Hg Hk Hst Hsa. destruct (Hk Hst) as [Hh Hk'].
  destruct (run_probe_round_spec h0 h hc _ _ _ _ Hg Hh) as (hc1 & ab & ops & E & Hd & A1).
  destruct (wait_next_interval_advance h0 _ hc1 (it_event it) (ad_good _ _ _ _ _ A1)) as (hc2 & ops' & E2 & A2 & P2).
  exists hc1, hc2, ab, ops, ops'. do 2 (split; [done|]). split; [by eapply advance_trans|].
  split; [by eapply Hk'|]. cbn [thread_loop]. by rewrite Hst, E, bind_Val, Hsa, E2, bind_Val.
Qed.

Lemma thread_loop_spec h0 h hc its open :
  hc_good (Inv := Inv) h0 h hc → kernel_honest hc its open →
  Exists (λ it, it_stop it = true ∨ it_stop_after it = true) its →
  ∃ hc' h', thread_loop hc its open = Val (hc', open) ∧ hc_good (Inv := Inv) h0 h' hc' ∧
    b_id <$> backends_of (hc_core_of hc') = b_id <$> backends_of (hc_core_of hc).
Proof.
  revert h hc. induction its as [|it its IH]; intros h hc Hg Hk Hex; [by apply Exists_nil in Hex|].
  destruct (it_stop it) eqn:Hst.
  { exists hc, h. cbn [thread_loop]. by rewrite Hst. }
  destruct (it_stop_after it) eqn:Hsa.
  { destruct (Hk Hst) as [Hh _].
    destruct (run_probe_round_spec h0 h hc _ _ _ _ Hg Hh) as (hc1 & ab & ops & E & Hd & A1).
    exists hc1, (reverse (probes ops) ++ h). cbn [thread_loop]. rewrite Hst, E, bind_Val, Hsa.
    split; [done|]. split; [apply A1|apply (ad_ids _ _ _ _ _ A1)]. }
  destruct (thread_loop_step h0 h hc it its open Hg Hk Hst Hsa) as (hc1 & hc2 & ab & ops & ops' & _ & _ & A & Hk2 & ->).
  destruct (IH _ hc2 (ad_good _ _ _ _ _ A) Hk2) as (hc' & h' & E & Hg' & Hids).
  { apply Exists_cons in Hex as [[?|?]|?]; [congruence..|done]. }
  exists hc', h'. split; [done|]. split; [done|]. by rewrite Hids, (ad_ids _ _ _ _ _ A).
Qed.

(** A round in which probe [i] gets no answer adds one failure to the history of
    its backend. *)
Lemma results_app id h h' : results id (h ++ h') = results id h ++ results id h'.
Proof. apply omap_app. Qed.

Lemma results_single id (l : history) :
  NoDup (fst <$> l) → id ∈ fst <$> l → (id, true) ∉ l → results id (reverse l) = [false].
Proof.
  intros Hnd Hin Ht. apply list_elem_of_fmap in Hin as ([id' ok] & -> & Hin). simpl in *.
  destruct ok; [done|]. apply list_elem_of_split in Hin as (l1 & l2 & ->).
  rewrite fmap_app in Hnd. cbn in Hnd.
  apply NoDup_app in Hnd as (_ & Hd & [Hn2 _]%NoDup_cons).
  assert (∀ l', id' ∉ fst <$> l' → results id' (reverse l') = []) as Hnone.
  { intros l' Hl'. unfold results. induction l' as [|[x o] l' IH]; [done|]. cbn in Hl'.
    apply not_elem_of_cons in Hl' as [Hx Hl']. rewrite reverse_cons. fold (results id' (reverse l' ++ [(x, o)])).
    rewrite results_app. unfold results at 1. rewrite IH by done. cbn. by rewrite decide_False. }
  rewrite reverse_app, reverse_cons, !results_app, (Hnone l1), (Hnone l2); [|done|].
  - cbn. by rewrite decide_True.
  - intros Hin. apply (Hd _ Hin). left.
Qed.

Lemma dead_rounds h0 h hc pre rest open i id :
  hc_good (Inv := Inv) h0 h hc → kernel_honest hc (pre ++ rest) open →
  (b_id <$> backends_of (hc_core_of hc)) !! i = Some id →
  Forall (λ it, it_stop it = false ∧ it_stop_after it = false ∧ ¬ woken (it_waits it) ∧
    ¬ answers (it_waits it) i) pre →
  ∃ hc' h', thread_loop hc (pre ++ rest) open = thread_loop hc' rest open ∧ hc_good (Inv := Inv) h0 h' hc' ∧
    hc_cfg (hc_core_of hc') = hc_cfg (hc_core_of hc) ∧
    results id h' = replicate (length pre) false ++ results id h.
Proof.
  intros Hg Hk Hi Hpre. revert h hc Hg Hk Hi. induction Hpre as [|it pre (Hst & Hsa & Hnw & Hna) _ IH]; intros h hc Hg Hk Hi.
  { by exists hc, h. }
  simpl app in *. destruct (thread_loop_step h0 h hc it (pre ++ rest) open Hg Hk Hst Hsa)
    as (hc1 & hc2 & ab & ops & ops' & Hd & P2 & A & Hk2 & ->).
  destruct (IH _ hc2 (ad_good _ _ _ _ _ A) Hk2) as (hc' & h' & E & Hg' & Hcfg & Hres).
  { by rewrite (ad_ids _ _ _ _ _ A). }
  exists hc', h'. split; [done|]. split; [done|]. split; [by rewrite Hcfg, (ad_cfg _ _ _ _ _ A)|].
  rewrite Hres, probes_app, P2, app_nil_r, results_app.
  rewrite (results_single id (probes ops)); [|apply Hd| |].
  - by rewrite (assoc_L (++)), <- replicate_cons_app.
  - assert (ab = false) as -> by (destruct ab; [by destruct (Hnw (rd_woken _ _ _ _ _ Hd eq_refl))|done]).
    rewrite (rd_all _ _ _ _ _ Hd eq_refl). by eapply list_elem_of_lookup_2.
  - intros (j & b & Hans & Hb & Eid)%(rd_success _ _ _ _ _ Hd). apply Hna.
    destruct Hg as (Hok & _). pose proof (live_ids_NoDup _ (inv_bm_ok _ (co_inv _ Hok))) as Hnd.
    assert (i = j) as ->; [|done]. eapply (NoDup_lookup _ i j id Hnd Hi). rewrite list_lookup_fmap.
    unfold backends_of in Hb. rewrite Hb. simpl. by rewrite Eid.
Qed.

Lemma run_length_replicate n rs : Z.of_nat n ≤ run_length false (replicate n false ++ rs).
Proof. induction n as [|n IH]; simpl; [apply run_length_nonneg|lia]. Qed.

(** ** Theorems *)


(** A checker that has not probed yet: [h0] is the health the backends have. *)
Record unprobed (h0 : Z → bool) c : Prop := {
  up_states : hc_states c = replicate BACKEND_MAX unused_state;
  up_health : Forall (λ b, b_healthy b = h0 (b_id b)) (backends_of c);
  up_inv : Inv (hc_bm c);
  up_stats stats : hc_stats c = Some stats → stats_live stats;
  up_cfg : 0 ≤ rise (hc_cfg c) < 2 ^ 32 ∧ 0 ≤ fall (hc_cfg c) < 2 ^ 32;
}.

Lemma unprobed_good h0 c : unprobed h0 c → core_ok (Inv := Inv) c ∧ monitored h0 [] c.
Proof.
  intros [Hs Hb Hi Hst Hcfg].
  assert (∀ i st, ¬ uses (hc_states c) i st) as Hno.
  { intros i st [Hl Hu]. rewrite Hs in Hl. apply lookup_replicate in Hl as [-> _]. done. }
  split.
  - split; try done. split.
    + by rewrite Hs, length_replicate.
    + intros i j st st' Hu. by destruct (Hno i st).
    + intros i st Hu. by destruct (Hno i st).
  - split; [|done]. split.
    + intros i st Hu. by destruct (Hno i st).
    + intros id _. unfold capped. simpl. f_equal; lia.
Qed.

Definition op_known c (op : hc_op) : Prop :=
  match op with Op_probe id _ => id ∈ b_id <$> backends_of c | Op_line _ => True end.

Lemma run_ops_spec h0 h c ops :
  core_ok (Inv := Inv) c → monitored h0 h c → Forall (op_known c) ops →
  ∃ c', run_ops c ops = Val c' ∧ core_ok (Inv := Inv) c' ∧ monitored h0 (reverse (probes ops) ++ h) c' ∧
    hc_cfg c' = hc_cfg c.
Proof.
  revert h c. induction ops as [|op ops IH]; intros h c Hok Hmon Hops; [by exists c|].
  apply Forall_cons in Hops as [Hop Hops]. cbn [run_ops].
  assert (∃ c1, run_op c op = Val c1 ∧ core_ok (Inv := Inv) c1 ∧ monitored h0 (reverse (probes [op]) ++ h) c1 ∧
    hc_cfg c1 = hc_cfg c ∧ b_id <$> backends_of c1 = b_id <$> backends_of c) as (c1 & -> & Hok1 & Hmon1 & Hcfg1 & Hids1).
  { destruct op as [id ok|line]; cbn [run_op].
    - destruct (record_result_spec h0 h c id ok Hok Hmon Hop) as (c1 & E & ? & ? & ? & ?%same_ids). by exists c1.
    - destruct (handle_admin_line_spec h0 h c line Hok Hmon) as (c1 & E & ? & ? & ? & ?). by exists c1. }
  rewrite bind_Val. destruct (IH _ c1 Hok1 Hmon1) as (c' & -> & Hok' & Hmon' & Hcfg').
  { apply (Forall_impl _ _ _ Hops). intros [id ok|line]; simpl; [by rewrite Hids1|done]. }
  exists c'. split; [done|]. split; [done|]. split; [|by rewrite Hcfg'].
  change (op :: ops) with ([op] ++ ops). by rewrite probes_app, reverse_app, <- (assoc_L (++)).
Qed.

(** Whatever sequence of probe results and admin lines the thread processes
    after its creation, every backend's health is the one its history of results
    calls for: decided by the latest moment at which the last [rise] results were
    all successes or the last [fall] all failures, and otherwise what it was
    initially.  (A threshold of 0 never decides.) *)
Theorem health_follows_history h0 c ops
    (Hu : unprobed h0 c) (Hops : Forall (op_known c) ops) :
  ∃ c', run_ops c ops = Val c' ∧
    Forall (λ b, b_healthy b = verdict (rise (hc_cfg c)) (fall (hc_cfg c)) (h0 (b_id b))
      (results (b_id b) (reverse (probes ops)))) (backends_of c').
Proof.
  destruct (unprobed_good h0 c Hu) as [Hok Hmon].
  destruct (run_ops_spec h0 [] c ops Hok Hmon Hops) as (c' & E & _ & [_ Hh] & Hcfg).
  exists c'. split; [done|]. by rewrite Hcfg, app_nil_r in Hh.
Qed.

(** Whenever a stop request is seen, the thread returns, after any number
    of rounds with any mixture of results, commands, timeouts, interrupted waits
    and wakeups: it never accesses memory out of bounds, leaves no probe socket
    open and its counters consistent. *)
Theorem thread_stops_cleanly h0 hc epfd its
    (Hg : hc_good (Inv := Inv) h0 [] hc) (Hk : kernel_honest hc its ∅)
    (Hstop : Exists (λ it, it_stop it = true ∨ it_stop_after it = true) its) :
  ∃ hc' h, thread_main hc epfd its = Val (hc', ∅) ∧ hc_good (Inv := Inv) h0 h hc'.
Proof.
  unfold thread_main. case_decide; [by exists hc, []|].
  destruct (thread_loop_spec h0 [] hc its ∅ Hg Hk Hstop) as (hc' & h & E & Hg' & _). eauto.
Qed.

(** A backend that stops answering is taken out: if it does not answer in
    any of at least [fall] consecutive complete rounds, it is marked unhealthy
    when they are over, whatever its counters were before. *)
Theorem dead_backend_marked_unhealthy h0 h hc epfd pre last rest i id
    (Hg : hc_good (Inv := Inv) h0 h hc) (Hk : kernel_honest hc (pre ++ last :: rest) ∅)
    (Hep : 0 ≤ epfd) (Hi : (b_id <$> backends_of (hc_core_of hc)) !! i = Some id)
    (Hpre : Forall (λ it, it_stop it = false ∧ it_stop_after it = false ∧ ¬ woken (it_waits it) ∧
      ¬ answers (it_waits it) i) pre)
    (Hlast : it_stop last = true)
    (Hfall : 0 < fall (hc_cfg (hc_core_of hc)) ≤ Z.of_nat (length pre)) :
  ∃ hc', thread_main hc epfd (pre ++ last :: rest) = Val (hc', ∅) ∧
    ∀ b, b ∈ backends_of (hc_core_of hc') → b_id b = id → b_healthy b = false.
Proof.
  destruct (dead_rounds h0 h hc pre (last :: rest) ∅ i id Hg Hk Hi Hpre) as (hc' & h' & E & Hg' & Hcfg & Hres).
  unfold thread_main. rewrite decide_False, E by lia. cbn [thread_loop]. rewrite Hlast.
  exists hc'. split; [done|]. intros b Hb <-. destruct Hg' as (_ & [_ Hh] & _).
  rewrite Forall_forall in Hh. rewrite (Hh b Hb), Hcfg, Hres.
  pose proof (run_length_replicate (length pre) (results (b_id b) h)) as Hrun.
  destruct (length pre) as [|n]; [lia|]. pose proof (run_length_other false (replicate (S n) false ++ results (b_id b) h) ltac:(lia)) as Hok.
  cbn [replicate app verdict negb] in *. rewrite Hok. rewrite decide_False, decide_True by lia. done.
Qed.
End Theorems.

Section FifoTheorems.
Context {St : Type} `{L : ChangeListener St}.
Implicit Types (hc : health_checker St).

(** Complete commands, from an empty buffer. *)
Lemma admin_bytes_commands hc cmds :
  idle_fifo hc → Forall command_ok cmds →
  let r := admin_bytes hc (concat ((λ cmd, print_command cmd ++ [10]) <$> cmds)) in
  hc_core_of <$> r = run_commands (hc_core_of hc) cmds ∧ ∀ hc', r = Val hc' → idle_fifo hc'.
Proof.
  intros Hidle Hcmds. revert hc Hidle. induction Hcmds as [|cmd cmds Hc _ IH]; intros hc Hidle;
    cbn [fmap list_fmap concat run_commands].
  { split; [done|]. by intros ? [= <-]. }
  rewrite <- (assoc_L (++)). change ([10] ++ ?l) with (10 :: l).
  destruct (admin_bytes_line hc (print_command cmd)
    (concat ((λ cmd, print_command cmd ++ [10]) <$> cmds)) Hidle (print_command_plain _ Hc)) as (buf & Hbuf & ->).
  rewrite handle_command by done. destruct (run_command (hc_core_of hc) cmd) as [c'| |]; [|done..].
  rewrite !bind_Val. apply (IH (set_core c' (set_admin_buf buf 0 hc))). by split.
Qed.

(** 128 bytes without a newline leave an empty buffer. *)
Lemma junk_dropped hc junk :
  idle_fifo hc → Forall (λ b, b ≠ 10) junk → length junk = HC_ADMIN_LINE_MAX →
  ∃ buf, length buf = HC_ADMIN_LINE_MAX ∧ admin_bytes hc junk = Val (set_admin_buf buf 0 hc).
Proof.
  intros [Hb H0] Hj Hl. destruct junk as [|b junk _] using rev_ind; [done|].
  rewrite length_app in Hl. simpl in Hl. apply Forall_app in Hj as [Hj [Hne _]%Forall_cons].
  destruct (admin_bytes_fill hc [] junk (hc_admin_buf hc)) as (r & E & Hr); [done|done|done|done|simpl; lia|].
  simpl in E, Hr. rewrite admin_bytes_app, E, bind_Val. exists (junk ++ r). split; [done|].
  cbn [admin_bytes]. unfold admin_byte. rewrite decide_False by done. simpl hc_admin_buf_len.
  by rewrite decide_False by lia.
Qed.

(** Commands written to the FIFO arrive: however [read] cuts the stream
    into pieces, a sequence of [DRAIN id] and [UNDRAIN id] lines sets exactly
    these admin states in that order and leaves no partial line behind (ids are
    taken modulo 2^32). *)
Theorem admin_commands_delivered hc reads cmds
    (Hidle : idle_fifo hc) (Hcmds : Forall command_ok cmds)
    (Hreads : concat reads = concat ((λ cmd, print_command cmd ++ [10]) <$> cmds)) :
  hc_core_of <$> process_admin_fifo hc reads = run_commands (hc_core_of hc) cmds ∧
  ∀ hc', process_admin_fifo hc reads = Val hc' → idle_fifo hc'.
Proof. rewrite process_admin_fifo_concat, Hreads. by apply admin_bytes_commands. Qed.

(** C38. A line of 128 bytes or more is not skipped up to its newline: the
    buffer is emptied at byte 128 and what follows is taken for a new line, so a
    command at that place is executed. *)
Theorem overlong_line_tail_executed hc junk cmd
    (Hidle : idle_fifo hc) (Hjunk : Forall (λ b, b ≠ 10) junk) (Hlen : length junk = HC_ADMIN_LINE_MAX)
    (Hcmd : command_ok cmd) :
  hc_core_of <$> process_admin_fifo hc [junk ++ print_command cmd ++ [10]] =
  run_command (hc_core_of hc) cmd.
Proof.
  rewrite process_admin_fifo_concat. simpl concat. rewrite app_nil_r, admin_bytes_app.
  destruct (junk_dropped hc junk Hidle Hjunk Hlen) as (buf & Hbuf & ->). rewrite bind_Val.
  destruct (admin_bytes_commands (set_admin_buf buf 0 hc) [cmd]) as [E _]; [by split|by constructor|].
  cbn [fmap list_fmap concat] in E. rewrite app_nil_r in E. rewrite E. cbn [run_commands].
  by destruct (run_command _ cmd).
Qed.
End FifoTheorems.

(** ** What the thread leaves alone *)

Section Frame.
Context {St : Type} `{L : ChangeListener St}.
Implicit Types (c : hc_core St) (hc : health_checker St).

Definition has_stats c : bool := match hc_stats c with Some _ => true | None => false end.

(** The descriptors, the running flag, and whether there are counters. *)
Definition shell hc : Z * Z * bool * bool :=
  (hc_wake_fd hc, hc_admin_fifo_fd hc, hc_running hc, has_stats (hc_core_of hc)).

Lemma put_state_stats c i st c' : put_state c i st = Val c' → hc_stats c' = hc_stats c.
Proof. unfold put_state. intros (states & _ & [= <-])%bind_Val_inv. done. Qed.

Lemma flip_stats c id h c' : flip c id h = Val c' → hc_stats c' = hc_stats c.
Proof. unfold flip. intros ([bm r] & _ & [= <-])%bind_Val_inv. done. Qed.

Lemma has_stats_eq c c' : hc_stats c' = hc_stats c → has_stats c' = has_stats c.
Proof. unfold has_stats. by intros ->. Qed.

Ltac keep_stats :=
  apply has_stats_eq; repeat match goal with
  | E : put_state _ _ _ = Val _ |- _ => apply put_state_stats in E
  | E : flip _ _ _ = Val _ |- _ => apply flip_stats in E
  end; cbn [hc_stats set_states set_hc_stats] in *; congruence.

Lemma record_result_frame c id ok c' : record_result c id ok = Val c' → has_stats c' = has_stats c.
Proof.
  unfold record_result. intros ([states slot] & _ & E)%bind_Val_inv. destruct slot as [i|]; [|by injection E as <-].
  apply bind_Val_inv in E as (st & _ & E). destruct ok.
  - case_decide; [|keep_stats]. apply bind_Val_inv in E as (c1 & Hp & E). case_decide; [|injection E as <-]; keep_stats.
  - apply bind_Val_inv in E as (c0 & E0 & E).
    assert (has_stats c0 = has_stats c) as Hc0.
    { unfold has_stats. cbn [hc_stats set_states] in E0. destruct (hc_stats c) eqn:Hs.
      - apply bind_Val_inv in E0 as (s1 & _ & E0). by injection E0 as <-.
      - injection E0 as <-. cbn. by rewrite Hs. }
    rewrite <- Hc0.
    case_decide; [|keep_stats]. apply bind_Val_inv in E as (c1 & Hp & E). case_decide; [|injection E as <-]; keep_stats.
Qed.

Lemma set_core_shell c hc : has_stats c = has_stats (hc_core_of hc) → shell (set_core c hc) = shell hc.
Proof. unfold shell. cbn. by intros ->. Qed.

Lemma handle_admin_line_frame c line c' : handle_admin_line c line = Val c' → has_stats c' = has_stats c.
Proof.
  unfold handle_admin_line. destruct (sscanf_15s_lu line) as [[verb id]|]; [|by intros [= <-]]. cbv zeta.
  repeat case_decide; [intros ([bm r] & _ & [= <-])%bind_Val_inv..|intros [= <-]]; done.
Qed.

Lemma admin_byte_frame hc b hc' : admin_byte hc b = Val hc' → shell hc' = shell hc.
Proof.
  unfold admin_byte. cbv zeta. case_decide; [|case_decide; [intros (buf & _ & [= <-])%bind_Val_inv|intros [= <-]]; done].
  intros (buf & _ & E)%bind_Val_inv. apply bind_Val_inv in E as (hc1 & E1 & [= <-]).
  change (shell hc1 = shell hc). case_decide; [|by injection E1 as <-].
  apply bind_Val_inv in E1 as (line & _ & E1). apply bind_Val_inv in E1 as (c & Hc & [= <-]).
  apply handle_admin_line_frame in Hc. by apply (set_core_shell c (set_admin_buf buf (hc_admin_buf_len hc) hc)).
Qed.

Lemma admin_bytes_frame bs : ∀ hc hc', admin_bytes hc bs = Val hc' → shell hc' = shell hc.
Proof.
  induction bs as [|b bs IH]; intros hc hc'; cbn [admin_bytes]; [by intros [= <-]|].
  intros (hc1 & E1%admin_byte_frame & E)%bind_Val_inv. by rewrite (IH _ _ E).
Qed.

Lemma process_admin_fifo_frame hc reads hc' : process_admin_fifo hc reads = Val hc' → shell hc' = shell hc.
Proof. rewrite process_admin_fifo_concat. apply admin_bytes_frame. Qed.

Lemma connect_all_frame env bs : ∀ hc i r hc' r', connect_all hc env i bs r = Val (hc', r') → shell hc' = shell hc.
Proof.
  induction bs as [|b bs IH]; intros hc i r hc' r'; cbn [connect_all]; [by intros [= <- _]|].
  intros ([open sock] & _ & E)%bind_Val_inv. case_decide; [|case_decide].
  - apply bind_Val_inv in E as (c & Hc%record_result_frame & E). rewrite (IH _ _ _ _ _ E). by apply set_core_shell.
  - apply bind_Val_inv in E as (op & _ & E). apply bind_Val_inv in E as (c & Hc%record_result_frame & E).
    rewrite (IH _ _ _ _ _ E). by apply set_core_shell.
  - by apply IH in E.
Qed.

Lemma round_events_frame bs evs : ∀ hc r hc' r' ab,
  round_events hc bs evs r = Val (hc', r', ab) → shell hc' = shell hc.
Proof.
  induction evs as [|ev evs IH]; intros hc r hc' r' ab; cbn [round_events]; [by intros [= <- _ _]|].
  destruct ev as [|reads|i err]; [by intros [= <- _ _]|..].
  - intros (hc1 & E1%process_admin_fifo_frame & E)%bind_Val_inv. by rewrite (IH _ _ _ _ _ E).
  - intros (sock & _ & E)%bind_Val_inv. apply bind_Val_inv in E as (open & _ & E).
    apply bind_Val_inv in E as (dn & _ & E). apply bind_Val_inv in E as (b & _ & E).
    apply bind_Val_inv in E as (c & Hc%record_result_frame & E). rewrite (IH _ _ _ _ _ E). by apply set_core_shell.
Qed.

Lemma round_wait_frame bs deadline waits : ∀ hc r hc' r' ab,
  round_wait hc bs deadline waits r = Val (hc', r', ab) → shell hc' = shell hc.
Proof.
  induction waits as [|[now w] waits IH]; intros hc r hc' r' ab; cbn [round_wait];
    (case_decide; [by intros [= <- _ _]|]); [done|]. case_decide; [by intros [= <- _ _]|].
  destruct w as [| |evs]; [apply IH|by intros [= <- _ _]|].
  intros ([[hc1 r1] ab1] & E1%round_events_frame & E)%bind_Val_inv. destruct ab1; [by injection E as <- _ _|].
  by rewrite (IH _ _ _ _ _ E).
Qed.

Lemma record_late_frame (ab : bool) hc id hc1 :
  (if negb ab then c ← record_result (hc_core_of hc) id false; Val (set_core c hc) else Val hc) = Val hc1 →
  shell hc1 = shell hc.
Proof.
  destruct ab; cbn [negb]; [by intros [= <-]|]. intros (c & Hc%record_result_frame & [= <-])%bind_Val_inv.
  by apply set_core_shell.
Qed.

Lemma close_rest_frame ab bs : ∀ hc socks dn open hc' open',
  close_rest hc ab bs socks dn open = Val (hc', open') → shell hc' = shell hc.
Proof.
  induction bs as [|b bs IH]; intros hc [|sock socks] [|d dn] open hc' open'; cbn [close_rest];
    try (by intros [= <- _]); try done.
  destruct d; cbn [negb]; [apply IH|].
  intros (op & _ & (hc1 & E1%record_late_frame & E)%bind_Val_inv)%bind_Val_inv. by rewrite (IH _ _ _ _ _ _ E).
Qed.

Lemma run_probe_round_frame hc env now waits open hc' open' ab :
  run_probe_round hc env now waits open = Val (hc', open', ab) → shell hc' = shell hc.
Proof.
  unfold run_probe_round. intros (bs & _ & E)%bind_Val_inv. destruct bs as [|b bs]; [by injection E as <- _ _|].
  apply bind_Val_inv in E as ([hc1 r1] & E1%connect_all_frame & E).
  apply bind_Val_inv in E as ([[hc2 r2] ab2] & E2%round_wait_frame & E).
  apply bind_Val_inv in E as ([hc3 op3] & E3%close_rest_frame & [= <- _ _]). congruence.
Qed.

Lemma wait_next_interval_frame hc ev hc' : wait_next_interval hc ev = Val hc' → shell hc' = shell hc.
Proof. destruct ev as [[|reads|i err]|]; cbn; [by intros [= <-]|apply process_admin_fifo_frame|by intros [= <-]..]. Qed.

Lemma thread_loop_frame its : ∀ hc open hc' open', thread_loop hc its open = Val (hc', open') → shell hc' = shell hc.
Proof.
  induction its as [|it its IH]; intros hc open hc' open'; cbn [thread_loop]; [done|].
  destruct (it_stop it); [by intros [= <- _]|].
  intros ([[hc1 op1] ab] & E1%run_probe_round_frame & E)%bind_Val_inv.
  destruct (it_stop_after it); [by injection E as <- _|].
  apply bind_Val_inv in E as (hc2 & E2%wait_next_interval_frame & E). rewrite (IH _ _ _ _ E). congruence.
Qed.
End Frame.

(** ** Witnesses *)

(** The checker over two backends whose manager notifies the table generator. *)
Definition sample_cfg : health_check_cfg :=
  {| interval_ms := 1000; timeout_ms := 500; rise := 2; fall := 3; hc_admin_fifo := [0] |}.

Definition sample_core : hc_core tg_sys :=
  {| hc_cfg := sample_cfg; hc_states := replicate BACKEND_MAX unused_state; hc_bm := sample_sys;
     hc_stats := Some sample_stats |}.

Definition sample_hc : health_checker tg_sys :=
  {| hc_core_of := sample_core; hc_wake_fd := 5; hc_admin_fifo_fd := 6;
     hc_admin_buf := replicate HC_ADMIN_LINE_MAX 0; hc_admin_buf_len := 0; hc_running := true;
     hc_stop_requested := false |}.

#[local] Instance sample_xx : XXHash := sample_hash.

Lemma sample_live : b_id <$> backends_of sample_core = [0; 1] ∧
  Forall (λ b, b_healthy b = true) (backends_of sample_core).
Proof. split; [by vm_compute|]. apply (bool_decide_unpack _). by vm_compute. Qed.

Lemma sample_unprobed : unprobed (Inv := sys_ok) (λ _, true) sample_core.
Proof.
  split; [done|apply sample_live|apply sample_sys_ok| |simpl; lia].
  intros stats [= <-]. apply sample_stats_live.
Qed.

Lemma sample_hc_good : hc_good (Inv := sys_ok) (λ _, true) [] sample_hc.
Proof.
  destruct (unprobed_good (λ _, true) sample_core sample_unprobed) as [Hok Hmon].
  split; [done|]. split; [done|]. split; [done|]. unfold HC_ADMIN_LINE_MAX. simpl. lia.
Qed.

(** Three failures in a row take backend 1 out. *)
Lemma health_follows_history_witness :
  ∃ c', run_ops sample_core [Op_probe 1 false; Op_probe 0 true; Op_probe 1 false; Op_probe 1 false] = Val c' ∧
    Forall (λ b, b_id b = 1 → b_healthy b = false) (backends_of c').
Proof.
  destruct (health_follows_history (Inv := sys_ok) (λ _, true) sample_core
    [Op_probe 1 false; Op_probe 0 true; Op_probe 1 false; Op_probe 1 false]) as (c' & E & Hh).
  - apply sample_unprobed.
  - repeat (apply Forall_cons; split; [unfold op_known; rewrite (proj1 sample_live); set_solver|]). by apply Forall_nil.
  - exists c'. split; [exact E|]. apply (Forall_impl _ _ _ Hh). intros b Hb Hid. rewrite Hb, Hid. reflexivity.
Defined.

(** Two connections in progress; the first succeeds, the second times out. *)
Definition sample_env (i : nat) : probe_env :=
  {| pe_socket := 10 + Z.of_nat i; pe_connect := λ _, (-1, EINPROGRESS); pe_ctl := 0 |}.

Definition sample_waits : list (Z * hc_wait) :=
  [(100, Wait_events [Ev_probe 0 0]); (200, Wait_eintr); (1000, Wait_eintr)].

Lemma sample_not_woken : ¬ woken sample_waits.
Proof.
  intros (now & evs & Hin & Hw). unfold sample_waits in Hin.
  repeat (apply elem_of_cons in Hin as [Hin|Hin]); try discriminate.
  - injection Hin as -> ->. apply list_elem_of_singleton in Hw. discriminate.
  - by apply not_elem_of_nil in Hin.
Qed.

Lemma sample_round_honest : round_honest sample_hc sample_env 0 sample_waits ∅.
Proof.
  assert (∃ b0 b1, backends_of (hc_core_of sample_hc) = [b0; b1]) as (b0 & b1 & E)
    by (do 2 eexists; vm_compute; reflexivity).
  split; rewrite ?E.
  - cbn [sockets_fresh]. change (connects (sample_env 0) b0) with true. change (connects (sample_env 1) b1) with true.
    simpl. split; [set_solver|]. split; [|done]. intros _. set_solver by lia.
  - cbn [registered]. change (connects (sample_env 0) b0) with true. change (connects (sample_env 1) b1) with true.
    simpl. set_solver.
  - apply Exists_exists. exists (1000, Wait_eintr). split; [set_solver|]. vm_compute. discriminate.
Qed.


(** Rounds in which no socket can be opened. *)
Definition failing_iteration (stop : bool) : iteration :=
  {| it_stop := stop; it_env := λ _, {| pe_socket := -1; pe_connect := λ _, (-1, 0); pe_ctl := 0 |};
     it_now := 0; it_waits := [(2 ^ 63 - 1, Wait_eintr)]; it_stop_after := false; it_event := None |}.

Lemma failing_honest its (hc : health_checker tg_sys) open :
  Forall (λ it, it = failing_iteration false ∨ it_stop it = true) its → kernel_honest hc its open.
Proof.
  intros Hits. revert hc open. induction Hits as [|it its [-> |Hs] _ IH]; intros hc open; [done| |].
  2: { intros Hn. congruence. }
  intros _. split; [|intros; apply IH]. simpl it_env. simpl it_waits. split.
  - generalize 0%nat (backends_of (hc_core_of hc)). intros i bs. revert i.
    induction bs as [|b bs IHb]; intros i; [done|]. cbn [sockets_fresh]. split; [simpl; lia|]. apply IHb.
  - done.
  - apply Exists_cons. left. cbn [fst]. unfold s64 at 2.
    change ((2 ^ 63 - 1 + 2 ^ 63) mod 2 ^ 64 - 2 ^ 63) with (2 ^ 63 - 1). unfold s64.
    match goal with |- context [?x mod 2 ^ 64 - _] => pose proof (Z.mod_pos_bound x (2 ^ 64) ltac:(lia)) end. lia.
Qed.

Lemma thread_stops_cleanly_witness :
  ∃ hc' h, thread_main sample_hc 9 [failing_iteration false; failing_iteration true] = Val (hc', ∅) ∧
    hc_good (Inv := sys_ok) (λ _, true) h hc'.
Proof.
  apply (thread_stops_cleanly (Inv := sys_ok) (λ _, true) sample_hc 9
    [failing_iteration false; failing_iteration true]).
  - apply sample_hc_good.
  - apply failing_honest. apply Forall_cons. split; [by left|]. apply Forall_singleton. by right.
  - right. left. by left.
Defined.

Lemma dead_backend_marked_unhealthy_witness :
  ∃ hc', thread_main sample_hc 9 (replicate 3 (failing_iteration false) ++ [failing_iteration true]) = Val (hc', ∅) ∧
    ∀ b, b ∈ backends_of (hc_core_of hc') → b_id b = 1 → b_healthy b = false.
Proof.
  apply (dead_backend_marked_unhealthy (Inv := sys_ok) (λ _, true) [] sample_hc 9
    (replicate 3 (failing_iteration false)) (failing_iteration true) [] 1 1).
  - apply sample_hc_good.
  - apply failing_honest, Forall_app. split; [apply Forall_replicate; by left|].
    apply Forall_singleton. by right.
  - lia.
  - simpl hc_core_of. by rewrite (proj1 sample_live).
  - apply Forall_replicate. simpl. split_and!; [done|done|..].
    + intros (now & evs & Hin & _). apply list_elem_of_singleton in Hin. discriminate.
    + intros (now & evs & Hin & _). apply list_elem_of_singleton in Hin. discriminate.
  - done.
  - simpl. lia.
Defined.

(** [DRAIN 1], cut after three bytes. *)
Lemma admin_commands_delivered_witness :
  let line := print_command {| cmd_drain := true; cmd_id := 1 |} ++ [10] in
  hc_core_of <$> process_admin_fifo sample_hc [take 3 line; drop 3 line] =
  run_commands sample_core [{| cmd_drain := true; cmd_id := 1 |}].
Proof.
  intros line. apply (admin_commands_delivered sample_hc [take 3 line; drop 3 line]
    [{| cmd_drain := true; cmd_id := 1 |}]).
  - done.
  - apply Forall_singleton. unfold command_ok. simpl. lia.
  - vm_compute. reflexivity.
Defined.

(** 128 bytes of [x] followed by [DRAIN 0]. *)
Lemma overlong_line_tail_executed_witness :
  hc_core_of <$> process_admin_fifo sample_hc
    [replicate 128 120 ++ print_command {| cmd_drain := true; cmd_id := 0 |} ++ [10]] =
  run_command sample_core {| cmd_drain := true; cmd_id := 0 |}.
Proof.
  apply (overlong_line_tail_executed sample_hc (replicate 128 120) {| cmd_drain := true; cmd_id := 0 |}).
  - done.
  - by apply Forall_replicate.
  - done.
  - unfold command_ok. simpl. lia.
Defined.
