(* ===== verification/DatapathRun.v ===== *)
(** * Setting up, running and tearing down the datapath

    The rest of [src/src/forward/datapath.c], with [reaper_timerfd_create] of
    [src/src/conntrack/reaper.c]: what [datapath_run] opens before it enters the
    event loop of [Datapath], how the loop tells its descriptors apart, and what
    [datapath_destroy] closes.  What the system calls answer is an input. *)

From Stdlib Require Import Lia.
From stdpp Require Import base numbers list gmap.
From S2P Require Import Prelude Net Hash Text Kernel RawSocket Maglev Conntrack ConntrackSpec Stats BackendManager TableGenerator Datapath.
Import Eth.

Local Open Scope Z_scope.

(** ** The reaper's timer *)

Record timespec := { tv_sec : Z; tv_nsec : Z }.
Record itimerspec := { it_interval : timespec; it_value : timespec }.

Record timer_env := {
  te_create : Z * Z;                (** [timerfd_create] and [errno] *)
  te_settime : itimerspec → Z * Z;
  te_close : option Z;
}.

Definition reaper_timerfd_create (e : timer_env) (k : kernel) (interval_ms : Z) : out (kernel * Z) :=
  let '(fd, err) := te_create e in
  let k := set_errno err k in
  if decide (fd < 0) then Val (k, -1)
  else
    let k := opened fd k in
    let it_value := {| tv_sec := interval_ms / 1000; tv_nsec := interval_ms mod 1000 * 1000000 |} in
    let '(r, err) := te_settime e {| it_interval := it_value; it_value := it_value |} in
    let k := set_errno err k in
    if decide (r ≠ 0) then k ← sys_close k fd (te_close e); Val (k, -1)
    else Val (k, fd).

(** ** [struct datapath] *)

(** The fields of [struct datapath_config] that are not pointers to the other
    components. *)
Record run_config := {
  rc_ifname : list Z;
  rc_vip : Z;
  rc_director_ip : Z;
  rc_ttl : Z;
  rc_reaper_interval_ms : Z;
  rc_tcp_timeout_ns : Z;
  rc_udp_timeout_ns : Z;
}.

Record datapath := {
  d_cfg : run_config;
  d_raw_fd : Z;
  d_ifindex : Z;
  d_own_mac : list Z;
  d_timerfd : Z;
  d_signalfd_fd : Z;
  d_epfd : Z;
  d_buckets_per_tick : Z;
  d_is_running : bool;
}.

Definition set_raw (fd : Z) (ifindex : option Z) (dp : datapath) : datapath :=
  {| d_cfg := d_cfg dp; d_raw_fd := fd; d_ifindex := default (d_ifindex dp) ifindex;
     d_own_mac := d_own_mac dp; d_timerfd := d_timerfd dp; d_signalfd_fd := d_signalfd_fd dp;
     d_epfd := d_epfd dp; d_buckets_per_tick := d_buckets_per_tick dp; d_is_running := d_is_running dp |}.

Definition set_own_mac (mac : option (list Z)) (dp : datapath) : datapath :=
  {| d_cfg := d_cfg dp; d_raw_fd := d_raw_fd dp; d_ifindex := d_ifindex dp;
     d_own_mac := default (d_own_mac dp) mac; d_timerfd := d_timerfd dp; d_signalfd_fd := d_signalfd_fd dp;
     d_epfd := d_epfd dp; d_buckets_per_tick := d_buckets_per_tick dp; d_is_running := d_is_running dp |}.

Definition set_timerfd (fd : Z) (dp : datapath) : datapath :=
  {| d_cfg := d_cfg dp; d_raw_fd := d_raw_fd dp; d_ifindex := d_ifindex dp; d_own_mac := d_own_mac dp;
     d_timerfd := fd; d_signalfd_fd := d_signalfd_fd dp; d_epfd := d_epfd dp;
     d_buckets_per_tick := d_buckets_per_tick dp; d_is_running := d_is_running dp |}.

Definition set_signalfd (fd : Z) (dp : datapath) : datapath :=
  {| d_cfg := d_cfg dp; d_raw_fd := d_raw_fd dp; d_ifindex := d_ifindex dp; d_own_mac := d_own_mac dp;
     d_timerfd := d_timerfd dp; d_signalfd_fd := fd; d_epfd := d_epfd dp;
     d_buckets_per_tick := d_buckets_per_tick dp; d_is_running := d_is_running dp |}.

Definition set_epfd (fd : Z) (dp : datapath) : datapath :=
  {| d_cfg := d_cfg dp; d_raw_fd := d_raw_fd dp; d_ifindex := d_ifindex dp; d_own_mac := d_own_mac dp;
     d_timerfd := d_timerfd dp; d_signalfd_fd := d_signalfd_fd dp; d_epfd := fd;
     d_buckets_per_tick := d_buckets_per_tick dp; d_is_running := d_is_running dp |}.

Definition set_buckets (n : Z) (dp : datapath) : datapath :=
  {| d_cfg := d_cfg dp; d_raw_fd := d_raw_fd dp; d_ifindex := d_ifindex dp; d_own_mac := d_own_mac dp;
     d_timerfd := d_timerfd dp; d_signalfd_fd := d_signalfd_fd dp; d_epfd := d_epfd dp;
     d_buckets_per_tick := n; d_is_running := d_is_running dp |}.

Definition set_running (r : bool) (dp : datapath) : datapath :=
  {| d_cfg := d_cfg dp; d_raw_fd := d_raw_fd dp; d_ifindex := d_ifindex dp; d_own_mac := d_own_mac dp;
     d_timerfd := d_timerfd dp; d_signalfd_fd := d_signalfd_fd dp; d_epfd := d_epfd dp;
     d_buckets_per_tick := d_buckets_per_tick dp; d_is_running := r |}.

Definition datapath_create (calloc_ok : bool) (cfg : run_config) : option datapath :=
  if negb calloc_ok then None
  else Some {| d_cfg := cfg; d_raw_fd := -1; d_ifindex := 0; d_own_mac := replicate 6 0; d_timerfd := -1;
               d_signalfd_fd := -1; d_epfd := -1; d_buckets_per_tick := 0; d_is_running := false |}.

Definition datapath_destroy (k : kernel) (dp : option datapath) (e : option Z) : out kernel :=
  match dp with
  | None => Val k
  | Some dp =>
      k ← close_if_open k (d_raw_fd dp) e;
      k ← close_if_open k (d_timerfd dp) e;
      k ← close_if_open k (d_signalfd_fd dp) e;
      close_if_open k (d_epfd dp) e
  end.

Definition datapath_is_running (dp : datapath) : bool := d_is_running dp.

(** ** The run *)

Record epoll_env := {
  ee_create : Z * Z;        (** [epoll_create1] *)
  ee_ctl : Z → Z * Z;       (** [epoll_ctl] adding a descriptor *)
}.

Definition setup_epoll (e : epoll_env) (k : kernel) (dp : datapath) : kernel * datapath * Z :=
  let '(epfd, err) := ee_create e in
  let k := set_errno err k in
  let dp := set_epfd epfd dp in
  if decide (epfd < 0) then (k, dp, -1)
  else
    let k := opened epfd k in
    let '(r, err) := ee_ctl e (d_raw_fd dp) in
    let k := set_errno err k in
    if decide (r ≠ 0) then (k, dp, -1)
    else
      let '(r, err) := ee_ctl e (d_timerfd dp) in
      let k := set_errno err k in
      if decide (r ≠ 0) then (k, dp, -1)
      else
        let '(r, err) := ee_ctl e (d_signalfd_fd dp) in
        let k := set_errno err k in
        if decide (r ≠ 0) then (k, dp, -1) else (k, dp, 0).

(** One ready descriptor with what is read once it is served: the result of the
    (retried) read of the signal, the clock of the timer branch, or the packet
    exchange on the raw socket. *)
Record fd_event := {
  fe_fd : Z;
  fe_siginfo : Z;
  fe_now : Z;
  fe_recv : option (list Z);
  fe_snap : option routing_snapshot;
  fe_sendto : sockaddr_ll → list Z → Z;
}.

Inductive epoll_result := Epoll_error (errno : Z) | Epoll_ready (evs : list fd_event).

Definition SIGNALFD_SIGINFO_SIZE : Z := 128.

(** The packet's [raw_socket_send] goes out on the interface of the datapath. *)
Definition packet_env_of (dp : datapath) (ev : fd_event) : packet_env :=
  {| pe_recv := fe_recv ev; pe_now := fe_now ev; pe_snap := fe_snap ev;
     pe_send frame := match raw_socket_send (fe_sendto ev) (d_ifindex dp) frame (length frame) with
                      | Val sent => sent
                      | _ => -1
                      end |}.

(** The branches on [events[i].data.fd]. *)
Definition event_of (dp : datapath) (ev : fd_event) : event :=
  if decide (fe_fd ev = d_signalfd_fd dp) then EvSignal (bool_decide (fe_siginfo ev = SIGNALFD_SIGINFO_SIZE))
  else if decide (fe_fd ev = d_timerfd dp) then EvTimer (fe_now ev)
  else if decide (fe_fd ev = d_raw_fd dp) then EvRaw (packet_env_of dp ev)
  else EvOther.

Definition wait_of (dp : datapath) (w : epoll_result) : wait_result :=
  match w with
  | Epoll_error errno => WaitError (bool_decide (errno = EINTR))
  | Epoll_ready evs => WaitEvents (map (event_of dp) evs)
  end.

(** The constants the loop works with. *)
Definition loop_config (dp : datapath) : datapath_config :=
  {| dc_vip := rc_vip (d_cfg dp); dc_director_ip := rc_director_ip (d_cfg dp); dc_ttl := rc_ttl (d_cfg dp);
     dc_tcp_timeout_ns := rc_tcp_timeout_ns (d_cfg dp); dc_udp_timeout_ns := rc_udp_timeout_ns (d_cfg dp);
     dc_own_mac := d_own_mac dp; dc_buckets_per_tick := d_buckets_per_tick dp |}.

Record run_env := {
  re_raw : raw_env;
  re_mac : mac_env;
  re_timer : timer_env;
  re_sigprocmask : Z * Z;
  re_signalfd : Z * Z;
  re_epoll : epoll_env;
  re_waits : list epoll_result;
}.

Section Run.
Context {xx : XXHash}.

(** The opening of descriptors, up to [setup_epoll]. *)
Definition run_setup (e : run_env) (k : kernel) (dp : datapath) : out (kernel * datapath * Z) :=
  '(k, fd, ifindex) ← raw_socket_open (re_raw e) k (rc_ifname (d_cfg dp)) ETH_TYPE_IP;
  let dp := set_raw fd ifindex dp in
  if decide (fd < 0) then Val (k, dp, -1)
  else
    '(k, r, mac) ← raw_socket_get_mac (re_mac e) k (rc_ifname (d_cfg dp));
    let dp := set_own_mac mac dp in
    if decide (r ≠ 0) then Val (k, dp, -1)
    else
      '(k, fd) ← reaper_timerfd_create (re_timer e) k (rc_reaper_interval_ms (d_cfg dp));
      let dp := set_timerfd fd dp in
      if decide (fd < 0) then Val (k, dp, -1)
      else
        let '(r, err) := re_sigprocmask e in
        let k := set_errno err k in
        if decide (r ≠ 0) then Val (k, dp, -1)
        else
          let '(fd, err) := re_signalfd e in
          let k := set_errno err k in
          let dp := set_signalfd fd dp in
          if decide (fd < 0) then Val (k, dp, -1)
          else Val (setup_epoll (re_epoll e) (opened fd k) dp).

(** [st] holds the connection table, the statistics and the two local buffers. *)
Definition datapath_run (e : run_env) (k : kernel) (dp : datapath) (st : dp_state) :
    out (kernel * datapath * dp_state * Z) :=
  '(k, dp, r) ← run_setup e k dp;
  if decide (r ≠ 0) then Val (k, dp, st, -1)
  else
    let dp := set_buckets (reaper_buckets_per_tick (dp_ct st)) dp in
    let dp := set_running true dp in
    '(st, rc) ← event_loop (loop_config dp) st (map (wait_of dp) (re_waits e));
    match rc with
    | None => NoFuel
    | Some rc => Val (k, set_running false dp, st, rc)
    end.
End Run.

(** ** Descriptors the datapath owns *)

Definition dp_fds (dp : datapath) : list Z := [d_raw_fd dp; d_timerfd dp; d_signalfd_fd dp; d_epfd dp].

Lemma datapath_destroy_closes open k dp e :
  owns open k (dp_fds dp) →
  ∃ errno, datapath_destroy k (Some dp) e = Val {| k_open := open; k_errno := errno |}.
Proof.
  intros H. destruct (close_all_owned open _ k e H) as [errno E]. exists errno.
  unfold datapath_destroy. revert E. unfold dp_fds. cbn [close_all].
  repeat (destruct (close_if_open _ _ _); try done; rewrite ?bind_Val).
Qed.

(** ** The event loop comes to an end *)

Section Returns.
Context {xx : XXHash} (cfg : datapath_config).

(** The loop returns at an error other than EINTR and at a batch in which the
    first signal event is read in full. *)
Definition stops (w : wait_result) : Prop :=
  match w with
  | WaitError eintr => eintr = false
  | WaitEvents evs =>
      ∃ pre post, evs = pre ++ EvSignal true :: post ∧ Forall (λ ev, ∀ b, ev ≠ EvSignal b) pre
  end.

Lemma handle_events_stop pre post st st' keep :
  Forall (λ ev, ∀ b, ev ≠ EvSignal b) pre →
  handle_events cfg st (pre ++ EvSignal true :: post) = Val (st', keep) → keep = false.
Proof.
  intros Hpre. revert st. induction Hpre as [|ev pre Hev _ IH]; intros st; simpl; [by intros [= _ <-]|].
  destruct ev as [b|now|env|]; [by destruct (Hev b)| | |apply IH].
  - intros (st1 & _ & E)%bind_Val_inv. by eapply IH.
  - intros (st1 & _ & E)%bind_Val_inv. by eapply IH.
Qed.

Lemma event_loop_returns waits : ∀ st st' rc,
  Exists stops waits → event_loop cfg st waits = Val (st', rc) → is_Some rc.
Proof.
  induction waits as [|w waits IH]; intros st st' rc Hex; [by apply Exists_nil in Hex|].
  apply Exists_cons in Hex. destruct w as [[]|evs]; cbn [event_loop].
  - intros E. eapply IH; [|exact E]. by destruct Hex.
  - by intros [= _ <-].
  - intros ([st1 keep] & E1 & E)%bind_Val_inv. destruct keep; [|by injection E as _ <-].
    eapply IH; [|exact E]. destruct Hex as [(pre & post & -> & Hpre)|Hex]; [|done].
    by apply handle_events_stop in E1.
Qed.
End Returns.

(** ** The setup *)

Lemma reaper_timerfd_create_spec e k interval_ms :
  (te_create e).1 ∉ k_open k →
  ∃ errno fd, (reaper_timerfd_create e k interval_ms =
     Val ({| k_open := k_open k; k_errno := errno |}, fd) ∧ fd = -1 ∨
   reaper_timerfd_create e k interval_ms =
     Val ({| k_open := {[fd]} ∪ k_open k; k_errno := errno |}, fd) ∧ 0 ≤ fd ∧ fd = (te_create e).1).
Proof.
  unfold reaper_timerfd_create. destruct (te_create e) as [fd err0]. cbn [fst]. intros Hfd.
  case_decide; [by do 2 eexists; left|]. destruct (te_settime e _) as [r err]. case_decide.
  - rewrite (sys_close_new _ fd _ (k_open k)) by done. rewrite bind_Val. by do 2 eexists; left.
  - do 2 eexists. right. split; [done|]. split; [lia|done].
Qed.

(** Each call that opens a descriptor returns one that is not open. *)
Record run_env_ok (e : run_env) (open : fds) : Prop := {
  reo_raw : (rs_socket (re_raw e) (htons ETH_TYPE_IP)).1 ∉ open;
  reo_mac : (me_socket (re_mac e)).1 ∉ {[(rs_socket (re_raw e) (htons ETH_TYPE_IP)).1]} ∪ open;
  reo_ioctl name : (14 ≤ length (me_ioctl (re_mac e) name).2)%nat;
  reo_timer : (te_create (re_timer e)).1 ∉ {[(rs_socket (re_raw e) (htons ETH_TYPE_IP)).1]} ∪ open;
  reo_signal : (re_signalfd e).1 ∉
    {[(te_create (re_timer e)).1]} ∪ ({[(rs_socket (re_raw e) (htons ETH_TYPE_IP)).1]} ∪ open);
  reo_epoll : (ee_create (re_epoll e)).1 ∉ {[(re_signalfd e).1]} ∪
    ({[(te_create (re_timer e)).1]} ∪ ({[(rs_socket (re_raw e) (htons ETH_TYPE_IP)).1]} ∪ open));
}.

(** A datapath as [datapath_create] leaves it. *)
Definition unopened (dp : datapath) : Prop :=
  dp_fds dp = [-1; -1; -1; -1] ∧ length (d_own_mac dp) = 6%nat ∧ d_is_running dp = false.

Lemma open_outcome_fd e ifname et fd idx :
  open_outcome e ifname et = inr (fd, idx) → fd = (rs_socket e (htons et)).1.
Proof.
  unfold open_outcome. destruct (rs_socket e _), (rs_ifindex e _), (rs_bind e _), (rs_bindtodevice e _).
  repeat case_decide; naive_solver.
Qed.

(** [setup_epoll] opens one descriptor or none, and stores it. *)
Lemma setup_epoll_spec e open k dp :
  owns open k [d_raw_fd dp; d_timerfd dp; d_signalfd_fd dp; -1] →
  (ee_create e).1 ∉ k_open k →
  ∃ k' dp' r, setup_epoll e k dp = (k', dp', r) ∧ owns open k' (dp_fds dp') ∧ d_cfg dp' = d_cfg dp ∧
    d_own_mac dp' = d_own_mac dp ∧ d_is_running dp' = d_is_running dp ∧
    (r = 0 ∧ dp_fds dp' = [d_raw_fd dp; d_timerfd dp; d_signalfd_fd dp; (ee_create e).1] ∧ 0 ≤ (ee_create e).1 ∨ r = -1).
Proof.
  intros Hown Hnew. unfold setup_epoll. destruct (ee_create e) as [fd err]. cbn [fst] in *.
  assert (∀ k', (fd < 0 ∧ k_open k' = k_open k ∨ 0 ≤ fd ∧ k_open k' = {[fd]} ∪ k_open k) →
    owns open k' [d_raw_fd dp; d_timerfd dp; d_signalfd_fd dp; fd]) as Hput.
  { intros k' Hk'. apply (owns_put open k k' [d_raw_fd dp; d_timerfd dp; d_signalfd_fd dp] [] (-1)); [lia|done|].
    destruct Hk' as [|[]]; [by left|right; done]. }
  repeat first [case_decide | match goal with |- context [ee_ctl e ?x] => destruct (ee_ctl e x) end].
  - do 3 eexists. split; [done|]. split_and!; try done; [|by right]. apply Hput. left. split; [lia|done].
  - do 3 eexists. split; [done|]. split_and!; try done; [|by right]. apply Hput. right. split; [lia|done].
  - do 3 eexists. split; [done|]. split_and!; try done; [|by right]. apply Hput. right. split; [lia|done].
  - do 3 eexists. split; [done|]. split_and!; try done; [|by right]. apply Hput. right. split; [lia|done].
  - do 3 eexists. split; [done|]. split_and!; try done; [|left; split_and!; [done..|lia]]. apply Hput. right. split; [lia|done].
Qed.

(** The descriptors of a complete setup. *)
Definition run_fds (e : run_env) : list Z :=
  [(rs_socket (re_raw e) (htons ETH_TYPE_IP)).1; (te_create (re_timer e)).1; (re_signalfd e).1;
   (ee_create (re_epoll e)).1].

Lemma run_setup_spec e k dp :
  run_env_ok e (k_open k) → unopened dp →
  ∃ k' dp' r, run_setup e k dp = Val (k', dp', r) ∧ owns (k_open k) k' (dp_fds dp') ∧ d_cfg dp' = d_cfg dp ∧
    length (d_own_mac dp') = 6%nat ∧ d_is_running dp' = false ∧
    (r = 0 ∧ dp_fds dp' = run_fds e ∧ Forall (λ fd, 0 ≤ fd) (run_fds e) ∨ r = -1).
Proof.
  intros Hok (Hfds & Hmac & Hrun). destruct dp as [cfg raw idx mac tfd sfd ep n run]. cbn in *.
  injection Hfds as -> -> -> ->. subst run. set (open := k_open k) in *.
  assert (owns open k [-1; -1; -1; -1]) as Hown0.
  { apply owns_none. by repeat constructor. }
  unfold run_setup. cbn [d_cfg rc_ifname].
  pose proof (raw_socket_open_spec (re_raw e) k (rc_ifname cfg) ETH_TYPE_IP (reo_raw _ _ Hok)) as Hopen.
  destruct (open_outcome _ _ _) as [err|[fd ifindex]] eqn:Hoo.
  { rewrite Hopen, bind_Val. do 3 eexists. split; [done|]. split; [|by split_and!; try done; right].
    by apply (owns_put open k _ [] [-1; -1; -1] (-1)); [lia|done|left]. }
  apply open_outcome_fd in Hoo. destruct Hopen as (Hfd & _ & err & ->). rewrite bind_Val.
  rewrite decide_False by lia. subst fd. destruct Hok as [Hraw Hmc Hioctl Htimer Hsig Hep].
  set (fd := (rs_socket (re_raw e) (htons ETH_TYPE_IP)).1) in *.
  set (k1 := {| k_open := {[fd]} ∪ open; k_errno := err |}).
  assert (owns open k1 [fd; -1; -1; -1]) as Hown1.
  { by apply (owns_put open k _ [] [-1; -1; -1] (-1)); [lia|done|right]. }
  fold open. fold k1. cbn [d_cfg set_raw set_own_mac].
  destruct (raw_socket_get_mac_spec (re_mac e) k1 (rc_ifname cfg) Hmc Hioctl) as (err2 & r & mac' & -> & Hcase).
  rewrite bind_Val. destruct Hcase as [[-> ->]|[-> (m & -> & Hm)]].
  { do 3 eexists. split; [done|]. split; [|by split_and!; try done; right]. by apply (owns_errno open k1). }
  rewrite decide_False by lia.
  destruct (reaper_timerfd_create_spec (re_timer e) {| k_open := k_open k1; k_errno := err2 |}
    (rc_reaper_interval_ms cfg) Htimer) as (err3 & tfd & [[E ->]|(E & Ht & ->)]); rewrite E, bind_Val.
  { do 3 eexists. split; [done|]. split; [|by split_and!; try done; right]. by apply (owns_errno open k1). }
  rewrite decide_False by lia. set (tfd := (te_create (re_timer e)).1) in *.
  set (k2 := {| k_open := {[tfd]} ∪ k_open k1; k_errno := err3 |}).
  assert (owns open k2 [fd; tfd; -1; -1]) as Hown2.
  { by apply (owns_put open k1 _ [fd] [-1; -1] (-1)); [lia|done|right]. }
  destruct (re_sigprocmask e) as [r err4]. case_decide.
  { do 3 eexists. split; [done|]. split; [|by split_and!; try done; right]. by apply (owns_errno open k2). }
  unfold run_fds. fold fd tfd. destruct (re_signalfd e) as [sfd err5]. cbn [fst] in *. case_decide.
  { do 3 eexists. split; [done|]. split; [|by split_and!; try done; right].
    apply (owns_put open k2 _ [fd; tfd] [-1] (-1)); [lia|done|left]. split; [simpl; lia|done]. }
  match goal with |- context [setup_epoll _ ?k ?dp] =>
    destruct (setup_epoll_spec (re_epoll e) open k dp) as (k' & dp' & r' & -> & Hown & Hcfg & Hm' & Hrun & Hr) end.
  { apply (owns_put open k2 _ [fd; tfd] [-1] (-1)); [lia|done|right]. split_and!; [simpl; lia|done|done]. }
  { done. }
  exists k', dp', r'. cbn in Hcfg, Hm', Hrun, Hr. rewrite Hm', Hcfg. do 2 (split; [done|]). split_and!; try done.
  destruct Hr as [(-> & -> & ?)|Hr]; [left|by right]. split_and!; [done..|]. repeat constructor; lia.
Qed.

(** ** The run as a whole *)

Section Clean.
Context {xx : XXHash}.

(** What [epoll_wait] may answer: packets fit the buffer, snapshots are sound. *)
Definition fd_event_ok (ev : fd_event) : Prop :=
  (∀ data, fe_recv ev = Some data → bytes_ok data ∧ (length data ≤ RX_BUF_LEN)%nat) ∧
  (∀ snap, fe_snap ev = Some snap → snap_ok snap).

Definition epoll_ok (w : epoll_result) : Prop :=
  match w with Epoll_ready evs => Forall fd_event_ok evs | Epoll_error _ => True end.

(** A batch in which a whole signal is read from descriptor [sfd]. *)
Definition signalled (sfd : Z) (w : epoll_result) : Prop :=
  match w with
  | Epoll_error _ => False
  | Epoll_ready evs => ∃ pre ev post, evs = pre ++ ev :: post ∧ fe_fd ev = sfd ∧
      fe_siginfo ev = SIGNALFD_SIGINFO_SIZE ∧ Forall (λ ev, fe_fd ev ≠ sfd) pre
  end.

Definition fatal (w : epoll_result) : Prop :=
  match w with Epoll_error errno => errno ≠ EINTR | Epoll_ready _ => False end.

Lemma wait_of_ok dp w : epoll_ok w → wait_ok (wait_of dp w).
Proof.
  destruct w as [|evs]; [done|]. simpl. rewrite Forall_fmap. intros H. eapply Forall_impl; [exact H|]. intros ev Hev.
  unfold event_of. simpl. by repeat case_decide.
Qed.

Lemma wait_of_stops dp w : signalled (d_signalfd_fd dp) w ∨ fatal w → stops (wait_of dp w).
Proof.
  intros [H|H]; destruct w as [err|evs]; try done.
  - destruct H as (pre & ev & post & -> & Hfd & Hsi & Hpre). simpl.
    exists (map (event_of dp) pre), (map (event_of dp) post). split.
    + rewrite map_app. simpl. f_equal. f_equal. unfold event_of. by rewrite decide_True, bool_decide_true.
    + rewrite Forall_fmap. eapply Forall_impl; [exact Hpre|]. intros ev' Hev' b. unfold event_of. simpl.
      rewrite decide_False by done. by repeat case_decide.
  - simpl. by apply bool_decide_false.
Qed.

Lemma handle_events_signal dp st evs st' :
  handle_events (loop_config dp) st (map (event_of dp) evs) = Val (st', false) →
  signalled (d_signalfd_fd dp) (Epoll_ready evs).
Proof.
  revert st. induction evs as [|ev evs IH]; intros st; [done|]. simpl map.
  destruct (decide (fe_fd ev = d_signalfd_fd dp)) as [Hfd|Hfd].
  - unfold event_of at 1. rewrite decide_True by done. simpl. intros [= _ Hb%negb_false_iff%bool_decide_eq_true].
    by exists [], ev, evs.
  - assert (∀ st, handle_events (loop_config dp) st (map (event_of dp) evs) = Val (st', false) →
      signalled (d_signalfd_fd dp) (Epoll_ready (ev :: evs))) as Hgo.
    { intros st1 E. destruct (IH st1 E) as (pre & ev' & post & -> & ? & ? & ?).
      exists (ev :: pre), ev', post. by split_and!; [..|constructor]. }
    unfold event_of at 1. rewrite decide_False by done. case_decide; [|case_decide]; cbn [handle_events].
    + intros (st1 & _ & E)%bind_Val_inv. by eapply Hgo.
    + intros (st1 & _ & E)%bind_Val_inv. by eapply Hgo.
    + apply Hgo.
Qed.

(** The loop returns 0 only for a signal, -1 only for an error. *)
Lemma event_loop_rc dp waits : ∀ st st' rc,
  event_loop (loop_config dp) st (map (wait_of dp) waits) = Val (st', Some rc) →
  rc = 0 ∧ Exists (signalled (d_signalfd_fd dp)) waits ∨ rc = -1 ∧ Exists fatal waits.
Proof.
  induction waits as [|w waits IH]; intros st st' rc; [done|]. destruct w as [err|evs]; simpl map.
  - cbn [wait_of]. case_bool_decide; cbn [event_loop].
    + intros [[]|[]]%IH; [left|right]; by split; [|right].
    + intros [= _ <-]. right. split; [done|]. by left.
  - cbn [wait_of event_loop]. intros ([st1 keep] & E1 & E)%bind_Val_inv. destruct keep.
    + apply IH in E as [[]|[]]; [left|right]; by split; [|right].
    + injection E as _ <-. left. split; [done|]. left. by eapply handle_events_signal.
Qed.

(** The event loop after a successful setup keeps the invariant. *)
Lemma run_loop_spec dp st m waits :
  length (d_own_mac dp) = 6%nat → byte_ok (rc_ttl (d_cfg dp)) → 0 ≤ d_buckets_per_tick dp < 2 ^ 64 →
  dp_ok st m → Forall epoll_ok waits →
  ∃ st' rc m', event_loop (loop_config dp) st (map (wait_of dp) waits) = Val (st', rc) ∧ dp_ok st' m' ∧
    (Exists (λ w, signalled (d_signalfd_fd dp) w ∨ fatal w) waits → is_Some rc).
Proof.
  intros Hmac Httl Hn Hok Hwaits. assert (cfg_ok (loop_config dp)) as Hlc.
  { split_and!; [done|done|apply Hn..]. }
  destruct (event_loop_inv (loop_config dp) (length (ct_slab (dp_ct st))) (ct_bucket_count (dp_ct st))
    (map (wait_of dp) waits) st Hlc) as (st' & rc & El & ft & Hok' & _).
  { rewrite Forall_fmap. eapply Forall_impl; [exact Hwaits|]. intros w. apply wait_of_ok. }
  { by exists {| ft_flows := m; ft_cursor := ct_sweep_cursor (dp_ct st) |}. }
  exists st', rc, (ft_flows ft). split; [done|]. split; [done|]. intros Hstop.
  destruct (event_loop_returns (loop_config dp) (map (wait_of dp) waits) st st' rc) as [rc' ->]; [|done|by eexists].
  apply Exists_exists in Hstop as (w & Hw & Hs). apply Exists_exists. exists (wait_of dp w).
  split; [by apply list_elem_of_fmap_2|]. by apply wait_of_stops.
Qed.

Lemma datapath_run_spec e k dp st m
    (He : run_env_ok e (k_open k)) (Hdp : unopened dp) (Httl : byte_ok (rc_ttl (d_cfg dp)))
    (Hok : dp_ok st m) (Hwaits : Forall epoll_ok (re_waits e))
    (Hstop : Exists (λ w, signalled (re_signalfd e).1 w ∨ fatal w) (re_waits e)) :
  ∃ k' dp' st' rc m', datapath_run e k dp st = Val (k', dp', st', rc) ∧
    datapath_is_running dp' = false ∧ dp_ok st' m' ∧
    (rc = 0 ∧ Exists (signalled (re_signalfd e).1) (re_waits e) ∨ rc = -1) ∧
    owns (k_open k) k' (dp_fds dp').
Proof.
  destruct (run_setup_spec e k dp He Hdp) as (k1 & dp1 & r & E & Hown & Hcfg & Hmac & Hrun & Hr).
  unfold datapath_run. rewrite E, bind_Val. destruct Hr as [(-> & Hfds & _)| ->].
  2: { rewrite decide_True by lia. exists k1, dp1, st, (-1), m.
       do 3 (split; [done|]). split; [by right|done]. }
  rewrite decide_False by lia. cbv zeta.
  set (dp2 := set_running true (set_buckets (reaper_buckets_per_tick (dp_ct st)) dp1)).
  assert (d_signalfd_fd dp2 = (re_signalfd e).1) as Hsfd by by injection Hfds.
  destruct (run_loop_spec dp2 st m (re_waits e)) as (st' & rc & m' & El & Hok' & Hret); [done|by rewrite <- Hcfg in Httl|apply u64_range|done|done|].
  rewrite Hsfd in Hret. destruct (Hret Hstop) as [rc' ->]. rewrite El, bind_Val.
  exists k1, (set_running false dp2), st', rc', m'. do 3 (split; [done|]).
  apply event_loop_rc in El. rewrite Hsfd in El.
  split; [by destruct El as [|[-> _]]; [left|right]|done].
Qed.

(** Without a signal and without an error the run does not end. *)
Lemma datapath_run_waits e k k1 dp dp1 st m :
  run_env_ok e (k_open k) → unopened dp → byte_ok (rc_ttl (d_cfg dp)) → dp_ok st m → Forall epoll_ok (re_waits e) →
  run_setup e k dp = Val (k1, dp1, 0) →
  Forall (λ w, ¬ signalled (re_signalfd e).1 w ∧ ¬ fatal w) (re_waits e) →
  datapath_run e k dp st = NoFuel.
Proof.
  intros He Hdp Httl Hok Hwaits Es Hno. unfold datapath_run. rewrite Es, bind_Val, decide_False by lia. cbv zeta.
  destruct (run_setup_spec e k dp He Hdp) as (k1' & dp1' & r & E & _ & Hcfg & Hmac & _ & Hr).
  rewrite Es in E. injection E as <- <- <-. destruct Hr as [(_ & Hfds & _)|Hr]; [|done].
  set (dp2 := set_running true (set_buckets (reaper_buckets_per_tick (dp_ct st)) dp1)).
  assert (d_signalfd_fd dp2 = (re_signalfd e).1) as Hsfd by by injection Hfds.
  destruct (run_loop_spec dp2 st m (re_waits e)) as (st' & rc & m' & El & _); [done|by rewrite <- Hcfg in Httl|apply u64_range|done|done|].
  rewrite El, bind_Val. destruct rc as [rc|]; [exfalso|done]. apply event_loop_rc in El. rewrite Hsfd in El.
  rewrite Forall_forall in Hno.
  destruct El as [[_ (w & Hw & Hs)%Exists_exists]|[_ (w & Hw & Hs)%Exists_exists]]; by destruct (Hno w Hw).
Qed.

(** Whatever the system calls of the setup answer, [datapath_run] returns
    once a shutdown signal is read or [epoll_wait] fails: with 0 only after a
    signal, with the running flag off and the datapath's invariant intact, and
    [datapath_destroy] then closes exactly the descriptors the run had opened. *)
Theorem datapath_run_clean e k dp st m
    (He : run_env_ok e (k_open k)) (Hdp : unopened dp) (Httl : byte_ok (rc_ttl (d_cfg dp)))
    (Hok : dp_ok st m) (Hwaits : Forall epoll_ok (re_waits e))
    (Hstop : Exists (λ w, signalled (re_signalfd e).1 w ∨ fatal w) (re_waits e)) :
  ∃ k' dp' st' rc m', datapath_run e k dp st = Val (k', dp', st', rc) ∧
    datapath_is_running dp' = false ∧ dp_ok st' m' ∧
    (rc = 0 ∧ Exists (signalled (re_signalfd e).1) (re_waits e) ∨ rc = -1) ∧
    ∀ close_errno, ∃ errno, datapath_destroy k' (Some dp') close_errno =
      Val {| k_open := k_open k; k_errno := errno |}.
Proof.
  destruct (datapath_run_spec e k dp st m He Hdp Httl Hok Hwaits Hstop) as (k' & dp' & st' & rc & m' & E & Hr & Hok' & Hrc & Hown).
  exists k', dp', st', rc, m'. do 4 (split; [done|]). intros ce. by apply datapath_destroy_closes.
Qed.
End Clean.

(** A frame goes out on the datapath's interface to the address in its own
    Ethernet header. *)
Lemma packet_env_of_send dp ev frame :
  (6 ≤ length frame)%nat →
  pe_send (packet_env_of dp ev) frame =
  fe_sendto ev {| sll_family := AF_PACKET; sll_protocol := 0; sll_ifindex := d_ifindex dp; sll_halen := 6;
                  sll_addr := take 6 frame ++ [0; 0] |} frame.
Proof.
  intros Hlen. simpl. rewrite <- (take_drop 6 frame) at 1 2.
  rewrite raw_socket_send_spec by (rewrite ?length_take, ?take_drop; unfold ETH_ADDR_LEN; lia).
  by rewrite take_drop, firstn_all.
Qed.

(** ** Witness *)

Definition sample_run_config : run_config :=
  {| rc_ifname := [101; 116; 104; 48]; rc_vip := 1677746954; rc_director_ip := 16802570; rc_ttl := 64;
     rc_reaper_interval_ms := 500; rc_tcp_timeout_ns := 5000; rc_udp_timeout_ns := 3000 |}.

(** One packet on the raw socket 3, a tick of the timer 4, then SIGTERM on 5. *)
Definition sample_fd_event (fd now : Z) : fd_event :=
  {| fe_fd := fd; fe_siginfo := 128; fe_now := now; fe_recv := Some sample_udp_frame; fe_snap := Some sample_snap;
     fe_sendto _ frame := Z.of_nat (length frame) |}.

Definition sample_run_env : run_env :=
  {| re_raw := {| rs_socket _ := (3, 0); rs_ifindex _ := (2, 0); rs_bind _ := (0, 0); rs_bindtodevice _ := (0, 0);
                  rs_close := None |};
     re_mac := {| me_socket := (4, 0); me_ioctl _ := (0, 0, [2; 0; 0; 0; 0; 1] ++ replicate 8 0); me_close := None |};
     re_timer := {| te_create := (4, 0); te_settime _ := (0, 0); te_close := None |};
     re_sigprocmask := (0, 0); re_signalfd := (5, 0);
     re_epoll := {| ee_create := (6, 0); ee_ctl _ := (0, 0) |};
     re_waits := [Epoll_error EINTR; Epoll_ready [sample_fd_event 3 2000; sample_fd_event 4 2500];
                  Epoll_ready [sample_fd_event 5 2600]] |}.

Definition sample_datapath : datapath :=
  {| d_cfg := sample_run_config; d_raw_fd := -1; d_ifindex := 0; d_own_mac := replicate 6 0; d_timerfd := -1;
     d_signalfd_fd := -1; d_epfd := -1; d_buckets_per_tick := 0; d_is_running := false |}.

Lemma datapath_run_clean_witness :
  datapath_create true sample_run_config = Some sample_datapath ∧
  ∃ k' dp' st' m', datapath_run (xx := sample_hash) sample_run_env {| k_open := {[0; 1; 2]}; k_errno := 0 |}
      sample_datapath sample_dp = Val (k', dp', st', 0) ∧
    dp_ok (xx := sample_hash) st' m' ∧ (length (dp_sent st') = 1)%nat ∧
    ∃ errno, datapath_destroy k' (Some dp') None = Val {| k_open := {[0; 1; 2]}; k_errno := errno |}.
Proof.
  split; [done|]. set (k := {| k_open := {[0; 1; 2]}; k_errno := 0 |}).
  assert (∀ fd now, fd_event_ok (xx := sample_hash) (sample_fd_event fd now)) as Hev.
  { intros fd now. split; simpl; intros ? [= <-]; [apply sample_udp_frame_ok|apply sample_snap_ok]. }
  destruct (datapath_run_clean (xx := sample_hash) sample_run_env k sample_datapath sample_dp sample_flows)
    as (k' & dp' & st' & rc & m' & E & _ & Hok & _ & Hd).
  - split; simpl; set_solver.
  - by split_and!.
  - by unfold byte_ok.
  - apply sample_dp_ok.
  - repeat first [apply Forall_cons_2 | by apply Forall_nil | apply Hev | done].
  - do 2 apply Exists_cons_tl. apply Exists_cons_hd. left. by exists [], (sample_fd_event 5 2600), [].
  - assert (rc = 0 ∧ length (dp_sent st') = 1%nat) as [-> Hlen].
    { clear -E. vm_compute in E. injection E as _ _ <- <-. by split. }
    exists k', dp', st', m'. split; [exact E|]. split; [exact Hok|]. split; [exact Hlen|]. apply Hd.
Defined.
