(* ===== verification/Metrics.v ===== *)
(** * The Prometheus exporter

    [src/src/ui/metrics_http.c]: the body is printed into a fixed buffer of
    128 KiB from the counters, the backends and the table generator, and served
    over HTTP by a thread of its own, one connection at a time.

    Each request reads the state it is given ([metrics_view]); the clock, the
    sockets and [poll] are inputs. *)

From Stdlib Require Import Lia Ascii String.
From stdpp Require Import base numbers list gmap.
From S2P Require Import Prelude Net Hash Text Kernel Conntrack ConntrackSpec Stats BackendManager TableGenerator.

Local Open Scope Z_scope.

(** A literal of the source in which a backquote stands for the double quote. *)
Definition lit (s : string) : list Z := map (λ c, if decide (c = 96) then 34 else c) (text s).

Definition METRICS_BODY_CAP : Z := 128 * 1024.

(** ** The body *)

Record metrics_buf := { mb_data : list Z; mb_cap : Z; mb_len : Z }.

(** [vsnprintf] stores at most [room] bytes, the last one a NUL, and returns the
    length of the whole text [s]. *)
Definition mb_appendf (b : metrics_buf) (s : list Z) : out metrics_buf :=
  if decide (mb_len b >= mb_cap b) then Val b
  else
    let room := mb_cap b - mb_len b in
    let '(stored, n) := snprintf (Z.to_nat room) s in
    data ← wr_list (mb_data b) (Z.to_nat (mb_len b)) stored;
    if decide (0 < n)%nat then
      let written := Z.of_nat n in
      Val {| mb_data := data; mb_cap := mb_cap b;
             mb_len := mb_len b + (if decide (written < room) then written else room) |}
    else Val {| mb_data := data; mb_cap := mb_cap b; mb_len := mb_len b |}.

(** Consecutive calls, each printing one line. *)
Fixpoint mb_lines (b : metrics_buf) (ls : list (list Z)) : out metrics_buf :=
  match ls with
  | [] => Val b
  | l :: ls => b ← mb_appendf b (l ++ [10]); mb_lines b ls
  end.

(** What the exporter reads for one request. *)
Record metrics_view := {
  mv_start_time : Z;
  mv_table_size : Z;
  mv_configured : Z;
  mv_bm : backend_manager;
  mv_tg : table_generator;
  mv_ct : conntrack_table;
  mv_stats : lb_stats;
}.

(** [name{backend_id="%u",backend_addr="%s:%u"} ] *)
Definition backend_sample (name : string) (b : backend) (addr : list Z) : list Z :=
  lit name ++ lit "{backend_id=`" ++ fmt_u (b_id b) ++ lit "`,backend_addr=`" ++ addr ++
  lit ":" ++ fmt_u (b_port b) ++ lit "`}".

(** The [for] loop of one per-backend metric; [value] reads and prints. *)
Fixpoint mb_backends (b : metrics_buf) (name : string) (value : backend → out Z)
    (bs : list backend) : out metrics_buf :=
  match bs with
  | [] => Val b
  | bk :: bs =>
      addr ← c_string (ipv4_format (b_addr bk) 16);
      v ← value bk;
      b ← mb_appendf b (backend_sample name bk addr ++ lit " " ++ fmt_u v ++ [10]);
      mb_backends b name value bs
  end.

Definition bool_value (p : bool) : Z := if p then 1 else 0.

(** The loop that counts eligible backends. *)
Fixpoint count_eligible (bs : list backend) (n : Z) : Z :=
  match bs with
  | [] => n
  | bk :: bs =>
      count_eligible bs
        (if b_healthy bk && b_mac_resolved bk && bool_decide (b_admin_state bk = BACKEND_ENABLED)
         then u64 (n + 1) else n)
  end.

(** The lines up to the backend table. *)
Definition global_lines (v : metrics_view) : list (list Z) :=
  let snap := stats_registry_snapshot (mv_stats v) in
  [lit "# HELP maglev_lb_start_time_seconds Unix time the process started.";
   lit "# TYPE maglev_lb_start_time_seconds gauge";
   lit "maglev_lb_start_time_seconds " ++ fmt_ld (mv_start_time v);

   lit "# HELP maglev_lb_table_size Configured Maglev lookup table size (M).";
   lit "# TYPE maglev_lb_table_size gauge";
   lit "maglev_lb_table_size " ++ fmt_u (mv_table_size v);

   lit "# HELP maglev_lb_rx_packets_total Packets received on the ingestion raw socket (clients -> LB).";
   lit "# TYPE maglev_lb_rx_packets_total counter";
   lit "maglev_lb_rx_packets_total " ++ fmt_u (rx_packets snap);

   lit "# HELP maglev_lb_rx_bytes_total Bytes received on the ingestion raw socket.";
   lit "# TYPE maglev_lb_rx_bytes_total counter";
   lit "maglev_lb_rx_bytes_total " ++ fmt_u (rx_bytes snap);

   lit "# HELP maglev_lb_tx_packets_total GRE-encapsulated packets forwarded to backends (LB -> backends).";
   lit "# TYPE maglev_lb_tx_packets_total counter";
   lit "maglev_lb_tx_packets_total " ++ fmt_u (tx_packets snap);

   lit "# HELP maglev_lb_tx_bytes_total Bytes forwarded to backends, including the GRE+IP+Ethernet wrapper.";
   lit "# TYPE maglev_lb_tx_bytes_total counter";
   lit "maglev_lb_tx_bytes_total " ++ fmt_u (tx_bytes snap);

   lit "# HELP maglev_lb_drops_total Packets the datapath dropped, by reason.";
   lit "# TYPE maglev_lb_drops_total counter";
   lit "maglev_lb_drops_total{reason=`parse_error`} " ++ fmt_u (drops_parse_error snap);
   lit "maglev_lb_drops_total{reason=`no_backend`} " ++ fmt_u (drops_no_backend snap);
   lit "maglev_lb_drops_total{reason=`backend_unhealthy`} " ++ fmt_u (drops_backend_unhealthy snap);
   lit "maglev_lb_drops_total{reason=`conntrack_full`} " ++ fmt_u (drops_conntrack_full snap);

   lit "# HELP maglev_lb_conntrack_lookups_total Conntrack lookups, by result.";
   lit "# TYPE maglev_lb_conntrack_lookups_total counter";
   lit "maglev_lb_conntrack_lookups_total{result=`hit`} " ++ fmt_u (conntrack_hits snap);
   lit "maglev_lb_conntrack_lookups_total{result=`miss`} " ++ fmt_u (conntrack_misses snap);

   lit "# HELP maglev_lb_conntrack_evictions_total Conntrack entries reaped for being idle past their timeout.";
   lit "# TYPE maglev_lb_conntrack_evictions_total counter";
   lit "maglev_lb_conntrack_evictions_total " ++ fmt_u (conntrack_evictions snap);

   lit "# HELP maglev_lb_conntrack_active_flows Flows currently pinned in the conntrack table.";
   lit "# TYPE maglev_lb_conntrack_active_flows gauge";
   lit "maglev_lb_conntrack_active_flows " ++ fmt_u (conntrack_active_flows (mv_ct v));

   lit "# HELP maglev_lb_table_generation Number of times the Maglev lookup table has been (re)generated, including the initial build.";
   lit "# TYPE maglev_lb_table_generation counter";
   lit "maglev_lb_table_generation " ++ fmt_u (table_generator_generation (mv_tg v));

   lit "# HELP maglev_lb_table_regen_last_microseconds Wall-clock duration of the most recent table regeneration.";
   lit "# TYPE maglev_lb_table_regen_last_microseconds gauge";
   lit "maglev_lb_table_regen_last_microseconds " ++ fmt_u (table_generator_last_regen_us (mv_tg v))].

Definition build_metrics_body (v : metrics_view) (b : metrics_buf) : out metrics_buf :=
  b ← mb_lines b (global_lines v);
  backends ← backend_manager_snapshot_all (mv_bm v) BACKEND_MAX;
  let eligible := count_eligible backends 0 in
  let stat (f : per_backend_stats → Z) (bk : backend) :=
    bs ← stats_registry_snapshot_backend (mv_stats v) (b_id bk); Val (f bs) in
  b ← mb_lines b
    [lit "# HELP maglev_lb_backends_configured Backends configured at startup via --backend.";
     lit "# TYPE maglev_lb_backends_configured gauge";
     lit "maglev_lb_backends_configured " ++ fmt_u (mv_configured v);

     lit "# HELP maglev_lb_backends_eligible Backends currently eligible for new flows (healthy, admin-enabled, MAC resolved).";
     lit "# TYPE maglev_lb_backends_eligible gauge";
     lit "maglev_lb_backends_eligible " ++ fmt_u eligible;

     lit "# HELP maglev_lb_backend_up Whether the backend is currently healthy (1) or not (0), as last determined by the health checker.";
     lit "# TYPE maglev_lb_backend_up gauge"];
  b ← mb_backends b "maglev_lb_backend_up" (λ bk, Val (bool_value (b_healthy bk))) backends;
  b ← mb_lines b
    [lit "# HELP maglev_lb_backend_admin_enabled Whether the backend's admin state is ENABLED (1) rather than DRAINING/DISABLED (0).";
     lit "# TYPE maglev_lb_backend_admin_enabled gauge"];
  b ← mb_backends b "maglev_lb_backend_admin_enabled"
        (λ bk, Val (bool_value (bool_decide (b_admin_state bk = BACKEND_ENABLED)))) backends;
  b ← mb_lines b
    [lit "# HELP maglev_lb_backend_draining Whether the backend is currently DRAINING (1): no new flows, but flows already pinned to it via conntrack keep being forwarded until they finish naturally.";
     lit "# TYPE maglev_lb_backend_draining gauge"];
  b ← mb_backends b "maglev_lb_backend_draining"
        (λ bk, Val (bool_value (bool_decide (b_admin_state bk = BACKEND_DRAINING)))) backends;
  b ← mb_lines b
    [lit "# HELP maglev_lb_backend_packets_total GRE-encapsulated packets forwarded to this specific backend.";
     lit "# TYPE maglev_lb_backend_packets_total counter"];
  b ← mb_backends b "maglev_lb_backend_packets_total" (stat packets) backends;
  b ← mb_lines b
    [lit "# HELP maglev_lb_backend_bytes_total Bytes forwarded to this specific backend (GRE-encapsulated, including the wrapper).";
     lit "# TYPE maglev_lb_backend_bytes_total counter"];
  b ← mb_backends b "maglev_lb_backend_bytes_total" (stat bytes) backends;
  b ← mb_lines b
    [lit "# HELP maglev_lb_backend_active_flows Flows in the conntrack table currently pinned to this backend.";
     lit "# TYPE maglev_lb_backend_active_flows gauge"];
  b ← mb_backends b "maglev_lb_backend_active_flows" (stat active_flows) backends;
  b ← mb_lines b
    [lit "# HELP maglev_lb_backend_flows_assigned_total New flows the datapath has pinned to this backend (conntrack inserts). A packet reusing an already-pinned 5-tuple is not counted.";
     lit "# TYPE maglev_lb_backend_flows_assigned_total counter"];
  b ← mb_backends b "maglev_lb_backend_flows_assigned_total" (stat flows_assigned) backends;
  b ← mb_lines b
    [lit "# HELP maglev_lb_backend_health_check_failures_total Failed health-check probes against this backend (every failure, not just threshold-crossing ones).";
     lit "# TYPE maglev_lb_backend_health_check_failures_total counter"];
  mb_backends b "maglev_lb_backend_health_check_failures_total" (stat health_check_failures) backends.

(** ** The server *)

Record metrics_http := {
  mh_listen_fd : Z;
  mh_wake_fd : Z;
  mh_running : bool;
  mh_port : Z;
}.

Definition set_listen_fd (fd : Z) (m : metrics_http) : metrics_http :=
  {| mh_listen_fd := fd; mh_wake_fd := mh_wake_fd m; mh_running := mh_running m; mh_port := mh_port m |}.

Definition set_mh_running (r : bool) (m : metrics_http) : metrics_http :=
  {| mh_listen_fd := mh_listen_fd m; mh_wake_fd := mh_wake_fd m; mh_running := r; mh_port := mh_port m |}.

(** [eventfd] answers [(fd, errno)]. *)
Definition metrics_http_create (calloc_ok : bool) (eventfd : Z * Z) (k : kernel) (port : Z) :
    kernel * option metrics_http :=
  if negb calloc_ok then (k, None)
  else
    let '(fd, err) := eventfd in
    let k := set_errno err k in
    if decide (fd < 0) then (k, None)
    else (opened fd k, Some {| mh_listen_fd := -1; mh_wake_fd := fd; mh_running := false; mh_port := port |}).

Definition metrics_http_destroy (k : kernel) (m : option metrics_http) (e : option Z) : out kernel :=
  match m with
  | None => Val k
  | Some m =>
      k ← close_if_open k (mh_listen_fd m) e;
      close_if_open k (mh_wake_fd m) e
  end.

Definition http_header (len : Z) : list Z :=
  lit "HTTP/1.1 200 OK" ++ [13; 10] ++
  lit "Content-Type: text/plain; version=0.0.4" ++ [13; 10] ++
  lit "Content-Length: " ++ fmt_u len ++ [13; 10] ++
  lit "Connection: close" ++ [13; 10] ++ [13; 10].

(** One connection: its descriptor, what [malloc] answers (the contents of the
    fresh block, or NULL), and the state read.  The result lists what is passed
    to [send]; whether it is delivered is not looked at.  The request is received
    and discarded. *)
Definition handle_client (k : kernel) (cfd : Z) (close_errno : option Z) (malloc : option (list Z))
    (v : metrics_view) : out (kernel * list (list Z)) :=
  match malloc with
  | None => k ← sys_close k cfd close_errno; Val (k, [])
  | Some body =>
      mb ← build_metrics_body v {| mb_data := body; mb_cap := METRICS_BODY_CAP; mb_len := 0 |};
      let '(header, hlen) := snprintf 256 (http_header (mb_len mb)) in
      sends ← (if decide (0 < hlen)%nat then
                 h ← rd_list header 0 hlen;
                 body ← rd_list (mb_data mb) 0 (Z.to_nat (mb_len mb));
                 Val [h; body]
               else Val []);
      k ← sys_close k cfd close_errno;
      Val (k, sends)
  end.

(** What [poll] answers in an iteration, and [accept] and the connection behind
    it if the listening socket is readable. *)
Inductive mh_poll :=
  | Mh_eintr
  | Mh_none                                     (** zero, or an error other than EINTR *)
  | Mh_ready (listen_in wake_in : bool) (cfd : Z) (malloc : option (list Z)) (v : metrics_view).

(** The result lists the responses, one entry per connection served. *)
Fixpoint metrics_thread_main (k : kernel) (close_errno : option Z) (polls : list mh_poll) :
    out (kernel * list (list (list Z))) :=
  match polls with
  | [] => NoFuel
  | Mh_eintr :: polls | Mh_none :: polls => metrics_thread_main k close_errno polls
  | Mh_ready listen_in wake_in cfd malloc v :: polls =>
      if wake_in then Val (k, [])
      else if listen_in then
        if decide (cfd >= 0) then
          '(k, sends) ← handle_client (opened cfd k) cfd close_errno malloc v;
          '(k, rest) ← metrics_thread_main k close_errno polls;
          Val (k, sends :: rest)
        else metrics_thread_main k close_errno polls
      else metrics_thread_main k close_errno polls
  end.

Record listen_env := {
  le_socket : Z * Z;
  le_bind : sockaddr_in → Z * Z;
  le_listen : Z * Z;
  le_thread : bool;         (** does [pthread_create] succeed *)
  le_close : option Z;
}.

Definition metrics_http_start (e : listen_env) (k : kernel) (m : metrics_http) :
    out (kernel * metrics_http * Z) :=
  let '(fd, err) := le_socket e in
  let k := set_errno err k in
  let m := set_listen_fd fd m in
  if decide (fd < 0) then Val (k, m, -1)
  else
    let k := opened fd k in
    let '(r, err) := le_bind e {| sin_family := AF_INET; sin_port := htons (mh_port m); sin_addr := 0 |} in
    let k := set_errno err k in
    if decide (r ≠ 0) then
      k ← sys_close k fd (le_close e); Val (k, set_listen_fd (-1) m, -1)
    else
      let '(r, err) := le_listen e in
      let k := set_errno err k in
      if decide (r ≠ 0) then
        k ← sys_close k fd (le_close e); Val (k, set_listen_fd (-1) m, -1)
      else if negb (le_thread e) then
        k ← sys_close k fd (le_close e); Val (k, set_listen_fd (-1) m, -1)
      else Val (k, set_mh_running true m, 0).

(** [join] is the rest of the thread, which the wake-up ends. *)
Definition metrics_http_stop (k : kernel) (m : option metrics_http)
    (join : kernel → out kernel) : out (kernel * option metrics_http) :=
  match m with
  | None => Val (k, None)
  | Some m =>
      if negb (mh_running m) then Val (k, Some m)
      else k ← join k; Val (k, Some (set_mh_running false m))
  end.

(** ** The exposition as metric families *)

(** A metric with its labelled samples. *)
Record family := {
  f_name : string;
  f_help : string;
  f_type : string;
  f_samples : list (list Z * Z);
}.

Definition metric_key (f : family) (s : list Z * Z) : list Z := lit (f_name f) ++ s.1.

Definition family_lines (f : family) : list (list Z) :=
  [lit "# HELP " ++ lit (f_name f) ++ lit " " ++ lit (f_help f);
   lit "# TYPE " ++ lit (f_name f) ++ lit " " ++ lit (f_type f)] ++
  map (λ s, metric_key f s ++ lit " " ++ fmt_u s.2) (f_samples f).

(** A metric without labels. *)
Definition single (name help type : string) (v : Z) : family :=
  {| f_name := name; f_help := help; f_type := type; f_samples := [([], v)] |}.

Definition backend_labels (b : backend) : list Z :=
  lit "{backend_id=`" ++ fmt_u (b_id b) ++ lit "`,backend_addr=`" ++ ip_port_text (b_addr b) (b_port b) ++
  lit "`}".

(** A metric with one sample per backend. *)
Definition per_backend (name help type : string) (value : backend → Z) (bs : list backend) : family :=
  {| f_name := name; f_help := help; f_type := type; f_samples := map (λ b, (backend_labels b, value b)) bs |}.

Definition backend_stat (v : metrics_view) (f : per_backend_stats → Z) (b : backend) : Z :=
  match stats_registry_snapshot_backend (mv_stats v) (b_id b) with Val bs => f bs | _ => 0 end.

Definition families (v : metrics_view) : list family :=
  let g := sr_global (mv_stats v) in
  let bs := live (mv_bm v) in
  [single "maglev_lb_start_time_seconds" "Unix time the process started." "gauge" (mv_start_time v);
   single "maglev_lb_table_size" "Configured Maglev lookup table size (M)." "gauge" (mv_table_size v);
   single "maglev_lb_rx_packets_total" "Packets received on the ingestion raw socket (clients -> LB)."
     "counter" (rx_packets g);
   single "maglev_lb_rx_bytes_total" "Bytes received on the ingestion raw socket." "counter" (rx_bytes g);
   single "maglev_lb_tx_packets_total" "GRE-encapsulated packets forwarded to backends (LB -> backends)."
     "counter" (tx_packets g);
   single "maglev_lb_tx_bytes_total"
     "Bytes forwarded to backends, including the GRE+IP+Ethernet wrapper." "counter" (tx_bytes g);
   {| f_name := "maglev_lb_drops_total"; f_help := "Packets the datapath dropped, by reason.";
      f_type := "counter";
      f_samples := [(lit "{reason=`parse_error`}", drops_parse_error g);
                    (lit "{reason=`no_backend`}", drops_no_backend g);
                    (lit "{reason=`backend_unhealthy`}", drops_backend_unhealthy g);
                    (lit "{reason=`conntrack_full`}", drops_conntrack_full g)] |};
   {| f_name := "maglev_lb_conntrack_lookups_total"; f_help := "Conntrack lookups, by result.";
      f_type := "counter";
      f_samples := [(lit "{result=`hit`}", conntrack_hits g); (lit "{result=`miss`}", conntrack_misses g)] |};
   single "maglev_lb_conntrack_evictions_total" "Conntrack entries reaped for being idle past their timeout."
     "counter" (conntrack_evictions g);
   single "maglev_lb_conntrack_active_flows" "Flows currently pinned in the conntrack table." "gauge"
     (conntrack_active_flows (mv_ct v));
   single "maglev_lb_table_generation"
     "Number of times the Maglev lookup table has been (re)generated, including the initial build."
     "counter" (tg_generation (mv_tg v));
   single "maglev_lb_table_regen_last_microseconds"
     "Wall-clock duration of the most recent table regeneration." "gauge" (tg_last_regen_us (mv_tg v));
   single "maglev_lb_backends_configured" "Backends configured at startup via --backend." "gauge"
     (mv_configured v);
   single "maglev_lb_backends_eligible"
     "Backends currently eligible for new flows (healthy, admin-enabled, MAC resolved)." "gauge"
     (Z.of_nat (length (filter eligible bs)));
   per_backend "maglev_lb_backend_up"
     "Whether the backend is currently healthy (1) or not (0), as last determined by the health checker."
     "gauge" (λ b, bool_value (b_healthy b)) bs;
   per_backend "maglev_lb_backend_admin_enabled"
     "Whether the backend's admin state is ENABLED (1) rather than DRAINING/DISABLED (0)." "gauge"
     (λ b, bool_value (bool_decide (b_admin_state b = BACKEND_ENABLED))) bs;
   per_backend "maglev_lb_backend_draining"
     "Whether the backend is currently DRAINING (1): no new flows, but flows already pinned to it via conntrack keep being forwarded until they finish naturally."
     "gauge" (λ b, bool_value (bool_decide (b_admin_state b = BACKEND_DRAINING))) bs;
   per_backend "maglev_lb_backend_packets_total"
     "GRE-encapsulated packets forwarded to this specific backend." "counter" (backend_stat v packets) bs;
   per_backend "maglev_lb_backend_bytes_total"
     "Bytes forwarded to this specific backend (GRE-encapsulated, including the wrapper)." "counter"
     (backend_stat v bytes) bs;
   per_backend "maglev_lb_backend_active_flows"
     "Flows in the conntrack table currently pinned to this backend." "gauge"
     (backend_stat v active_flows) bs;
   per_backend "maglev_lb_backend_flows_assigned_total"
     "New flows the datapath has pinned to this backend (conntrack inserts). A packet reusing an already-pinned 5-tuple is not counted."
     "counter" (backend_stat v flows_assigned) bs;
   per_backend "maglev_lb_backend_health_check_failures_total"
     "Failed health-check probes against this backend (every failure, not just threshold-crossing ones)."
     "counter" (backend_stat v health_check_failures) bs].

(** What a scraper reads: the samples, line by line, comments skipped. *)
Fixpoint lines_of (cur : list Z) (s : list Z) : list (list Z) :=
  match s with
  | [] => []
  | c :: s => if decide (c = 10) then cur :: lines_of [] s else lines_of (cur ++ [c]) s
  end.

Definition scrape_line (l : list Z) : option (list Z * Z) :=
  if decide (head l = Some 35) then None
  else '(key, value) ← strrchr 32 l; Some (key, dec_value 0 value).

Definition scrape (body : list Z) : list (list Z * Z) := omap scrape_line (lines_of [] body).

Definition family_samples (f : family) : list (list Z * Z) :=
  map (λ s, (metric_key f s, s.2)) (f_samples f).

Definition all_samples (v : metrics_view) : list (list Z * Z) := concat (map family_samples (families v)).

(** The state is sound, and every value reported is a 64-bit number. *)
Record metrics_view_ok (v : metrics_view) : Prop := {
  vo_bm : bm_ok (mv_bm v);
  vo_stats : stats_live (mv_stats v);
  vo_values : Forall (λ s, 0 ≤ s.2 < 2 ^ 64) (all_samples v);
}.

(** ** Printing into the buffer *)

Definition render (ls : list (list Z)) : list Z := concat (map (λ l, l ++ [10]) ls).

(** The buffer of [cap] bytes holds the text [s]. *)
Definition holds (b : metrics_buf) (s : list Z) : Prop :=
  mb_len b = Z.of_nat (length s) ∧ Z.of_nat (length (mb_data b)) = mb_cap b ∧
  take (length s) (mb_data b) = s.

Lemma mb_appendf_fits b s t :
  holds b s → Z.of_nat (length s + length t) < mb_cap b →
  ∃ b', mb_appendf b t = Val b' ∧ holds b' (s ++ t) ∧ mb_cap b' = mb_cap b.
Proof.
  destruct b as [data cap len]. intros (Hlen & Hcap & Hs) Hfit. unfold holds, mb_appendf in *. cbn in *.
  subst len. rewrite decide_False by lia. unfold snprintf.
  destruct (Z.to_nat (cap - Z.of_nat (length s))) as [|c] eqn:Hc; [lia|].
  rewrite (take_ge t c) by lia. rewrite Nat2Z.id.
  rewrite (wr_list_at data (length s) (t ++ [0]) s (take (S (length t)) (drop (length s) data))
    (drop (length s + S (length t)) data)); first last.
  - rewrite length_take, length_drop. bound.
  - done.
  - rewrite <- Hs at 1. rewrite <- drop_drop, take_drop. by rewrite take_drop.
  - rewrite bind_Val.
    assert (length (s ++ (t ++ [0]) ++ drop (length s + S (length t)) data) = length data) as Hlen'.
    { rewrite !length_app, length_drop. simpl. lia. }
    assert (take (length (s ++ t)) (s ++ (t ++ [0]) ++ drop (length s + S (length t)) data) = s ++ t) as Htake.
    { rewrite <- (assoc_L (++) t), (assoc_L (++) s). by rewrite take_app_length. }
    case_decide; eexists; (split; [done|]); cbn; rewrite Hlen'; split_and!; try done.
    + rewrite decide_True by lia. bound.
    + assert (t = []) as -> by (apply nil_length_inv; lia). by rewrite app_nil_r.
Qed.

(** A text that does not fit leaves a buffer that counts the terminating NUL as
    its last byte. *)
Lemma mb_appendf_truncates b s t :
  holds b s → Z.of_nat (length s) < mb_cap b ≤ Z.of_nat (length s + length t) →
  ∃ b', mb_appendf b t = Val b' ∧ mb_len b' = mb_cap b ∧
    mb_data b' = s ++ take (Z.to_nat (mb_cap b) - length s - 1) t ++ [0].
Proof.
  destruct b as [data cap len]. intros (Hlen & Hcap & Hs) Hfit. unfold mb_appendf. cbn in *.
  subst len. rewrite decide_False by lia. unfold snprintf.
  destruct (Z.to_nat (cap - Z.of_nat (length s))) as [|c] eqn:Hc; [lia|]. rewrite Nat2Z.id.
  assert (length (take c t) = c) as Hlt by (rewrite length_take; lia).
  rewrite (wr_list_at data (length s) (take c t ++ [0]) s (drop (length s) data) []); first last.
  - rewrite length_drop, length_app, Hlt. simpl. lia.
  - done.
  - rewrite app_nil_r. rewrite <- Hs at 1. by rewrite take_drop.
  - rewrite bind_Val, app_nil_r, decide_True by lia. eexists. split; [done|]. cbn.
    rewrite decide_False by lia. split; [lia|].
    by replace (Z.to_nat cap - length s - 1)%nat with c by lia.
Qed.

Lemma mb_lines_fits ls : ∀ b s,
  holds b s → Z.of_nat (length s + length (render ls)) < mb_cap b →
  ∃ b', mb_lines b ls = Val b' ∧ holds b' (s ++ render ls) ∧ mb_cap b' = mb_cap b.
Proof.
  induction ls as [|l ls IH]; intros b s Hb Hfit.
  { exists b. split; [done|]. unfold render. simpl. by rewrite app_nil_r. }
  cbn [mb_lines]. unfold render in *. cbn [map concat] in *. rewrite length_app in Hfit.
  destruct (mb_appendf_fits b s (l ++ [10]) Hb) as (b1 & -> & Hb1 & Hc1); [lia|]. rewrite bind_Val.
  destruct (IH b1 _ Hb1) as (b2 & E2 & Hb2 & Hc2); [rewrite length_app; lia|].
  exists b2. split; [done|]. rewrite (assoc_L (++)). split; [done|]. by rewrite Hc2.
Qed.

Lemma mb_lines_app b l1 l2 : mb_lines b (l1 ++ l2) = b ← mb_lines b l1; mb_lines b l2.
Proof.
  revert b. induction l1 as [|l l1 IH]; intros b; [done|]. cbn. destruct (mb_appendf b _); [|done..].
  rewrite !bind_Val. apply IH.
Qed.

(** ** The body is the text of the families *)

Lemma ipv4_format_string addr : c_string (ipv4_format addr 16) = Val (dotted_quad addr).
Proof.
  unfold ipv4_format, snprintf. cbn [fst]. rewrite take_ge by apply dotted_quad_length. apply c_string_app.
  eapply Forall_impl; [apply dotted_quad_chars|]. simpl. lia.
Qed.

Lemma backend_sample_labels name b :
  backend_sample name b (dotted_quad (b_addr b)) = lit name ++ backend_labels b.
Proof.
  unfold backend_sample, backend_labels, ip_port_text. change [58] with (lit ":"). by rewrite <- !app_assoc.
Qed.

(** The loop over the backends prints one line each. *)
Lemma mb_backends_lines name value val bs : ∀ b,
  Forall (λ bk, value bk = Val (val bk)) bs →
  mb_backends b name value bs =
  mb_lines b (map (λ s, (lit name ++ s.1) ++ lit " " ++ fmt_u s.2) (map (λ bk, (backend_labels bk, val bk)) bs)).
Proof.
  induction bs as [|bk bs IH]; intros b Hv; [done|]. apply Forall_cons in Hv as [Hbk Hv].
  cbn [mb_backends map mb_lines fst snd].
  rewrite ipv4_format_string, bind_Val, Hbk, bind_Val, backend_sample_labels, <- !app_assoc.
  match goal with |- mb_appendf b ?t ≫= _ = mb_appendf b ?t' ≫= _ => change t' with t; destruct (mb_appendf b t) end;
    [|done..]. rewrite !bind_Val. by apply IH.
Qed.

Lemma count_eligible_spec bs n :
  0 ≤ n → n + Z.of_nat (length bs) < 2 ^ 64 →
  count_eligible bs n = n + Z.of_nat (length (filter eligible bs)).
Proof.
  revert n. induction bs as [|b bs IH]; intros n H0 Hn; [simpl; lia|]. cbn [count_eligible]. rewrite filter_cons.
  cbn [length] in Hn.
  assert (b_healthy b && b_mac_resolved b && bool_decide (b_admin_state b = BACKEND_ENABLED) =
    bool_decide (eligible b)) as ->.
  { apply eq_bool_prop_intro. rewrite bool_decide_spec. unfold eligible. rewrite !andb_True. tauto. }
  case_bool_decide; [rewrite decide_True by done|rewrite decide_False by done].
  - unfold u64. rewrite Z.mod_small by lia. rewrite IH by lia. cbn [length]. lia.
  - apply IH; lia.
Qed.

Lemma mb_lines_bind b l1 l2 (k : metrics_buf → out metrics_buf) :
  (∀ b, k b = mb_lines b l2) → (mb_lines b l1 ≫= k) = mb_lines b (l1 ++ l2).
Proof.
  intros Hk. rewrite mb_lines_app. destruct (mb_lines b l1); [|done..]. rewrite !bind_Val. apply Hk.
Qed.

Lemma mb_backends_bind b name value val bs l2 (k : metrics_buf → out metrics_buf) :
  Forall (λ bk, value bk = Val (val bk)) bs → (∀ b, k b = mb_lines b l2) →
  (mb_backends b name value bs ≫= k) =
  mb_lines b (map (λ s, (lit name ++ s.1) ++ lit " " ++ fmt_u s.2) (map (λ bk, (backend_labels bk, val bk)) bs) ++ l2).
Proof. intros Hv Hk. rewrite (mb_backends_lines _ _ val) by done. by apply mb_lines_bind. Qed.

Lemma backend_stat_read v f :
  bm_ok (mv_bm v) → stats_live (mv_stats v) →
  Forall (λ bk, (bs ← stats_registry_snapshot_backend (mv_stats v) (b_id bk); Val (f bs)) =
    Val (backend_stat v f bk)) (live (mv_bm v)).
Proof.
  intros Hbm Hst. apply Forall_forall. intros bk [i Hi]%elem_of_live. unfold backend_stat.
  destruct (snapshot_backend_Val (mv_stats v) (b_id bk) Hst) as (bs & -> & _); [|done].
  apply (ok_ids _ Hbm) in Hi. lia.
Qed.

Lemma snapshot_all_live bm : bm_ok bm → backend_manager_snapshot_all bm BACKEND_MAX = Val (live bm).
Proof.
  intros Hok. unfold backend_manager_snapshot_all. rewrite collect_all by done. f_equal.
  induction (live bm) as [|b l IH]; [done|]. rewrite filter_cons, decide_True by done. by rewrite IH.
Qed.

Lemma build_metrics_body_lines v b :
  metrics_view_ok v → build_metrics_body v b = mb_lines b (concat (map family_lines (families v))).
Proof.
  intros [Hbm Hst Hval].
  assert (fmt_ld (mv_start_time v) = fmt_u (mv_start_time v)) as Hstart.
  { unfold fmt_ld. rewrite decide_False; [done|]. inversion Hval as [|x l [H0 _] Hl Heq]. cbn in H0. lia. }
  assert (count_eligible (live (mv_bm v)) 0 = Z.of_nat (length (filter eligible (live (mv_bm v))))) as Hel.
  { rewrite count_eligible_spec; [lia..|]. pose proof (live_length _ Hbm). unfold BACKEND_MAX in *. lia. }
  unfold build_metrics_body, global_lines. rewrite Hstart. etransitivity.
  { apply mb_lines_bind. intros b1. rewrite snapshot_all_live, bind_Val by done. cbv beta zeta. rewrite Hel.
    apply mb_lines_bind. intros b2. apply mb_backends_bind; [by apply Forall_true|]. intros b3.
    apply mb_lines_bind. intros b4. apply mb_backends_bind; [by apply Forall_true|]. intros b5.
    apply mb_lines_bind. intros b6. apply mb_backends_bind; [by apply Forall_true|]. intros b7.
    do 4 (apply mb_lines_bind; intros ?; apply mb_backends_bind; [by apply backend_stat_read|]; intros ?).
    apply mb_lines_bind. intros ?.
    etransitivity; [by apply mb_backends_lines, backend_stat_read|]. by rewrite <- (app_nil_r (map _ (map _ _))). }
  apply (f_equal (mb_lines b)). unfold families, family_lines, single, per_backend, metric_key.
  cbn [f_samples f_name f_help f_type map app concat fst snd].
  generalize fmt_u (live (mv_bm v)) backend_labels (backend_stat v). intros fmt bs labels stat.
  vm_compute. reflexivity.
Qed.

(** ** Reading the body back *)

Lemma lines_of_line l : ∀ cur s, 10 ∉ l → lines_of cur (l ++ 10 :: s) = (cur ++ l) :: lines_of [] s.
Proof.
  induction l as [|c l IH]; intros cur s Hl; cbn [app lines_of].
  - rewrite decide_True by done. by rewrite app_nil_r.
  - apply not_elem_of_cons in Hl as [Hc Hl]. rewrite decide_False by done. rewrite IH by done.
    by rewrite <- (assoc_L (++)).
Qed.

Lemma lines_of_render ls : Forall (λ l, 10 ∉ l) ls → lines_of [] (render ls) = ls.
Proof.
  unfold render. induction 1 as [|l ls Hl _ IH]; [done|]. cbn [map concat].
  rewrite <- (assoc_L (++)). cbn [app]. rewrite lines_of_line by done. by rewrite IH.
Qed.

(** What every family satisfies: no line breaks, a name that does not look like
    a comment, lines of bounded length. *)
Record family_ok (f : family) : Prop := {
  fk_comments : Forall (λ l, ¬ (10 ∈ l) ∧ (length l ≤ 200)%nat) (take 2 (family_lines f));
  fk_name : ∃ c s, lit (f_name f) = c :: s ∧ c ≠ 35 ∧ ¬ (10 ∈ lit (f_name f)) ∧ (length (lit (f_name f)) ≤ 50)%nat;
  fk_labels : Forall (λ s, ¬ (10 ∈ s.1) ∧ (length s.1 ≤ 100)%nat) (f_samples f);
}.

Lemma digits_no ds c : Forall (λ c, 48 ≤ c ≤ 57) ds → c < 48 → c ∉ ds.
Proof. intros H Hc Hin. rewrite Forall_forall in H. apply H in Hin. lia. Qed.

Lemma family_lines_ok f : family_ok f → Forall (λ l, ¬ (10 ∈ l) ∧ (length l ≤ 200)%nat) (family_lines f).
Proof.
  intros [Hc (c & s & _ & _ & Hn & Hnl) Hl]. rewrite <- (take_drop 2). apply Forall_app. split; [done|].
  unfold family_lines. cbn [app]. rewrite skipn_cons, skipn_cons, drop_0. rewrite Forall_fmap. eapply Forall_impl; [exact Hl|].
  intros [lb val] [Hlb Hll]. unfold compose, metric_key. cbn [fst snd] in *. pose proof (fmt_u_max val).
  split; [|change (lit " ") with [32]; bound].
  rewrite !not_elem_of_app. split_and!; [done..| |by apply digits_no; [apply fmt_u_digits|]].
  apply (bool_decide_unpack _). by vm_compute.
Qed.

Lemma family_scrape f :
  family_ok f → Forall (λ s, 0 ≤ s.2 < 2 ^ 64) (f_samples f) →
  omap scrape_line (family_lines f) = family_samples f.
Proof.
  intros [_ (c & s & Hname & Hc & _ & _) _] Hv. unfold family_lines, family_samples. cbn [app omap list_omap].
  change (scrape_line (lit "# HELP " ++ _)) with (@None (list Z * Z)).
  change (scrape_line (lit "# TYPE " ++ _)) with (@None (list Z * Z)). cbv iota.
  induction Hv as [|[lb val] l Hval _ IH]; [done|]. cbn [map omap list_omap fst snd].
  assert (scrape_line (metric_key f (lb, val) ++ lit " " ++ fmt_u val) = Some (metric_key f (lb, val), val)) as ->.
  { assert (strrchr 32 (metric_key f (lb, val) ++ 32 :: fmt_u val) = Some (metric_key f (lb, val), fmt_u val)) as Hs.
    { apply strrchr_app, digits_no; [apply fmt_u_digits|lia]. }
    unfold scrape_line. change (lit " " ++ fmt_u val) with (32 :: fmt_u val). rewrite Hs.
    rewrite decide_False by (unfold metric_key; rewrite Hname; by intros [= ->]).
    change (Some (metric_key f (lb, val), dec_value 0 (fmt_u val)) = Some (metric_key f (lb, val), val)).
    by rewrite fmt_u_value. }
  by rewrite <- IH.
Qed.

Lemma backend_labels_ok b : ¬ (10 ∈ backend_labels b) ∧ (length (backend_labels b) ≤ 100)%nat.
Proof.
  unfold backend_labels, ip_port_text. pose proof (fmt_u_max (b_id b)). pose proof (fmt_u_max (b_port b)).
  pose proof (dotted_quad_length (b_addr b)). split.
  - rewrite !not_elem_of_app. split_and!.
    2, 6: apply digits_no; [apply fmt_u_digits|done].
    3: { intros Hin. pose proof (dotted_quad_chars (b_addr b)) as H'. rewrite Forall_forall in H'.
         apply H' in Hin. lia. }
    all: by apply (bool_decide_unpack _); vm_compute.
  - rewrite !length_app. change (length (lit "{backend_id=`")) with 13%nat.
    change (length (lit "`,backend_addr=`")) with 16%nat. change (length (lit "`}")) with 2%nat.
    change (length [58]) with 1%nat. lia.
Qed.

Lemma per_backend_ok name help type value bs :
  family_ok (per_backend name help type value []) → family_ok (per_backend name help type value bs).
Proof.
  intros [Hc Hn _]. split; [done..|]. unfold per_backend. cbn [f_samples]. rewrite Forall_fmap.
  apply Forall_true. intros b. apply backend_labels_ok.
Qed.

Ltac closed_family := split; [apply (bool_decide_unpack _); by vm_compute| |apply (bool_decide_unpack _); by vm_compute];
  eexists _, _; (split; [vm_compute; reflexivity|]); split; [done|]; split; [apply (bool_decide_unpack _); by vm_compute|vm_compute; lia].

Lemma families_ok v : Forall family_ok (families v).
Proof.
  unfold families. repeat apply Forall_cons_2; try (apply per_backend_ok); try (by apply Forall_nil).
  all: closed_family.
Qed.

(** ** One response *)

Definition metrics_body (v : metrics_view) : list Z := render (concat (map family_lines (families v))).

Lemma render_length ls n :
  Forall (λ l, (length l ≤ n)%nat) ls → (length (render ls) ≤ length ls * S n)%nat.
Proof.
  unfold render. induction 1 as [|l ls Hl _ IH]; [done|]. cbn [map concat length]. rewrite !length_app. simpl. lia.
Qed.

Lemma families_lines_ok v :
  Forall (λ l, ¬ (10 ∈ l) ∧ (length l ≤ 200)%nat) (concat (map family_lines (families v))).
Proof.
  pose proof (families_ok v) as H. induction H as [|f fs Hf _ IH]; [by apply Forall_nil|].
  cbn [map concat]. apply Forall_app. split; [by apply family_lines_ok|done].
Qed.

Lemma families_lines_count v :
  length (concat (map family_lines (families v))) = (62 + 8 * length (live (mv_bm v)))%nat.
Proof.
  unfold families, family_lines, single, per_backend. cbn [map concat f_samples app length].
  repeat (progress rewrite ?length_app, ?length_map; cbn [length]). lia.
Qed.

Lemma metrics_body_fits v : bm_ok (mv_bm v) → Z.of_nat (length (metrics_body v)) < METRICS_BODY_CAP.
Proof.
  intros Hbm. unfold metrics_body, METRICS_BODY_CAP.
  assert (Forall (λ l, (length l ≤ 200)%nat) (concat (map family_lines (families v)))) as Hl.
  { eapply Forall_impl; [apply families_lines_ok|]. by intros l []. }
  apply render_length in Hl. rewrite families_lines_count in Hl. pose proof (live_length _ Hbm).
  unfold BACKEND_MAX in *. lia.
Qed.

Lemma scrape_metrics_body v : metrics_view_ok v → scrape (metrics_body v) = all_samples v.
Proof.
  intros [_ _ Hval]. unfold scrape, metrics_body. rewrite lines_of_render.
  2: { eapply Forall_impl; [apply families_lines_ok|]. by intros l []. }
  unfold all_samples in *. pose proof (families_ok v) as Hok. revert Hval.
  induction Hok as [|f fs Hf _ IH]; [done|]. cbn [map concat]. rewrite Forall_app, omap_app. intros [Hv Hvs].
  rewrite IH by done. f_equal. apply family_scrape; [done|]. unfold family_samples in Hv.
  by rewrite Forall_fmap in Hv.
Qed.

(** What is sent for one connection. *)
Definition response (malloc : option (list Z)) (v : metrics_view) : list (list Z) :=
  match malloc with
  | Some _ => [http_header (Z.of_nat (length (metrics_body v))); metrics_body v]
  | None => []
  end.

(** [malloc] gives a block of the size asked for. *)
Definition malloc_fits (malloc : option (list Z)) : Prop :=
  ∀ body, malloc = Some body → length body = Z.to_nat METRICS_BODY_CAP.

Lemma http_header_length n : (0 < length (http_header n) < 256)%nat.
Proof.
  unfold http_header. pose proof (fmt_u_max n). rewrite !length_app.
  change (length (lit "HTTP/1.1 200 OK")) with 15%nat.
  change (length (lit "Content-Type: text/plain; version=0.0.4")) with 39%nat.
  change (length (lit "Content-Length: ")) with 16%nat.
  change (length (lit "Connection: close")) with 17%nat. simpl length. lia.
Qed.

Lemma handle_client_spec k cfd ce malloc v :
  metrics_view_ok v → malloc_fits malloc → cfd ∉ k_open k →
  ∃ errno, handle_client (opened cfd k) cfd ce malloc v =
    Val ({| k_open := k_open k; k_errno := errno |}, response malloc v).
Proof.
  intros Hv Hm Hfd. unfold handle_client. destruct malloc as [body|].
  2: { rewrite (sys_close_new _ cfd _ (k_open k)) by done. rewrite bind_Val. by eexists. }
  pose proof (metrics_body_fits v (vo_bm _ Hv)) as Hfit.
  rewrite build_metrics_body_lines by done.
  match goal with |- context [mb_lines ?b ?ls] =>
    destruct (mb_lines_fits ls b []) as (mb & -> & (Hlen & Hcap & Htake) & Hc) end.
  { split; [done|]. split; [|done]. cbn [mb_data mb_cap]. rewrite (Hm body eq_refl). unfold METRICS_BODY_CAP. lia. }
  { cbn [length mb_cap]. exact Hfit. }
  rewrite app_nil_l in Hlen, Htake. fold (metrics_body v) in Hlen, Htake. rewrite bind_Val, Hlen.
  pose proof (http_header_length (Z.of_nat (length (metrics_body v)))) as Hh.
  unfold snprintf. rewrite decide_True by lia. rewrite take_ge by lia.
  rewrite (rd_list_take_drop _ 0 (length (http_header _))) by bound. rewrite drop_0, take_app_length, bind_Val.
  rewrite Nat2Z.id, rd_list_take_drop.
  2: { cbn [mb_cap] in Hc. lia. }
  rewrite drop_0, Htake, !bind_Val, (sys_close_new _ cfd _ (k_open k)) by done. rewrite bind_Val. by eexists.
Qed.

(** For every sound state the exporter answers a request with a header whose
    Content-Length is the length of the body, a body that fits its 128 KiB buffer
    without truncation, and from which a line-by-line scraper reads back exactly
    the counters, the gauges and the state of every backend; the connection is
    closed. *)
Theorem metrics_response_exact k cfd close_errno buf v
    (Hv : metrics_view_ok v) (Hbuf : length buf = Z.to_nat METRICS_BODY_CAP) (Hfd : cfd ∉ k_open k) :
  ∃ errno body, handle_client (opened cfd k) cfd close_errno (Some buf) v =
      Val ({| k_open := k_open k; k_errno := errno |}, [http_header (Z.of_nat (length body)); body]) ∧
    Z.of_nat (length body) < METRICS_BODY_CAP ∧ scrape body = all_samples v.
Proof.
  destruct (handle_client_spec k cfd close_errno (Some buf) v Hv) as [errno E]; [by intros ? [= <-]|done|]. exists errno, (metrics_body v).
  split; [exact E|]. split; [apply metrics_body_fits, Hv|by apply scrape_metrics_body].
Qed.

(** ** The life of the server *)

(** What is sent until the wake-up, connection by connection. *)
Fixpoint served (polls : list mh_poll) : list (list (list Z)) :=
  match polls with
  | [] => []
  | Mh_ready listen_in wake_in cfd malloc v :: polls =>
      if wake_in then []
      else if listen_in && bool_decide (0 ≤ cfd) then response malloc v :: served polls
      else served polls
  | _ :: polls => served polls
  end.

(** Accepted descriptors are new, and the state is sound when it is read. *)
Definition poll_ok (open : fds) (p : mh_poll) : Prop :=
  match p with Mh_ready _ _ cfd malloc v => ¬ (cfd ∈ open) ∧ malloc_fits malloc ∧ metrics_view_ok v | _ => True end.

Definition wakes (p : mh_poll) : Prop := match p with Mh_ready _ wake_in _ _ _ => wake_in = true | _ => False end.

Lemma metrics_thread_spec ce polls : ∀ k,
  Forall (poll_ok (k_open k)) polls → Exists wakes polls →
  ∃ errno, metrics_thread_main k ce polls = Val ({| k_open := k_open k; k_errno := errno |}, served polls).
Proof.
  induction polls as [|p polls IH]; intros k Hok Hex; [by apply Exists_nil in Hex|].
  apply Forall_cons in Hok as [Hp Hok]. apply Exists_cons in Hex.
  assert (¬ wakes p → ∃ errno, metrics_thread_main k ce polls =
    Val ({| k_open := k_open k; k_errno := errno |}, served polls)) as Hgo.
  { intros Hw. destruct Hex as [|Hex]; [done|]. by apply IH. }
  destruct p as [| |listen_in wake_in cfd malloc v]; cbn [metrics_thread_main served]; [apply Hgo; by intros []..|].
  destruct wake_in; [by exists (k_errno k); destruct k|]. destruct Hex as [|Hex]; [done|].
  destruct listen_in; cbn [andb]; [|by apply Hgo].
  case_decide; [rewrite bool_decide_true by lia|rewrite bool_decide_false by lia; by apply Hgo].
  destruct Hp as (Hfd & Hm & Hv). destruct (handle_client_spec k cfd ce malloc v Hv Hm Hfd) as [errno ->].
  rewrite bind_Val. destruct (IH {| k_open := k_open k; k_errno := errno |} Hok Hex) as [errno' ->].
  rewrite bind_Val. by exists errno'.
Qed.

(** [metrics_http_stop] wakes the thread and waits for it. *)
Definition join_thread (ce : option Z) (polls : list mh_poll) (k : kernel) : out kernel :=
  '(k, _) ← metrics_thread_main k ce polls; Val k.

Lemma metrics_http_start_spec e open k m :
  owns open k [mh_listen_fd m; mh_wake_fd m] → mh_listen_fd m = -1 → mh_running m = false →
  (le_socket e).1 ∉ k_open k →
  ∃ k' m' rc, metrics_http_start e k m = Val (k', m', rc) ∧ owns open k' [mh_listen_fd m'; mh_wake_fd m'] ∧
    (rc = 0 ∧ mh_running m' = true ∧ k_open k' = {[(le_socket e).1]} ∪ k_open k ∨
     rc = -1 ∧ mh_running m' = false).
Proof.
  intros Hown Hl Hr Hfd. unfold metrics_http_start. destruct (le_socket e) as [fd err]. cbn [fst] in *.
  rewrite Hl in Hown. case_decide.
  { do 3 eexists. split; [done|]. split; [|right; by split].
    apply (owns_put open k _ [] [mh_wake_fd m] (-1)); [lia|done|by left]. }
  assert (∀ k', k_open k' = k_open k → owns open k' [-1; mh_wake_fd m]) as Hfail.
  { intros k' Hk'. by apply (owns_errno open k). }
  assert (∀ k' ce, k_open k' = {[fd]} ∪ k_open k →
    ∃ k1, (k' ← sys_close k' fd ce; Val (k', set_listen_fd (-1) (set_listen_fd fd m), -1)) =
      Val (k1, set_listen_fd (-1) (set_listen_fd fd m), -1) ∧ k_open k1 = k_open k) as Hclose.
  { intros k' ce Hk'. rewrite (sys_close_new _ fd _ (k_open k)) by done. by eexists. }
  destruct (le_bind e _) as [r1 e1]. case_decide.
  { edestruct (Hclose (set_errno e1 (opened fd (set_errno err k)))) as (k1 & -> & Hk1); [done|]. do 3 eexists.
    split; [done|]. split; [by apply Hfail|right; by split]. }
  destruct (le_listen e) as [r2 e2]. case_decide.
  { edestruct (Hclose (set_errno e2 (opened fd (set_errno err k)))) as (k1 & -> & Hk1); [done|]. do 3 eexists.
    split; [done|]. split; [by apply Hfail|right; by split]. }
  destruct (le_thread e); cbn [negb].
  - do 3 eexists. split; [done|]. split; [|by left].
    apply (owns_put open k _ [] [mh_wake_fd m] (-1)); [lia|done|right]. cbn. split; [lia|done].
  - edestruct (Hclose (set_errno e2 (opened fd (set_errno err k)))) as (k1 & -> & Hk1); [done|]. do 3 eexists.
    split; [done|]. split; [by apply Hfail|right; by split].
Qed.

Lemma metrics_http_destroy_closes open k m e :
  owns open k [mh_listen_fd m; mh_wake_fd m] →
  ∃ errno, metrics_http_destroy k (Some m) e = Val {| k_open := open; k_errno := errno |}.
Proof.
  intros H. destruct (close_all_owned open _ k e H) as [errno E]. exists errno.
  unfold metrics_http_destroy. revert E. cbn [close_all].
  repeat (destruct (close_if_open _ _ _); try done; rewrite ?bind_Val).
Qed.

(** However [metrics_http_start] fares, stopping and destroying the server
    returns once the wake-up is seen and leaves exactly the descriptors that were
    open before; while it runs, every accepted connection is answered, in order,
    with the response for the state at that moment. *)
Theorem metrics_server_clean k eventfd port e close_errno polls k1 m
    (Hcreate : metrics_http_create true eventfd k port = (k1, Some m))
    (Hwake : eventfd.1 ∉ k_open k) (Hsock : (le_socket e).1 ∉ k_open k1)
    (Hpolls : Forall (poll_ok ({[(le_socket e).1]} ∪ k_open k1)) polls) (Hex : Exists wakes polls) :
  ∃ k2 m2 rc, metrics_http_start e k1 m = Val (k2, m2, rc) ∧
    (rc = 0 → ∃ errno, metrics_thread_main k2 close_errno polls =
      Val ({| k_open := k_open k2; k_errno := errno |}, served polls)) ∧
    ∃ k3 m3 errno, metrics_http_stop k2 (Some m2) (join_thread close_errno polls) = Val (k3, Some m3) ∧
      mh_running m3 = false ∧
      metrics_http_destroy k3 (Some m3) close_errno = Val {| k_open := k_open k; k_errno := errno |}.
Proof.
  unfold metrics_http_create in Hcreate. cbn [negb] in Hcreate. destruct eventfd as [wfd err]. cbn [fst] in Hwake.
  case_decide; [done|]. injection Hcreate as <- <-.
  match goal with |- context [metrics_http_start e ?k1 ?m] =>
    destruct (metrics_http_start_spec e (k_open k) k1 m) as (k2 & m2 & rc & -> & Hown & Hrc) end; [|done..|].
  { apply (owns_put (k_open k) k _ [-1] [] (-1)); [lia|apply owns_none; by repeat constructor|right].
    cbn. split; [lia|done]. }
  exists k2, m2, rc. split; [done|].
  destruct Hrc as [(-> & Hrun & Hopen)|[-> Hrun]].
  - rewrite <- Hopen in Hpolls. destruct (metrics_thread_spec close_errno polls k2 Hpolls Hex) as [errno Et].
    split; [intros _; by exists errno|]. unfold metrics_http_stop, join_thread. rewrite Hrun. cbn [negb].
    rewrite Et, !bind_Val. do 2 eexists.
    destruct (metrics_http_destroy_closes (k_open k) {| k_open := k_open k2; k_errno := errno |}
      (set_mh_running false m2) close_errno) as [errno' Ed]; [by apply (owns_errno _ k2)|].
    exists errno'. split; [done|]. by split.
  - split; [lia|]. unfold metrics_http_stop. rewrite Hrun. cbn [negb]. do 2 eexists.
    destruct (metrics_http_destroy_closes (k_open k) k2 m2 close_errno Hown) as [errno' Ed].
    exists errno'. split; [done|]. by split.
Qed.

(** ** Witnesses *)

(** Two of the four backends of [sample_bm4] have counters. *)
Definition sample_view : metrics_view :=
  {| mv_start_time := 1700000000; mv_table_size := 65537; mv_configured := 4; mv_bm := sample_bm4;
     mv_tg := sys_tg sample_sys; mv_ct := sample_ct;
     mv_stats := {| sr_global := {| rx_packets := 12; rx_bytes := 18446744073709551615; tx_packets := 11; tx_bytes := 900;
                      drops_parse_error := 1; drops_no_backend := 0; drops_backend_unhealthy := 0;
                      drops_conntrack_full := 0; conntrack_hits := 7; conntrack_misses := 4; conntrack_evictions := 2 |};
                    sr_backends := Some [zero_backend; {| packets := 11; bytes := 900; active_flows := 2;
                      flows_assigned := 4; health_check_failures := 3 |}];
                    sr_max_backends := 2 |} |}.

Lemma sample_view_ok : metrics_view_ok sample_view.
Proof.
  split.
  - apply (so_bm _ sample_sys_ok).
  - split; [done|]. split; [done|]. repeat constructor; simpl; lia.
  - apply (bool_decide_unpack _). by vm_compute.
Qed.

(** Uninitialised memory. *)
Definition sample_block : list Z := replicate (Z.to_nat METRICS_BODY_CAP) 165.

Lemma metrics_response_exact_witness :
  ∃ errno body, handle_client {| k_open := {[3; 4; 5]}; k_errno := 0 |} 5 None (Some sample_block) sample_view =
      Val ({| k_open := {[3; 4]}; k_errno := errno |}, [http_header (Z.of_nat (length body)); body]) ∧
    scrape body !! 3%nat = Some (lit "maglev_lb_rx_bytes_total", 18446744073709551615).
Proof.
  destruct (metrics_response_exact {| k_open := {[3; 4]}; k_errno := 0 |} 5 None sample_block sample_view sample_view_ok)
    as (errno & body & E & _ & Hs); [apply length_replicate|set_solver|].
  exists errno, body. split; [|rewrite Hs; by vm_compute].
  assert ({| k_open := {[3; 4; 5]}; k_errno := 0 |} = opened 5 {| k_open := {[3; 4]}; k_errno := 0 |}) as ->.
  { unfold opened. f_equal. }
  exact E.
Defined.

Lemma metrics_server_clean_witness :
  let k := {| k_open := {[0; 1; 2]}; k_errno := 0 |} in
  let e := {| le_socket := (4, 0); le_bind _ := (0, 0); le_listen := (0, 0); le_thread := true; le_close := None |} in
  let polls := [Mh_eintr; Mh_ready true false 5 (Some sample_block) sample_view; Mh_ready true false (-1) None sample_view;
                Mh_ready true true 5 None sample_view] in
  ∃ k1 m k2 m2 k3 m3 errno, metrics_http_create true (3, 0) k 9100 = (k1, Some m) ∧
    metrics_http_start e k1 m = Val (k2, m2, 0) ∧
    metrics_http_stop k2 (Some m2) (join_thread None polls) = Val (k3, Some m3) ∧
    metrics_http_destroy k3 (Some m3) None = Val {| k_open := {[0; 1; 2]}; k_errno := errno |} ∧
    served polls = [response (Some sample_block) sample_view].
Proof.
  intros k e polls.
  edestruct (metrics_server_clean k (3, 0) 9100 e None polls) as (k2 & m2 & rc & E & _ & k3 & m3 & errno & Es & _ & Ed).
  - reflexivity.
  - set_solver.
  - set_solver.
  - repeat apply Forall_cons_2; try done; try (split; [set_solver|split; [|apply sample_view_ok]]); intros ? [= <-]; apply length_replicate.
  - do 3 apply Exists_cons_tl. by apply Exists_cons_hd.
  - do 7 eexists. split; [reflexivity|]. split; [|split; [exact Es|split; [exact Ed|reflexivity]]].
    rewrite E. do 2 f_equal. clear -E. vm_compute in E. by injection E as _ _ <-.
Defined.
