(* ===== verification/RemapReport.v ===== *)
(** * The remap report

    [src/tools/maglev_remap_report.c]: the tables for two backend counts are
    generated with the code of the load balancer and compared slot by slot.  The
    outcomes of the allocations are inputs, and so is the text the C library prints
    for a NaN; the result is the exit status and the standard output. *)

From Stdlib Require Import Lia String.
From stdpp Require Import base numbers list.
From S2P Require Import Prelude Double Net Hash Text Maglev.

Local Open Scope Z_scope.

(** Element [i] of the array; [o4 << 24] wraps to the sign bit as GCC defines. *)
Definition make_backend (i : nat) : backend_view :=
  let o3 := u8 (Z.of_nat i / 256 mod 256) in
  let o4 := u8 (Z.of_nat i mod 256) in
  {| v_id := u32 (Z.of_nat i);
     v_addr := u32 (Z.lor (Z.lor (Z.lor 10 (Z.shiftl 0 8)) (Z.shiftl o3 16)) (s32 (Z.shiftl o4 24)));
     v_port := 9000; v_mac := [0; 0; 0; 0; 0; 0] |}.

(** [None] when [calloc] fails. *)
Definition make_backends (calloc_ok : bool) (n : nat) : option (list backend_view) :=
  if calloc_ok then Some (map make_backend (seq 0 n)) else None.

Record remap_result := {
  considered : Z;
  maglev_unchanged : Z;
  naive_unchanged : Z;
}.

Record remap_allocs := {
  ra_before : bool;
  ra_after : bool;
  ra_t_before : nat → bool;
  ra_t_after : nat → bool;
}.

(** The loop over the slots, [n] of them being left from slot [i] on. *)
Fixpoint remap_loop (n i : nat) (t_before t_after : maglev_table) (n_before n_after : nat)
    (r : remap_result) : out remap_result :=
  match n with
  | O => Val r
  | S n =>
      mag_before ← rd (t_lookup t_before) i;
      nb ← umod (Z.of_nat i) (Z.of_nat n_before);
      let naive_before := s32 nb in
      if decide (u64 mag_before < Z.of_nat n_after) then
        let r := {| considered := u64 (considered r + 1); maglev_unchanged := maglev_unchanged r;
                    naive_unchanged := naive_unchanged r |} in
        mag_after ← rd (t_lookup t_after) i;
        let r := if decide (mag_after = mag_before) then
                   {| considered := considered r; maglev_unchanged := u64 (maglev_unchanged r + 1);
                      naive_unchanged := naive_unchanged r |}
                 else r in
        na ← umod (Z.of_nat i) (Z.of_nat n_after);
        let naive_after := s32 na in
        let r := if decide (naive_after = naive_before) then
                   {| considered := considered r; maglev_unchanged := maglev_unchanged r;
                      naive_unchanged := u64 (naive_unchanged r + 1) |}
                 else r in
        remap_loop n (S i) t_before t_after n_before n_after r
      else remap_loop n (S i) t_before t_after n_before n_after r
  end.

Section Report.
Context {xx : XXHash}.

(** [None] is the return value -1. *)
Definition compute_remap (a : remap_allocs) (m : Z) (n_before n_after : nat) : out (option remap_result) :=
  match make_backends (ra_before a) n_before, make_backends (ra_after a) n_after with
  | Some before, Some after =>
      t_before ← maglev_table_generate (ra_t_before a) before m;
      t_after ← maglev_table_generate (ra_t_after a) after m;
      match t_before, t_after with
      | Some t_before, Some t_after =>
          r ← remap_loop (Z.to_nat m) 0 t_before t_after n_before n_after
                {| considered := 0; maglev_unchanged := 0; naive_unchanged := 0 |};
          Val (Some r)
      | _, _ => Val None
      end
  | _, _ => Val None
  end.

(** ** The command line *)

Record report_args := {
  ar_m : Z;
  ar_before : Z;
  ar_after : Z;
  ar_sweep_min : Z;
  ar_sweep_max : Z;
}.

Definition strtoul (s : list Z) : Z :=
  match scan_int s with None => 0 | Some (neg, v, _) => ulong_value neg v end.

(** The loop over [argv]; [None] prints the usage. *)
Fixpoint parse_args (argv : list (list Z)) (a : report_args) : option report_args :=
  match argv with
  | [] => Some a
  | x :: argv =>
      if decide (x = text "--before") then
        match argv with
        | y :: argv =>
            parse_args argv {| ar_m := ar_m a; ar_before := (strtol y).1; ar_after := ar_after a;
                               ar_sweep_min := ar_sweep_min a; ar_sweep_max := ar_sweep_max a |}
        | [] => None
        end
      else if decide (x = text "--after") then
        match argv with
        | y :: argv =>
            parse_args argv {| ar_m := ar_m a; ar_before := ar_before a; ar_after := (strtol y).1;
                               ar_sweep_min := ar_sweep_min a; ar_sweep_max := ar_sweep_max a |}
        | [] => None
        end
      else if decide (x = text "--sweep") then
        match argv with
        | y :: z :: argv =>
            parse_args argv {| ar_m := ar_m a; ar_before := ar_before a; ar_after := ar_after a;
                               ar_sweep_min := (strtol y).1; ar_sweep_max := (strtol z).1 |}
        | _ => None
        end
      else if decide (x = text "--m") then
        match argv with
        | y :: argv =>
            parse_args argv {| ar_m := u32 (strtoul y); ar_before := ar_before a; ar_after := ar_after a;
                               ar_sweep_min := ar_sweep_min a; ar_sweep_max := ar_sweep_max a |}
        | [] => None
        end
      else None
  end.

(** The arguments of a call to [print_row]. *)
Record row := { row_before : nat; row_after : nat; row_result : remap_result }.

(** [100.0 * (double)(considered - unchanged) / (double)considered] as [%.2f]
    prints it; [nan] is the text of 0.0 / 0.0. *)
Definition fixed2 (h : Z) : list Z := fmt_u (h / 100) ++ [46; 48 + h mod 100 / 10; 48 + h mod 10].

Definition fmt_f2 (a : double) : list Z := fixed2 (hundredths a).

Definition percent (nan : list Z) (considered unchanged : Z) : list Z :=
  let moved := u64 (considered - unchanged) in
  if decide (considered = 0) then if decide (moved = 0) then nan else text "inf"
  else fmt_f2 (double_div (double_mul (double_of 100) (double_of moved)) (double_of considered)).

(** The line of the format string, with the two percentages. *)
Definition row_line (n_before n_after c : Z) (maglev naive : list Z) : list Z :=
  pad_left 6 (fmt_u n_before) ++ text " -> " ++ pad_right 6 (fmt_u n_after) ++
  text "  considered=" ++ pad_right 8 (fmt_u c) ++ text "  maglev_remapped=" ++
  pad_left 6 maglev ++ text "%   naive_remapped=" ++ pad_left 6 naive ++ text "%" ++ [10].

Definition print_row (nan : list Z) (r : row) : list Z :=
  let c := considered (row_result r) in
  row_line (Z.of_nat (row_before r)) (Z.of_nat (row_after r)) c
    (percent nan c (maglev_unchanged (row_result r))) (percent nan c (naive_unchanged (row_result r))).

(** The standard output: a first line and rows. *)
Record report := { rp_header : list Z; rp_rows : list row }.

Definition report_stdout (nan : list Z) (r : report) : list Z :=
  rp_header r ++ concat (print_row nan <$> rp_rows r).

(** The usage message, on the standard error output. *)
Definition usage (prog : list Z) : list Z :=
  text "usage: " ++ prog ++ text " --before N1 --after N2 [--m M]" ++ [10] ++
  text "       " ++ prog ++ text " --sweep MIN MAX [--m M]" ++ [10; 10] ++
  text "  --before/--after  Backend counts before/after the change (ids 0..N-1;" ++ [10] ++
  text "                    N2<N1 removes the highest-id backends, N2>N1 adds new ones)" ++ [10] ++
  text "  --sweep MIN MAX   For each N in [MIN,MAX], reports removing exactly one" ++ [10] ++
  text "                    backend (N -> N-1) - shows Maglev's ~1/N relationship" ++ [10] ++
  text "  --m M             Maglev table size (default " ++ fmt_u MAGLEV_DEFAULT_M ++ text ", must be prime)" ++ [10].

(** The sweep, [k] counts being left from [n] on: the exit status and the rows. *)
Fixpoint sweep (k : nat) (a : Z → remap_allocs) (m n : Z) : out (Z * list row) :=
  match k with
  | O => Val (0, [])
  | S k =>
      r ← compute_remap (a n) m (Z.to_nat n) (Z.to_nat (n - 1));
      match r with
      | None => Val (1, [])
      | Some r =>
          '(rc, rows) ← sweep k a m (n + 1);
          Val (rc, {| row_before := Z.to_nat n; row_after := Z.to_nat (n - 1); row_result := r |} :: rows)
      end
  end.

(** [argv] without the program name; [a n] are the allocations for count [n]. *)
Definition report_main (a : Z → remap_allocs) (argv : list (list Z)) : out (Z * report) :=
  match parse_args argv {| ar_m := MAGLEV_DEFAULT_M; ar_before := -1; ar_after := -1;
                           ar_sweep_min := -1; ar_sweep_max := -1 |} with
  | None => Val (1, {| rp_header := []; rp_rows := [] |})
  | Some args =>
      _ ← maglev_is_prime (ar_m args);
      if decide (ar_before args > 1 ∧ ar_after args > 0) then
        r ← compute_remap (a (ar_before args)) (ar_m args) (Z.to_nat (ar_before args))
              (Z.to_nat (ar_after args));
        match r with
        | None => Val (1, {| rp_header := []; rp_rows := [] |})
        | Some r =>
            Val (0, {| rp_header := text "m=" ++ fmt_u (ar_m args) ++ [10];
                       rp_rows := [{| row_before := Z.to_nat (ar_before args);
                                      row_after := Z.to_nat (ar_after args); row_result := r |}] |})
        end
      else if decide (ar_sweep_min args >= 2 ∧ ar_sweep_max args >= ar_sweep_min args) then
        '(rc, rows) ← sweep (Z.to_nat (ar_sweep_max args - ar_sweep_min args + 1)) a (ar_m args) (ar_sweep_min args);
        Val (rc, {| rp_header := text "m=" ++ fmt_u (ar_m args) ++
                                 text "  (each row: N backends, remove exactly one)" ++ [10];
                    rp_rows := rows |})
      else Val (1, {| rp_header := []; rp_rows := [] |})
  end.
End Report.

(** ** What the counts mean *)

(** Slots whose owner before the change is still there after it. *)
Definition surviving (before : list Z) (n_after : nat) (i : nat) : Prop :=
  ∃ x, before !! i = Some x ∧ x < Z.of_nat n_after.

#[export] Instance surviving_dec before n_after i : Decision (surviving before n_after i).
Proof.
  destruct (before !! i) as [x|] eqn:E; [destruct (decide (x < Z.of_nat n_after)) as [H|H]|].
  - left. by exists x.
  - right. intros (y & Hy & ?). naive_solver.
  - right. intros (y & Hy & ?). naive_solver.
Defined.

(** Among them, those with the same owner in the two tables, and those with the
    same index modulo the two counts. *)
Definition kept (before after : list Z) (n_after i : nat) : Prop :=
  surviving before n_after i ∧ before !! i = after !! i.

Definition naive_kept (before : list Z) (n_before n_after i : nat) : Prop :=
  surviving before n_after i ∧ (i mod n_before = i mod n_after)%nat.

#[export] Instance kept_dec before after n_after i : Decision (kept before after n_after i).
Proof. unfold kept. apply _. Defined.

#[export] Instance naive_kept_dec before n_before n_after i : Decision (naive_kept before n_before n_after i).
Proof. unfold naive_kept. apply _. Defined.

Definition count (P : nat → Prop) `{∀ i, Decision (P i)} (l : list nat) : Z := Z.of_nat (length (filter P l)).

Lemma count_cons (P : nat → Prop) `{∀ i, Decision (P i)} i l :
  count P (i :: l) = (if decide (P i) then 1 else 0) + count P l.
Proof. unfold count. rewrite filter_cons. case_decide; cbn [length]; lia. Qed.

Lemma s32_mod (i n : nat) : (0 < n)%nat → Z.of_nat n < 2 ^ 31 → s32 (Z.of_nat i mod Z.of_nat n) = Z.of_nat (i mod n).
Proof.
  intros Hn Hb. rewrite <- Nat2Z.inj_mod. apply s32_small. pose proof (Nat.mod_upper_bound i n). lia.
Qed.

Lemma umod_nat (i n : nat) : (0 < n)%nat → umod (Z.of_nat i) (Z.of_nat n) = Val (Z.of_nat i mod Z.of_nat n).
Proof. intros. unfold umod. by rewrite decide_False by lia. Qed.

Section Loop.
Context (tb ta : maglev_table) (nb na : nat).
Context (Hnb : (0 < nb)%nat) (Hna : (0 < na)%nat) (Hnb' : Z.of_nat nb < 2 ^ 31) (Hna' : Z.of_nat na < 2 ^ 31).
Context (Hids : Forall (λ x, 0 ≤ x < 2 ^ 31) (t_lookup tb)).

Lemma remap_loop_spec n : ∀ i r,
  (i + n ≤ length (t_lookup tb))%nat → (i + n ≤ length (t_lookup ta))%nat → Z.of_nat (i + n) < 2 ^ 32 →
  0 ≤ considered r ≤ Z.of_nat i → 0 ≤ maglev_unchanged r ≤ Z.of_nat i → 0 ≤ naive_unchanged r ≤ Z.of_nat i →
  remap_loop n i tb ta nb na r =
  Val {| considered := considered r + count (surviving (t_lookup tb) na) (seq i n);
         maglev_unchanged := maglev_unchanged r + count (kept (t_lookup tb) (t_lookup ta) na) (seq i n);
         naive_unchanged := naive_unchanged r + count (naive_kept (t_lookup tb) nb na) (seq i n) |}.
Proof.
  induction n as [|n IH]; intros i r Hlb Hla Hi Hc Hm Hn.
  { cbn. rewrite !Z.add_0_r. by destruct r. }
  cbn [remap_loop seq]. rewrite !count_cons.
  destruct (rd_lt (t_lookup tb) i) as (x & Hx & ->); [lia|].
  destruct (rd_lt (t_lookup ta) i) as (y & Hy & Ey); [lia|].
  pose proof (Forall_lookup_1 _ _ _ _ Hids Hx) as Hxr. cbv beta in Hxr.
  rewrite bind_Val, (umod_nat i nb), bind_Val by done.
  replace (u64 x) with x by (unfold u64; rewrite Z.mod_small; lia).
  case_decide as Hsurv.
  - rewrite Ey, bind_Val, (umod_nat i na), bind_Val by done. rewrite !s32_mod by done.
    assert (surviving (t_lookup tb) na i) as Hs by (by exists x).
    assert (kept (t_lookup tb) (t_lookup ta) na i ↔ y = x) as Hk.
    { unfold kept. rewrite Hx, Hy. split; [by intros [_ [= ->]]|by intros ->]. }
    assert (naive_kept (t_lookup tb) nb na i ↔ Z.of_nat (i mod na) = Z.of_nat (i mod nb)) as Hv.
    { unfold naive_kept. split; [by intros [_ ->]|]. intros. split; [done|lia]. }
    rewrite (decide_True (P := surviving _ _ _)) by done.
    rewrite (decide_ext _ _ _ _ Hk), (decide_ext _ _ _ _ Hv).
    rewrite IH by (repeat case_decide; cbn; unfold u64; rewrite ?Z.mod_small by lia; lia).
    f_equal. repeat case_decide; cbn; unfold u64; rewrite ?Z.mod_small by lia; f_equal; lia.
  - rewrite IH by lia. rewrite !decide_False; [by rewrite !Z.add_0_l|..].
    all: unfold kept, naive_kept; intros H; assert (surviving (t_lookup tb) na i) as (x' & Hx' & ?) by tauto; naive_solver.
Qed.
End Loop.

(** ** The made-up backends *)

Lemma make_backends_ids n : Z.of_nat n < 2 ^ 32 → v_id <$> map make_backend (seq 0 n) = Z.of_nat <$> seq 0 n.
Proof.
  intros Hn. change (map make_backend (seq 0 n)) with (make_backend <$> seq 0 n).
  rewrite <- list_fmap_compose. apply list_fmap_ext. intros j i Hi%lookup_seq. cbn. unfold u32. apply Z.mod_small. lia.
Qed.

Lemma make_backends_ok n : Z.of_nat n < 2 ^ 31 → Forall view_ok (map make_backend (seq 0 n)).
Proof.
  intros Hn. rewrite Forall_fmap. apply Forall_forall. intros i Hi%elem_of_seq. unfold view_ok, compose. cbn.
  unfold u32. rewrite Z.mod_small by lia. lia.
Qed.

Lemma make_backends_NoDup n : Z.of_nat n < 2 ^ 32 → NoDup (v_id <$> map make_backend (seq 0 n)).
Proof. intros. rewrite make_backends_ids by done. apply NoDup_fmap_2; [apply _|apply NoDup_seq]. Qed.

(** [10.0.(i/256).(i%256)] as a little-endian number. *)
Lemma make_backend_addr i :
  v_addr (make_backend i) = 10 + (Z.of_nat i / 256) mod 256 * 2 ^ 16 + Z.of_nat i mod 256 * 2 ^ 24.
Proof.
  unfold make_backend. cbn [v_addr]. unfold u8. change (2 ^ 8) with 256. rewrite !Z.mod_mod by lia.
  pose proof (Z.mod_pos_bound (Z.of_nat i / 256) 256 ltac:(lia)) as H3.
  pose proof (Z.mod_pos_bound (Z.of_nat i) 256 ltac:(lia)) as H4.
  set (o3 := (Z.of_nat i / 256) mod 256) in *. set (o4 := Z.of_nat i mod 256) in *. clearbody o3 o4.
  change (Z.lor 10 (Z.shiftl 0 8)) with 10. rewrite (lor_low_high 10 o3 16) by lia.
  assert (s32 (Z.shiftl o4 24) = Z.shiftl (if decide (o4 < 128) then o4 else o4 - 256) 24) as ->.
  { rewrite !Z.shiftl_mul_pow2 by lia. unfold s32. case_decide; Z.to_euclidean_division_equations; lia. }
  rewrite lor_low_high by lia. unfold u32. case_decide; Z.to_euclidean_division_equations; lia.
Qed.

(** Up to 65536 backends have distinct addresses, hence distinct identities. *)
Lemma make_backend_addr_inj i j :
  Z.of_nat i < 2 ^ 16 → Z.of_nat j < 2 ^ 16 → v_addr (make_backend i) = v_addr (make_backend j) → i = j.
Proof.
  rewrite !make_backend_addr. intros Hi Hj E.
  rewrite !(Z.mod_small (_ / 256)) in E by (split; [apply Z.div_pos|apply Z.div_lt_upper_bound]; lia).
  pose proof (Z.div_mod (Z.of_nat i) 256). pose proof (Z.div_mod (Z.of_nat j) 256).
  pose proof (Z.mod_pos_bound (Z.of_nat i) 256). pose proof (Z.mod_pos_bound (Z.of_nat j) 256).
  assert (0 ≤ Z.of_nat i / 256 < 256) by (split; [apply Z.div_pos|apply Z.div_lt_upper_bound]; lia).
  assert (0 ≤ Z.of_nat j / 256 < 256) by (split; [apply Z.div_pos|apply Z.div_lt_upper_bound]; lia).
  lia.
Qed.

Section Exact.
Context {xx : XXHash}.

Definition allocs_ok (a : remap_allocs) : Prop :=
  ra_before a = true ∧ ra_after a = true ∧ generate_allocs (ra_t_before a) = true ∧
  generate_allocs (ra_t_after a) = true.

(** The table of backends [0 .. n-1]. *)
Definition table_for (n : nat) (m : Z) : list Z := maglev_reference (map make_backend (seq 0 n)) m.

Lemma table_for_props n m :
  Z.prime m → 2 < m < 2 ^ 32 → (0 < n)%nat → Z.of_nat n < 2 ^ 31 →
  length (table_for n m) = Z.to_nat m ∧ Forall (λ x, 0 ≤ x < Z.of_nat n) (table_for n m) ∧
  (Z.of_nat n ≤ m → ∃ i, table_for n m !! i = Some 0).
Proof.
  intros Hp Hm Hn Hn'. unfold table_for. set (bs := map make_backend (seq 0 n)).
  assert (bs ≠ []) as Hne by (unfold bs; destruct n; [lia|done]).
  assert (length bs = n) as Hlen by (unfold bs; by rewrite length_map, length_seq).
  destruct (maglev_reference_props bs m) as (Hl & Hall & Hcnt); [done|done|by apply make_backends_ok|done|].
  split; [done|]. split.
  - eapply Forall_impl; [exact Hall|]. intros x Hx. cbv beta in Hx. unfold bs in Hx.
    rewrite make_backends_ids in Hx by lia. apply list_elem_of_fmap in Hx as (i & -> & Hi%elem_of_seq). lia.
  - intros Hle. destruct (Hcnt (make_backends_NoDup n ltac:(lia)) (make_backend 0)) as (b & Hb & Hc).
    { unfold bs. apply (list_elem_of_fmap_2 make_backend). apply elem_of_seq. lia. }
    apply cnt_pos. change 0 with (v_id (make_backend 0)). rewrite Hc, Hlen.
    assert (1 ≤ Z.to_nat m / n)%nat by (apply Nat.div_le_lower_bound; lia).
    destruct (turns_balanced n b (Z.to_nat m)) as [-> | ->]; lia.
Qed.

Lemma count_le (P Q : nat → Prop) `{∀ i, Decision (P i)} `{∀ i, Decision (Q i)} l :
  (∀ i, P i → Q i) → 0 ≤ count P l ≤ count Q l.
Proof.
  intros HPQ. induction l as [|i l IH]; [done|]. rewrite !count_cons. specialize (HPQ i).
  repeat case_decide; try lia. tauto.
Qed.

Lemma count_all (P : nat → Prop) `{∀ i, Decision (P i)} l : Forall P l → count P l = Z.of_nat (length l).
Proof.
  induction 1 as [|i l Hi _ IH]; [done|]. rewrite count_cons, decide_True by done. cbn [length]. lia.
Qed.

Lemma count_pos (P : nat → Prop) `{∀ i, Decision (P i)} i l : i ∈ l → P i → 0 < count P l.
Proof.
  intros Hin HP. assert (i ∈ filter P l) as Hf by by apply list_elem_of_filter.
  unfold count. destruct (filter P l); [by apply elem_of_nil in Hf|simpl; lia].
Qed.

(** The counts mean what they say.  The kept slots are among the considered ones;
    when no backend is removed every slot is considered, and with at most as many
    backends as slots at least one is, so the percentages are well defined. *)
Definition remap_exact (m : Z) (n_before n_after : nat) (r : remap_result) : Prop :=
  let before := table_for n_before m in
  let after := table_for n_after m in
  let slots := seq 0 (Z.to_nat m) in
  considered r = count (surviving before n_after) slots ∧
  maglev_unchanged r = count (kept before after n_after) slots ∧
  naive_unchanged r = count (naive_kept before n_before n_after) slots ∧
  0 ≤ maglev_unchanged r ≤ considered r ∧ 0 ≤ naive_unchanged r ≤ considered r ∧
  (Z.of_nat n_before ≤ m → 0 < considered r) ∧ ((n_before ≤ n_after)%nat → considered r = m).

Lemma compute_remap_spec a m n_before n_after :
  Z.prime m → 2 < m < 2 ^ 32 → allocs_ok a →
  0 < Z.of_nat n_before < 2 ^ 31 → 0 < Z.of_nat n_after < 2 ^ 31 →
  ∃ r, compute_remap a m n_before n_after = Val (Some r) ∧ remap_exact m n_before n_after r.
Proof.
  intros Hprime Hm (Ha1 & Ha2 & Ha3 & Ha4) Hb Haf.
  assert (∀ n, (0 < n)%nat → map make_backend (seq 0 n) ≠ []) as Hne by (intros [|n] ?; [lia|done]).
  unfold compute_remap, make_backends. rewrite Ha1, Ha2.
  rewrite !maglev_table_generate_spec, Ha3, Ha4, !bind_Val by (try done; try apply make_backends_ok; try apply Hne; lia).
  fold (table_for n_before m) (table_for n_after m).
  set (before := table_for n_before m). set (after := table_for n_after m). set (slots := seq 0 (Z.to_nat m)).
  destruct (table_for_props n_before m) as (Hl1 & Hr1 & Hz); [done..|lia|lia|]. fold before in Hl1, Hr1, Hz.
  destruct (table_for_props n_after m) as (Hl2 & _ & _); [done..|lia|lia|]. fold after in Hl2.
  rewrite remap_loop_spec; cbn [t_lookup considered maglev_unchanged naive_unchanged]; try lia.
  2: { eapply Forall_impl; [exact Hr1|]. intros x. cbv beta. lia. }
  rewrite bind_Val. eexists. split; [done|]. unfold remap_exact. fold before after slots. cbv zeta.
  cbn [considered maglev_unchanged naive_unchanged]. rewrite !Z.add_0_l.
  do 3 (split; [done|]). split; [apply count_le; by intros i []|]. split; [apply count_le; by intros i []|]. split.
  - intros Hle. destruct (Hz Hle) as [i Hi]. apply (count_pos _ i).
    + apply elem_of_seq. apply lookup_lt_Some in Hi. lia.
    + exists 0. split; [done|lia].
  - intros Hle. rewrite count_all; [unfold slots; rewrite length_seq; lia|]. apply Forall_forall. intros i Hi%elem_of_seq.
    destruct (lookup_lt_is_Some_2 before i) as [x Hx]; [lia|]. exists x. split; [done|].
    apply (Forall_lookup_1 _ _ _ _ Hr1) in Hx. cbv beta in Hx. lia.
Qed.

Lemma sweep_spec a m k : ∀ n,
  Z.prime m → 2 < m < 2 ^ 32 → (∀ n, allocs_ok (a n)) → 2 ≤ n → n + Z.of_nat k ≤ 2 ^ 31 →
  ∃ rows, sweep k a m n = Val (0, rows) ∧ length rows = k ∧
    ∀ j row, rows !! j = Some row → Z.of_nat (row_before row) = n + Z.of_nat j ∧
      Z.of_nat (row_after row) = n + Z.of_nat j - 1 ∧
      remap_exact m (row_before row) (row_after row) (row_result row).
Proof.
  induction k as [|k IH]; intros n Hp Hm Ha Hn Hk; [by exists []|]. cbn [sweep].
  destruct (compute_remap_spec (a n) m (Z.to_nat n) (Z.to_nat (n - 1))) as (r & -> & Hr); [done|done|done|lia|lia|].
  rewrite bind_Val. destruct (IH (n + 1)) as (rows & -> & Hl & Hrows); [done|done|done|lia|lia|]. rewrite bind_Val.
  eexists. split; [done|]. split; [by cbn; rewrite Hl|]. intros [|j] row; cbn.
  - intros [= <-]. cbn. split; [lia|]. split; [lia|done].
  - intros Hj. destruct (Hrows j row Hj) as (? & ? & ?). split; [lia|]. split; [lia|done].
Qed.

Lemma strtoul_fmt n : 0 ≤ n ≤ ULONG_MAX → strtoul (fmt_u n) = n.
Proof.
  intros Hn. unfold strtoul. rewrite <- (app_nil_r (fmt_u n)), scan_int_fmt by (unfold ULONG_MAX in *; done || lia).
  unfold ulong_value. by rewrite decide_False by lia.
Qed.

(** The text of a percentage is a nearest number of hundredths to the exact
    one. *)
Lemma percent_nearest nan c u :
  0 < c < 2 ^ 32 → 0 ≤ u ≤ c →
  ∃ h, percent nan c u = fixed2 h ∧
    2 * Z.abs (h * c - 10000 * (c - u)) ≤ c.
Proof.
  intros Hc Hu. unfold percent. rewrite decide_False by lia. unfold u64. rewrite Z.mod_small by lia.
  eexists. split; [done|]. destruct (decide (c - u = 0)) as [-> |Hne].
  - change (double_mul (double_of 100) (double_of 0)) with (0, -152). rewrite (double_of_exact c) by lia.
    pose proof (significand_range c ltac:(lia)). rewrite zero_hundredths by (cbn [fst]; lia). lia.
  - rewrite double_mul_exact by lia. pose proof (hundredths_quot_near (100 * (c - u)) c ltac:(lia) Hc ltac:(lia)). lia.
Qed.

(** The line of the row, its percentages being nearest hundredths. *)
Definition printed (nan : list Z) (row : row) : Prop :=
  let r := row_result row in
  ∃ hm hn, print_row nan row =
      row_line (Z.of_nat (row_before row)) (Z.of_nat (row_after row)) (considered r) (fixed2 hm) (fixed2 hn) ∧
    2 * Z.abs (hm * considered r - 10000 * (considered r - maglev_unchanged r)) ≤ considered r ∧
    2 * Z.abs (hn * considered r - 10000 * (considered r - naive_unchanged r)) ≤ considered r.

Lemma remap_exact_printed nan m row :
  0 ≤ m < 2 ^ 32 → remap_exact m (row_before row) (row_after row) (row_result row) → 0 < considered (row_result row) →
  printed nan row.
Proof.
  intros Hm (Hc & _ & _ & Hmu & Hnu & _) Hpos. unfold printed, print_row. cbv zeta.
  assert (considered (row_result row) < 2 ^ 32) as Hlt.
  { rewrite Hc. unfold count. pose proof (length_filter (surviving (table_for (row_before row) m) (row_after row)) (seq 0 (Z.to_nat m))) as Hle.
    rewrite length_seq in Hle. lia. }
  destruct (percent_nearest nan (considered (row_result row)) (maglev_unchanged (row_result row))) as (hm & -> & Hhm); [lia..|].
  destruct (percent_nearest nan (considered (row_result row)) (naive_unchanged (row_result row))) as (hn & -> & Hhn); [lia..|].
  by exists hm, hn.
Qed.

(** [--sweep MIN MAX --m M] with a prime [M] terminates without undefined
    behaviour, exits with status 0 and reports one row per count [N] from [MIN] to
    [MAX], each with the exact numbers of slots considered, kept by Maglev and kept
    by modulo hashing when one of [N] backends is removed; a row that considers a
    slot at all prints both percentages as a nearest number of hundredths to the
    exact fraction of slots that moved. *)
Theorem report_sweep_exact a m sweep_min sweep_max nan
    (Hprime : Z.prime m) (Hm : 2 < m < 2 ^ 32) (Ha : ∀ n, allocs_ok (a n))
    (Hs : 2 ≤ sweep_min ≤ sweep_max) (Hmax : sweep_max < 2 ^ 31) :
  ∃ rep, report_main a [text "--sweep"; fmt_u sweep_min; fmt_u sweep_max; text "--m"; fmt_u m] = Val (0, rep) ∧
    rp_header rep = text "m=" ++ fmt_u m ++ text "  (each row: N backends, remove exactly one)" ++ [10] ∧
    Z.of_nat (length (rp_rows rep)) = sweep_max - sweep_min + 1 ∧
    ∀ j row, rp_rows rep !! j = Some row → Z.of_nat (row_before row) = sweep_min + Z.of_nat j ∧
      Z.of_nat (row_after row) = sweep_min + Z.of_nat j - 1 ∧
      remap_exact m (row_before row) (row_after row) (row_result row) ∧
      (0 < considered (row_result row) → printed nan row).
Proof.
  assert (∀ n, 0 ≤ n < 2 ^ 31 → (strtol (fmt_u n)).1 = n) as Hl.
  { intros n Hn. rewrite <- (app_nil_r (fmt_u n)), strtol_fmt by (unfold LONG_MAX; done || lia). done. }
  destruct (maglev_is_prime_spec m) as (b & Hb & _); [lia|].
  destruct (sweep_spec a m (Z.to_nat (sweep_max - sweep_min + 1)) sweep_min) as (rows & E & Hlen & Hrows); [done|done|done|lia|lia|].
  eexists {| rp_header := _; rp_rows := rows |}. split; [|split; [done|split; [cbn; lia|]]].
  - unfold report_main. cbn [parse_args]. rewrite decide_False, decide_False, decide_True by done.
    rewrite decide_False, decide_False, decide_False, decide_True by done.
    cbn [ar_m ar_before ar_after ar_sweep_min ar_sweep_max]. rewrite !Hl by lia.
    rewrite strtoul_fmt by (unfold ULONG_MAX; lia). unfold u32. rewrite Z.mod_small by lia.
    rewrite Hb, bind_Val, decide_False by lia. rewrite decide_True by lia. by rewrite E, bind_Val.
  - intros j row Hj. destruct (Hrows j row Hj) as (? & ? & Hex). do 3 (split; [done|]).
    intros Hpos. apply (remap_exact_printed nan m); [lia|done|done].
Qed.

(** The report tool accepts table sizes 0 and 1, for which the generator
    divides by zero. *)
Theorem remap_tiny_m_undefined a m n_before n_after
    (Ha : allocs_ok a) (Hm : m = 0 ∨ m = 1) (Hb : (0 < n_before)%nat) (Hb' : Z.of_nat n_before < 2 ^ 31) :
  compute_remap a m n_before n_after = Undef.
Proof.
  destruct Ha as (Ha1 & Ha2 & Ha3 & _). unfold compute_remap, make_backends. rewrite Ha1, Ha2.
  enough (maglev_table_generate (ra_t_before a) (map make_backend (seq 0 n_before)) m = Undef) as -> by done.
  unfold generate_allocs in Ha3. rewrite !andb_true_iff in Ha3. destruct Ha3 as [[A0 A1] [[[A2 A3] A4] A5]].
  unfold maglev_table_generate. rewrite A0, A1, A2, A3, A4, A5. cbn [negb andb].
  rewrite decide_False by (rewrite length_map, length_seq; lia).
  assert (offsets_skips (sort_by_id (map make_backend (seq 0 n_before))) m = Undef) as ->; [|done].
  pose proof (sort_by_id_perm (map make_backend (seq 0 n_before))) as Hperm.
  destruct (sort_by_id _) as [|v vs]; [apply Permutation_length in Hperm; rewrite length_map, length_seq in Hperm; simpl in Hperm; lia|].
  cbn [offsets_skips]. rewrite backend_name_spec, bind_Val.
  - destruct Hm as [-> | ->]; done.
  - pose proof (make_backends_ok n_before Hb') as Hok. rewrite <- Hperm, Forall_cons in Hok. apply Hok.
Qed.
End Exact.

(** ** Witnesses *)

Definition sample_allocs : remap_allocs :=
  {| ra_before := true; ra_after := true; ra_t_before _ := true; ra_t_after _ := true |}.

Lemma report_sweep_exact_witness :
  ∃ rep, report_main (xx := sample_hash) (λ _, sample_allocs)
      [text "--sweep"; text "2"; text "4"; text "--m"; text "13"] = Val (0, rep) ∧
    length (rp_rows rep) = 3%nat ∧ ∀ j row, rp_rows rep !! j = Some row → printed (text "-nan") row.
Proof.
  destruct (report_sweep_exact (xx := sample_hash) (λ _, sample_allocs) 13 2 4 (text "-nan") prime_13 ltac:(lia) ltac:(done)
    ltac:(lia) ltac:(lia)) as (rep & E & _ & Hlen & Hrows).
  exists rep. split; [exact E|]. split; [lia|]. intros j row Hj.
  destruct (Hrows j row Hj) as (Hb & _ & (_ & _ & _ & _ & _ & Hpos & _) & Hp). apply Hp, Hpos.
  apply lookup_lt_Some in Hj. lia.
Defined.

Lemma remap_tiny_m_undefined_witness : compute_remap (xx := sample_hash) sample_allocs 1 3 2 = Undef.
Proof.
  apply (remap_tiny_m_undefined (xx := sample_hash) sample_allocs 1 3 2); [done|by right|lia|lia].
Defined.
