(* ===== verification/Startup.v ===== *)
(** * Starting up

    [src/src/main.c] up to the point where the datapath runs: the backends are
    added and resolved, the table generator, the connection table, the counters,
    the health checker and the exporter are created, and the datapath is
    configured.  The answers of the system calls and of the allocator are inputs
    ([startup_env]). *)

From Stdlib Require Import Lia String.
From stdpp Require Import base numbers list gmap.
From S2P Require Import Prelude Net Hash Text Kernel RawSocket Arp Config Maglev Conntrack ConntrackSpec Stats BackendManager TableGenerator Datapath HealthChecker HealthCheckerSpec DatapathRun Metrics.

Local Open Scope Z_scope.

Definition ARP_TIMEOUT_MS : Z := 2000.
Definition REAPER_INTERVAL_MS : Z := 500.

(** Before the table generator subscribes, a change of the backends calls
    nobody. *)
#[export] Program Instance no_listener : ChangeListener backend_manager := {
  get_bm bm := bm;
  put_bm bm _ := bm;
  on_change bm := Val bm;
}.
Next Obligation. done. Qed.
Next Obligation. done. Qed.
Next Obligation. by intros s s' [= ->]. Qed.

Record startup_env := {
  su_sigmask : Z;                          (** [pthread_sigmask] *)
  su_mac : mac_env;                        (** reading the MAC address of the interface *)
  su_bm_calloc : bool;
  su_arp : nat → arp_env;                  (** resolving backend [i] *)
  su_arp_req : nat → list Z;               (** its uninitialised local arrays *)
  su_arp_rx : nat → list Z;
  su_tg_calloc : bool;
  su_rebuild : nat → rebuild_env;
  su_ct_alloc : nat → bool;
  su_ct_junk : nat → conntrack_entry;
  su_stats_calloc : bool;
  su_hc_calloc : bool;
  su_hc_eventfd : Z * Z;
  su_hc_fifo : Z * Z;                      (** [open] of the admin FIFO *)
  su_hc_thread : bool;
  su_mh_calloc : bool;
  su_mh_eventfd : Z * Z;
  su_mh_listen : listen_env;
  su_dp_calloc : bool;
  su_close : option Z;
}.

(** What has been allocated and not freed. *)
Inductive obj := Obj_bm | Obj_tg | Obj_ct | Obj_stats | Obj_hc | Obj_mh | Obj_dp.

#[export] Instance obj_eq_dec : EqDecision obj.
Proof. solve_decision. Defined.

Definition free_obj (objs : list obj) (o : obj) : out (list obj) :=
  if decide (o ∈ objs) then Val (filter (λ o', o' ≠ o) objs) else Undef.

(** The variables of [main] at [cleanup], with what they point to.  The health
    checker's own view of the system and the counters is the shared one. *)
Record proc := {
  p_k : kernel;
  p_objs : list obj;
  p_bm : option backend_manager;            (** while there is no table generator *)
  p_sys : option tg_sys;
  p_ct : option conntrack_table;
  p_stats : option lb_stats;                (** once [stats_initialized] *)
  p_hc : option (health_checker tg_sys);
  p_mh : option metrics_http;
  p_dp : option datapath;
}.

Definition proc0 (k : kernel) : proc :=
  {| p_k := k; p_objs := []; p_bm := None; p_sys := None; p_ct := None; p_stats := None; p_hc := None;
     p_mh := None; p_dp := None |}.

Section Startup.
Context {xx : XXHash} (e : startup_env) (cfg : config).

(** The loop over [cfg.backends]; the flag tells whether it ran to the end. *)
Fixpoint resolve_backends (ifname iface_mac : list Z) (bs : list config_backend) (i : nat) (k : kernel)
    (bm : backend_manager) : out (kernel * backend_manager * bool) :=
  match bs with
  | [] => Val (k, bm, true)
  | b :: bs =>
      '(bm, id) ← backend_manager_add bm (cb_addr b) (cb_port b);
      if decide (id = UINT32_MAX) then Val (k, bm, false)
      else
        '(k, rc, mac) ← arp_resolve (su_arp e i) k (su_arp_req e i) (su_arp_rx e i) ifname (cb_addr b)
                          iface_mac (director_ip cfg) ARP_TIMEOUT_MS;
        if decide (rc ≠ 0) then Val (k, bm, false)
        else
          match mac with
          | None => Undef
          | Some mac =>
              bm ← backend_manager_set_mac bm id mac;
              resolve_backends ifname iface_mac bs (S i) k bm
          end
  end.

(** The health checker; that it cannot be created or started is not fatal. *)
Definition start_health (k : kernel) (objs : list obj) (sys : tg_sys) (stats : lb_stats) :
    out (kernel * list obj * option (health_checker tg_sys)) :=
  fifo ← c_string (admin_fifo cfg);
  path ← strncpy (replicate CONFIG_ADMIN_FIFO_LEN 0) fifo (CONFIG_ADMIN_FIFO_LEN - 1);
  let hc_cfg := {| interval_ms := hc_interval_ms cfg; timeout_ms := hc_timeout_ms cfg; rise := hc_rise cfg;
                   fall := hc_fall cfg; hc_admin_fifo := path |} in
  hc ← health_checker_create (su_hc_calloc e) (su_hc_eventfd e).1 (su_hc_fifo e).1 sys hc_cfg (Some stats);
  match hc with
  | None => Val (k, objs, None)
  | Some hc =>
      let k := opened (hc_wake_fd hc) k in
      let k := if decide (hc_admin_fifo_fd hc >= 0) then opened (hc_admin_fifo_fd hc) k else k in
      let '(hc, _) := health_checker_start hc (su_hc_thread e) in
      Val (k, Obj_hc :: objs, Some hc)
  end.

(** The exporter, likewise. *)
Definition start_metrics (k : kernel) (objs : list obj) : out (kernel * list obj * option metrics_http) :=
  if decide (metrics_port cfg ≠ 0) then
    let '(k, mh) := metrics_http_create (su_mh_calloc e) (su_mh_eventfd e) k (metrics_port cfg) in
    match mh with
    | None => Val (k, objs, None)
    | Some mh =>
        '(k, mh, rc) ← metrics_http_start (su_mh_listen e) k mh;
        if decide (rc ≠ 0) then
          k ← metrics_http_destroy k (Some mh) (su_close e);
          Val (k, objs, None)
        else Val (k, Obj_mh :: objs, Some mh)
    end
  else Val (k, objs, None).

Definition run_config_of (ifname : list Z) : run_config :=
  {| rc_ifname := ifname; rc_vip := vip cfg; rc_director_ip := director_ip cfg; rc_ttl := ttl cfg;
     rc_reaper_interval_ms := REAPER_INTERVAL_MS;
     rc_tcp_timeout_ns := u64 (u64 (ct_tcp_timeout_ms cfg) * 1000000);
     rc_udp_timeout_ns := u64 (u64 (ct_udp_timeout_ms cfg) * 1000000) |}.

(** From [stats_registry_init] to [datapath_create]; the flag tells whether the
    datapath is run next, otherwise control is at [cleanup]. *)
Definition start_services (k : kernel) (ifname : list Z) (sys : tg_sys) (ct : conntrack_table) : out (proc * bool) :=
  match stats_registry_init (su_stats_calloc e) (Z.of_nat (n_backends cfg)) with
  | None =>
      Val ({| p_k := k; p_objs := [Obj_ct; Obj_tg; Obj_bm]; p_bm := None; p_sys := Some sys;
              p_ct := Some ct; p_stats := None; p_hc := None; p_mh := None; p_dp := None |}, false)
  | Some stats =>
      let objs := [Obj_stats; Obj_ct; Obj_tg; Obj_bm] in
      '(k, objs, hc) ← start_health k objs sys stats;
      '(k, objs, mh) ← start_metrics k objs;
      let dp := datapath_create (su_dp_calloc e) (run_config_of ifname) in
      let objs := match dp with Some _ => Obj_dp :: objs | None => objs end in
      Val ({| p_k := k; p_objs := objs; p_bm := None; p_sys := Some sys; p_ct := Some ct;
              p_stats := Some stats; p_hc := hc; p_mh := mh; p_dp := dp |},
           bool_decide (is_Some dp))
  end.

(** From [backend_manager_create] on. *)
Definition startup (k : kernel) (ifname iface_mac : list Z) : out (proc * bool) :=
  match backend_manager_create (su_bm_calloc e) with
  | None => Val (proc0 k, false)
  | Some bm =>
      bs ← rd_list (backends cfg) 0 (n_backends cfg);
      '(k, bm, resolved) ← resolve_backends ifname iface_mac bs 0 k bm;
      let p := {| p_k := k; p_objs := [Obj_bm]; p_bm := Some bm; p_sys := None; p_ct := None; p_stats := None;
                  p_hc := None; p_mh := None; p_dp := None |} in
      if negb resolved then Val (p, false)
      else
        match table_generator_create (su_tg_calloc e) (table_size cfg) with
        | None => Val (p, false)
        | Some tg =>
            let sys := table_generator_install_as_subscriber
                         {| sys_bm := bm; sys_tg := tg; sys_heap := ∅; sys_env := su_rebuild e; sys_rebuilds := 0 |} in
            '(sys, rc) ← table_generator_rebuild_and_install sys;
            let p := {| p_k := k; p_objs := [Obj_tg; Obj_bm]; p_bm := None; p_sys := Some sys; p_ct := None;
                        p_stats := None; p_hc := None; p_mh := None; p_dp := None |} in
            if decide (rc ≠ 0) then Val (p, false)
            else
              ct ← conntrack_create (su_ct_alloc e) (su_ct_junk e) (max_flows cfg);
              match ct with
              | None => Val (p, false)
              | Some ct => start_services k ifname sys ct
              end
        end
  end.
End Startup.

(** ** What a process holds *)

Definition hc_fds (hc : health_checker tg_sys) : list Z := [hc_wake_fd hc; hc_admin_fifo_fd hc].
Definition mh_fds (m : metrics_http) : list Z := [mh_listen_fd m; mh_wake_fd m].
Definition fds_of {A} (f : A → list Z) (o : option A) : list Z := match o with Some x => f x | None => [] end.

Definition p_fds (p : proc) : list Z :=
  fds_of dp_fds (p_dp p) ++ fds_of mh_fds (p_mh p) ++ fds_of hc_fds (p_hc p).

Definition obj_if {A} (o : obj) (x : option A) : list obj := match x with Some _ => [o] | None => [] end.

Definition objs_of (p : proc) : list obj :=
  obj_if Obj_dp (p_dp p) ++ obj_if Obj_mh (p_mh p) ++ obj_if Obj_hc (p_hc p) ++ obj_if Obj_stats (p_stats p) ++
  obj_if Obj_ct (p_ct p) ++ obj_if Obj_tg (p_sys p) ++
  match p_sys p, p_bm p with None, None => [] | _, _ => [Obj_bm] end.

(** ** Resolving the backends *)

Definition configured (i : nat) (b : config_backend) (mac : list Z) : backend :=
  {| b_id := Z.of_nat i; b_addr := cb_addr b; b_port := cb_port b; b_mac := mac; b_mac_resolved := true;
     b_healthy := true; b_admin_state := BACKEND_ENABLED |}.

(** The configured backends from number [i] on, with the addresses resolved. *)
Fixpoint configured_from (i : nat) (bs : list config_backend) (macs : list (list Z)) : list backend :=
  match bs, macs with
  | b :: bs, mac :: macs => configured i b mac :: configured_from (S i) bs macs
  | _, _ => []
  end.

(** [ip] said, in a frame received, that it is at [mac]. *)
Definition learned (ae : arp_env) (ip : Z) (mac : list Z) : Prop :=
  ∃ now data, (now, Recv data) ∈ ae_waits ae ∧ arp_reply_from ip mac data.

Section Spec.
Context {xx : XXHash} (e : startup_env) (cfg : config).

(** The descriptors ARP opens are new and its waits end. *)
Definition arp_ready (open : fds) : Prop :=
  ∀ i, arp_env_ok (su_arp e i) {| k_open := open; k_errno := 0 |} ARP_TIMEOUT_MS ∧
    length (su_arp_req e i) = ARP_FRAME_LEN ∧ length (su_arp_rx e i) = 128%nat.

Lemma arp_reply_mac_length ip mac data : arp_reply_from ip mac data → length mac = 6%nat.
Proof. by intros (? & ? & ? & ? & _ & _ & _ & ? & _). Qed.

Lemma arp_outcome_learned ae deadline ip errno mac :
  arp_outcome ip deadline (ae_close ae) (ae_waits ae) errno 0 mac → ∃ m, mac = Some m ∧ learned ae ip m.
Proof.
  inversion 1 as [pre now data post err m Hw _ _ Hr| |]; subst. exists m. split; [done|].
  exists now, data. split; [|done]. rewrite Hw. apply elem_of_app. right. by left.
Qed.

Lemma add_fresh bm addr port :
  bm_ok bm → bm_cb bm = false → bm_next_id bm < UINT32_MAX → length (live bm) ≠ BACKEND_MAX →
  ∃ bm', backend_manager_add bm addr port = Val (bm', bm_next_id bm) ∧ bm_ok bm' ∧ bm_cb bm' = false ∧
    bm_next_id bm' = bm_next_id bm + 1 ∧ live bm' ≡ₚ fresh_backend (bm_next_id bm) addr port :: live bm.
Proof.
  intros Hok Hcb Hn Hl. pose proof (add_locked_spec bm addr port Hok Hn) as H. rewrite decide_False in H by done.
  destruct H as (bm' & E & Hok' & Hcb' & Hn' & Hl'). exists bm'. rewrite Hcb in Hcb'. split_and!; try done.
  unfold backend_manager_add. cbn [get_bm no_listener]. rewrite E, bind_Val. cbv zeta. rewrite decide_True by lia.
  unfold notify. cbn [get_bm put_bm no_listener]. by rewrite Hcb'.
Qed.

Lemma set_mac_fresh bm rest id mac addr port :
  bm_ok bm → bm_cb bm = false → live bm ≡ₚ fresh_backend id addr port :: rest → Forall (λ b, b_id b ≠ id) rest →
  ∃ bm', backend_manager_set_mac bm id mac = Val bm' ∧ bm_ok bm' ∧ bm_cb bm' = false ∧
    bm_next_id bm' = bm_next_id bm ∧ live bm' ≡ₚ set_mac mac (fresh_backend id addr port) :: rest.
Proof.
  intros Hok Hcb Hl Hrest.
  destruct (update_locked_spec bm id (λ _, true) (set_mac mac) Hok) as (bm' & ch & E & Hok' & Hcb' & Hn & Hch & Hl'); [done|].
  assert (ch = true) as ->.
  { apply Hch. exists (fresh_backend id addr port). split; [|done]. rewrite Hl. by left. }
  exists bm'. rewrite Hcb in Hcb'. split_and!; try done.
  - unfold backend_manager_set_mac, locked_then_notify, set_mac_locked. cbn [get_bm no_listener].
    rewrite E, bind_Val. unfold notify. cbn [get_bm put_bm no_listener]. by rewrite Hcb'.
  - rewrite Hl', Hl. rewrite fmap_cons. cbn. rewrite decide_True by done. f_equiv.
    clear -Hrest. induction Hrest as [|b rest Hb _ IH]; [done|]. rewrite fmap_cons, decide_False by done. by rewrite IH.
Qed.

Lemma resolve_backends_spec ifname iface_mac open bs : ∀ i k bm,
  arp_ready open → length iface_mac = ETH_ADDR_LEN → Forall backend_valid bs → (i + length bs ≤ BACKEND_MAX)%nat →
  k_open k = open → bm_ok bm → bm_cb bm = false → bm_next_id bm = Z.of_nat i → length (live bm) = i →
  ∃ errno bm' ok, resolve_backends e cfg ifname iface_mac bs i k bm =
      Val ({| k_open := open; k_errno := errno |}, bm', ok) ∧
    (ok = true → bm_ok bm' ∧ bm_cb bm' = false ∧ bm_next_id bm' = Z.of_nat (i + length bs) ∧
     ∃ macs, length macs = length bs ∧ live bm' ≡ₚ configured_from i bs macs ++ live bm ∧
       ∀ j b mac, bs !! j = Some b → macs !! j = Some mac → learned (su_arp e (i + j)) (cb_addr b) mac).
Proof.
  induction bs as [|b bs IH]; intros i k bm Hready Hmac Hbs Hle Hk Hok Hcb Hnext Hlen.
  { exists (k_errno k), bm, true. cbn. rewrite Nat.add_0_r. split; [by rewrite <- Hk; destruct k|].
    intros _. do 3 (split; [done|]). by exists []. }
  apply Forall_cons in Hbs as [[Haddr Hport] Hbs]. cbn [length] in Hle. unfold BACKEND_MAX, UINT32_MAX in *.
  cbn [resolve_backends].
  destruct (add_fresh bm (cb_addr b) (cb_port b)) as (bm1 & -> & Hok1 & Hcb1 & Hn1 & Hl1);
    [done|done|unfold UINT32_MAX; lia|unfold BACKEND_MAX; lia|].
  rewrite bind_Val, decide_False by (unfold UINT32_MAX; lia). destruct (Hready i) as (Harp & Hreq & Hrx).
  destruct (arp_resolve_spec (su_arp e i) k (su_arp_req e i) (su_arp_rx e i) ifname (cb_addr b) iface_mac (director_ip cfg)
    ARP_TIMEOUT_MS) as (errno & rc & mac & Earp & Hsent & Hnot); [|done..|].
  { unfold arp_env_ok in *. by rewrite Hk. }
  rewrite Earp, bind_Val. case_decide as Hrc.
  { exists errno, bm1, false. by rewrite Hk. }
  assert (rc = 0) as -> by lia. clear Hrc.
  assert (∃ m, mac = Some m ∧ learned (su_arp e i) (cb_addr b) m) as (m & -> & Hm).
  { destruct (decide (arp_sent (su_arp e i) ifname (cb_addr b) iface_mac (director_ip cfg))) as [Hs|Hs].
    - by eapply arp_outcome_learned, Hsent.
    - destruct (Hnot Hs). lia. }
  rewrite Hnext in Hl1. destruct (set_mac_fresh bm1 (live bm) (Z.of_nat i) m (cb_addr b) (cb_port b)) as (bm2 & E2 & Hok2 & Hcb2 & Hn2 & Hl2);
    [done|done|done| |].
  { apply Forall_forall. intros b' [j Hj]%elem_of_live. pose proof (ok_ids _ Hok _ _ Hj). lia. }
  rewrite Hnext, E2, bind_Val.
  destruct (IH (S i) {| k_open := k_open k; k_errno := errno |} bm2) as (errno' & bm3 & ok & E3 & H3);
    [done|done|done|lia|done|done|done|lia| |].
  { rewrite Hl2. cbn [length]. lia. }
  exists errno', bm3, ok. split; [exact E3|]. intros ->. destruct (H3 eq_refl) as (Hok3 & Hcb3 & Hn3 & macs & Hml & Hlive & Hlearned).
  do 2 (split; [done|]). split; [rewrite Hn3; cbn [length]; lia|]. exists (m :: macs). cbn [length configured_from].
  split; [lia|]. split.
  - rewrite Hlive, Hl2. rewrite <- Permutation_middle. done.
  - intros [|j] b' mac'; cbn.
    + intros [= <-] [= <-]. by rewrite Nat.add_0_r.
    + intros Hb' Hmac'. replace (i + S j)%nat with (S i + j)%nat by lia. by apply Hlearned.
Qed.
(** The descriptors opened on the way are new. *)
Record startup_env_ok (open : fds) : Prop := {
  seo_arp : arp_ready open;
  seo_wake : (su_hc_eventfd e).1 ∉ open;
  seo_fifo : (su_hc_fifo e).1 ∉ {[(su_hc_eventfd e).1]} ∪ open;
  seo_mh_wake : (su_mh_eventfd e).1 ∉ {[(su_hc_fifo e).1]} ∪ ({[(su_hc_eventfd e).1]} ∪ open);
  seo_listen : (le_socket (su_mh_listen e)).1 ∉
    {[(su_mh_eventfd e).1]} ∪ ({[(su_hc_fifo e).1]} ∪ ({[(su_hc_eventfd e).1]} ∪ open));
}.

Lemma start_health_spec open k objs sys stats :
  startup_env_ok open → config_valid cfg → k_open k = open →
  ∃ k' hc, start_health e cfg k objs sys stats = Val (k', obj_if Obj_hc hc ++ objs, hc) ∧
    owns open k' (fds_of hc_fds hc) ∧ k_open k' ⊆ {[(su_hc_fifo e).1]} ∪ ({[(su_hc_eventfd e).1]} ∪ open) ∧
    ∀ h, hc = Some h →
      hc_core_of h = {| hc_cfg := hc_cfg (hc_core_of h); hc_states := replicate BACKEND_MAX unused_state;
                        hc_bm := sys; hc_stats := Some stats |} ∧
      rise (hc_cfg (hc_core_of h)) = hc_rise cfg ∧ fall (hc_cfg (hc_core_of h)) = hc_fall cfg ∧
      fifo_ok h ∧ hc_running h = su_hc_thread e.
Proof.
  intros Henv Hcfg Hk. unfold start_health. destruct (cv_admin_fifo _ Hcfg) as [Hfl Hf0].
  destruct (c_string_total _ _ Hf0) as [fifo ->]. rewrite bind_Val.
  rewrite strncpy_spec, bind_Val by (rewrite length_replicate; unfold CONFIG_ADMIN_FIFO_LEN; lia).
  set (path := take _ _ ++ _). assert (0 < length path)%nat as Hpath.
  { unfold path. rewrite length_app, length_take, length_app, length_replicate. unfold CONFIG_ADMIN_FIFO_LEN. lia. }
  clearbody path. unfold health_checker_create.
  assert (owns open k []) as Hown0 by (rewrite <- Hk; apply owns_none; constructor).
  destruct (su_hc_calloc e); cbn [negb].
  2: { exists k, None. split; [done|]. split; [done|]. split; [set_solver|done]. }
  case_decide as Hw.
  { exists k, None. split; [done|]. split; [done|]. split; [set_solver|done]. }
  cbn [hc_admin_fifo]. destruct (rd_lt path 0) as (c0 & _ & ->); [done|]. rewrite !bind_Val. cbn [hc_wake_fd hc_admin_fifo_fd].
  destruct Henv as [_ Hwake Hfifo _ _].
  set (wake := (su_hc_eventfd e).1) in *. set (ffd := (su_hc_fifo e).1) in *.
  set (f := if decide (c0 ≠ 0) then ffd else -1).
  set (k1 := opened wake k).
  assert (owns open k1 [wake; -1]) as Hown1.
  { apply (owns_put open k _ [] [-1] (-1)); [lia| |right; cbn; rewrite Hk; split; [lia|done]].
    rewrite <- Hk. apply owns_none. by repeat constructor. }
  assert (∃ k2, (if decide (f >= 0) then opened f k1 else k1) = k2 ∧ owns open k2 [wake; f] ∧
    k_open k2 ⊆ {[ffd]} ∪ ({[wake]} ∪ open)) as (k2 & -> & Hown2 & Hsub).
  { eexists. split; [done|]. unfold f. case_decide as Hf; (split; [apply (owns_put open k1 _ [wake] [] (-1)); [lia|done|]|]).
    - right. cbn. rewrite Hk. repeat case_decide; try lia. split_and!; [lia|done|done].
    - cbn. rewrite Hk. case_decide; [set_solver|lia].
    - left. split; [lia|done].
    - cbn. rewrite Hk. set_solver. }
  unfold health_checker_start. destruct (su_hc_thread e); cbn [negb]; eexists k2, (Some _); (split; [done|]);
    (split; [exact Hown2|]); (split; [exact Hsub|]); intros h [= <-];
    do 3 (split; [done|]); (split; [|done]); (split; [reflexivity|cbn; unfold HC_ADMIN_LINE_MAX; lia]).
Qed.

(** Every descriptor that the startup leaves open is one of these. *)
Definition startup_fds : fds :=
  {[(le_socket (su_mh_listen e)).1; (su_mh_eventfd e).1; (su_hc_fifo e).1; (su_hc_eventfd e).1]}.

Lemma start_metrics_spec open k objs l :
  startup_env_ok open → owns open k l → k_open k ⊆ {[(su_hc_fifo e).1]} ∪ ({[(su_hc_eventfd e).1]} ∪ open) →
  ∃ k' mh, start_metrics e cfg k objs = Val (k', obj_if Obj_mh mh ++ objs, mh) ∧
    owns open k' (fds_of mh_fds mh ++ l) ∧ k_open k' ⊆ startup_fds ∪ open ∧
    ∀ m, mh = Some m → mh_running m = true.
Proof.
  intros Henv Hown Hsub. unfold start_metrics, startup_fds.
  assert (∀ k', k_open k' = k_open k → owns open k' (fds_of mh_fds None ++ l) ∧
    k_open k' ⊆ {[(le_socket (su_mh_listen e)).1; (su_mh_eventfd e).1; (su_hc_fifo e).1; (su_hc_eventfd e).1]} ∪ open ∧
    ∀ m, None = Some m → mh_running m = true) as Hsame.
  { intros k' Hk'. split; [by apply (owns_errno open k)|]. split; [|done]. rewrite Hk'. set_solver. }
  case_decide; [|by exists k, None; split; [done|apply Hsame]].
  unfold metrics_http_create. destruct (su_mh_calloc e); cbn [negb];
    [|by exists k, None; split; [done|apply Hsame]].
  destruct Henv as [_ _ _ Hwake Hlisten]. destruct (su_mh_eventfd e) as [wfd err]. cbn [fst] in *.
  case_decide; [by eexists _, None; split; [done|apply Hsame]|].
  set (k1 := opened wfd (set_errno err k)).
  set (m := {| mh_listen_fd := -1; mh_wake_fd := wfd; mh_running := false; mh_port := metrics_port cfg |}).
  assert (owns (k_open k) k1 [mh_listen_fd m; mh_wake_fd m]) as Hown1.
  { apply (owns_put (k_open k) k _ [-1] [] (-1)); [lia|apply owns_none; by repeat constructor|right].
    cbn. split_and!; [lia|set_solver|done]. }
  destruct (metrics_http_start_spec (su_mh_listen e) (k_open k) k1 m) as (k2 & m2 & rc & -> & Hown2 & Hrc);
    [done|done|done|cbn; set_solver|].
  rewrite bind_Val. destruct Hrc as [(-> & Hrun & Hopen)|[-> _]].
  - rewrite decide_False by lia. exists k2, (Some m2). split; [done|].
    split; [by apply owns_app with k|]. split; [rewrite Hopen; cbn; set_solver|]. by intros ? [= <-].
  - rewrite decide_True by lia. destruct (metrics_http_destroy_closes (k_open k) k2 m2 (su_close e) Hown2) as [errno ->].
    rewrite bind_Val. by eexists _, None; split; [done|apply Hsame].
Qed.

(** ** Everything together *)

(** The state in which the datapath is run. *)
Record ready (ifname : list Z) (p : proc) (sys : tg_sys) (ct : conntrack_table) (stats : lb_stats) (dp : datapath) :
    Prop := {
  rd_sys : p_sys p = Some sys;
  rd_ct : p_ct p = Some ct;
  rd_stats : p_stats p = Some stats;
  rd_dp : p_dp p = Some dp;
  rd_sys_ok : sys_ok_in (su_rebuild e) sys;
  rd_subscribed : bm_cb (sys_bm sys) = true;
  rd_flows : ct_rep ct ∅;
  rd_counters : stats_live stats ∧ sr_global stats = zero_global ∧
    sr_max_backends stats = Z.of_nat (n_backends cfg) ∧
    ∀ id b, 0 ≤ id → stats_registry_snapshot_backend stats id = Val b → b = zero_backend;
  rd_datapath : datapath_create true (run_config_of cfg ifname) = Some dp;
  rd_backends : ∃ macs, length macs = n_backends cfg ∧
    live (sys_bm sys) ≡ₚ configured_from 0 (take (n_backends cfg) (backends cfg)) macs ∧
    ∀ j b mac, take (n_backends cfg) (backends cfg) !! j = Some b → macs !! j = Some mac →
      learned (su_arp e j) (cb_addr b) mac;
  rd_snapshot : ∃ snap, table_generator_get_active sys = Val (Some snap) ∧ serves (sys_bm sys) snap;
}.
Lemma configured_from_port bs macs : ∀ i b,
  Forall backend_valid bs → b ∈ configured_from i bs macs → 0 ≤ b_port b < 2 ^ 16.
Proof.
  revert macs. induction bs as [|c bs IH]; intros [|mac macs] i b Hbs Hb; cbn in Hb; try by apply elem_of_nil in Hb.
  apply Forall_cons in Hbs as [[_ Hc] Hbs]. apply elem_of_cons in Hb as [-> |Hb]; [cbn; lia|]. by eapply IH.
Qed.

Lemma created_bm bm :
  backend_manager_create true = Some bm → bm_ok bm ∧ bm_cb bm = false ∧ bm_next_id bm = 0 ∧ live bm = [].
Proof. intros [= <-]. split; [apply created_ok|]. by vm_compute. Qed.

Lemma sys_before_rebuild bm tg bs macs :
  bm_ok bm → bm_next_id bm ≤ 2 ^ 31 → live bm ≡ₚ configured_from 0 bs macs → Forall backend_valid bs →
  Z.prime (table_size cfg) → 2 < table_size cfg < 2 ^ 32 → table_generator_create true (table_size cfg) = Some tg →
  sys_ok (table_generator_install_as_subscriber
    {| sys_bm := bm; sys_tg := tg; sys_heap := ∅; sys_env := su_rebuild e; sys_rebuilds := 0 |}).
Proof.
  intros Hok Hn Hl Hbs Hp Hm [= <-]. split; cbn.
  - split; [by destruct Hok; split|]. split; [done|]. change (live (backend_manager_subscribe bm)) with (live bm).
    apply Forall_forall. intros b Hb. rewrite Hl in Hb. by eapply configured_from_port.
  - done.
  - constructor.
  - by intros l ?%elem_of_nil.
  - done.
  - intros _ l [x Hx]. by rewrite lookup_empty in Hx.
Qed.

Lemma init_stats n stats :
  0 ≤ n → stats_registry_init (su_stats_calloc e) n = Some stats →
  stats_live stats ∧ sr_global stats = zero_global ∧ sr_max_backends stats = n ∧
  ∀ id b, 0 ≤ id → stats_registry_snapshot_backend stats id = Val b → b = zero_backend.
Proof.
  intros Hn. unfold stats_registry_init. case_decide.
  - destruct (su_stats_calloc e); [|done]. intros [= <-]. split_and!; [|done|done|].
    + split; [cbn; lia|]. cbn. split; [rewrite length_replicate; lia|]. apply Forall_replicate. by split.
    + intros id b Hid. unfold stats_registry_snapshot_backend. cbn. case_decide; [by intros [= <-]|].
      intros Hb%rd_Val_inv. by apply lookup_replicate in Hb as [-> _].
  - intros [= <-]. assert (n = 0) as -> by lia. split_and!; [by split|done|done|].
    intros id b Hid. unfold stats_registry_snapshot_backend. cbn. rewrite decide_True by lia. by intros [= <-].
Qed.
(** What holds at [cleanup], however far the startup got. *)
Record held (open : fds) (p : proc) : Prop := {
  hd_fds : owns open (p_k p) (p_fds p);
  hd_open : k_open (p_k p) ⊆ startup_fds ∪ open;
  hd_objs : p_objs p = objs_of p;
  hd_sys sys : p_sys p = Some sys → sys_ok_in (su_rebuild e) sys;
  hd_stats stats : p_stats p = Some stats → stats_live stats;
  hd_hc h : p_hc p = Some h → ∃ sys stats, p_sys p = Some sys ∧ p_stats p = Some stats ∧
    hc_core_of h = {| hc_cfg := hc_cfg (hc_core_of h); hc_states := replicate BACKEND_MAX unused_state;
                      hc_bm := sys; hc_stats := Some stats |} ∧
    rise (hc_cfg (hc_core_of h)) = hc_rise cfg ∧ fall (hc_cfg (hc_core_of h)) = hc_fall cfg ∧ fifo_ok h;
  hd_mh m : p_mh p = Some m → mh_running m = true;
  hd_dp dp : p_dp p = Some dp → unopened dp;
}.

(** Nothing is open before the health checker is created. *)
Lemma held_early open k objs bm sys ct :
  k_open k = open → (∀ s, sys = Some s → sys_ok_in (su_rebuild e) s) →
  let p := {| p_k := k; p_objs := objs; p_bm := bm; p_sys := sys; p_ct := ct; p_stats := None; p_hc := None;
              p_mh := None; p_dp := None |} in
  objs = objs_of p → held open p.
Proof.
  intros <- Hsys p Hobjs. split; try done; [apply owns_none; constructor|cbn; set_solver].
Qed.

(** The backends are configured and the table serves them. *)
Definition serving (sys : tg_sys) : Prop :=
  sys_ok_in (su_rebuild e) sys ∧ bm_cb (sys_bm sys) = true ∧
  (∃ macs, length macs = n_backends cfg ∧
     live (sys_bm sys) ≡ₚ configured_from 0 (take (n_backends cfg) (backends cfg)) macs ∧
     ∀ j b mac, take (n_backends cfg) (backends cfg) !! j = Some b → macs !! j = Some mac →
       learned (su_arp e j) (cb_addr b) mac) ∧
  ∃ snap, table_generator_get_active sys = Val (Some snap) ∧ serves (sys_bm sys) snap.

Lemma start_services_spec open k ifname sys ct :
  startup_env_ok open → config_valid cfg → k_open k = open → serving sys → ct_rep ct ∅ →
  ∃ p run, start_services e cfg k ifname sys ct = Val (p, run) ∧ held open p ∧
    if run : bool then ∃ sys ct stats dp, ready ifname p sys ct stats dp else p_dp p = None.
Proof.
  intros Henv Hcfg Hk (Hsys & Hcb & Hbs & Hsnap) Hrep. unfold start_services.
  destruct (stats_registry_init (su_stats_calloc e) (Z.of_nat (n_backends cfg))) as [stats|] eqn:Hst.
  2: { do 2 eexists. split; [done|]. split; [|done]. apply held_early; [done| |done]. by intros s [= <-]. }
  apply init_stats in Hst as Hstats; [|lia].
  destruct (start_health_spec open k [Obj_stats; Obj_ct; Obj_tg; Obj_bm] sys stats Henv Hcfg Hk)
    as (k2 & hc & -> & Hown2 & Hsub2 & Hhc).
  rewrite bind_Val.
  destruct (start_metrics_spec open k2 (obj_if Obj_hc hc ++ [Obj_stats; Obj_ct; Obj_tg; Obj_bm]) (fds_of hc_fds hc)
    Henv Hown2 Hsub2) as (k3 & mh & -> & Hown3 & Hsub3 & Hmh).
  rewrite bind_Val. cbv zeta.
  assert (∀ dp, datapath_create (su_dp_calloc e) (run_config_of cfg ifname) = Some dp →
    unopened dp ∧ datapath_create true (run_config_of cfg ifname) = Some dp) as Hdp.
  { unfold datapath_create. destruct (su_dp_calloc e); [|done]. intros dp [= <-]. by split. }
  eexists _, _. split; [done|]. split.
  - split; cbn.
    + apply (owns_app open k3); [|done]. apply owns_none.
      destruct (datapath_create _ _) as [dp|] eqn:Hd; [|constructor]. destruct (Hdp dp eq_refl) as [[Hfds _] _]. cbn.
      rewrite Hfds. by repeat constructor.
    + done.
    + by destruct (datapath_create _ _).
    + by intros s [= <-].
    + intros s [= <-]. apply Hstats.
    + intros h ->. destruct (Hhc h eq_refl) as (? & ? & ? & ? & ?). by exists sys, stats.
    + done.
    + intros dp Hd. by apply Hdp.
  - destruct (datapath_create _ _) as [dp|] eqn:Hd; [|done]. exists sys, ct, stats, dp. split; try done. by apply Hdp.
Qed.

(** [goto cleanup] before the connection table exists. *)
Lemma early_exit ifname open k bm sys :
  k_open k = open → (∀ s, sys = Some s → sys_ok_in (su_rebuild e) s) →
  let p := {| p_k := k; p_objs := match sys with Some _ => [Obj_tg; Obj_bm] | None => obj_if Obj_bm bm end; p_bm := bm;
              p_sys := sys; p_ct := None; p_stats := None; p_hc := None; p_mh := None; p_dp := None |} in
  ∃ p' run, Val (p, false) = Val (p', run) ∧ held open p' ∧
    if run : bool then ∃ sys ct stats dp, ready ifname p' sys ct stats dp else p_dp p' = None.
Proof.
  intros Hk Hs p. exists p, false. split; [done|]. split; [|done]. apply held_early; [done|done|].
  unfold objs_of. cbn. by destruct sys, bm.
Qed.

Lemma startup_spec k ifname iface_mac :
  startup_env_ok (k_open k) → config_valid cfg → (0 < n_backends cfg)%nat → Z.prime (table_size cfg) →
  max_flows cfg < 2 ^ 50 → length iface_mac = ETH_ADDR_LEN →
  ∃ p run, startup e cfg k ifname iface_mac = Val (p, run) ∧ held (k_open k) p ∧
    if run : bool then ∃ sys ct stats dp, ready ifname p sys ct stats dp else p_dp p = None.
Proof.
  intros Henv Hcfg Hn Hp Hmf Hmac. unfold startup.
  destruct (su_bm_calloc e); cbn [backend_manager_create]; [|by apply (early_exit _ _ k None None)].
  match goal with |- context [resolve_backends _ _ _ _ _ _ _ ?bm] => destruct (created_bm bm) as (Hok0 & Hcb0 & Hn0 & Hl0); [done|] end.
  rewrite rd_list_take_drop by (rewrite (cv_slots _ Hcfg); pose proof (cv_n _ Hcfg); lia). rewrite drop_0, bind_Val.
  set (bs := take (n_backends cfg) (backends cfg)). pose proof (cv_backends _ Hcfg) as Hbs. fold bs in Hbs.
  assert (length bs = n_backends cfg) as Hlen.
  { unfold bs. rewrite length_take, (cv_slots _ Hcfg). pose proof (cv_n _ Hcfg). lia. }
  match goal with |- context [resolve_backends _ _ _ _ _ _ _ ?bm] =>
    destruct (resolve_backends_spec ifname iface_mac (k_open k) bs 0 k bm) as (errno & bm' & ok & -> & Hres) end;
    [apply Henv|done|done| |done|done|done|done|by rewrite Hl0|].
  { pose proof (cv_n _ Hcfg). unfold BACKEND_MAX, CONFIG_MAX_BACKENDS in *. lia. }
  rewrite bind_Val. destruct ok; cbn [negb]; [|by apply (early_exit _ _ _ (Some bm') None)].
  destruct (Hres eq_refl) as (Hok & Hcb & Hnext & macs & Hml & Hlive & Hlearned). rewrite Hl0, app_nil_r in Hlive.
  destruct (table_generator_create (su_tg_calloc e) (table_size cfg)) as [tg|] eqn:Htg; [|by apply (early_exit _ _ _ (Some bm') None)].
  assert (table_generator_create true (table_size cfg) = Some tg) as Htg' by (by destruct (su_tg_calloc e)).
  assert (bm_next_id bm' ≤ 2 ^ 31) as Hnb.
  { rewrite Hnext. pose proof (cv_n _ Hcfg). unfold CONFIG_MAX_BACKENDS in *. lia. }
  pose proof (sys_before_rebuild bm' tg bs macs Hok Hnb Hlive Hbs Hp (cv_table_size _ Hcfg) Htg') as Hsys0.
  destruct (rebuild_spec _ Hsys0) as (sys & rc & -> & Hsys & Hbm & Henv' & _ & _ & Hrc). rewrite bind_Val.
  assert (sys_ok_in (su_rebuild e) sys) as Hin by (by split; [|rewrite Henv']).
  assert (∀ s, Some sys = Some s → sys_ok_in (su_rebuild e) s) as Hsome by (by intros s [= <-]).
  destruct Hrc as [(-> & (snap & Hact & Hserves & _) & _)|(-> & _)];
    [rewrite decide_False by lia|rewrite decide_True by lia; by apply (early_exit _ _ _ None (Some sys))].
  destruct (create_rep (su_ct_alloc e) (su_ct_junk e) (max_flows cfg)) as (r & -> & Hct).
  { pose proof (cv_max_flows _ Hcfg). lia. }
  rewrite bind_Val. case_match; [|subst r; by apply (early_exit _ _ _ None (Some sys))].
  destruct Hct as (ct & -> & Hrep & _). apply start_services_spec; [done|done|done| |done].
  split; [done|]. rewrite Hbm. split; [done|]. split; [exists macs; split; [lia|done]|by exists snap].
Qed.

Lemma configured_from_elem bs macs : ∀ i b,
  b ∈ configured_from i bs macs →
  ∃ j c mac, bs !! j = Some c ∧ macs !! j = Some mac ∧ b = configured (i + j) c mac.
Proof.
  revert macs. induction bs as [|c bs IH]; intros [|mac macs] i b Hb; cbn in Hb; try by apply elem_of_nil in Hb.
  apply elem_of_cons in Hb as [-> |Hb].
  - exists 0%nat, c, mac. by rewrite Nat.add_0_r.
  - destruct (IH macs (S i) b Hb) as (j & c' & mac' & ? & ? & ->). exists (S j), c', mac'.
    by rewrite <- Nat.add_succ_comm.
Qed.

(** Some configured backend is eligible. *)
Lemma configured_eligible bm bs macs :
  live bm ≡ₚ configured_from 0 bs macs → length macs = length bs → (0 < length bs)%nat → filter eligible (live bm) ≠ [].
Proof.
  intros Hl Hlen Hpos Hnil. destruct bs as [|c bs], macs as [|mac macs]; cbn in *; try lia.
  assert (configured 0 c mac ∈ filter eligible (live bm)) as Hin; [|by rewrite Hnil in Hin; apply elem_of_nil in Hin].
  apply list_elem_of_filter. split; [done|]. rewrite Hl. by left.
Qed.

(** The datapath starts with no flow and all gauges at zero. *)
Lemma ready_dp_ok ifname p sys ct stats dp rx tx :
  config_valid cfg → ready ifname p sys ct stats dp → length rx = RX_BUF_LEN → length tx = TX_BUF_LEN →
  dp_ok {| dp_ct := ct; dp_stats := stats; dp_rx_buf := rx; dp_tx_buf := tx; dp_sent := [] |} ∅.
Proof.
  intros Hcfg [] Hrx Htx. destruct rd_counters0 as (Hlive & _ & Hmax & Hzero). split; cbn; try done.
  - intros id b Hid Hb. by rewrite (Hzero id b ltac:(lia) Hb).
  - rewrite Hmax. pose proof (cv_n _ Hcfg). unfold CONFIG_MAX_BACKENDS in *. lia.
Qed.

End Spec.

(** ** Witness *)

(** [--iface eth0 --vip 10.0.0.100 --director-ip 10.0.0.1 --backend 10.0.0.2:80
    --backend 10.0.0.3:80 --table-size 13 --max-flows 4 --admin-fifo /f --tui] *)
Definition sample_opts : list opt :=
  [Opt_iface (text "eth0"); Opt_vip (text "10.0.0.100"); Opt_director_ip (text "10.0.0.1");
   Opt_backend (text "10.0.0.2:80"); Opt_backend (text "10.0.0.3:80"); Opt_table_size (text "13");
   Opt_max_flows (text "4"); Opt_admin_fifo (text "/f"); Opt_tui].

Definition sample_started : config := Eval vm_compute in
  match config_parse_args sample_opts with Val (_, c) => c | _ => config_defaults end.

Lemma sample_opts_parsed : config_parse_args sample_opts = Val (0, sample_started).
Proof. by vm_compute. Qed.

Lemma sample_started_valid : config_valid sample_started ∧ (0 < n_backends sample_started)%nat.
Proof.
  destruct (config_parse_args_spec sample_opts) as (rc & c & E & _ & Hc). rewrite sample_opts_parsed in E.
  injection E as <- <-. destruct (Hc eq_refl) as (? & ? & _). by split.
Qed.

(** 10.0.0.(2+[i]) answers that it is at 4:4:4:4:4:[i]. *)
Definition sample_arp (i : nat) : arp_env :=
  let reply := [2; 2; 2; 2; 2; 2; 4; 4; 4; 4; 4; Z.of_nat i; 8; 6; 0; 1; 8; 0; 6; 4; 0; 2; 4; 4; 4; 4; 4; Z.of_nat i;
                10; 0; 0; 2 + Z.of_nat i; 2; 2; 2; 2; 2; 2; 10; 0; 0; 1] in
  {| ae_socket _ := (3, 0); ae_ifindex _ := (2, 0); ae_bind _ := (0, 0); ae_sendto _ _ := (42, 0);
     ae_close := None; ae_now := 100;
     ae_waits := (if decide (i < 2)%nat then [(100, Recv reply)] else []) ++ [(2100, Poll_timeout)] |}.

Definition sample_startup_env : startup_env :=
  {| su_sigmask := 0;
     su_mac := {| me_socket := (3, 0); me_ioctl _ := (0, 0, [2; 0; 0; 0; 0; 1] ++ replicate 8 0); me_close := None |};
     su_bm_calloc := true; su_arp := sample_arp; su_arp_req _ := replicate 42 0; su_arp_rx _ := replicate 128 7;
     su_tg_calloc := true; su_rebuild _ := {| re_ok _ := true; re_realloc := true; re_elapsed := 5 |};
     su_ct_alloc _ := true; su_ct_junk := sample_junk; su_stats_calloc := true; su_hc_calloc := true;
     su_hc_eventfd := (3, 0); su_hc_fifo := (4, 0); su_hc_thread := true; su_mh_calloc := true; su_mh_eventfd := (5, 0);
     su_mh_listen := {| le_socket := (6, 0); le_bind _ := (0, 0); le_listen := (0, 0); le_thread := true; le_close := None |};
     su_dp_calloc := true; su_close := None |}.

Lemma sample_startup_env_ok : startup_env_ok sample_startup_env {[0; 1; 2]}.
Proof.
  split; cbn [sample_startup_env su_hc_eventfd su_hc_fifo su_mh_eventfd su_mh_listen le_socket fst]; try set_solver.
  intros i. cbn [su_arp su_arp_req su_arp_rx sample_startup_env]. split_and!; [|done..].
  split_and!; [set_solver| |].
  - cbn [sample_arp ae_waits]. apply Forall_app. split; [|by apply Forall_singleton]. case_decide; [|by apply Forall_nil].
    apply Forall_singleton. destruct i as [|[|i]]; [..|lia]; (split; [repeat constructor; done|simpl; lia]).
  - cbn [sample_arp ae_waits ae_now]. apply Exists_app. right. by apply Exists_cons_hd.
Qed.

