(* ===== verification/System.v ===== *)
(** * The running system

    While [main] runs the datapath, two threads share state: the health checker
    (probe results and admin commands change the backends, which makes the table
    generator install a new snapshot) and the datapath (packets and timer ticks).
    Here they run interleaved, over the definitions of the components.

    The grain of the interleaving is what the other thread can tell apart: a
    probe result or an admin command up to the end of the critical section that
    changes the manager ([Health]); the notification that follows it, which
    rebuilds and installs the table ([Notify]); one packet ([Packet]); one timer
    tick, with the sweep of the connection table and the reclamation of snapshots
    ([Tick]).  Packets and ticks may thus come between a change of the backends
    and the installation of the table for it.  ([Reclamation] has the finer steps
    within a rebuild, for the life of the snapshots alone.)

    [queued] stands for the manager and its subscriber seen from the health
    checker: the notification is only queued there, and [run_op_deferred] shows
    that delivering it afterwards is what the thread does.  The counters are
    shared: an operation of the health checker works on the ones the datapath
    left, and the other way round. *)

From Stdlib Require Import Lia String.
From stdpp Require Import base numbers list gmap.
From S2P Require Import Prelude Net Hash Text Kernel Config Maglev Conntrack ConntrackSpec Stats BackendManager TableGenerator Datapath HealthChecker HealthCheckerSpec DatapathRun Metrics Startup.
Import Flow.

Local Open Scope Z_scope.

(** ** Queued notifications *)

Record queued := { q_sys : tg_sys; q_pending : bool }.

#[export] Program Instance queue_listener : ChangeListener queued := {
  get_bm q := sys_bm (q_sys q);
  put_bm bm q := {| q_sys := set_sys_bm bm (q_sys q); q_pending := q_pending q |};
  on_change q := Val {| q_sys := q_sys q; q_pending := true |};
}.
Next Obligation. done. Qed.
Next Obligation. by intros [[] ?]. Qed.
Next Obligation. by intros q q' [= <-]. Qed.

Section Deliver.
Context {xx : XXHash}.

Definition deliver (q : queued) : out tg_sys :=
  if q_pending q then on_backend_change (q_sys q) else Val (q_sys q).

Definition with_bm {A B} (f : A → B) (c : hc_core A) : hc_core B :=
  {| hc_cfg := hc_cfg c; hc_states := hc_states c; hc_bm := f (hc_bm c); hc_stats := hc_stats c |}.

Definition queue (s : tg_sys) : queued := {| q_sys := s; q_pending := false |}.

(** Delivers what the operation queued. *)
Definition settle (r : out (hc_core queued)) : out (hc_core tg_sys) :=
  c ← r; s ← deliver (hc_bm c); Val (with_bm (λ _, s) c).

Lemma locked_deferred s section :
  locked_then_notify s section =
  '(q, ch) ← locked_then_notify (queue s) section; s' ← deliver q; Val (s', ch).
Proof.
  unfold locked_then_notify. cbn [get_bm queue_listener tg_listener queue q_sys].
  destruct (section (sys_bm s)) as [[bm ch]| |]; [|done..]. rewrite !bind_Val. cbv zeta.
  destruct ch; [|done]. unfold notify, deliver.
  cbn [get_bm put_bm on_change queue_listener tg_listener set_sys_bm sys_bm q_sys q_pending].
  destruct (bm_cb bm); rewrite !bind_Val; cbn [queue q_sys q_pending]; [|rewrite bind_Val]; reflexivity.
Qed.

Lemma flip_deferred (c : hc_core tg_sys) id h : flip c id h = settle (flip (with_bm queue c) id h).
Proof.
  unfold flip, settle, backend_manager_set_health. rewrite locked_deferred. cbn [with_bm hc_bm].
  destruct (locked_then_notify (queue (hc_bm c)) _) as [[q ch]| |]; [|done..]. rewrite !bind_Val. cbn [hc_bm set_hc_bm].
  by destruct (deliver q).
Qed.

Lemma settle_idle (c : hc_core tg_sys) : settle (Val (with_bm queue c)) = Val c.
Proof. by destruct c. Qed.

Lemma put_state_queue (c : hc_core tg_sys) i st :
  put_state (with_bm queue c) i st = with_bm queue <$> put_state c i st.
Proof. unfold put_state. cbn. by destruct (wr _ _ _). Qed.

Lemma count_branch_deferred (c : hc_core tg_sys) i t n mk id h :
  count_branch c i t n mk id h = settle (count_branch (with_bm queue c) i t n mk id h).
Proof.
  unfold count_branch. cbn [with_bm hc_cfg]. case_decide; rewrite put_state_queue.
  - destruct (put_state c i _) as [c1| |]; [|done..]. cbn [fmap out_fmap]. rewrite !bind_Val.
    cbn [with_bm hc_cfg]. case_decide; [apply flip_deferred|by rewrite settle_idle].
  - destruct (put_state c i _) as [c1| |]; [|done..]. symmetry. apply settle_idle.
Qed.

(** What the health checker does for one result or command is: the same with the
    notification queued, then the notification. *)
Lemma run_op_deferred (c : hc_core tg_sys) op : run_op c op = settle (run_op (with_bm queue c) op).
Proof.
  destruct op as [id ok|line]; cbn [run_op].
  - unfold record_result. cbn [with_bm hc_states]. destruct (find_or_create_state _ _) as [[states slot]| |]; [|done..].
    rewrite !bind_Val. cbv zeta. destruct slot as [i|]; [|symmetry; apply (settle_idle (set_states states c))].
    cbn [set_states hc_states]. destruct (rd states i) as [st| |]; [|done..]. rewrite !bind_Val.
    destruct ok.
    + apply (count_branch_deferred (set_states states c) i rise (consecutive_ok st)
        (λ k, {| ps_backend_id := ps_backend_id st; consecutive_ok := k; consecutive_fail := 0; in_use := in_use st |})).
    + change (hc_stats (set_states states c)) with (hc_stats c).
      change (hc_stats (set_states states (with_bm queue c))) with (hc_stats c).
      set (mk k := {| ps_backend_id := ps_backend_id st; consecutive_ok := 0; consecutive_fail := k; in_use := in_use st |}).
      destruct (hc_stats c) as [stats|].
      * destruct (stats_backend_health_check_failed stats id) as [stats'| |]; [|done..]. rewrite !bind_Val.
        apply (count_branch_deferred (set_hc_stats (Some stats') (set_states states c)) i fall (consecutive_fail st) mk).
      * rewrite !bind_Val. apply (count_branch_deferred (set_states states c) i fall (consecutive_fail st) mk).
  - unfold handle_admin_line. destruct (sscanf_15s_lu line) as [[verb id]|]; [|symmetry; apply settle_idle].
    cbv zeta. repeat case_decide; [..|symmetry; apply settle_idle];
      unfold settle, backend_manager_set_admin_state; rewrite locked_deferred; cbn [with_bm hc_bm];
      (destruct (locked_then_notify (queue (hc_bm c)) _) as [[q ch]| |]; [|done..]); rewrite !bind_Val; cbn [hc_bm set_hc_bm];
      by destruct (deliver q).
Qed.
End Deliver.

(** ** What one operation of the health checker touches *)

Section Effects.
Context {St : Type} `{L : ChangeListener St}.
Implicit Types (c : hc_core St).

(** The manager changes by at most one setter: the health for a result, the
    admin state for a command. *)
Definition op_sets (op : hc_op) (s s' : St) : Prop :=
  match op with
  | Op_probe id _ => ∃ h ch, backend_manager_set_health s id h = Val (s', ch)
  | Op_line line => ∃ verb id st ch, sscanf_15s_lu line = Some (verb, id) ∧
      (verb = text "DRAIN" ∧ st = BACKEND_DRAINING ∨ verb = text "UNDRAIN" ∧ st = BACKEND_ENABLED) ∧
      backend_manager_set_admin_state s (u32 id) st = Val (s', ch)
  end.

(** The counters change by at most one failure. *)
Definition op_counts (op : hc_op) (r r' : option lb_stats) : Prop :=
  r' = r ∨ ∃ id ok s s', op = Op_probe id ok ∧ r = Some s ∧ r' = Some s' ∧
    stats_backend_health_check_failed s id = Val s'.

Lemma put_state_same c i st c' :
  put_state c i st = Val c' → hc_bm c' = hc_bm c ∧ hc_stats c' = hc_stats c.
Proof. unfold put_state. by intros (states & _ & [= <-])%bind_Val_inv. Qed.

Lemma count_branch_effect c i t n mk id h ok c' :
  count_branch c i t n mk id h = Val c' →
  (hc_bm c' = hc_bm c ∨ op_sets (Op_probe id ok) (hc_bm c) (hc_bm c')) ∧ hc_stats c' = hc_stats c.
Proof.
  unfold count_branch. case_decide.
  - intros (c1 & [E1 E2]%put_state_same & E)%bind_Val_inv. case_decide.
    + unfold flip in E. apply bind_Val_inv in E as ([s ch] & Es & [= <-]). cbn. rewrite <- E1, <- E2.
      split; [right; by exists h, ch|done].
    + injection E as <-. auto.
  - intros [E1 E2]%put_state_same. auto.
Qed.

Lemma run_op_effect c op c' :
  run_op c op = Val c' →
  (hc_bm c' = hc_bm c ∨ op_sets op (hc_bm c) (hc_bm c')) ∧ op_counts op (hc_stats c) (hc_stats c').
Proof.
  destruct op as [id ok|line]; cbn [run_op].
  - unfold record_result. intros ([states slot] & _ & E)%bind_Val_inv.
    destruct slot as [i|]; [|injection E as <-; split; left; done].
    apply bind_Val_inv in E as (st & _ & E). destruct ok.
    + apply (count_branch_effect (set_states states c) i rise (consecutive_ok st)
        (λ k, {| ps_backend_id := ps_backend_id st; consecutive_ok := k; consecutive_fail := 0; in_use := in_use st |})
        id true true) in E as [Hb Hs]. split; [exact Hb|by left].
    + apply bind_Val_inv in E as (c1 & E1 & E).
      apply (count_branch_effect c1 i fall (consecutive_fail st)
        (λ k, {| ps_backend_id := ps_backend_id st; consecutive_ok := 0; consecutive_fail := k; in_use := in_use st |})
        id false false) in E as [Hb Hs].
      change (hc_stats (set_states states c)) with (hc_stats c) in E1.
      unfold op_counts. rewrite Hs. destruct (hc_stats c) as [stats|] eqn:Ec.
      * apply bind_Val_inv in E1 as (stats' & Ef & [= <-]). split; [exact Hb|]. right. by exists id, false, stats, stats'.
      * injection E1 as <-. split; [exact Hb|by left].
  - unfold handle_admin_line. destruct (sscanf_15s_lu line) as [[verb id]|] eqn:Ep; [|intros [= <-]; split; by left].
    cbv zeta. case_decide as Hd; [|case_decide as Hu; [|intros [= <-]; split; by left]];
      intros ([s ch] & Es & [= <-])%bind_Val_inv; (split; [right; exists verb, id; cbn|by left]); do 2 eexists; eauto.
Qed.
End Effects.

(** ** The two threads *)

Record world := { w_hc : hc_core queued; w_dp : dp_state }.

Definition w_sys (w : world) : tg_sys := q_sys (hc_bm (w_hc w)).
Definition w_pending (w : world) : bool := q_pending (hc_bm (w_hc w)).

Definition set_sys (s : tg_sys) (pending : bool) (w : world) : world :=
  {| w_hc := set_hc_bm {| q_sys := s; q_pending := pending |} (w_hc w); w_dp := w_dp w |}.

(** [pe_snap] of a packet's environment is not used: the packet gets the
    snapshot that is active. *)
Inductive action :=
  | Health (op : hc_op)
  | Notify
  | Packet (env : packet_env)
  | Tick (now : Z).

Lemma backends_sys w : backends_of (w_hc w) = live (sys_bm (w_sys w)).
Proof. done. Qed.

Section Steps.
Context {xx : XXHash} (cfg : datapath_config).

Definition health_op (w : world) (op : hc_op) : out world :=
  c ← run_op (set_hc_stats (Some (dp_stats (w_dp w))) (w_hc w)) op;
  match hc_stats c with
  | Some stats => Val {| w_hc := c; w_dp := with_stats (λ _, stats) (w_dp w) |}
  | None => Undef
  end.

Definition notify_op (w : world) : out world :=
  s ← on_backend_change (w_sys w); Val (set_sys s false w).

Definition packet_op (w : world) (env : packet_env) : out world :=
  snap ← table_generator_get_active (w_sys w);
  dp ← handle_packet cfg (w_dp w)
         {| pe_recv := pe_recv env; pe_now := pe_now env; pe_snap := snap; pe_send := pe_send env |};
  Val {| w_hc := w_hc w; w_dp := dp |}.

(** The timer branch of the event loop. *)
Definition tick_op (w : world) (now : Z) : out world :=
  dp ← handle_timer cfg (w_dp w) now;
  s ← table_generator_reclaim (w_sys w);
  Val (set_sys s (w_pending w) {| w_hc := w_hc w; w_dp := dp |}).

Definition act (w : world) (a : action) : out world :=
  match a with
  | Health op => health_op w op
  | Notify => notify_op w
  | Packet env => packet_op w env
  | Tick now => tick_op w now
  end.

(** What may happen next: the health checker delivers its notification before it
    goes on, probes backends there are, and a frame fits the buffer. *)
Definition enabled (w : world) (a : action) : Prop :=
  match a with
  | Health op => w_pending w = false ∧ op_known (w_hc w) op
  | Notify => w_pending w = true
  | Packet env => ∀ data, pe_recv env = Some data → bytes_ok data ∧ (length data ≤ RX_BUF_LEN)%nat
  | Tick _ => True
  end.

(** The runs of the system. *)
Inductive exec : world → list action → world → Prop :=
  | exec_nil w : exec w [] w
  | exec_cons w a w1 acts w' :
      enabled w a → act w a = Val w1 → exec w1 acts w' → exec w (a :: acts) w'.

#[export] Instance enabled_dec w a : Decision (enabled w a).
Proof.
  destruct a as [[id ok|line]| |env|now]; cbn; try apply _.
  destruct (pe_recv env) as [data|]; [|left; by intros].
  destruct (decide (bytes_ok data ∧ (length data ≤ RX_BUF_LEN)%nat)) as [H|H]; [left; by intros d [= <-]|right; auto].
Defined.

(** Executes a schedule; [NoFuel] when an action of it is not enabled. *)
Fixpoint run_schedule (w : world) (acts : list action) : out world :=
  match acts with
  | [] => Val w
  | a :: acts => if decide (enabled w a) then w ← act w a; run_schedule w acts else NoFuel
  end.

Lemma run_schedule_exec w acts w' : run_schedule w acts = Val w' → exec w acts w'.
Proof.
  revert w. induction acts as [|a acts IH]; intros w; cbn [run_schedule]; [intros [= <-]; constructor|].
  case_decide; [|done]. intros (w1 & E & E')%bind_Val_inv. econstructor; eauto.
Qed.

Lemma exec_snoc_inv w acts a w' :
  exec w (acts ++ [a]) w' → ∃ w1, exec w acts w1 ∧ enabled w1 a ∧ act w1 a = Val w'.
Proof.
  revert w. induction acts as [|b acts IH]; intros w; cbn [app]; inversion 1 as [|? ? w1 ? ? Hr Ha He]; subst.
  - inversion He; subst. exists w. split; [constructor|done].
  - destruct (IH w1 He) as (w2 & He2 & ?). exists w2. split; [by econstructor|done].
Qed.
End Steps.

(** The probe results among the actions. *)
Definition results_of (acts : list action) : history :=
  probes (omap (λ a, match a with Health op => Some op | _ => None end) acts).

(** ** The invariant *)

Lemma locked_queue (q : queued) section q' ch :
  locked_then_notify q section = Val (q', ch) →
  ∃ bm, section (sys_bm (q_sys q)) = Val (bm, ch) ∧ q_sys q' = set_sys_bm bm (q_sys q) ∧
    q_pending q' = q_pending q || (ch && bm_cb bm).
Proof.
  unfold locked_then_notify. intros ([bm ch'] & E & E')%bind_Val_inv. cbv zeta in E'.
  apply bind_Val_inv in E' as (q1 & E1 & [= -> ->]). exists bm. split; [done|].
  destruct ch; [|injection E1 as <-; by rewrite orb_false_r].
  unfold notify in E1. cbn in E1. destruct (bm_cb bm); injection E1 as <-; by rewrite ?orb_true_r, ?orb_false_r.
Qed.

Section System.
Context {xx : XXHash} (env : nat → rebuild_env).

Definition queued_ok (q : queued) : Prop := sys_ok_in env (q_sys q) ∧ bm_cb (sys_bm (q_sys q)) = true.

#[export] Instance queue_setters : SettersSound queued_ok.
Proof.
  split; [by intros q [[Hok _] _]; apply Hok|]. intros q id differs f [[Hok Henv] Hcb] Hf.
  destruct (so_bm _ Hok) as (Hbok & Hn & Hports).
  destruct (update_locked_spec (sys_bm (q_sys q)) id differs f Hbok (λ b, proj1 (Hf b)))
    as (bm' & ch & E & Hok' & Hcb' & Hn' & _ & Hl).
  assert (queued_ok {| q_sys := set_sys_bm bm' (q_sys q); q_pending := q_pending q || ch |}) as Hq.
  { split; [|cbn; congruence]. split; [|done]. destruct Hok. split; try done. split; [done|]. split; [cbn; lia|].
    cbn. rewrite Hl. destruct ch; [|done]. apply Forall_fmap, (Forall_impl _ _ _ Hports). intros b' Hb'. simpl.
    case_decide; [|done]. by rewrite (proj2 (Hf b')). }
  exists {| q_sys := set_sys_bm bm' (q_sys q); q_pending := q_pending q || ch |}, ch. split; [|done].
  unfold locked_then_notify. cbn [get_bm queue_listener]. rewrite E, bind_Val. cbv zeta.
  destruct ch; [|rewrite bind_Val; by rewrite orb_false_r].
  unfold notify. cbn. rewrite Hcb', Hcb. by rewrite orb_true_r.
Qed.

(** An operation keeps everything of the backends but health and admin state, and
    nothing at all changes unless a notification is queued. *)
Lemma op_sets_spec op q q' :
  queued_ok q → op_sets op q q' →
  ∃ bm', q_sys q' = set_sys_bm bm' (q_sys q) ∧
    copy_view <$> live bm' = copy_view <$> live (sys_bm (q_sys q)) ∧
    (q_pending q' = false → live bm' = live (sys_bm (q_sys q))).
Proof.
  intros [[Hok Henv] Hcb] Hop. destruct (so_bm _ Hok) as (Hbok & _ & _).
  assert (∃ id differs f ch, (∀ b, b_id (f b) = b_id b ∧ copy_view (f b) = copy_view b) ∧
    locked_then_notify q (λ bm, update_locked bm id differs f) = Val (q', ch)) as (id & differs & f & ch & Hf & E).
  { destruct op as [id ok|line].
    - destruct Hop as (h & ch & E). do 4 eexists. split; [|exact E]. done.
    - destruct Hop as (verb & id & st & ch & _ & _ & E). do 4 eexists. split; [|exact E]. done. }
  apply locked_queue in E as (bm' & E & Hs & Hp). exists bm'. split; [done|].
  destruct (update_locked_spec (sys_bm (q_sys q)) id differs f Hbok (λ b, proj1 (Hf b)))
    as (bm2 & ch2 & E2 & _ & Hcb2 & _ & _ & Hl). rewrite E in E2. injection E2 as <- <-.
  rewrite Hl. split.
  - destruct ch; [|done]. rewrite <- list_fmap_compose. apply list_fmap_ext. intros i b _. cbn.
    case_decide; [apply Hf|done].
  - rewrite Hp, Hcb2, Hcb. destruct ch; [|done]. by destruct (q_pending q).
Qed.

Context (cfg : datapath_config) (h0 : Z → bool) (hcfg : health_check_cfg) (views : list backend_view).
Hypothesis Hcfg : cfg_ok cfg.
Hypothesis Hmacs : Forall (λ v, length (v_mac v) = 6%nat) views.

(** [h] is the history of probe results, latest first; [m] the flows tracked;
    [bm] the manager as it was when the active snapshot was built, which is the
    present one when nothing is pending, provided no rebuild failed. *)
Record good (h : history) (m : flows) (bm : backend_manager) (w : world) : Prop := {
  g_core : core_ok (Inv := queued_ok) (w_hc w);
  g_mon : monitored h0 h (w_hc w);
  g_cfg : hc_cfg (w_hc w) = hcfg;
  g_dp : dp_ok (w_dp w) m;
  g_views : copy_view <$> backends_of (w_hc w) = views;
  g_bm : bm_wf bm ∧ copy_view <$> live bm = views;
  g_active : ∃ snap, table_generator_get_active (w_sys w) = Val (Some snap) ∧ serves bm snap;
  g_current : (∀ n i, re_ok (env n) i = true) → w_pending w = false → live bm = live (sys_bm (w_sys w));
}.

Lemma good_sys h m bm w : good h m bm w → sys_ok (w_sys w) ∧ sys_env (w_sys w) = env ∧ bm_cb (sys_bm (w_sys w)) = true.
Proof. intros Hg. destruct (co_inv _ (g_core _ _ _ _ Hg)) as [[? ?] ?]. done. Qed.

Lemma good_snap_ok h m bm w snap : good h m bm w → serves bm snap → snap_ok snap.
Proof.
  intros Hg Hsv. destruct (g_bm _ _ _ _ Hg) as [Hwf Hv]. apply (serves_snap_ok bm); [done| |done].
  rewrite <- Hv in Hmacs. by apply Forall_fmap in Hmacs.
Qed.

(** Replacing the generator's state by one with the same backends. *)
Lemma core_set_sys (c : hc_core queued) s p :
  core_ok (Inv := queued_ok) c → sys_ok s → sys_env s = env → sys_bm s = sys_bm (q_sys (hc_bm c)) →
  core_ok (Inv := queued_ok) (set_hc_bm {| q_sys := s; q_pending := p |} c).
Proof.
  intros [[_ Hcb] Hst Hstats Hc] Hs He Hb. split; cbn; try done.
  - split; [by split|]. cbn. by rewrite Hb.
  - unfold backends_of in *. cbn in *. by rewrite Hb.
Qed.

Lemma monitored_set_sys h (c : hc_core queued) s p :
  monitored h0 h c → sys_bm s = sys_bm (q_sys (hc_bm c)) →
  monitored h0 h (set_hc_bm {| q_sys := s; q_pending := p |} c).
Proof. intros [Ht Hh] Hb. split; [done|]. unfold backends_of in *. cbn in *. by rewrite Hb. Qed.

(** A failed probe is counted without touching the gauges. *)
Lemma op_counts_step op s r' :
  stats_live s → (∀ id ok, op = Op_probe id ok → 0 ≤ id) → op_counts op (Some s) r' →
  ∃ s', r' = Some s' ∧ stats_step s s' [] no_delta.
Proof.
  intros Hl Hid [-> |(id & ok & s0 & s' & -> & [= <-] & -> & E)].
  - exists s. split; [done|apply stats_step_refl].
  - exists s'. split; [done|]. unfold stats_backend_health_check_failed in E.
    match type of E with update_backend _ _ ?f = _ =>
      destruct (stats_step_update s id f 0) as (s2 & E2 & Hst); [done|by eapply Hid| |] end.
    2: { rewrite E in E2. injection E2 as <-. eapply stats_step_ext; [|exact Hst]. intros id'. cbv beta. by case_decide. }
    intros b Hb. cbn. unfold u64. rewrite Z.add_0_r, Z.mod_small; [done|apply Hb].
Qed.

Lemma health_good h m bm w op :
  good h m bm w → enabled w (Health op) →
  ∃ w', act cfg w (Health op) = Val w' ∧ good (reverse (probes [op]) ++ h) m bm w' ∧
    dp_sent (w_dp w') = dp_sent (w_dp w) ∧
    (hc_bm (w_hc w') = hc_bm (w_hc w) ∨ op_sets op (hc_bm (w_hc w)) (hc_bm (w_hc w'))).
Proof.
  intros Hg [Hp Hop]. destruct Hg as [Hcore Hmon Hc Hdp Hviews Hbm Hact Hcur]. cbn [act]. unfold health_op.
  set (c0 := set_hc_stats (Some (dp_stats (w_dp w))) (w_hc w)).
  assert (core_ok (Inv := queued_ok) c0) as Hcore0.
  { destruct Hcore. split; try done. intros s [= <-]. apply Hdp. }
  destruct (run_ops_spec (Inv := queued_ok) h0 h c0 [op] Hcore0 Hmon) as (c' & E & Hcore' & Hmon' & Hcfg').
  { by apply Forall_singleton. }
  cbn [run_ops] in E. apply bind_Val_inv in E as (c1 & E & [= ->]). rewrite E, bind_Val.
  destruct (run_op_effect c0 op c' E) as [Hset Hcount].
  destruct (op_counts_step op (dp_stats (w_dp w)) (hc_stats c')) as (s' & -> & Hst); [apply Hdp| |done|].
  { intros id ok ->. cbn in Hop. exact (ids_range (Inv := queued_ok) (w_hc w) id Hcore Hop). }
  eexists. split; [done|].
  assert (∃ bm', q_sys (hc_bm c') = set_sys_bm bm' (w_sys w) ∧ copy_view <$> live bm' = views ∧
    (q_pending (hc_bm c') = false → live bm' = live (sys_bm (w_sys w)))) as (bm' & Hs' & Hv' & Hlive').
  { destruct Hset as [Eq|Hset].
    - exists (sys_bm (w_sys w)). rewrite Eq. change (hc_bm c0) with (hc_bm (w_hc w)). split; [unfold w_sys; by destruct (q_sys (hc_bm (w_hc w)))|].
      split; [exact Hviews|done].
    - destruct (op_sets_spec op _ _ (co_inv _ Hcore) Hset) as (bm' & ? & Hv & ?). exists bm'. split; [done|].
      split; [rewrite Hv; exact Hviews|done]. }
  split; [|split; [done|exact Hset]]. split; cbn [w_hc w_dp]; try done.
  - by rewrite Hcfg'.
  - eapply (dp_ok_step (w_dp w) m); [exact Hdp|exact Hst|apply Hdp| |apply Hdp..]. intros id _. unfold no_delta. lia.
  - unfold backends_of. cbn. rewrite Hs'. exact Hv'.
  - unfold w_sys. cbn. rewrite Hs'. exact Hact.
  - unfold w_sys, w_pending. cbn. rewrite Hs'. intros Hmem Hp'. cbn. rewrite Hlive' by done. by apply Hcur.
Qed.

Lemma notify_good h m bm w :
  good h m bm w → enabled w Notify →
  ∃ w' bm', act cfg w Notify = Val w' ∧ good h m bm' w' ∧ w_dp w' = w_dp w ∧ sys_bm (w_sys w') = sys_bm (w_sys w) ∧
    (bm' = sys_bm (w_sys w) ∨ bm' = bm).
Proof.
  intros Hg _. destruct (good_sys _ _ _ _ Hg) as (Hok & Henv & Hcb).
  destruct Hg as [Hcore Hmon Hc Hdp Hviews Hbm Hact Hcur]. cbn [act]. unfold notify_op, on_backend_change.
  destruct (rebuild_spec (w_sys w) Hok) as (s' & rc & -> & Hok' & Hb' & He' & _ & Hrc & Hcase).
  rewrite !bind_Val. exists (set_sys s' false w).
  exists (if decide (rc = 0) then sys_bm (w_sys w) else bm). split; [done|].
  split; [|split; [done|]; split; [exact Hb'|case_decide; auto]].
  split; cbn [set_sys w_hc w_dp]; try done.
  - apply core_set_sys; [done|done|congruence|done].
  - by apply monitored_set_sys.
  - unfold backends_of. cbn. rewrite Hb'. exact Hviews.
  - case_decide; [split; [apply Hok|exact Hviews]|done].
  - destruct Hcase as [(-> & (snap & Ha & Hsv & _) & _)|(-> & Htg & Hh)].
    + rewrite decide_True by done. by exists snap.
    + rewrite decide_False by done. destruct Hact as (snap & Ha & Hsv). exists snap. split; [|done].
      unfold table_generator_get_active in *. cbn. by rewrite Htg, Hh.
  - intros Hmem _. rewrite decide_True; [cbn; by rewrite Hb'|]. apply Hrc. rewrite Henv. apply Hmem.
Qed.

(** The environment of a packet, with the active snapshot. *)
Definition with_snap (snap : routing_snapshot) (e : packet_env) : packet_env :=
  {| pe_recv := pe_recv e; pe_now := pe_now e; pe_snap := Some snap; pe_send := pe_send e |}.

(** The flows after a packet. *)
Definition flows_after (m : flows) (w : world) (snap : routing_snapshot) (e : packet_env) : flows :=
  match pe_recv e with
  | Some (x :: data) => (packet_spec cfg (length (ct_slab (dp_ct (w_dp w)))) m (Some snap) (x :: data) (pe_now e)).1
  | _ => m
  end.

Lemma packet_good h m bm w e :
  good h m bm w → enabled w (Packet e) →
  ∃ w' snap, act cfg w (Packet e) = Val w' ∧ serves bm snap ∧ good h (flows_after m w snap e) bm w' ∧
    w_hc w' = w_hc w ∧ env_ok (with_snap snap e) ∧ handle_packet cfg (w_dp w) (with_snap snap e) = Val (w_dp w').
Proof.
  intros Hg Hen. destruct (g_active _ _ _ _ Hg) as (snap & Ha & Hsv).
  pose proof (good_snap_ok _ _ _ _ _ Hg Hsv) as Hsnap.
  destruct Hg as [Hcore Hmon Hc Hdp Hviews Hbm Hact Hcur]. cbn [act]. unfold packet_op. rewrite Ha, bind_Val.
  assert (env_ok (with_snap snap e)) as Henv by (split; [exact Hen|by intros ? [= <-]]).
  destruct (handle_packet_spec cfg (w_dp w) m (with_snap snap e) Hcfg Henv Hdp) as (dp & E & _ & H).
  change {| pe_recv := _; pe_now := _; pe_snap := _; pe_send := _ |} with (with_snap snap e). rewrite E, bind_Val.
  eexists _, snap. split; [done|]. split; [done|]. split; [|done].
  split; cbn [w_hc w_dp]; try done. unfold flows_after. cbn [with_snap pe_recv pe_snap pe_now] in H.
  destruct (pe_recv e) as [[|x data]|]; [by subst dp| |by subst dp]. cbv zeta in H.
  destruct (packet_spec _ _ _ _ _ _) as [m' vd]. by destruct H.
Qed.

Lemma tick_good h m bm w now :
  good h m bm w →
  ∃ w' m', act cfg w (Tick now) = Val w' ∧ good h m' bm w' ∧ m' ⊆ m ∧ dp_sent (w_dp w') = dp_sent (w_dp w) ∧
    sys_bm (w_sys w') = sys_bm (w_sys w) ∧ w_pending w' = w_pending w ∧
    owned (sys_tg (w_sys w')) = option_list (tg_active (sys_tg (w_sys w))).
Proof.
  intros Hg. destruct (good_sys _ _ _ _ Hg) as (Hok & Henv & Hcb).
  destruct Hg as [Hcore Hmon Hc Hdp Hviews Hbm Hact Hcur]. cbn [act]. unfold tick_op.
  destruct (handle_timer_spec cfg (w_dp w) m now Hcfg Hdp) as (dp & -> & _ & Hdp' & Hsent & _). rewrite bind_Val.
  assert (∃ m', m' ⊆ m ∧ dp_ok dp m') as (m' & Hsub & Hm').
  { eexists. split; [|exact Hdp']. apply map_filter_subseteq. }
  destruct (reclaim_spec (w_sys w) Hok) as (s' & -> & Hok' & Hb' & He' & Ha' & Ho'). rewrite bind_Val.
  eexists _, m'. split; [done|]. split; [|done].
  split; cbn [set_sys w_hc w_dp]; try done.
  - apply core_set_sys; [done|done|congruence|done].
  - by apply monitored_set_sys.
  - unfold backends_of. cbn. rewrite Hb'. exact Hviews.
  - unfold w_sys. cbn. rewrite Ha'. exact Hact.
  - unfold w_sys, w_pending. cbn. rewrite Hb'. exact Hcur.
Qed.

(** ** Runs *)

Lemma act_good h m bm w a :
  good h m bm w → enabled w a →
  ∃ w' m' bm', act cfg w a = Val w' ∧ good (reverse (results_of [a]) ++ h) m' bm' w'.
Proof.
  intros Hg Hen. destruct a as [op| |e|now].
  - destruct (health_good h m bm w op Hg Hen) as (w' & E & Hg' & _). exists w', m, bm. split; [done|].
    exact Hg'.
  - destruct (notify_good h m bm w Hg Hen) as (w' & bm' & E & Hg' & _). by exists w', m, bm'.
  - destruct (packet_good h m bm w e Hg Hen) as (w' & snap & E & _ & Hg' & _). by eexists w', _, bm.
  - destruct (tick_good h m bm w now Hg) as (w' & m' & E & Hg' & _). by exists w', m', bm.
Qed.

Lemma results_of_cons a acts : results_of (a :: acts) = results_of [a] ++ results_of acts.
Proof. unfold results_of. rewrite <- probes_app, <- omap_app. done. Qed.

Lemma exec_good h m bm w acts w' :
  good h m bm w → exec cfg w acts w' → ∃ m' bm', good (reverse (results_of acts) ++ h) m' bm' w'.
Proof.
  intros Hg He. revert h m bm Hg. induction He as [w|w a w1 acts w' Hen Ha _ IH]; intros h m bm Hg.
  - by exists m, bm.
  - destruct (act_good h m bm w a Hg Hen) as (w2 & m1 & bm1 & E & Hg1). rewrite Ha in E. injection E as <-.
    destruct (IH _ _ _ Hg1) as (m' & bm' & Hg'). exists m', bm'.
    by rewrite results_of_cons, reverse_app, <- (assoc_L (++)).
Qed.

(** ** Draining *)

Definition draining (id : Z) (bs : list backend) : Prop :=
  ∀ b, b ∈ bs → b_id b = id → b_admin_state b = BACKEND_DRAINING.

Definition no_undrain (id : Z) (a : action) : Prop :=
  match a with
  | Health (Op_line line) => ∀ n, sscanf_15s_lu line = Some (text "UNDRAIN", n) → u32 n ≠ id
  | _ => True
  end.

Lemma draining_update id bs (f : backend → backend) :
  (∀ b, b_id (f b) = b_id b ∧ (b_id b = id → b_admin_state b = BACKEND_DRAINING → b_admin_state (f b) = BACKEND_DRAINING)) →
  draining id bs → draining id (f <$> bs).
Proof. intros Hf Hd b (b0 & -> & Hb)%list_elem_of_fmap E. destruct (Hf b0) as [Hi Ha]. rewrite Hi in E. by apply Ha, Hd. Qed.

Lemma op_sets_draining id op q q' :
  queued_ok q → op_sets op q q' → no_undrain id (Health op) →
  draining id (live (sys_bm (q_sys q))) → draining id (live (sys_bm (q_sys q'))).
Proof.
  intros Hq Hop Hno Hd. destruct op as [id0 ok|line].
  - destruct Hop as (hh & ch & E). destruct (set_health_spec (Inv := queued_ok) q id0 hh Hq) as (s' & ch' & E' & _ & Hl).
    rewrite E in E'. injection E' as <- <-. cbn [get_bm queue_listener] in Hl. rewrite Hl. apply draining_update; [|done].
    intros b. case_decide; by split.
  - destruct Hop as (verb & n & st & ch & Ep & Hv & E).
    destruct (set_admin_spec (Inv := queued_ok) q (u32 n) st Hq) as (s' & ch' & E' & _ & Hl).
    rewrite E in E'. injection E' as <- <-. cbn [get_bm queue_listener] in Hl. rewrite Hl. apply draining_update; [|done].
    intros b. case_decide as Hb; [|by split]. split; [done|]. intros <- _. cbn.
    destruct Hv as [[_ ->]|[-> ->]]; [done|]. by destruct (Hno n Ep).
Qed.

(** A flow that appears is mapped by the table. *)
Lemma packet_spec_new capacity m snap data now k b t :
  (packet_spec cfg capacity m (Some snap) data now).1 !! k = Some (b, t) →
  (∃ t0, m !! k = Some (b, t0)) ∨ (0 ≤ b ∧ maglev_table_lookup (s_table snap) k = Val b).
Proof.
  unfold packet_spec. destruct (packet_extract_flow data) as [[[] [fx|]]| |]; cbn [fst]; try (by left; eauto).
  case_decide; cbn [fst]; [by left; eauto|]. unfold route.
  destruct (m !! key fx) as [[id t0]|] eqn:Hm; cbn [fst].
  - rewrite lookup_insert. case_decide as E; [intros [= <- <-]; left; exists t0; by rewrite <- E|by left; eauto].
  - destruct (maglev_table_lookup (s_table snap) (key fx)) as [id| |] eqn:El; cbn [fst]; [|by left; eauto..].
    repeat case_decide; cbn [fst]; [by left; eauto..|]. rewrite lookup_insert.
    case_decide as E; [|by left; eauto]. intros [= <- <-]. right. rewrite <- E. split; [lia|done].
Qed.

Lemma draining_not_mapped id bm snap k :
  draining id (live bm) → serves bm snap → 0 ≤ id → maglev_table_lookup (s_table snap) k ≠ Val id.
Proof.
  intros Hd Hsv Hid E. destruct (sv_lookup _ _ Hsv k) as (id' & E' & Hcase). rewrite E in E'. injection E' as <-.
  destruct Hcase as [[_ ->]|(b & Hb & He & Hbid & _)]; [lia|]. unfold eligible in He. rewrite (Hd b Hb Hbid) in He.
  done.
Qed.

(** Flows pinned to [id] in [m'] were pinned to it in [m]. *)
Definition no_new_flows (id : Z) (m m' : flows) : Prop :=
  ∀ k t', m' !! k = Some (id, t') → ∃ t, m !! k = Some (id, t).

Lemma act_draining id h m bm w a w' :
  good h m bm w → enabled w a → act cfg w a = Val w' → no_undrain id a →
  draining id (live bm) → draining id (backends_of (w_hc w)) →
  ∃ h' m' bm', good h' m' bm' w' ∧ draining id (live bm') ∧ draining id (backends_of (w_hc w')) ∧ no_new_flows id m m'.
Proof.
  intros Hg Hen Ha Hno Hd1 Hd2. assert (no_new_flows id m m) as Hid by (intros k t'; eauto). destruct a as [op| |e|now].
  - destruct (health_good h m bm w op Hg Hen) as (w1 & E & Hg' & _ & Hset). rewrite Ha in E. injection E as <-.
    eexists _, m, bm. split; [exact Hg'|]. split; [done|]. split; [|done]. unfold backends_of in *.
    destruct Hset as [-> |Hset]; [done|]. by eapply op_sets_draining; [apply Hg|..].
  - destruct (notify_good h m bm w Hg Hen) as (w1 & bm' & E & Hg' & _ & Hb & Hbm'). rewrite Ha in E. injection E as <-.
    exists h, m, bm'. split; [done|]. rewrite backends_sys, Hb. rewrite backends_sys in Hd2.
    destruct Hbm' as [-> | ->]; done.
  - destruct (packet_good h m bm w e Hg Hen) as (w1 & snap & E & Hsv & Hg' & Hhc & _). rewrite Ha in E. injection E as <-.
    eexists h, _, bm. split; [exact Hg'|]. rewrite Hhc. do 2 (split; [done|]).
    unfold flows_after. intros k t'. destruct (pe_recv e) as [[|x data]|]; [by eauto| |by eauto].
    intros [?|[Hpos Hl]]%packet_spec_new; [done|]. by destruct (draining_not_mapped id bm snap k Hd1 Hsv Hpos).
  - destruct (tick_good h m bm w now Hg) as (w1 & m' & E & Hg' & Hsub & _ & Hb & _). rewrite Ha in E. injection E as <-.
    exists h, m', bm. split; [done|]. split; [done|]. rewrite backends_sys, Hb. rewrite backends_sys in Hd2.
    split; [done|]. intros k t' Hk. exists t'. by eapply lookup_weaken.
Qed.

Lemma exec_draining id h m bm w acts w' :
  good h m bm w → exec cfg w acts w' → Forall (no_undrain id) acts →
  draining id (live bm) → draining id (backends_of (w_hc w)) →
  ∃ h' m' bm', good h' m' bm' w' ∧ no_new_flows id m m'.
Proof.
  intros Hg He. revert h m bm Hg. induction He as [w|w a w1 acts w' Hen Ha _ IH]; intros h m bm Hg Hno Hd1 Hd2.
  { exists h, m, bm. split; [done|]. intros k t'. eauto. }
  apply Forall_cons in Hno as [Hno1 Hno].
  destruct (act_draining id h m bm w a w1 Hg Hen Ha Hno1 Hd1 Hd2) as (h1 & m1 & bm1 & Hg1 & Hd1' & Hd2' & Hn1).
  destruct (IH h1 m1 bm1 Hg1 Hno Hd1' Hd2') as (h' & m' & bm' & Hg' & Hn'). exists h', m', bm'. split; [done|].
  intros k t' Hk. destruct (Hn' k t' Hk) as [t1 Hk1]. by eapply Hn1.
Qed.

Lemma no_new_flows_pinned id m m' : no_new_flows id m m' → (pinned m' id ≤ pinned m id)%nat.
Proof.
  intros Hn. assert (∀ m : flows, pinned m id = size (dom (filter (λ d : conn, d.2.1 = id) m))) as Hsz.
  { intros m0. rewrite size_dom, <- length_map_to_list.
    destruct (bindings_partition m0 (λ d : conn, d.2.1 = id) (filter (λ d : conn, d.2.1 = id) (map_to_list m0))
      (filter (λ d : conn, ¬ d.2.1 = id) (map_to_list m0))) as [-> _]; rewrite ?filter_app_complement; try done;
      apply Forall_forall; by intros x [? _]%list_elem_of_filter. }
  rewrite !Hsz. apply subseteq_size. intros k. rewrite !elem_of_dom. intros [[b t] [Hk E]%map_lookup_filter_Some].
  cbn in E. subst b. destruct (Hn k t Hk) as [t0 Hk0]. exists (id, t0). by apply map_lookup_filter_Some.
Qed.

(** A packet goes only to a backend the active snapshot serves. *)
Lemma packet_sent h m bm w e x data :
  good h m bm w → enabled w (Packet e) → pe_recv e = Some (x :: data) →
  ∃ w', act cfg w (Packet e) = Val w' ∧
    (dp_sent (w_dp w') = dp_sent (w_dp w) ∨
     ∃ fx b hi lo, packet_extract_flow (x :: data) = Val (PARSE_OK, Some fx) ∧ b ∈ live bm ∧ routable b ∧
       (m !! key fx = None → eligible b) ∧
       dp_sent (w_dp w') = dp_sent (w_dp w) ++ [frame_of cfg (x :: data) [hi; lo] fx (copy_view b)]).
Proof.
  intros Hg Hen Hrecv. destruct (packet_good h m bm w e Hg Hen) as (w' & snap & E & Hsv & _ & _ & Henv & Ep).
  exists w'. split; [done|].
  destruct (handle_packet_spec cfg (w_dp w) m (with_snap snap e) Hcfg Henv (g_dp _ _ _ _ Hg)) as (dp & E' & _ & H).
  rewrite Ep in E'. injection E' as <-. cbn [with_snap pe_recv pe_snap pe_now] in H. rewrite Hrecv in H. cbv zeta in H.
  destruct (packet_spec cfg _ m (Some snap) (x :: data) (pe_now e)) as [m' vd] eqn:Es.
  destruct H as [_ Hv]. destruct vd as [|ct|fx id v]; [left; exact (proj1 Hv)..|right].
  destruct Hv as (hi & lo & _ & Hs & _).
  destruct (forwarded_serving _ _ _ _ _ _ _ _ _ _ _ Hsv Es) as (b & Hb & _ & -> & Hr & Hp & He).
  exists fx, b, hi, lo. by split_and!.
Qed.
End System.

(** ** From the startup on *)

(** The world in which [main] runs the datapath, with the constants of its loop:
    [own] is the MAC address of the interface, [rx] and [tx] the buffers of
    [datapath_run]. *)
Definition started_system (p : proc) (own rx tx : list Z) : option (datapath_config * world) :=
  match p_sys p, p_ct p, p_stats p, p_hc p, p_dp p with
  | Some sys, Some ct, Some stats, Some hc, Some dp =>
      Some (loop_config (set_buckets (reaper_buckets_per_tick ct) (set_own_mac (Some own) dp)),
            {| w_hc := with_bm (λ _, queue sys) (hc_core_of hc);
               w_dp := {| dp_ct := ct; dp_stats := stats; dp_rx_buf := rx; dp_tx_buf := tx; dp_sent := [] |} |})
  | _, _, _, _, _ => None
  end.

Section FromStartup.
Context {xx : XXHash} (e : startup_env) (c : config).

(** [main] got to running the datapath, with a health checker. *)
Inductive launched : datapath_config → world → Prop :=
  | launched_intro k ifname iface_mac p own rx tx dcfg w :
      startup_env_ok e (k_open k) → config_valid c → (0 < n_backends c)%nat → Z.prime (table_size c) →
      max_flows c < 2 ^ 50 → length iface_mac = ETH_ADDR_LEN →
      startup e c k ifname iface_mac = Val (p, true) → started_system p own rx tx = Some (dcfg, w) →
      length own = 6%nat → length rx = RX_BUF_LEN → length tx = TX_BUF_LEN → launched dcfg w.

(** The backend is number [j] of the configuration, at the MAC address it
    announced. *)
Definition announced (v : backend_view) : Prop :=
  ∃ j b mac, take (n_backends c) (backends c) !! j = Some b ∧ learned (su_arp e j) (cb_addr b) mac ∧
    v = {| v_id := Z.of_nat j; v_addr := cb_addr b; v_port := cb_port b; v_mac := mac |}.

Lemma launched_good dcfg w :
  launched dcfg w →
  cfg_ok dcfg ∧ rise (hc_cfg (w_hc w)) = hc_rise c ∧ fall (hc_cfg (w_hc w)) = hc_fall c ∧
  Forall announced (copy_view <$> backends_of (w_hc w)) ∧
  good (su_rebuild e) (λ _, true) (hc_cfg (w_hc w)) (copy_view <$> backends_of (w_hc w)) [] ∅ (sys_bm (w_sys w)) w.
Proof.
  intros [k ifname iface_mac p own rx tx dcfg' w' Henv Hc Hn Hp Hmf Hmac Est Ew Hown Hrx Htx].
  destruct (startup_spec e c k ifname iface_mac Henv Hc Hn Hp Hmf Hmac) as (p' & run & E & Hheld & Hrun).
  rewrite Est in E. injection E as <- <-. destruct Hrun as (sys & ct & stats & dp & Hready).
  pose proof (ready_dp_ok e c ifname p sys ct stats dp rx tx Hc Hready Hrx Htx) as Hdp.
  destruct Hready as [Hsys Hct Hstats Hpdp Hsysok Hcb Hflows Hcnt Hdpc Hbk Hsnap].
  unfold started_system in Ew. rewrite Hsys, Hct, Hstats, Hpdp in Ew.
  destruct (p_hc p) as [hc|] eqn:Ehc; [|done]. injection Ew as <- <-.
  destruct (hd_hc _ _ _ _ Hheld hc Ehc) as (sys' & stats' & Hsys' & Hstats' & Hcore & Hrise & Hfall & _).
  rewrite Hsys in Hsys'. injection Hsys' as <-. rewrite Hstats in Hstats'. injection Hstats' as <-.
  unfold datapath_create in Hdpc. injection Hdpc as <-.
  destruct Hbk as (macs & Hml & Hlive & Hlearned). destruct Hsnap as (snap & Ha & Hsv).
  assert (Forall announced (copy_view <$> live (sys_bm sys))) as Hann.
  { apply Forall_fmap, Forall_forall. intros b Hb. rewrite Hlive in Hb.
    apply configured_from_elem in Hb as (j & cb & mac & Hcb' & Hmj & ->). exists j, cb, mac. split; [done|].
    split; [by eapply Hlearned|done]. }
  assert (unprobed (Inv := queued_ok (su_rebuild e)) (λ _, true) (with_bm (λ _, queue sys) (hc_core_of hc))) as Hu.
  { split; cbn [with_bm hc_states hc_bm hc_stats hc_cfg].
    - by rewrite Hcore.
    - apply Forall_forall. intros b Hb. unfold backends_of in Hb. cbn in Hb. rewrite Hlive in Hb.
      by apply configured_from_elem in Hb as (j & cb & mac & _ & _ & ->).
    - by split.
    - rewrite Hcore. intros s [= <-]. apply Hdp.
    - pose proof (cv_hc _ Hc). rewrite Hrise, Hfall. lia. }
  destruct (unprobed_good (Inv := queued_ok (su_rebuild e)) _ _ Hu) as [Hcok Hmon].
  split; [|split; [exact Hrise|]; split; [exact Hfall|]; split; [exact Hann|]].
  - pose proof (cv_ttl _ Hc). split; [exact Hown|]. split; [unfold byte_ok; cbn; lia|]. cbn.
    unfold reaper_buckets_per_tick. apply u64_range.
  - split; cbn [w_hc w_dp]; try done; [|by exists snap]. split; [apply Hsysok|done].
Qed.

Lemma announced_macs views : Forall announced views → Forall (λ v, length (v_mac v) = 6%nat) views.
Proof.
  intros H. apply (Forall_impl _ _ _ H). intros v (j & b & mac & _ & (now & data & _ & Hr) & ->). by eapply arp_reply_mac_length.
Qed.

(** C5. No interleaving of the threads goes wrong: after any run from the
    startup, whatever the health checker, a packet or the timer does next returns
    normally (no access out of bounds, no use of a freed snapshot, no double free);
    and at that point the health of every backend is what its probe results call
    for, and the active-flow gauge of every backend is the number of flows pinned
    to it. *)
Theorem system_never_stuck dcfg w acts w'
    (Hl : launched dcfg w) (He : exec dcfg w acts w') :
  (∀ a, enabled w' a → ∃ w2, act dcfg w' a = Val w2) ∧
  Forall (λ b, b_healthy b = verdict (hc_rise c) (hc_fall c) true (results (b_id b) (reverse (results_of acts))))
    (live (sys_bm (w_sys w'))) ∧
  ∃ m, ct_rep (dp_ct (w_dp w')) m ∧
    ∀ id, 0 ≤ id < sr_max_backends (dp_stats (w_dp w')) →
      ∃ b, stats_registry_snapshot_backend (dp_stats (w_dp w')) id = Val b ∧ active_flows b = Z.of_nat (pinned m id).
Proof.
  destruct (launched_good dcfg w Hl) as (Hcfg & Hrise & Hfall & Hann & Hg). apply announced_macs in Hann.
  destruct (exec_good _ _ _ _ _ Hcfg Hann _ _ _ _ _ _ Hg He) as (m & bm & Hg').
  split; [|split].
  - intros a Ha. destruct (act_good _ _ _ _ _ Hcfg Hann _ _ _ _ _ Hg' Ha) as (w2 & ? & ? & E & _). by exists w2.
  - destruct (g_mon _ _ _ _ _ _ _ _ Hg') as [_ Hh]. rewrite (g_cfg _ _ _ _ _ _ _ _ Hg'), Hrise, Hfall, app_nil_r in Hh. exact Hh.
  - exists m. pose proof (g_dp _ _ _ _ _ _ _ _ Hg') as Hdp. split; [apply Hdp|]. intros id. by apply dp_gauge.
Qed.


(** C12. A drained backend only loses flows: once its draining is installed and
    as long as no command undrains it, no new flow is ever pinned to it, in any
    interleaving, so its active-flow gauge never grows. *)
Theorem drained_backend_only_loses_flows dcfg w acts1 w1 acts2 w2 id
    (Hl : launched dcfg w) (He1 : exec dcfg w acts1 w1) (He2 : exec dcfg w1 acts2 w2)
    (Hmem : ∀ n i, re_ok (su_rebuild e n) i = true) (Hidle : w_pending w1 = false)
    (Hd : draining id (live (sys_bm (w_sys w1)))) (Hno : Forall (no_undrain id) acts2) :
  ∃ m1 m2, ct_rep (dp_ct (w_dp w1)) m1 ∧ ct_rep (dp_ct (w_dp w2)) m2 ∧ no_new_flows id m1 m2 ∧
    (0 ≤ id < sr_max_backends (dp_stats (w_dp w1)) → id < sr_max_backends (dp_stats (w_dp w2)) →
     ∃ b1 b2, stats_registry_snapshot_backend (dp_stats (w_dp w1)) id = Val b1 ∧
       stats_registry_snapshot_backend (dp_stats (w_dp w2)) id = Val b2 ∧ active_flows b2 ≤ active_flows b1).
Proof.
  destruct (launched_good dcfg w Hl) as (Hcfg & _ & _ & Hmacs%announced_macs & Hg).
  destruct (exec_good _ _ _ _ _ Hcfg Hmacs _ _ _ _ _ _ Hg He1) as (m1 & bm1 & Hg1).
  destruct (exec_draining _ _ _ _ _ Hcfg Hmacs id _ _ _ _ _ _ Hg1 He2 Hno) as (h2 & m2 & bm2 & Hg2 & Hn); [|exact Hd|].
  { by rewrite (g_current _ _ _ _ _ _ _ _ Hg1 Hmem Hidle). }
  exists m1, m2. pose proof (g_dp _ _ _ _ _ _ _ _ Hg1) as Hdp1. pose proof (g_dp _ _ _ _ _ _ _ _ Hg2) as Hdp2.
  split; [apply Hdp1|]. split; [apply Hdp2|]. split; [done|]. intros Hid1 Hid2.
  destruct (dp_gauge _ _ id Hdp1 Hid1) as (b1 & Hb1 & E1). destruct (dp_gauge _ _ id Hdp2) as (b2 & Hb2 & E2); [lia|].
  exists b1, b2. do 2 (split; [done|]). rewrite E1, E2. pose proof (no_new_flows_pinned id m1 m2 Hn). lia.
Qed.

(** Memory does not accumulate: after a timer tick, in any run, the active
    snapshot is the only one allocated (provided no snapshot had to be leaked
    because the array of retired ones could not grow). *)
Theorem tick_leaves_one_snapshot dcfg w acts now w'
    (Hl : launched dcfg w) (He : exec dcfg w (acts ++ [Tick now]) w')
    (Hre : ∀ n, re_realloc (su_rebuild e n) = true) :
  ∃ l snap, tg_active (sys_tg (w_sys w')) = Some l ∧ sys_heap (w_sys w') !! l = Some snap ∧
    dom (sys_heap (w_sys w')) = {[l]}.
Proof.
  destruct (launched_good dcfg w Hl) as (Hcfg & _ & _ & Hmacs%announced_macs & Hg).
  destruct (exec_snoc_inv _ _ _ _ _ He) as (w1 & He1 & _ & Ha).
  destruct (exec_good _ _ _ _ _ Hcfg Hmacs _ _ _ _ _ _ Hg He1) as (m1 & bm1 & Hg1).
  destruct (tick_good _ _ _ _ _ Hcfg _ _ _ _ now Hg1) as (w2 & m2 & E & Hg2 & _ & _ & _ & _ & Hown).
  rewrite Ha in E. injection E as <-. destruct (good_sys _ _ _ _ _ _ _ _ Hg2) as (Hok & Henv & _).
  destruct (g_active _ _ _ _ _ _ _ _ Hg2) as (snap & Hact & _). unfold table_generator_get_active, deref in Hact.
  destruct (tg_active (sys_tg (w_sys w'))) as [l|] eqn:El; [|done].
  destruct (sys_heap (w_sys w') !! l) as [snap'|] eqn:Eh; [|done]. exists l, snap'. do 2 (split; [done|]).
  assert (owned (sys_tg (w_sys w')) = [l]) as Ho.
  { rewrite Hown. unfold owned in Hown. rewrite El in Hown. cbn in Hown. by destruct (tg_active (sys_tg (w_sys w1))) as [l1|]; [injection Hown as <- _|]. }
  apply set_eq. intros l'. rewrite elem_of_dom, elem_of_singleton. split; [|intros ->; by eexists].
  intros Hl'. apply (so_leak _ Hok) in Hl'; [|by rewrite Henv]. rewrite Ho in Hl'. by apply list_elem_of_singleton.
Qed.
End FromStartup.

(** ** Witnesses *)

Definition sample_boot : out (proc * bool) :=
  startup (xx := sample_hash) sample_startup_env sample_started {| k_open := {[0; 1; 2]}; k_errno := 0 |}
    (text "eth0") [2; 0; 0; 0; 0; 1].

Definition sample_launch (rx tx : list Z) : option (datapath_config * world) := Eval vm_compute in
  match sample_boot with Val (p, _) => started_system p [2; 0; 0; 0; 0; 1] rx tx | _ => None end.

Definition sample_dcfg : datapath_config :=
  ltac:(let r := eval cbv beta delta [sample_launch] in (sample_launch [] []) in
        match r with Some (?d, _) => exact d end).

Definition sample_world : world :=
  ltac:(let r := eval cbv beta delta [sample_launch] in
          (sample_launch (replicate RX_BUF_LEN 0) (replicate TX_BUF_LEN 0)) in
        match r with Some (_, ?w) => exact w end).

Lemma sample_launched : launched (xx := sample_hash) sample_startup_env sample_started sample_dcfg sample_world.
Proof.
  assert ((if sample_boot is Val (_, true) then true else false) = true) as E by (by vm_compute).
  assert ((if sample_boot is Val (p, _) then started_system p [2; 0; 0; 0; 0; 1] (replicate RX_BUF_LEN 0)
    (replicate TX_BUF_LEN 0) else None) = Some (sample_dcfg, sample_world)) as Ew by (by vm_compute).
  destruct sample_boot as [[p []]| |] eqn:Eb; [|discriminate E..].
  destruct sample_started_valid as [Hv Hn].
  apply (launched_intro _ _ {| k_open := {[0; 1; 2]}; k_errno := 0 |} (text "eth0") [2; 0; 0; 0; 0; 1] p
    [2; 0; 0; 0; 0; 1] (replicate RX_BUF_LEN 0) (replicate TX_BUF_LEN 0)).
  - apply sample_startup_env_ok.
  - exact Hv.
  - exact Hn.
  - clear. apply maglev_is_prime_true; by vm_compute.
  - clear. by vm_compute.
  - reflexivity.
  - exact Eb.
  - exact Ew.
  - reflexivity.
  - apply length_replicate.
  - apply length_replicate.
Qed.

(** Backend 1 fails three probes, its withdrawal is installed, time passes. *)
Definition sample_schedule : list action :=
  [Health (Op_probe 1 false); Tick 5; Health (Op_probe 1 false); Health (Op_probe 1 false); Notify; Tick 7].

Definition sample_after : world :=
  ltac:(let r := eval vm_compute in (run_schedule (xx := sample_hash) sample_dcfg sample_world sample_schedule) in
        match r with Val ?w => exact w end).

Lemma sample_exec : exec (xx := sample_hash) sample_dcfg sample_world sample_schedule sample_after.
Proof. apply run_schedule_exec. by vm_compute. Qed.

Lemma system_never_stuck_witness :
  (∃ w2, act (xx := sample_hash) sample_dcfg sample_after (Tick 9) = Val w2) ∧
  Forall (λ b, b_id b = 1 → b_healthy b = false) (live (sys_bm (w_sys sample_after))).
Proof.
  destruct (system_never_stuck (xx := sample_hash) sample_startup_env sample_started sample_dcfg sample_world
    sample_schedule sample_after sample_launched sample_exec) as (Hen & Hh & _).
  split; [by apply Hen|]. apply (Forall_impl _ _ _ Hh). intros b -> ->. by vm_compute.
Defined.

(** A UDP packet of 10.0.0.9 to the VIP. *)
Definition sample_vip_frame : list Z :=
  [2; 0; 0; 0; 0; 1; 2; 0; 0; 0; 0; 9; 8; 0;
   69; 0; 0; 30; 0; 0; 0; 0; 64; 17; 0; 0; 10; 0; 0; 9; 10; 0; 0; 100;
   156; 64; 0; 80; 0; 10; 0; 0; 104; 105].

Definition sample_packet : packet_env :=
  {| pe_recv := Some sample_vip_frame; pe_now := 8; pe_snap := None; pe_send := λ f, Z.of_nat (length f) |}.


(** Backend 1 has a flow, is drained, then more packets and ticks come. *)
Definition sample_drain : list action :=
  [Packet sample_packet; Health (Op_line (text "DRAIN 1")); Notify].

Definition sample_drained : world :=
  ltac:(let r := eval vm_compute in (run_schedule (xx := sample_hash) sample_dcfg sample_world sample_drain) in
        match r with Val ?w => exact w end).

Definition sample_later : world :=
  ltac:(let r := eval vm_compute in
          (run_schedule (xx := sample_hash) sample_dcfg sample_drained [Packet sample_packet; Tick 9]) in
        match r with Val ?w => exact w end).

Lemma drained_backend_only_loses_flows_witness :
  ∃ b1 b2, stats_registry_snapshot_backend (dp_stats (w_dp sample_drained)) 1 = Val b1 ∧
    stats_registry_snapshot_backend (dp_stats (w_dp sample_later)) 1 = Val b2 ∧ active_flows b2 ≤ active_flows b1.
Proof.
  destruct (drained_backend_only_loses_flows (xx := sample_hash) sample_startup_env sample_started sample_dcfg sample_world
    sample_drain sample_drained [Packet sample_packet; Tick 9] sample_later 1) as (m1 & m2 & _ & _ & _ & H).
  - apply sample_launched.
  - apply run_schedule_exec. by vm_compute.
  - apply run_schedule_exec. by vm_compute.
  - done.
  - reflexivity.
  - assert (Forall (λ b, b_id b = 1 → b_admin_state b = BACKEND_DRAINING) (live (sys_bm (w_sys sample_drained)))) as Hd.
    { apply (bool_decide_unpack _). by vm_compute. }
    intros b Hb. rewrite Forall_forall in Hd. by apply Hd.
  - by repeat constructor.
  - apply H; vm_compute; [split; [discriminate|reflexivity]|reflexivity].
Defined.

Lemma tick_leaves_one_snapshot_witness :
  ∃ l snap, tg_active (sys_tg (w_sys sample_after)) = Some l ∧ sys_heap (w_sys sample_after) !! l = Some snap ∧
    dom (sys_heap (w_sys sample_after)) = {[l]}.
Proof.
  apply (tick_leaves_one_snapshot (xx := sample_hash) sample_startup_env sample_started sample_dcfg sample_world
    (removelast sample_schedule) 7 sample_after).
  - apply sample_launched.
  - apply sample_exec.
  - done.
Defined.
