(* ===== verification/Tui.v ===== *)
(** * The terminal dashboard

    [src/src/ui/tui.c]: a screen drawn from the counters and the backends, and a
    loop that redraws it until the user quits or the datapath has stopped.  The
    terminal is modelled by what is printed where; initialising it is left out. *)

From Stdlib Require Import Lia String.
From stdpp Require Import base numbers list.
From S2P Require Import Prelude Net Hash Text Stats BackendManager TableGenerator Metrics.

Local Open Scope Z_scope.

Definition admin_state_str (s : backend_admin_state) : list Z :=
  match s with
  | BACKEND_ENABLED => text "enabled"
  | BACKEND_DRAINING => text "draining"
  | BACKEND_DISABLED => text "disabled"
  end.

(** What the screen is drawn from. *)
Record tui_view := {
  tv_vip : Z;
  tv_bm : backend_manager;
  tv_tg : table_generator;
  tv_stats : lb_stats;
}.

Inductive attr := Plain | Bold | Healthy_pair | Unhealthy_pair.

(** One [mvprintw(row, 0, ...)]. *)
Record printed := { pr_row : Z; pr_attr : attr; pr_text : list Z }.

(** The rows of the backends, from [row] on. *)
Fixpoint draw_backends (v : tui_view) (row : Z) (bs : list backend) : out (list printed * Z) :=
  match bs with
  | [] => Val ([], row)
  | b :: bs =>
      addr_str ← c_string (ipv4_format (b_addr b) 32);
      addr_port ← c_string (snprintf 40 (addr_str ++ text ":" ++ fmt_u (b_port b))).1;
      s ← stats_registry_snapshot_backend (tv_stats v) (b_id b);
      let line :=
        pad_right 4 (fmt_u (b_id b)) ++ text " " ++ pad_right 21 addr_port ++ text " " ++
        pad_right 9 (if b_healthy b then text "healthy" else text "unhealthy") ++ text " " ++
        pad_right 9 (admin_state_str (b_admin_state b)) ++ text " " ++ pad_left 12 (fmt_u (packets s)) ++
        text " " ++ pad_left 14 (fmt_u (bytes s)) ++ text " " ++ pad_left 8 (fmt_u (active_flows s)) ++
        text " " ++ pad_left 8 (fmt_u (health_check_failures s)) in
      '(rest, last) ← draw_backends v (row + 1) bs;
      Val ({| pr_row := row; pr_attr := if b_healthy b then Healthy_pair else Unhealthy_pair; pr_text := line |} :: rest,
           last)
  end.

Definition draw (v : tui_view) : out (list printed) :=
  vip_str ← c_string (ipv4_format (tv_vip v) 32);
  let title := text "maglev-lb   vip=" ++ vip_str ++ text "   table generation=" ++
    fmt_u (table_generator_generation (tv_tg v)) ++ text "   last regen=" ++
    fmt_u (table_generator_last_regen_us (tv_tg v)) ++ text " us" in
  let snap := stats_registry_snapshot (tv_stats v) in
  let rx := text "rx  " ++ pad_left 12 (fmt_u (rx_packets snap)) ++ text " pkts  " ++
    pad_left 14 (fmt_u (rx_bytes snap)) ++ text " bytes" in
  let tx := text "tx  " ++ pad_left 12 (fmt_u (tx_packets snap)) ++ text " pkts  " ++
    pad_left 14 (fmt_u (tx_bytes snap)) ++ text " bytes" in
  let ct := text "conntrack   hits=" ++ fmt_u (conntrack_hits snap) ++ text "  misses=" ++
    fmt_u (conntrack_misses snap) ++ text "  evictions=" ++ fmt_u (conntrack_evictions snap) in
  let drops := text "drops       parse=" ++ fmt_u (drops_parse_error snap) ++ text "  no_backend=" ++
    fmt_u (drops_no_backend snap) ++ text "  unhealthy=" ++ fmt_u (drops_backend_unhealthy snap) ++
    text "  conntrack_full=" ++ fmt_u (drops_conntrack_full snap) in
  let heading := pad_right 4 (text "ID") ++ text " " ++ pad_right 21 (text "ADDRESS") ++ text " " ++
    pad_right 9 (text "HEALTH") ++ text " " ++ pad_right 9 (text "ADMIN") ++ text " " ++
    pad_left 12 (text "PACKETS") ++ text " " ++ pad_left 14 (text "BYTES") ++ text " " ++
    pad_left 8 (text "FLOWS") ++ text " " ++ pad_left 8 (text "HC-FAIL") in
  backends ← backend_manager_snapshot_all (tv_bm v) BACKEND_MAX;
  '(rows, row) ← draw_backends v 8 backends;
  Val ([{| pr_row := 0; pr_attr := Bold; pr_text := title |};
        {| pr_row := 2; pr_attr := Plain; pr_text := rx |};
        {| pr_row := 3; pr_attr := Plain; pr_text := tx |};
        {| pr_row := 4; pr_attr := Plain; pr_text := ct |};
        {| pr_row := 5; pr_attr := Plain; pr_text := drops |};
        {| pr_row := 7; pr_attr := Bold; pr_text := heading |}] ++ rows ++
       [{| pr_row := row + 1; pr_attr := Plain; pr_text := text "press q to quit" |}]).

(** What [poll], retried while interrupted, reports; [ch] is what [getch] returns
    when standard input is readable. *)
Inductive tui_poll := Tp_error | Tp_timeout | Tp_ready (stdin_in stop_in : bool) (ch : Z).

(** One iteration: the state drawn, the poll, and [datapath_is_running] if it is
    asked at the end. *)
Record tui_iter := { ti_view : tui_view; ti_poll : tui_poll; ti_running : bool }.

Definition quits (ch : Z) : bool := bool_decide (ch = 113) || bool_decide (ch = 81).

(** [have_stop] is [stop_fd >= 0], [have_dp] is [dp != NULL]; the result is the
    sequence of screens. *)
Fixpoint tui_run (have_stop have_dp : bool) (its : list tui_iter) : out (list (list printed)) :=
  match its with
  | [] => NoFuel
  | it :: its =>
      screen ← draw (ti_view it);
      let again := rest ← tui_run have_stop have_dp its; Val (screen :: rest) in
      let fallback := if have_dp && negb (ti_running it) then Val [screen] else again in
      match ti_poll it with
      | Tp_ready stdin_in stop_in ch =>
          if have_stop && stop_in then Val [screen]
          else if stdin_in && quits ch then Val [screen]
          else fallback
      | _ => fallback
      end
  end.

(** ** What is shown, and until when *)

(** The row of a backend with counters [s]. *)
Definition backend_row (b : backend) (s : per_backend_stats) : list Z :=
  pad_right 4 (fmt_u (b_id b)) ++ [32] ++ pad_right 21 (ip_port_text (b_addr b) (b_port b)) ++ [32] ++
  pad_right 9 (if b_healthy b then text "healthy" else text "unhealthy") ++ [32] ++
  pad_right 9 (admin_state_str (b_admin_state b)) ++ [32] ++ pad_left 12 (fmt_u (packets s)) ++ [32] ++
  pad_left 14 (fmt_u (bytes s)) ++ [32] ++ pad_left 8 (fmt_u (active_flows s)) ++ [32] ++
  pad_left 8 (fmt_u (health_check_failures s)).

(** The iteration ends the loop. *)
Definition leaves (have_stop have_dp : bool) (it : tui_iter) : Prop :=
  match ti_poll it with
  | Tp_ready stdin_in stop_in ch =>
      have_stop = true ∧ stop_in = true ∨ stdin_in = true ∧ quits ch = true ∨
      have_dp = true ∧ ti_running it = false
  | _ => have_dp = true ∧ ti_running it = false
  end.

#[export] Instance leaves_dec have_stop have_dp it : Decision (leaves have_stop have_dp it).
Proof. unfold leaves. destruct (ti_poll it); apply _. Defined.

(** The screen shows the backends [bs]: one row each, in order, from row 8 on,
    in the colour of their health; no row is printed twice. *)
Definition shows (v : tui_view) (screen : list printed) : Prop :=
  let bs := live (tv_bm v) in
  NoDup (pr_row <$> screen) ∧
  ∀ i b, bs !! i = Some b → ∃ s, stats_registry_snapshot_backend (tv_stats v) (b_id b) = Val s ∧
    screen !! (6 + i)%nat = Some {| pr_row := 8 + Z.of_nat i;
      pr_attr := if b_healthy b then Healthy_pair else Unhealthy_pair; pr_text := backend_row b s |}.

Definition tui_view_ok (v : tui_view) : Prop := bm_ok (tv_bm v) ∧ stats_live (tv_stats v).

Lemma ipv4_format_32 addr : c_string (ipv4_format addr 32) = Val (dotted_quad addr).
Proof.
  unfold ipv4_format, snprintf. cbn [fst]. pose proof (dotted_quad_length addr). rewrite take_ge by lia. apply c_string_app.
  eapply Forall_impl; [apply dotted_quad_chars|]. simpl. lia.
Qed.

Lemma addr_port_fits addr port :
  c_string (snprintf 40 (dotted_quad addr ++ text ":" ++ fmt_u port)).1 = Val (ip_port_text addr port).
Proof.
  unfold snprintf, ip_port_text. cbn [fst]. change (text ":") with [58].
  pose proof (dotted_quad_length addr). pose proof (fmt_u_max port).
  rewrite take_ge by (rewrite !length_app; cbn [length]; lia). apply c_string_app. rewrite !Forall_app. split_and!.
  - eapply Forall_impl; [apply dotted_quad_chars|]. simpl. lia.
  - by repeat constructor.
  - eapply Forall_impl; [apply fmt_u_digits|]. simpl. lia.
Qed.

Lemma draw_backends_spec v bs : ∀ row,
  stats_live (tv_stats v) → Forall (λ b, 0 ≤ b_id b) bs →
  ∃ rows, draw_backends v row bs = Val (rows, row + Z.of_nat (length bs)) ∧
    pr_row <$> rows = (λ i, row + Z.of_nat i) <$> seq 0 (length bs) ∧
    ∀ i b, bs !! i = Some b → ∃ s, stats_registry_snapshot_backend (tv_stats v) (b_id b) = Val s ∧
      rows !! i = Some {| pr_row := row + Z.of_nat i;
        pr_attr := if b_healthy b then Healthy_pair else Unhealthy_pair; pr_text := backend_row b s |}.
Proof.
  induction bs as [|b bs IH]; intros row Hst Hids; [exists []; cbn; rewrite Z.add_0_r; done|].
  apply Forall_cons in Hids as [Hb Hids]. cbn [draw_backends].
  rewrite ipv4_format_32, bind_Val, addr_port_fits, bind_Val.
  destruct (snapshot_backend_Val (tv_stats v) (b_id b) Hst Hb) as (s & Hs & _). rewrite Hs, bind_Val.
  destruct (IH (row + 1) Hst Hids) as (rows & -> & Hrows & Hlines). rewrite bind_Val.
  eexists. cbn [length]. split; [do 2 f_equal; lia|]. split.
  - cbn [seq]. rewrite !fmap_cons. cbn [pr_row]. rewrite Z.add_0_r, Hrows. f_equal.
    rewrite <- seq_shift. change (map S) with (fmap (M := list) S).
    rewrite <- list_fmap_compose. apply list_fmap_ext. intros ? ? _. unfold compose. lia.
  - intros [|i] b'.
    + intros [= <-]. exists s. split; [done|]. by rewrite Z.add_0_r.
    + intros Hi. destruct (Hlines i b' Hi) as (s' & ? & Hl). exists s'. split; [done|].
      match goal with |- (?x :: ?l) !! S i = _ => change ((x :: l) !! S i) with (l !! i) end.
      rewrite Hl. do 2 f_equal. lia.
Qed.

Lemma draw_shows v : tui_view_ok v → ∃ screen, draw v = Val screen ∧ shows v screen.
Proof.
  intros [Hbm Hst]. unfold draw. rewrite ipv4_format_32, bind_Val. cbv zeta. rewrite snapshot_all_live, bind_Val by done.
  destruct (draw_backends_spec v (live (tv_bm v)) 8 Hst) as (rows & -> & Hrows & Hlines).
  { apply Forall_forall. intros b [i Hi]%elem_of_live. apply (ok_ids _ Hbm) in Hi. lia. }
  rewrite bind_Val. eexists. split; [done|]. split.
  - rewrite !fmap_app, Hrows. cbn [fmap list_fmap pr_row].
    set (n := length (live (tv_bm v))). apply NoDup_app. split; [|split].
    + apply (bool_decide_unpack _). by vm_compute.
    + intros x Hx [Hy|Hy]%elem_of_app.
      * apply list_elem_of_fmap in Hy as (i & -> & _).
        rewrite !elem_of_cons, elem_of_nil in Hx. lia.
      * apply list_elem_of_singleton in Hy as ->. rewrite !elem_of_cons, elem_of_nil in Hx. lia.
    + apply NoDup_app. split; [|split].
      * apply NoDup_fmap_2; [intros i j; lia|apply NoDup_seq].
      * intros x (i & -> & Hi%elem_of_seq)%list_elem_of_fmap Hy%list_elem_of_singleton. lia.
      * apply NoDup_singleton.
  - intros i b Hi. destruct (Hlines i b Hi) as (s & Hs & Hl). exists s. split; [done|].
    match goal with |- (?l ++ rows ++ ?r) !! _ = _ => rewrite (lookup_app_r l) by (cbn [length]; lia) end.
    cbn [length]. replace (6 + i - 6)%nat with i by lia. by apply lookup_app_l_Some.
Qed.

Lemma tui_run_step hs hd it its screen :
  draw (ti_view it) = Val screen →
  tui_run hs hd (it :: its) =
  if decide (leaves hs hd it) then Val [screen] else rest ← tui_run hs hd its; Val (screen :: rest).
Proof.
  intros Hd. cbn [tui_run]. rewrite Hd, bind_Val. cbv zeta.
  destruct (ti_poll it) as [| |stdin_in stop_in ch] eqn:Hp.
  - assert (leaves hs hd it ↔ hd && negb (ti_running it) = true) as Hiff.
    { unfold leaves. rewrite Hp. by rewrite andb_true_iff, negb_true_iff. }
    rewrite (decide_ext _ _ _ _ Hiff). by destruct (hd && _).
  - assert (leaves hs hd it ↔ hd && negb (ti_running it) = true) as Hiff.
    { unfold leaves. rewrite Hp. by rewrite andb_true_iff, negb_true_iff. }
    rewrite (decide_ext _ _ _ _ Hiff). by destruct (hd && _).
  - assert (leaves hs hd it ↔ hs && stop_in || (stdin_in && quits ch || hd && negb (ti_running it)) = true) as Hiff.
    { unfold leaves. rewrite Hp. by rewrite !orb_true_iff, !andb_true_iff, negb_true_iff. }
    rewrite (decide_ext _ _ _ _ Hiff). by destruct (hs && stop_in), (stdin_in && quits ch), (hd && _).
Qed.

Lemma tui_run_returns hs hd its :
  Forall (λ it, tui_view_ok (ti_view it)) its → Exists (leaves hs hd) its → ∃ screens, tui_run hs hd its = Val screens.
Proof.
  induction its as [|it its IH]; intros Hv Hex; [by apply Exists_nil in Hex|].
  apply Forall_cons in Hv as [Hv Hvs]. destruct (draw_shows _ Hv) as (screen & Hd & _).
  rewrite (tui_run_step _ _ _ _ screen) by done. case_decide as Hl; [by eexists|].
  apply Exists_cons in Hex as [|Hex]; [done|]. destruct (IH Hvs Hex) as [screens ->]. by eexists.
Qed.

(** The dashboard returns exactly at the first iteration in which the user
    presses q or Q, the stop descriptor is readable or the datapath is seen not
    running, after drawing one screen per iteration; every screen has one row per
    backend, with its address, health, admin state and counters, none of them
    printed over. *)
Theorem tui_run_exact have_stop have_dp pre it post
    (Hviews : Forall (λ it, tui_view_ok (ti_view it)) (pre ++ [it]))
    (Hpre : Forall (λ it, ¬ leaves have_stop have_dp it) pre) (Hit : leaves have_stop have_dp it) :
  ∃ screens, tui_run have_stop have_dp (pre ++ it :: post) = Val screens ∧
    Forall2 (λ it screen, draw (ti_view it) = Val screen ∧ shows (ti_view it) screen) (pre ++ [it]) screens.
Proof.
  induction Hpre as [|it' pre Hn _ IH]; cbn [app] in *; apply Forall_cons in Hviews as [Hv Hviews].
  - destruct (draw_shows _ Hv) as (screen & Hd & Hs). exists [screen].
    rewrite (tui_run_step _ _ _ _ screen), decide_True by done. split; [done|]. constructor; [done|constructor].
  - destruct (draw_shows _ Hv) as (screen & Hd & Hs). destruct (IH Hviews) as (screens & E & H2).
    exists (screen :: screens). rewrite (tui_run_step _ _ _ _ screen), decide_False, E, bind_Val by done.
    split; [done|]. by constructor.
Qed.

(** ** Witness *)

Definition sample_tui_view : tui_view :=
  {| tv_vip := 1677746954; tv_bm := mv_bm sample_view; tv_tg := mv_tg sample_view; tv_stats := mv_stats sample_view |}.

Lemma tui_run_exact_witness :
  ∃ screens, tui_run true true
      [{| ti_view := sample_tui_view; ti_poll := Tp_timeout; ti_running := true |};
       {| ti_view := sample_tui_view; ti_poll := Tp_ready true false 113; ti_running := true |}] = Val screens ∧
    length screens = 2%nat.
Proof.
  destruct (tui_run_exact true true [{| ti_view := sample_tui_view; ti_poll := Tp_timeout; ti_running := true |}]
    {| ti_view := sample_tui_view; ti_poll := Tp_ready true false 113; ti_running := true |} [])
    as (screens & E & H2).
  - repeat apply Forall_cons_2; [..|by apply Forall_nil]; (split; [apply (vo_bm _ sample_view_ok)|apply (vo_stats _ sample_view_ok)]).
  - apply Forall_singleton. by intros [_ ?].
  - right. by left.
  - exists screens. split; [exact E|]. by apply Forall2_length in H2.
Defined.
