(* ===== verification/Main.v ===== *)
(** * The whole process

    [src/src/main.c]: parsing, startup, running the datapath with or without the
    dashboard, and the cleanup that every path after the first checks goes
    through.

    The health thread runs beside the datapath; its iterations up to the cleanup
    and those after it are given separately ([mn_hc_before], [mn_hc_after]) and
    are executed after the datapath and inside [health_checker_stop].  What the
    datapath thread sees may depend on whether it is sent SIGTERM. *)

From Stdlib Require Import Lia String.
From stdpp Require Import base numbers list gmap.
From S2P Require Import Prelude Net Hash Text Kernel RawSocket Arp Config Getopt Maglev Conntrack ConntrackSpec Stats BackendManager TableGenerator Datapath HealthChecker HealthCheckerSpec DatapathRun Metrics Tui Startup.

Local Open Scope Z_scope.

Record tui_env := {
  tu_thread : bool;              (** [pthread_create] of the datapath thread *)
  tu_eventfd : Z * Z;
  tu_joiner : bool;              (** [pthread_create] of the joiner thread *)
  tu_calloc : bool;
  tu_iters : list tui_iter;
  tu_running_after : bool;       (** [datapath_is_running] once the dashboard is left *)
}.

Record main_env := {
  mn_start : startup_env;
  mn_tui : tui_env;
  mn_run : bool → run_env;       (** the argument: was SIGTERM sent to the datapath *)
  mn_rx : list Z;                (** the datapath's uninitialised buffers *)
  mn_tx : list Z;
  mn_hc_epfd : Z;
  mn_hc_before : list iteration;
  mn_hc_after : list iteration;
  mn_mh_polls : list mh_poll;
  mn_close : option Z;
}.

Section Main.
Context {xx : XXHash} (e : main_env).

(** [eventfd] for the joiner thread. *)
Definition open_stop_fd (k : kernel) : kernel :=
  let '(stop_fd, err) := tu_eventfd (mn_tui e) in
  let k := set_errno err k in
  if decide (stop_fd >= 0) then opened stop_fd k else k.

(** The datapath thread is joined after the dashboard has been left. *)
Definition run_with_tui (k : kernel) (dp : datapath) (st : dp_state) :
    out (kernel * datapath * dp_state * Z) :=
  let te := mn_tui e in
  if negb (tu_thread te) then Val (k, dp, st, 1)
  else
    let k := open_stop_fd k in
    let stop_fd := (tu_eventfd te).1 in
    let have_joiner := bool_decide (stop_fd >= 0) && tu_joiner te in
    _ ← (if tu_calloc te then tui_run have_joiner true (tu_iters te) else Val []);
    '(k, dp, st, rc) ← datapath_run (mn_run e (tu_running_after te)) k dp st;
    k ← close_if_open k stop_fd (mn_close e);
    Val (k, dp, st, rc).

(** The health thread while the counters and the system are those given. *)
Definition with_shared (sys : tg_sys) (stats : lb_stats) (hc : health_checker tg_sys) : health_checker tg_sys :=
  set_core (set_hc_stats (Some stats) (set_hc_bm sys (hc_core_of hc))) hc.

(** The thread is at the top of its loop. *)
Definition at_top : iteration :=
  {| it_stop := true; it_env := λ _, {| pe_socket := -1; pe_connect := λ _, (-1, 0); pe_ctl := 0 |};
     it_now := 0; it_waits := []; it_stop_after := true; it_event := None |}.

Definition health_progress (hc : health_checker tg_sys) : out (health_checker tg_sys) :=
  if negb (hc_running hc) || bool_decide (mn_hc_epfd e < 0) then Val hc
  else '(hc, _) ← thread_loop hc (mn_hc_before e ++ [at_top]) ∅; Val hc.

Definition health_join (hc : health_checker tg_sys) : out (health_checker tg_sys) :=
  '(hc, _) ← thread_main hc (mn_hc_epfd e) (mn_hc_after e); Val hc.

(** [free] of a component that exists. *)
Definition free_if {A} (x : option A) (o : obj) (objs : list obj) : out (list obj) :=
  match x with Some _ => free_obj objs o | None => Val objs end.

(** [health_checker_stop], on the system and the counters as they are then. *)
Definition stop_health (hc : option (health_checker tg_sys)) (sys : option tg_sys) (stats : option lb_stats) :
    out (option (health_checker tg_sys) * option tg_sys) :=
  match hc, sys, stats with
  | Some hc, Some sys, Some stats =>
      hc ← health_checker_stop (with_shared sys stats hc) health_join;
      Val (Some hc, Some (hc_bm (hc_core_of hc)))
  | hc, sys, _ => Val (hc, sys)
  end.

(** The cleanup up to [conntrack_destroy]. *)
Definition cleanup_front (p : proc) : out (kernel * list obj) :=
  k ← datapath_destroy (p_k p) (p_dp p) (mn_close e);
  objs ← free_if (p_dp p) Obj_dp (p_objs p);
  '(k, mh) ← metrics_http_stop k (p_mh p) (join_thread (mn_close e) (mn_mh_polls e));
  k ← metrics_http_destroy k mh (mn_close e);
  objs ← free_if mh Obj_mh objs;
  objs ← free_if (p_stats p) Obj_stats objs;
  objs ← free_if (p_ct p) Obj_ct objs;
  Val (k, objs).

(** By the time the health thread is stopped the counters are gone. *)
Definition cleanup (p : proc) : out (kernel * list obj * snap_heap) :=
  '(k, objs) ← cleanup_front p;
  '(hc, sys) ← stop_health (p_hc p) (p_sys p) (stats_registry_destroy <$> p_stats p);
  k ← health_checker_destroy k hc (mn_close e);
  objs ← free_if hc Obj_hc objs;
  heap ← match sys with Some sys => table_generator_destroy sys | None => Val ∅ end;
  objs ← free_if sys Obj_tg objs;
  objs ← match sys, p_bm p with None, None => Val objs | _, _ => free_obj objs Obj_bm end;
  Val (k, objs, heap).

(** The call of the datapath, and the health thread after it: in this order
    nothing is retired while the datapath runs, so its reclamations free nothing.
    The result is the process at [cleanup] and [run_rc]. *)
Definition run_datapath (cfg : config) (p : proc) : out (proc * Z) :=
  match p_dp p, p_ct p, p_stats p, p_sys p with
  | Some dp, Some ct, Some stats, Some sys =>
      let st := {| dp_ct := ct; dp_stats := stats; dp_rx_buf := mn_rx e; dp_tx_buf := mn_tx e; dp_sent := [] |} in
      '(k, dp, st, rc) ← (if tui_enabled cfg then run_with_tui (p_k p) dp st
                          else datapath_run (mn_run e false) (p_k p) dp st);
      let p := {| p_k := k; p_objs := p_objs p; p_bm := p_bm p; p_sys := Some sys; p_ct := Some (dp_ct st);
                  p_stats := Some (dp_stats st); p_hc := p_hc p; p_mh := p_mh p; p_dp := Some dp |} in
      match p_hc p with
      | None => Val (p, rc)
      | Some hc =>
          hc ← health_progress (with_shared sys (dp_stats st) hc);
          Val ({| p_k := p_k p; p_objs := p_objs p; p_bm := p_bm p; p_sys := Some (hc_bm (hc_core_of hc));
                  p_ct := p_ct p; p_stats := hc_stats (hc_core_of hc); p_hc := Some hc; p_mh := p_mh p;
                  p_dp := p_dp p |}, rc)
      end
  | _, _, _, _ => Undef
  end.

(** The command line from [argv[1]] on; the result is the kernel, what is left
    allocated and the exit status. *)
Definition main (argv : list (list Z)) (k : kernel) : out (kernel * list obj * snap_heap * Z) :=
  '(rc, cfg) ← config_parse_argv argv;
  if decide (rc = 1) then Val (k, [], ∅, 0)
  else if decide (rc ≠ 0) then Val (k, [], ∅, 1)
  else
    prime ← maglev_is_prime (table_size cfg);
    if negb prime then Val (k, [], ∅, 1)
    else if decide (su_sigmask (mn_start e) ≠ 0) then Val (k, [], ∅, 1)
    else
      ifname ← c_string (iface cfg);
      '(k, r, mac) ← raw_socket_get_mac (su_mac (mn_start e)) k ifname;
      if decide (r ≠ 0) then Val (k, [], ∅, 1)
      else
        match mac with
        | None => Undef
        | Some iface_mac =>
            '(p, run) ← startup (mn_start e) cfg k ifname iface_mac;
            '(p, run_rc) ← (if run : bool then run_datapath cfg p else Val (p, 1));
            '(k, objs, heap) ← cleanup p;
            Val (k, objs, heap, if decide (run_rc = 0) then 0 else 1)
        end.
End Main.

(** ** Freeing *)

Lemma free_if_spec {A} (x : option A) o l1 l2 :
  o ∉ l1 → o ∉ l2 → free_if x o (l1 ++ obj_if o x ++ l2) = Val (l1 ++ l2).
Proof.
  intros H1 H2. destruct x as [a|]; [|done]. cbn. unfold free_obj.
  rewrite decide_True by (apply elem_of_app; right; by left). f_equal.
  rewrite filter_app, filter_cons, decide_False by (intros Hoo; by apply Hoo).
  assert (∀ l : list obj, o ∉ l → filter (λ o' : obj, o' ≠ o) l = l) as Hid.
  { induction l as [|y l IH]; intros Hl; [done|]. apply not_elem_of_cons in Hl as [Hy Hl].
    rewrite filter_cons, decide_True by done. by rewrite IH. }
  by rewrite !Hid.
Qed.

Lemma obj_if_other {A} (x : option A) o o' : o ≠ o' → o ∉ obj_if o' x.
Proof. intros Hne. destruct x; cbn; set_solver. Qed.

(** Destroying the generator frees every snapshot that was not leaked. *)
Lemma table_generator_destroy_spec env sys :
  sys_ok_in env sys →
  ∃ h, table_generator_destroy sys = Val h ∧ ((∀ n, re_realloc (env n) = true) → h = ∅).
Proof.
  intros [Hok Henv].
  destruct (free_all_spec (owned (sys_tg sys)) (sys_heap sys) (so_owned _ Hok) (so_alloc _ Hok)) as (h & E & Hh).
  exists h. split.
  - unfold table_generator_destroy. revert E. unfold owned. destruct (tg_active (sys_tg sys)) as [l|]; [|done].
    cbn [app free_all]. done.
  - intros Hre. apply map_empty. intros l. destruct (h !! l) eqn:El; [exfalso|done].
    rewrite Hh in El. case_decide as Hn; [done|]. apply Hn, (so_leak _ Hok); [by rewrite Henv|by eexists].
Qed.

(** ** The cleanup *)

Lemma datapath_destroy_opt open k dp e :
  owns open k (fds_of dp_fds dp) →
  ∃ errno, datapath_destroy k dp e = Val {| k_open := open; k_errno := errno |}.
Proof.
  destruct dp as [dp|]; [apply datapath_destroy_closes|]. intros (_ & _ & Hk). exists (k_errno k).
  destruct k. cbn in *. f_equal. f_equal. rewrite Hk. set_solver.
Qed.

Lemma metrics_http_destroy_opt open k m e :
  owns open k (fds_of mh_fds m) →
  ∃ errno, metrics_http_destroy k m e = Val {| k_open := open; k_errno := errno |}.
Proof.
  destruct m as [m|]; [apply metrics_http_destroy_closes|]. intros (_ & _ & Hk). exists (k_errno k).
  destruct k. cbn in *. f_equal. f_equal. rewrite Hk. set_solver.
Qed.

Lemma health_checker_destroy_opt open k (hc : option (health_checker tg_sys)) e :
  owns open k (fds_of hc_fds hc) →
  ∃ errno, health_checker_destroy k hc e = Val {| k_open := open; k_errno := errno |}.
Proof.
  intros H. destruct (close_all_owned open _ k e H) as [errno E]. exists errno. revert E.
  destruct hc as [hc|]; cbn [fds_of hc_fds close_all health_checker_destroy]; [|done].
  repeat (destruct (close_if_open _ _ _); try done; rewrite ?bind_Val).
Qed.

(** What the cleanup relies on. *)
Record stoppable (env : nat → rebuild_env) (open : fds) (p : proc) : Prop := {
  sp_fds : owns open (p_k p) (p_fds p);
  sp_objs : p_objs p = objs_of p;
  sp_sys sys : p_sys p = Some sys → sys_ok_in env sys;
}.

Section Cleanup.
Context {xx : XXHash} (e : main_env).

(** A health thread that looks at [stop_requested] before it does anything else
    returns without touching the counters. *)
Definition stops_at_once : Prop :=
  match mn_hc_after e with it :: _ => it_stop it = true | [] => False end.

Lemma health_stop_spec sys stats h :
  stops_at_once →
  ∃ h', health_checker_stop (with_shared sys stats h) (health_join e) = Val h' ∧
    hc_fds h' = hc_fds h ∧ hc_bm (hc_core_of h') = sys.
Proof.
  intros Hst. unfold stops_at_once in Hst. unfold health_checker_stop, health_join, thread_main.
  destruct (hc_running _); cbn [negb]; [|by eexists].
  destruct (mn_hc_after e) as [|it its]; [done|]. cbn [thread_loop]. rewrite Hst.
  by case_decide; rewrite !bind_Val; eexists.
Qed.

Lemma stop_health_spec hc sys stats :
  stops_at_once →
  ∃ hc', stop_health e hc sys stats = Val (hc', sys) ∧ fds_of hc_fds hc' = fds_of hc_fds hc ∧
    ∀ o, obj_if o hc' = obj_if o hc.
Proof.
  intros Hst. destruct hc as [h|], sys as [sys|], stats as [stats|]; try (by eexists). cbn [stop_health].
  destruct (health_stop_spec sys stats h Hst) as (h' & -> & Hf & Hb). rewrite bind_Val, Hb.
  by exists (Some h').
Qed.

Lemma metrics_stop_spec open k m :
  owns open k (fds_of mh_fds m) →
  (∀ m', m = Some m' → Forall (poll_ok (k_open k)) (mn_mh_polls e) ∧ Exists wakes (mn_mh_polls e)) →
  ∃ k' m', metrics_http_stop k m (join_thread (mn_close e) (mn_mh_polls e)) = Val (k', m') ∧
    owns open k' (fds_of mh_fds m') ∧ ∀ o, obj_if o m' = obj_if o m.
Proof.
  intros Hown Hp. destruct m as [m|]; cbn [metrics_http_stop]; [|by exists k, None].
  destruct (mh_running m); cbn [negb]; [|by exists k, (Some m)].
  destruct (Hp m eq_refl) as [Hok Hex]. destruct (metrics_thread_spec (mn_close e) (mn_mh_polls e) k Hok Hex) as [errno E].
  unfold join_thread. rewrite E, !bind_Val. eexists _, (Some _). split; [done|].
  split; [by apply (owns_errno open k)|done].
Qed.

(** Freeing in the order of [cleanup] what the variables of [main] hold. *)
Lemma free_sequence (dp : option datapath) (mh : option metrics_http) (hc : option (health_checker tg_sys))
    (stats : option lb_stats) (ct : option conntrack_table) (sys : option tg_sys) l0 :
  l0 = [] ∨ l0 = [Obj_bm] →
  let l1 := obj_if Obj_tg sys ++ l0 in
  let l2 := obj_if Obj_hc hc ++ l1 in
  let l3 := obj_if Obj_hc hc ++ obj_if Obj_ct ct ++ l1 in
  let l4 := obj_if Obj_hc hc ++ obj_if Obj_stats stats ++ obj_if Obj_ct ct ++ l1 in
  let l5 := obj_if Obj_mh mh ++ l4 in
  free_if dp Obj_dp (obj_if Obj_dp dp ++ l5) = Val l5 ∧ free_if mh Obj_mh l5 = Val l4 ∧
  free_if stats Obj_stats l4 = Val l3 ∧ free_if ct Obj_ct l3 = Val l2 ∧ free_if hc Obj_hc l2 = Val l1 ∧
  free_if sys Obj_tg l1 = Val l0.
Proof.
  intros Hl0. cbv zeta.
  assert (∀ o, o ≠ Obj_bm → o ∉ l0) as Hr.
  { intros o Ho. destruct Hl0 as [-> | ->]; [apply not_elem_of_nil|]. by intros ?%list_elem_of_singleton. }
  assert (∀ A (x : option A) o l, o ∉ l → free_if x o (obj_if o x ++ l) = Val l) as Hhead.
  { intros A x o l Hl. apply (free_if_spec x o [] l); [apply not_elem_of_nil|done]. }
  assert (∀ A o o' (x : option A) l, o ≠ o' → o ∉ l → o ∉ obj_if o' x ++ l) as Hskip.
  { intros A o o' x l Hne Hl [Hin|Hin]%elem_of_app; [|done]. by eapply obj_if_other. }
  split_and!; first [apply Hhead | apply free_if_spec; [by apply obj_if_other|]];
    repeat (apply Hskip; [done|]); by apply Hr.
Qed.

Definition bm_obj (p : proc) : list obj := match p_sys p, p_bm p with None, None => [] | _, _ => [Obj_bm] end.

(** The exporter's thread finds sound state and is woken. *)
Definition exporter_ends (open : fds) (p : proc) : Prop :=
  ∀ m, p_mh p = Some m → Exists wakes (mn_mh_polls e) ∧
    Forall (poll_ok (list_to_set (filter (λ fd, 0 ≤ fd) (fds_of mh_fds (p_mh p) ++ fds_of hc_fds (p_hc p))) ∪ open))
      (mn_mh_polls e).

Lemma same_free {A B} (x : option A) (y : option B) o l : obj_if o x = obj_if o y → free_if x o l = free_if y o l.
Proof. destruct x, y; by cbn. Qed.

Lemma bm_obj_cases p : bm_obj p = [] ∨ bm_obj p = [Obj_bm].
Proof. unfold bm_obj. destruct (p_sys p), (p_bm p); auto. Qed.

Lemma cleanup_front_spec env open p :
  stoppable env open p → exporter_ends open p →
  ∃ k, cleanup_front e p = Val (k, obj_if Obj_hc (p_hc p) ++ obj_if Obj_tg (p_sys p) ++ bm_obj p) ∧
    owns open k (fds_of hc_fds (p_hc p)).
Proof.
  intros [Hfds Hobjs Hsys] Hpolls. unfold cleanup_front. unfold p_fds in Hfds.
  destruct (owns_split _ _ _ _ Hfds) as [Hdp Hrest].
  destruct (datapath_destroy_opt _ _ (p_dp p) (mn_close e) Hdp) as [err1 ->]. rewrite bind_Val.
  destruct (free_sequence (p_dp p) (p_mh p) (p_hc p) (p_stats p) (p_ct p) (p_sys p) (bm_obj p) (bm_obj_cases p))
    as (F1 & F2 & F3 & F4 & _).
  rewrite Hobjs. unfold objs_of. fold (bm_obj p). rewrite F1, bind_Val.
  match goal with |- context [metrics_http_stop ?k _ _] => specialize (Hrest k eq_refl) end.
  destruct (owns_split _ _ _ _ Hrest) as [Hmh Hrest2].
  destruct (metrics_stop_spec _ _ (p_mh p) Hmh) as (k2 & mh & -> & Hmh2 & Hobj2).
  { intros m Hm. destruct (Hpolls m Hm). by split. }
  rewrite bind_Val. destruct (metrics_http_destroy_opt _ _ _ (mn_close e) Hmh2) as [err2 ->]. rewrite bind_Val.
  rewrite (same_free mh (p_mh p)), F2, bind_Val by done. rewrite F3, bind_Val, F4, bind_Val.
  eexists. split; [done|]. by apply Hrest2.
Qed.

Lemma cleanup_spec env open p :
  stoppable env open p → stops_at_once → exporter_ends open p →
  ∃ k heap, cleanup e p = Val (k, [], heap) ∧ k_open k = open ∧ ((∀ n, re_realloc (env n) = true) → heap = ∅).
Proof.
  intros Hp Hst Hpolls. unfold cleanup. destruct (cleanup_front_spec _ open p Hp Hpolls) as (k & -> & Hown).
  rewrite bind_Val.
  destruct (free_sequence (p_dp p) (p_mh p) (p_hc p) (p_stats p) (p_ct p) (p_sys p) (bm_obj p) (bm_obj_cases p))
    as (_ & _ & _ & _ & F5 & F6).
  destruct (stop_health_spec (p_hc p) (p_sys p) (stats_registry_destroy <$> p_stats p) Hst) as (hc & -> & Hhf & Hho).
  rewrite bind_Val. rewrite <- Hhf in Hown.
  destruct (health_checker_destroy_opt _ _ hc (mn_close e) Hown) as [err3 ->]. rewrite bind_Val.
  rewrite (same_free hc (p_hc p)), F5, bind_Val by done.
  assert (∃ heap, match p_sys p with Some sys => table_generator_destroy sys | None => Val ∅ end = Val heap ∧
    ((∀ n, re_realloc (env n) = true) → heap = ∅)) as (heap & -> & Hheap).
  { destruct (p_sys p) as [sys|] eqn:Es; [|by eexists]. by apply table_generator_destroy_spec, (sp_sys _ _ _ Hp). }
  rewrite bind_Val, F6, bind_Val. eexists _, heap. unfold bm_obj.
  split; [by destruct (p_sys p), (p_bm p)|]. done.
Qed.

(** A failing probe that is recorded after [stats_registry_destroy]. *)
Lemma record_result_destroyed h0 h (c : hc_core tg_sys) stats id :
  core_ok (Inv := sys_ok) c → monitored h0 h c → id ∈ b_id <$> backends_of c → id < sr_max_backends stats →
  record_result (set_hc_stats (Some (stats_registry_destroy stats)) c) id false = Undef.
Proof.
  intros Hok Hmon Hid Hmax.
  destruct (find_or_create_spec _ _ id _ (co_states _ Hok) (proj1 Hmon) (ids_length _ Hok) Hid)
    as (states & i & st & E & _ & _ & Hu & _).
  unfold record_result. cbn [hc_states set_hc_stats]. rewrite E, bind_Val. cbv beta iota zeta.
  cbn [hc_states set_states]. rewrite (rd_Some _ _ _ (proj1 Hu)), bind_Val. cbn [hc_stats set_states set_hc_stats].
  by rewrite stats_update_after_destroy.
Qed.

Lemma first_probe_destroyed h0 h (hc : health_checker tg_sys) sys stats it its b bs :
  hc_good (Inv := sys_ok) h0 h (with_shared sys stats hc) →
  live (sys_bm sys) = b :: bs → b_id b < sr_max_backends stats → it_stop it = false → pe_socket (it_env it 0) < 0 →
  thread_loop (with_shared sys (stats_registry_destroy stats) hc) (it :: its) ∅ = Undef.
Proof.
  intros (Hok & Hmon & _) Hlive Hmax Hst Hsock. cbn [thread_loop]. rewrite Hst. unfold run_probe_round.
  pose proof (co_inv _ Hok) as Hsys. cbn in Hsys.
  change (get_bm _) with (sys_bm sys). rewrite snapshot_all_live by apply Hsys. rewrite bind_Val, Hlive.
  cbn [connect_all]. unfold start_connect. rewrite decide_True by done. rewrite bind_Val, decide_True by lia.
  change (hc_core_of (with_shared sys (stats_registry_destroy stats) hc)) with
    (set_hc_stats (Some (stats_registry_destroy stats)) (hc_core_of (with_shared sys stats hc))).
  rewrite (record_result_destroyed h0 h _ stats (b_id b) Hok Hmon); [done| |done].
  unfold backends_of. change (get_bm _) with (sys_bm sys). rewrite Hlive. by left.
Qed.

(** C37. The counters are destroyed before the health thread is stopped: if the
    thread is still to run a round by then, and the first probe of that round
    fails, the cleanup writes through the freed counters. *)
Theorem cleanup_counts_into_freed_stats env open p h sys stats h0 hist it its b bs
    (Hp : stoppable env open p) (Hpolls : exporter_ends open p) (Hh : p_hc p = Some h) (Hsys : p_sys p = Some sys)
    (Hstats : p_stats p = Some stats) (Hrun : hc_running h = true)
    (Hg : hc_good (Inv := sys_ok) h0 hist (with_shared sys stats h))
    (Hepfd : 0 ≤ mn_hc_epfd e) (Hits : mn_hc_after e = it :: its) (Hstop : it_stop it = false)
    (Hlive : live (sys_bm sys) = b :: bs) (Hmax : b_id b < sr_max_backends stats) (Hsock : pe_socket (it_env it 0) < 0) :
  cleanup e p = Undef.
Proof.
  unfold cleanup. destruct (cleanup_front_spec _ open p Hp Hpolls) as (k & -> & _). rewrite bind_Val, Hh, Hsys, Hstats.
  cbn [fmap option_fmap option_map stop_health]. unfold health_checker_stop.
  change (hc_running (with_shared _ _ h)) with (hc_running h). rewrite Hrun. cbn [negb].
  unfold health_join, thread_main. rewrite decide_False, Hits by lia.
  change (set_flags true true (with_shared sys (stats_registry_destroy stats) h)) with
    (with_shared sys (stats_registry_destroy stats) (set_flags true true h)).
  rewrite (first_probe_destroyed h0 hist (set_flags true true h) sys stats it its b bs); done.
Qed.
End Cleanup.

(** ** The environment of a whole run *)

Lemma run_env_ok_sub e open open' : open' ⊆ open → run_env_ok e open → run_env_ok e open'.
Proof. intros Hs []. split; [set_solver|set_solver|done|set_solver..]. Qed.

Lemma poll_ok_sub open open' p : open' ⊆ open → poll_ok open p → poll_ok open' p.
Proof. intros Hs. destruct p; cbn; [done..|]. intros []. split; [set_solver|done]. Qed.

Section Whole.
Context {xx : XXHash} (e : main_env).

Definition stop_fd : Z := (tu_eventfd (mn_tui e)).1.

(** Every descriptor handed out is new, the waits of each thread come to an end,
    and what the threads read is sound.  The health thread is at the top of its
    loop when it is told to stop. *)
Record main_env_ok (open : fds) : Prop := {
  mo_mac : (me_socket (su_mac (mn_start e))).1 ∉ open;
  mo_ioctl name : (14 ≤ length (me_ioctl (su_mac (mn_start e)) name).2)%nat;
  mo_start : startup_env_ok (mn_start e) open;
  mo_stop_fd : stop_fd ∉ startup_fds (mn_start e) ∪ open;
  mo_run sent : run_env_ok (mn_run e sent) ({[stop_fd]} ∪ (startup_fds (mn_start e) ∪ open));
  mo_waits sent : Forall epoll_ok (re_waits (mn_run e sent));
  mo_stops sent : Exists (λ w, signalled (re_signalfd (mn_run e sent)).1 w ∨ fatal w) (re_waits (mn_run e sent));
  mo_buffers : length (mn_rx e) = RX_BUF_LEN ∧ length (mn_tx e) = TX_BUF_LEN;
  mo_views : Forall (λ it, tui_view_ok (ti_view it)) (tu_iters (mn_tui e));
  mo_leaves : Exists (leaves (bool_decide (stop_fd >= 0) && tu_joiner (mn_tui e)) true) (tu_iters (mn_tui e));
  mo_hc_before hc : kernel_honest (St := tg_sys) hc (mn_hc_before e ++ [at_top]) ∅;
  mo_hc_after : stops_at_once e;
  mo_polls : Forall (poll_ok (startup_fds (mn_start e) ∪ open)) (mn_mh_polls e);
  mo_wakes : Exists wakes (mn_mh_polls e);
}.

(** What the allocations of the table rebuilds answer. *)
Definition rebuilds : nat → rebuild_env := su_rebuild (mn_start e).

(** A shutdown signal is read by the datapath. *)
Definition by_signal (sent : bool) : Prop :=
  Exists (signalled (re_signalfd (mn_run e sent)).1) (re_waits (mn_run e sent)).

Lemma run_with_tui_spec open k dp st m :
  main_env_ok open → k_open k ⊆ startup_fds (mn_start e) ∪ open → unopened dp → byte_ok (rc_ttl (d_cfg dp)) → dp_ok st m →
  ∃ k' dp' st' rc m', run_with_tui e k dp st = Val (k', dp', st', rc) ∧ dp_ok st' m' ∧ owns (k_open k) k' (dp_fds dp') ∧
    (rc = 0 → ∃ sent, by_signal sent).
Proof.
  intros He Hk Hdp Httl Hst. unfold run_with_tui. destruct (tu_thread (mn_tui e)); cbn [negb].
  2: { exists k, dp, st, 1, m. split; [done|]. split; [done|]. split; [|lia]. apply owns_none.
       destruct Hdp as [-> _]. by repeat constructor. }
  pose proof (mo_stop_fd _ He) as Hfd. pose proof (mo_leaves _ He) as Hl. unfold stop_fd in *.
  pose proof (mo_run _ He (tu_running_after (mn_tui e))) as Hrun. unfold stop_fd in Hrun.
  unfold open_stop_fd. destruct (tu_eventfd (mn_tui e)) as [sfd err]. cbn [fst] in *. cbv zeta.
  assert (∃ screens, (if tu_calloc (mn_tui e) then
    tui_run (bool_decide (sfd >= 0) && tu_joiner (mn_tui e)) true (tu_iters (mn_tui e)) else Val []) = Val screens) as [screens ->].
  { destruct (tu_calloc (mn_tui e)); [|by eexists]. apply tui_run_returns; [apply (mo_views _ He)|done]. }
  rewrite bind_Val. set (k1 := if decide (sfd >= 0) then _ else _).
  assert (k_open k1 ⊆ {[sfd]} ∪ (startup_fds (mn_start e) ∪ open)) as Hk1.
  { unfold k1. case_decide; cbn; set_solver. }
  destruct (datapath_run_spec (mn_run e (tu_running_after (mn_tui e))) k1 dp st m) as (k2 & dp2 & st2 & rc & m2 & -> & _ & Hok2 & Hrc & Hown);
    [by eapply run_env_ok_sub|done|done|done|apply (mo_waits _ He)|apply (mo_stops _ He)|].
  rewrite bind_Val. unfold close_if_open.
  assert (rc = 0 → ∃ sent, by_signal sent) as Hrc' by (intros ->; by destruct Hrc as [[_ Hs]|]; [eexists|]).
  unfold k1 in Hown. case_decide.
  - destruct (owns_close (k_open k) k2 (dp_fds dp2) sfd (mn_close e)) as (k3 & -> & Hown3); [done|set_solver|].
    rewrite bind_Val. by exists k3, dp2, st2, rc, m2.
  - rewrite bind_Val. by exists k2, dp2, st2, rc, m2.
Qed.

(** The health thread before the shutdown. *)
Lemma health_progress_spec hc :
  hc_good (Inv := sys_ok_in rebuilds) (λ _, true) [] hc →
  (∀ h, kernel_honest (St := tg_sys) h (mn_hc_before e ++ [at_top]) ∅) →
  ∃ hc', health_progress e hc = Val hc' ∧ sys_ok_in rebuilds (hc_bm (hc_core_of hc')) ∧ shell hc' = shell hc.
Proof.
  intros Hg Hk. pose proof (proj1 Hg) as Hc. unfold health_progress. destruct (_ || _); [exists hc; split; [done|]; split; [apply Hc|done]|].
  destruct (thread_loop_spec (Inv := sys_ok_in rebuilds) (λ _, true) [] hc (mn_hc_before e ++ [at_top]) ∅ Hg (Hk hc))
    as (hc' & h & E & Hg' & _).
  { apply Exists_app. right. by repeat constructor. }
  rewrite E, bind_Val. exists hc'. split; [done|]. split; [apply Hg'|]. by eapply thread_loop_frame.
Qed.

Lemma configured_from_healthy bs macs : ∀ i, Forall (λ b, b_healthy b = true) (configured_from i bs macs).
Proof. revert macs. induction bs as [|b bs IH]; intros [|mac macs] i; cbn; by constructor. Qed.

(** The health checker as it is when its thread starts. *)
Lemma ready_health_good cfg open ifname p sys ct stats dp h stats' :
  config_valid cfg → held (mn_start e) cfg open p → ready (mn_start e) cfg ifname p sys ct stats dp → p_hc p = Some h →
  stats_live stats' → hc_good (Inv := sys_ok_in rebuilds) (λ _, true) [] (with_shared sys stats' h).
Proof.
  intros Hcfg Hh Hr Hp Hlive. destruct (hd_hc _ _ _ _ Hh h Hp) as (sys1 & stats1 & _ & _ & Hcore & Hrise & Hfall & Hfifo).
  destruct (cv_hc _ Hcfg) as (_ & _ & ? & ?).
  destruct (unprobed_good (Inv := sys_ok_in rebuilds) (λ _, true) (hc_core_of (with_shared sys stats' h))) as [Hok Hmon]; [|by split].
  destruct (rd_backends _ _ _ _ _ _ _ _ Hr) as (macs & _ & Hl & _).
  split; cbn.
  - by rewrite Hcore.
  - unfold backends_of. cbn. rewrite Hl. apply configured_from_healthy.
  - apply (rd_sys_ok _ _ _ _ _ _ _ _ Hr).
  - by intros ? [= <-].
  - by rewrite Hrise, Hfall.
Qed.

(** Once the datapath has stopped, everything can be stopped. *)
Definition stopped (open : fds) (p p' : proc) : Prop :=
  stoppable rebuilds open p' ∧ p_mh p' = p_mh p ∧ fds_of hc_fds (p_hc p') = fds_of hc_fds (p_hc p).

Lemma run_any_spec cfg open k dp st m :
  main_env_ok open → k_open k ⊆ startup_fds (mn_start e) ∪ open → unopened dp → byte_ok (rc_ttl (d_cfg dp)) → dp_ok st m →
  ∃ k' dp' st' rc m',
    (if tui_enabled cfg then run_with_tui e k dp st else datapath_run (mn_run e false) k dp st) = Val (k', dp', st', rc) ∧
    dp_ok st' m' ∧ owns (k_open k) k' (dp_fds dp') ∧ (rc = 0 → ∃ sent, by_signal sent).
Proof.
  intros He Hk Hdp Httl Hst. destruct (tui_enabled cfg); [by eapply run_with_tui_spec|].
  destruct (datapath_run_spec (mn_run e false) k dp st m) as (k' & dp' & st' & rc & m' & E & _ & Hok & Hrc & Hown);
    [|done|done|done|apply (mo_waits _ He)|apply (mo_stops _ He)|].
  { eapply run_env_ok_sub, (mo_run _ He). set_solver. }
  exists k', dp', st', rc, m'. do 3 (split; [done|]). intros ->. destruct Hrc as [[_ Hs]|]; [by eexists|done].
Qed.

Lemma run_datapath_spec cfg open ifname p sys ct stats dp :
  main_env_ok open → config_valid cfg → held (mn_start e) cfg open p → ready (mn_start e) cfg ifname p sys ct stats dp →
  ∃ p' rc, run_datapath e cfg p = Val (p', rc) ∧ stopped open p p' ∧ (rc = 0 → ∃ sent, by_signal sent).
Proof.
  intros He Hcfg Hh Hr. unfold run_datapath.
  rewrite (rd_sys _ _ _ _ _ _ _ _ Hr), (rd_ct _ _ _ _ _ _ _ _ Hr), (rd_stats _ _ _ _ _ _ _ _ Hr), (rd_dp _ _ _ _ _ _ _ _ Hr).
  cbv zeta. destruct (mo_buffers _ He) as [Hrx Htx].
  pose proof (hd_dp _ _ _ _ Hh dp (rd_dp _ _ _ _ _ _ _ _ Hr)) as Hun.
  assert (byte_ok (rc_ttl (d_cfg dp))) as Httl.
  { pose proof (rd_datapath _ _ _ _ _ _ _ _ Hr) as Hd. injection Hd as <-. cbn. pose proof (cv_ttl _ Hcfg). unfold byte_ok. lia. }
  destruct (run_any_spec cfg open (p_k p) dp _ ∅ He (hd_open _ _ _ _ Hh) Hun Httl
    (ready_dp_ok _ _ _ _ _ _ _ _ _ _ Hcfg Hr Hrx Htx)) as (k' & dp' & st' & rc & m' & E & Hok & Hown & Hrc).
  rewrite E, bind_Val. cbn [p_hc p_k p_objs p_bm p_ct p_mh p_dp].
  pose proof (hd_fds _ _ _ _ Hh) as Hfds. unfold p_fds in Hfds. rewrite (rd_dp _ _ _ _ _ _ _ _ Hr) in Hfds.
  cbn [fds_of] in Hfds. rewrite (proj1 Hun) in Hfds.
  assert (owns open k' (dp_fds dp' ++ fds_of mh_fds (p_mh p) ++ fds_of hc_fds (p_hc p))) as Hfds'.
  { by apply (owns_app open (p_k p)). }
  pose proof (hd_objs _ _ _ _ Hh) as Hobjs. unfold objs_of in Hobjs.
  rewrite (rd_sys _ _ _ _ _ _ _ _ Hr), (rd_ct _ _ _ _ _ _ _ _ Hr), (rd_stats _ _ _ _ _ _ _ _ Hr), (rd_dp _ _ _ _ _ _ _ _ Hr) in Hobjs.
  destruct (p_hc p) as [h|] eqn:Hp.
  - pose proof (ready_health_good cfg open ifname p sys ct stats dp h (dp_stats st') Hcfg Hh Hr Hp (dk_stats _ _ Hok)) as Hg.
    destruct (health_progress_spec _ Hg (mo_hc_before _ He)) as (hc & -> & Hsys & Hshell). rewrite bind_Val.
    unfold shell in Hshell. cbn in Hshell. injection Hshell as Hw Hf _ Hs.
    assert (∃ s, hc_stats (hc_core_of hc) = Some s) as [s Hst].
    { unfold has_stats in Hs. destruct (hc_stats (hc_core_of hc)); [by eexists|done]. }
    eexists _, rc. split; [done|]. split; [|done]. split; [|split; [done|cbn; unfold hc_fds; by rewrite Hw, Hf, Hp]].
    split; cbn.
    + unfold p_fds. cbn. unfold hc_fds. by rewrite Hw, Hf.
    + rewrite Hobjs. unfold objs_of. cbn. by rewrite Hst.
    + by intros ? [= <-].
  - eexists _, rc. split; [done|]. split; [|done]. split; [|split; [done|cbn; by rewrite Hp]].
    split; cbn; [done|done|]. intros ? [= <-]. apply (rd_sys_ok _ _ _ _ _ _ _ _ Hr).
Qed.

(** Whichever point [main] got to, the cleanup gives back what it holds. *)
Lemma cleanup_stopped cfg open p p' :
  main_env_ok open → held (mn_start e) cfg open p → stopped open p p' →
  ∃ k heap, cleanup e p' = Val (k, [], heap) ∧ k_open k = open ∧ ((∀ n, re_realloc (rebuilds n) = true) → heap = ∅).
Proof.
  intros He Hh (Hs & Hmh & Hhc). apply cleanup_spec; [done|apply (mo_hc_after _ He)|].
  intros m _. split; [apply (mo_wakes _ He)|]. rewrite Hmh, Hhc. eapply Forall_impl; [apply (mo_polls _ He)|].
  intros q. apply poll_ok_sub. etrans; [|apply (hd_open _ _ _ _ Hh)].
  pose proof (hd_fds _ _ _ _ Hh) as Hf. unfold p_fds in Hf. destruct (owns_split _ _ _ _ Hf) as [(_ & _ & Hk) _].
  rewrite Hk. set_solver.
Qed.

Lemma held_stopped cfg open p : held (mn_start e) cfg open p → stopped open p p.
Proof. intros Hh. split; [|done]. by split; apply Hh. Qed.


(** Quitting the dashboard before the datapath thread has set its running
    flag sends no signal: unless one comes from elsewhere, or [epoll_wait] fails,
    [run_with_tui] then waits for the datapath however long it runs. *)
Theorem early_quit_waits k k1 dp dp1 st m it its ch
    (Hthread : tu_thread (mn_tui e) = true) (Hits : tu_iters (mn_tui e) = it :: its)
    (Hview : tui_view_ok (ti_view it)) (Hq : ti_poll it = Tp_ready true false ch) (Hch : quits ch = true)
    (Hflag : tu_running_after (mn_tui e) = false)
    (Hrun : run_env_ok (mn_run e false) (k_open (open_stop_fd e k))) (Hdp : unopened dp)
    (Httl : byte_ok (rc_ttl (d_cfg dp))) (Hst : dp_ok st m) (Hwaits : Forall epoll_ok (re_waits (mn_run e false)))
    (Hsetup : run_setup (mn_run e false) (open_stop_fd e k) dp = Val (k1, dp1, 0))
    (Hno : Forall (λ w, ¬ signalled (re_signalfd (mn_run e false)).1 w ∧ ¬ fatal w) (re_waits (mn_run e false))) :
  run_with_tui e k dp st = NoFuel.
Proof.
  unfold run_with_tui. rewrite Hthread, Hits, Hflag. cbn [negb]. cbv zeta.
  set (joiner := bool_decide _ && _).
  assert (∃ screens, (if tu_calloc (mn_tui e) then tui_run joiner true (it :: its) else Val []) = Val screens) as [screens ->].
  { destruct (tu_calloc (mn_tui e)); [|by eexists]. destruct (draw_shows _ Hview) as (screen & Hd & _).
    rewrite (tui_run_step _ _ _ _ screen), decide_True by first [done | unfold leaves; rewrite Hq; auto]. by eexists. }
  rewrite bind_Val. by rewrite (datapath_run_waits _ _ k1 dp dp1 st m).
Qed.
End Whole.

(** ** Witnesses *)

(** The user looks at one screen and quits. *)
Definition sample_tui_env (running_after : bool) : tui_env :=
  {| tu_thread := true; tu_eventfd := (7, 0); tu_joiner := true; tu_calloc := true;
     tu_iters := [{| ti_view := sample_tui_view; ti_poll := Tp_ready true false 113; ti_running := true |}];
     tu_running_after := running_after |}.

Definition sample_run_of (waits : list epoll_result) : run_env :=
  {| re_raw := {| rs_socket _ := (8, 0); rs_ifindex _ := (2, 0); rs_bind _ := (0, 0); rs_bindtodevice _ := (0, 0);
                  rs_close := None |};
     re_mac := {| me_socket := (9, 0); me_ioctl := me_ioctl (re_mac sample_run_env); me_close := None |}; re_timer := {| te_create := (9, 0); te_settime _ := (0, 0); te_close := None |};
     re_sigprocmask := (0, 0); re_signalfd := (10, 0);
     re_epoll := {| ee_create := (11, 0); ee_ctl _ := (0, 0) |}; re_waits := waits |}.

(** A packet, then SIGTERM if [sent]; else [epoll_wait] fails. *)
Definition sample_main_env : main_env :=
  {| mn_start := sample_startup_env; mn_tui := sample_tui_env true;
     mn_run sent := sample_run_of [Epoll_ready [sample_fd_event 8 2000];
                                   if sent : bool then Epoll_ready [sample_fd_event 10 2600] else Epoll_error 9];
     mn_rx := replicate RX_BUF_LEN 0; mn_tx := replicate TX_BUF_LEN 0; mn_hc_epfd := 12;
     mn_hc_before := [failing_iteration false; failing_iteration false]; mn_hc_after := [failing_iteration true];
     mn_mh_polls := [Mh_eintr; Mh_ready false true (-1) None sample_view]; mn_close := None |}.

(** [sample_opts] as a command line. *)
Definition sample_argv : list (list Z) := argv_of sample_opts.

Lemma sample_argv_parsed : config_parse_argv sample_argv = Val (0, sample_started).
Proof. unfold config_parse_argv. by rewrite (options_spelled sample_opts sample_argv) by (apply argv_of_spells; by repeat constructor). Qed.

Lemma sample_fd_event_ok fd now : fd_event_ok (xx := sample_hash) (sample_fd_event fd now).
Proof. split; simpl; intros ? [= <-]; [apply sample_udp_frame_ok|apply sample_snap_ok]. Qed.

Lemma sample_tui_view_ok : tui_view_ok sample_tui_view.
Proof. split; [apply (vo_bm _ sample_view_ok)|apply (vo_stats _ sample_view_ok)]. Qed.

Lemma sample_run_of_ok waits open :
  8 ∉ open → 9 ∉ open → 10 ∉ open → 11 ∉ open → run_env_ok (sample_run_of waits) open.
Proof. intros. split; simpl; [done|set_solver|lia|set_solver..]. Qed.

Lemma sample_main_env_ok : main_env_ok (xx := sample_hash) sample_main_env {[0; 1; 2]}.
Proof.
  assert (startup_fds sample_startup_env = {[6; 5; 4; 3]}) as Hfds by done.
  split; cbn [mn_start sample_main_env mn_run mn_tui]; rewrite ?Hfds.
  - set_solver.
  - intros name. simpl. lia.
  - apply sample_startup_env_ok.
  - unfold stop_fd. cbn. set_solver.
  - intros sent. unfold stop_fd. cbn [tu_eventfd sample_tui_env mn_tui sample_main_env fst].
    apply sample_run_of_ok; set_solver.
  - intros sent. apply Forall_cons. split; [apply Forall_singleton, sample_fd_event_ok|]. apply Forall_singleton.
    destruct sent; [apply Forall_singleton, sample_fd_event_ok|done].
  - intros sent. apply Exists_cons_tl, Exists_cons_hd. destruct sent; [left|right; done].
    by exists [], (sample_fd_event 10 2600), [].
  - split; apply length_replicate.
  - apply Forall_singleton, sample_tui_view_ok.
  - apply Exists_cons_hd. right. by left.
  - intros hc. apply failing_honest. repeat apply Forall_cons_2; [by left|by left|by right|by apply Forall_nil].
  - done.
  - repeat apply Forall_cons_2; [done| |by apply Forall_nil]. split; [set_solver|]. split; [done|apply sample_view_ok].
  - by apply Exists_cons_tl, Exists_cons_hd.
Qed.


(** After the datapath: the health thread over two backends still runs. *)
Definition sample_proc : proc :=
  {| p_k := {| k_open := {[0; 1; 2; 5; 6]}; k_errno := 0 |}; p_objs := [Obj_hc; Obj_stats; Obj_ct; Obj_tg; Obj_bm];
     p_bm := None; p_sys := Some sample_sys; p_ct := Some sample_ct; p_stats := Some sample_stats;
     p_hc := Some sample_hc; p_mh := None; p_dp := None |}.

(** Its next round comes before it sees [stop_requested]. *)
Definition sample_race : main_env :=
  {| mn_start := sample_startup_env; mn_tui := sample_tui_env true; mn_run := mn_run sample_main_env;
     mn_rx := []; mn_tx := []; mn_hc_epfd := 12; mn_hc_before := [];
     mn_hc_after := [failing_iteration false; failing_iteration true]; mn_mh_polls := []; mn_close := None |}.

Lemma cleanup_counts_into_freed_stats_witness : cleanup (xx := sample_hash) sample_race sample_proc = Undef.
Proof.
  assert (∃ b bs, live (sys_bm sample_sys) = b :: bs ∧ b_id b = 0) as (b & bs & Hl & Hb).
  { do 2 eexists. split; [vm_compute; reflexivity|done]. }
  apply (cleanup_counts_into_freed_stats (xx := sample_hash) sample_race (sys_env sample_sys) {[0; 1; 2]} sample_proc sample_hc sample_sys
    sample_stats (λ _, true) [] (failing_iteration false) [failing_iteration true] b bs).
  - split; cbn.
    + split_and!; [by apply (bool_decide_unpack _)|set_solver|set_solver].
    + done.
    + intros ? [= <-]. split; [apply sample_sys_ok|done].
  - done.
  - done.
  - done.
  - done.
  - done.
  - exact sample_hc_good.
  - done.
  - done.
  - done.
  - exact Hl.
  - rewrite Hb. done.
  - done.
Defined.

(** q is pressed before the datapath thread is past its setup; packets keep
    arriving. *)
Definition sample_early : main_env :=
  {| mn_start := sample_startup_env; mn_tui := sample_tui_env false;
     mn_run _ := sample_run_of [Epoll_ready [sample_fd_event 8 2000]; Epoll_error EINTR; Epoll_ready [sample_fd_event 8 2100]];
     mn_rx := []; mn_tx := []; mn_hc_epfd := 12; mn_hc_before := []; mn_hc_after := []; mn_mh_polls := [];
     mn_close := None |}.

Lemma early_quit_waits_witness :
  run_with_tui (xx := sample_hash) sample_early {| k_open := {[0; 1; 2]}; k_errno := 0 |} sample_datapath sample_dp = NoFuel.
Proof.
  eapply (early_quit_waits (xx := sample_hash) sample_early {| k_open := {[0; 1; 2]}; k_errno := 0 |} _ sample_datapath _
    sample_dp sample_flows).
  - done.
  - done.
  - apply sample_tui_view_ok.
  - done.
  - done.
  - done.
  - apply sample_run_of_ok; cbn; set_solver.
  - by split_and!.
  - by unfold byte_ok.
  - apply sample_dp_ok.
  - repeat first [by apply Forall_nil | apply Forall_cons_2 | apply sample_fd_event_ok | done].
  - reflexivity.
  - repeat apply Forall_cons_2; [..|by apply Forall_nil]; (split; [|by intros []]); try (by intros []);
      intros (pre & ev & post & Hp & Hfd & _); destruct pre as [|? [|]]; try discriminate; injection Hp as <- _; discriminate.
Defined.
