(* ===== verification/Python.v ===== *)
(** * What the bridge uses of Python

    Exceptions as a sum type with its monad, dictionaries that keep the order of
    insertion ([dict]), and [sorted] on strings.  [dict_set] replaces the value of
    a key in place, as the assignment [d[k] = v] does; a comprehension over pairs
    with equal keys keeps the place of the first and the value of the last. *)

From Stdlib Require Import String.
From stdpp Require Import base list strings sorting sets.

(** ** Exceptions *)

Inductive exn := ActionError | TypeError | KeyError | ValueError | IndexError | RecursionError.

Inductive py (A : Type) : Type :=
| Ok (a : A)
| Raise (e : exn).
Arguments Ok {A} a.
Arguments Raise {A} e.

#[export] Instance py_ret : MRet py := λ A a, Ok a.
#[export] Instance py_bind : MBind py := λ A B f x,
  match x with Ok a => f a | Raise e => Raise e end.
#[export] Instance py_fmap : FMap py := λ A B f x,
  match x with Ok a => Ok (f a) | Raise e => Raise e end.

(** An operand that must not be [None]. *)
Definition not_none {A} (x : option A) : py A :=
  match x with Some a => Ok a | None => Raise TypeError end.

(** ** Dictionaries *)

(** Dictionaries with string keys; the operations are for keys of any type. *)
Definition dict (A : Type) : Type := list (string * A).

Section Dict.
Context {K A : Type} `{EqDecision K}.
Implicit Types (d : list (K * A)) (k : K) (v : A).

Fixpoint dict_get d k : option A :=
  match d with
  | [] => None
  | (k', v) :: d => if decide (k = k') then Some v else dict_get d k
  end.

Fixpoint dict_set d k v : list (K * A) :=
  match d with
  | [] => [(k, v)]
  | (k', v') :: d => if decide (k = k') then (k', v) :: d else (k', v') :: dict_set d k v
  end.

Definition keys d : list K := d.*1.

(** [{k: v for k, v in l}] *)
Definition dict_of (l : list (K * A)) : list (K * A) :=
  foldl (λ d '(k, v), dict_set d k v) [] l.

Lemma dict_get_set d k k' v :
  dict_get (dict_set d k v) k' = if decide (k' = k) then Some v else dict_get d k'.
Proof.
  induction d as [|[a b] d IH]; simpl; [done|].
  repeat case_decide; simplify_eq/=; repeat case_decide; naive_solver.
Qed.

Lemma elem_of_keys_set d k k' v : k' ∈ keys (dict_set d k v) ↔ k' = k ∨ k' ∈ keys d.
Proof.
  induction d as [|[a b] d IH]; simpl; [set_solver|].
  case_decide; simplify_eq/=; unfold keys in *; csimpl; set_solver.
Qed.

Lemma NoDup_keys_set d k v : NoDup (keys d) → NoDup (keys (dict_set d k v)).
Proof.
  induction d as [|[a b] d IH]; simpl; intros Hd.
  - apply NoDup_singleton.
  - apply NoDup_cons in Hd as [Ha Hd]. case_decide as Hk; [by apply NoDup_cons|].
    change (NoDup (a :: keys (dict_set d k v))). constructor; [|auto].
    rewrite elem_of_keys_set. naive_solver.
Qed.

Lemma keys_set_present d k v v' : dict_get d k = Some v' → keys (dict_set d k v) = keys d.
Proof.
  intros Hg. unfold keys. induction d as [|[a b] d IH]; cbn in *; [done|].
  case_decide; simplify_eq/=; f_equal; auto.
Qed.

Lemma dict_set_same d k v : dict_get d k = Some v → dict_set d k v = d.
Proof.
  intros Hg. induction d as [|[a b] d IH]; cbn in *; [done|]. case_decide; simplify_eq/=; f_equal; auto.
Qed.

Lemma dict_get_Some_keys d k v : dict_get d k = Some v → k ∈ keys d.
Proof.
  induction d as [|[a b] d IH]; simpl; [done|]. case_decide; intros; [set_solver|].
  unfold keys in *. csimpl. set_solver.
Qed.

Lemma dict_get_None d k : dict_get d k = None ↔ ¬ k ∈ keys d.
Proof.
  induction d as [|[a b] d IH]; simpl; [set_solver|].
  unfold keys in *. case_decide; csimpl; set_solver.
Qed.

Lemma dict_get_is_Some d k : is_Some (dict_get d k) ↔ k ∈ keys d.
Proof.
  rewrite <- not_eq_None_Some, dict_get_None. split; [|tauto].
  destruct (decide (k ∈ keys d)); tauto.
Qed.

Lemma elem_of_dict d k v : NoDup (keys d) → (k, v) ∈ d ↔ dict_get d k = Some v.
Proof.
  induction d as [|[a b] d IH]; simpl; intros Hd; [set_solver|].
  apply NoDup_cons in Hd as [Ha Hd]. specialize (IH Hd). rewrite elem_of_cons.
  case_decide as Hk; subst.
  - split; [|set_solver]. intros [?|Hin]; [naive_solver|].
    destruct Ha. apply list_elem_of_fmap. by exists (a, v).
  - rewrite IH. naive_solver.
Qed.

Lemma dict_of_snoc l k v : dict_of (l ++ [(k, v)]) = dict_set (dict_of l) k v.
Proof. unfold dict_of. by rewrite foldl_snoc. Qed.

Lemma NoDup_dict_of l : NoDup (keys (dict_of l)).
Proof.
  induction l as [|[k v] l IH] using rev_ind; [constructor|].
  rewrite dict_of_snoc. by apply NoDup_keys_set.
Qed.

Lemma elem_of_dict_of l k : k ∈ keys (dict_of l) ↔ k ∈ l.*1.
Proof.
  induction l as [|[k' v] l IH] using rev_ind; [done|].
  rewrite dict_of_snoc, elem_of_keys_set, fmap_app, elem_of_app, IH. csimpl. set_solver.
Qed.

(** Equal keys in the same order with equal values. *)
Lemma dict_ext d d' : keys d = keys d' → NoDup (keys d) → (∀ k, dict_get d k = dict_get d' k) → d = d'.
Proof.
  revert d'. induction d as [|[k v] d IH]; intros [|[k' v'] d'] Hk Hd Hg; try done.
  unfold keys in *. cbn in *. injection Hk as <- Hk. apply NoDup_cons in Hd as [Hn Hd].
  assert (v = v') as <- by (specialize (Hg k); rewrite !decide_True in Hg by done; congruence).
  f_equal. apply IH; [done|done|]. intros x. specialize (Hg x). case_decide as Hx; [|done]. subst x.
  assert (dict_get d k = None ∧ dict_get d' k = None) as [-> ->]; [|done].
  split; apply dict_get_None; unfold keys; [done|by rewrite <- Hk].
Qed.

(** Distinct keys: the dictionary is the list itself. *)
Lemma dict_set_fresh d k v : ¬ k ∈ keys d → dict_set d k v = d ++ [(k, v)].
Proof.
  induction d as [|[a b] d IH]; simpl; intros Hk; [done|].
  unfold keys in *. csimpl in Hk. case_decide; [set_solver|]. f_equal. set_solver.
Qed.

Lemma dict_of_NoDup l : NoDup l.*1 → dict_of l = l.
Proof.
  induction l as [|[k v] l IH] using rev_ind; [done|].
  rewrite fmap_app, dict_of_snoc. intros (Hl & Hd & _)%NoDup_app.
  rewrite IH by done. apply dict_set_fresh. intros Hin. apply (Hd k Hin). set_solver.
Qed.
End Dict.

(** ** [sorted] *)

Definition str_le (a b : string) : Prop := String.leb a b = true.

#[export] Instance str_le_dec a b : Decision (str_le a b).
Proof. unfold str_le. apply _. Defined.

#[export] Instance str_le_total : Total str_le.
Proof. intros a b. apply String.leb_total. Qed.

Definition sorted (l : list string) : list string := merge_sort str_le l.

Lemma elem_of_sorted l x : x ∈ sorted l ↔ x ∈ l.
Proof. unfold sorted. by rewrite merge_sort_Permutation. Qed.

Lemma NoDup_sorted l : NoDup l → NoDup (sorted l).
Proof. unfold sorted. by rewrite merge_sort_Permutation. Qed.
