(* ===== verification/Schema.v ===== *)
(** * Validation of the bridge's inputs

    src/bridge/schema.py: what the HTTP interface accepts as a desired state
    ([validate_desired]) and as an action ([validate_action]).  The input is a
    parsed JSON value ([json]; the parser is Python's).  A text is the list of its
    code points.  Numbers are dyadic, as integers and doubles are, in lowest terms
    ([num]), so that equal numbers of Python are equal here.  Errors carry the path
    and the kind of the message.  How [sum] rounds differs between versions of
    Python and is a parameter ([PySum]).

    [validate_desired_sound]: an accepted state is what the rest of the bridge
    relies on; [validate_action_exact]: every outcome of the other function. *)

From Stdlib Require Import Lia Ascii String.
From stdpp Require Import base numbers list strings gmap.
From S2P Require Import Prelude Double Text Python.

Local Open Scope Z_scope.

(** ** Numbers and JSON values *)

(** [m * 2^e] with [m] odd, or zero. *)
Abbreviation num := (Z * Z)%type.

Fixpoint odd_part (p : positive) (e : Z) : positive * Z :=
  match p with xO p => odd_part p (e + 1) | _ => (p, e) end.

Definition norm (m e : Z) : num :=
  match m with
  | Z0 => (0, 0)
  | Zpos p => let '(p, e) := odd_part p e in (Zpos p, e)
  | Zneg p => let '(p, e) := odd_part p e in (Zneg p, e)
  end.

Definition int_num (z : Z) : num := norm z 0.

(** [x < z] and [x > z] for an integer [z]. *)
Definition num_lt (x : num) (z : Z) : bool := bool_decide (x.1 * 2 ^ Z.max 0 x.2 < z * 2 ^ Z.max 0 (- x.2)).
Definition num_gt (x : num) (z : Z) : bool := bool_decide (z * 2 ^ Z.max 0 (- x.2) < x.1 * 2 ^ Z.max 0 x.2).

(** [x.is_integer()]; the number is in lowest terms. *)
Definition num_integer (x : num) : bool := bool_decide (0 ≤ x.2).

Inductive pyfloat := Finite (m e : Z) | NotFinite.

#[warnings="-register-all"]
Inductive json :=
| J_null
| J_bool (b : bool)
| J_int (z : Z)
| J_float (f : pyfloat)
| J_str (s : list Z)
| J_list (l : list json)
| J_obj (l : list (list Z * json)).

(** [loads]'s hook: the pairs of one object, in the order of the document. *)
Definition no_dupes {A} (pairs : list (list Z * A)) : py (list (list Z * A)) :=
  foldl (λ d '(k, v), d ← d; if decide (k ∈ keys d) then Raise ValueError else Ok (dict_set d k v)) (Ok []) pairs.

Definition SCHEMA : list Z := text "l4mlb-live/1".
Definition MAX_CLIENTS : nat := 4.
Definition MAX_BACKENDS : nat := 16.
Definition MAX_TOTAL_RPS : Z := 4000.

(** The lower and upper bound, and whether an integer is required. *)
Definition field : Type := Z * Z * bool.

Definition CLIENT_FIELDS : dict field :=
  [("rps", (0, 2000, false)); ("timeoutMs", (50, 10000, false)); ("retries", (0, 5, true));
   ("poolSize", (0, 64, true)); ("maxConnAgeMs", (0, 60000, true))]%string.
Definition BACKEND_FIELDS : dict field :=
  [("capacity", (1, 256, true)); ("serviceMs", (1, 2000, false)); ("serviceCv", (0, 3, false));
   ("queueLimit", (0, 4096, true)); ("errorRate", (0, 1, false))]%string.
Definition CLIENT_DEFAULTS : dict num :=
  [("rps", int_num 50); ("timeoutMs", int_num 1000); ("retries", int_num 1); ("poolSize", int_num 0);
   ("maxConnAgeMs", int_num 0)]%string.
(** [0.6] is the double nearest to 3/5. *)
Definition BACKEND_DEFAULTS : dict num :=
  [("capacity", int_num 8); ("serviceMs", int_num 25); ("serviceCv", norm (double_quot 3 5).1 (double_quot 3 5).2);
   ("queueLimit", int_num 64); ("errorRate", int_num 0)]%string.
Definition ACTIONS : list (list Z) :=
  text <$> ["crash"; "restart"; "slow"; "errors"; "partition"; "clear"; "drain"; "undrain"]%string.

(** ** Errors *)

Inductive segment := S_key (k : list Z) | S_index (i : nat).

Inductive reason :=
| E_number | E_finite | E_integer | E_range | E_object | E_unknown_key | E_id | E_list | E_limit
| E_schema | E_age | E_total | E_unique | E_too_many_edges | E_client_backend | E_edge | E_duplicate
| E_boolean | E_action | E_only_slow | E_only_errors.

Definition err : Type := list segment * reason.

(** A check returns its result and adds to [_Errs.items]. *)
Definition V (A : Type) : Type := (A * list err)%type.

#[export] Instance V_ret : MRet V := λ A a, (a, []).
#[export] Instance V_bind : MBind V := λ A B f x, let '(b, es) := f x.1 in (b, x.2 ++ es).

Definition add (path : list segment) (r : reason) : V () := ((), [(path, r)]).

Definition key (k : string) : segment := S_key (text k).

(** ** The checks *)

Definition _number (path : list segment) (v : json) (f : field) : V (option num) :=
  let '(lo, hi, integer) := f in
  let range (x : num) : V (option num) :=
    if num_lt x lo || num_gt x hi then _ ← add path E_range; mret None else mret (Some x) in
  match v with
  | J_int z => range (int_num z)
  | J_float NotFinite => _ ← add path E_finite; mret None
  | J_float (Finite m e) =>
      let x := norm m e in
      if integer && negb (num_integer x) then _ ← add path E_integer; mret None else range x
  | _ => _ ← add path E_number; mret None
  end.

Fixpoint unknown_keys (path : list segment) (l : list (list Z * json)) (allowed : list (list Z)) : V () :=
  match l with
  | [] => mret ()
  | (k, _) :: l =>
      _ ← (if decide (k ∈ allowed) then mret () else add (path ++ [S_key k]) E_unknown_key);
      unknown_keys path l allowed
  end.

Definition _obj (path : list segment) (v : json) (allowed : list (list Z)) : V (list (list Z * json)) :=
  match v with
  | J_obj l => _ ← unknown_keys path l allowed; mret l
  | _ => _ ← add path E_object; mret []
  end.

(** [d.get(k)] *)
Definition get (d : list (list Z * json)) (k : string) : json := default J_null (dict_get d (text k)).

Definition id_char (c : Z) : bool :=
  isdigit c || bool_decide (65 ≤ c ≤ 90) || bool_decide (97 ≤ c ≤ 122) || bool_decide (c = 95) || bool_decide (c = 45).

Fixpoint span_id (s : list Z) : list Z * list Z :=
  match s with
  | c :: s' => if id_char c then let '(w, r) := span_id s' in (c :: w, r) else ([], s)
  | [] => ([], [])
  end.

(** [ID_RE.match]: [$] matches at the end, and before a newline at the end. *)
Definition id_match (s : list Z) : bool :=
  let '(w, r) := span_id s in
  bool_decide (1 ≤ length w ≤ 64)%nat && bool_decide (r = [] ∨ r = [10]).

Definition _id (path : list segment) (v : json) : V (option (list Z)) :=
  match v with
  | J_str s => if id_match s then mret (Some s) else _ ← add path E_id; mret None
  | _ => _ ← add path E_id; mret None
  end.

Record node := { n_id : list Z; n_cfg : dict num }.

(** The loop over the fields of one node. *)
Fixpoint node_fields (path : list segment) (n : list (list Z * json)) (fields : dict field) (cfg : dict num) : V (dict num) :=
  match fields with
  | [] => mret cfg
  | (k, f) :: fields =>
      cfg ← match dict_get n (text k) with
            | Some v =>
                x ← _number (path ++ [key k]) v f;
                mret (match x with Some x => dict_set cfg k x | None => cfg end)
            | None => mret cfg
            end;
      node_fields path n fields cfg
  end.

Fixpoint nodes_loop (path : list segment) (i : nat) (l : list json) (fields : dict field) (defaults : dict num) : V (list node) :=
  match l with
  | [] => mret []
  | n :: l =>
      let p := path ++ [S_index i] in
      n ← _obj p n (text "id" :: (text <$> keys fields));
      nid ← _id (p ++ [key "id"]) (get n "id");
      cfg ← node_fields p n fields defaults;
      out ← nodes_loop path (S i) l fields defaults;
      mret (match nid with Some nid => {| n_id := nid; n_cfg := cfg |} :: out | None => out end)
  end.

Definition _node_list (path : list segment) (v : json) (fields : dict field) (defaults : dict num) (limit : nat) : V (list node) :=
  match v with
  | J_list l =>
      _ ← (if decide (limit < length l)%nat then add path E_limit else mret ());
      nodes_loop path 0 (take limit l) fields defaults
  | _ => _ ← add path E_list; mret []
  end.

(** ** The desired state *)

(** [sum(l) > bound] *)
Class PySum := { sum_exceeds : list num → Z → bool }.

Record client_out := { co_node : node; co_connected : bool }.
Record backend_out := { bo_node : node; bo_attached : bool }.
Record desired_out := {
  do_lb : option (list Z); do_clients : list client_out; do_backends : list backend_out; do_loadEnabled : bool;
}.

Section Validate.
Context {sums : PySum}.

Definition cfg_get (n : node) (k : string) : num := default (0, 0) (dict_get (n_cfg n) k).

Fixpoint check_ages (i : nat) (cs : list node) : V () :=
  match cs with
  | [] => mret ()
  | c :: cs =>
      let age := cfg_get c "maxConnAgeMs" in
      _ ← (if decide (age ≠ (0, 0) ∧ num_lt age 1000 = true)
           then add [key "nodes"; key "clients"; S_index i; key "maxConnAgeMs"] E_age else mret ());
      check_ages (S i) cs
  end.

Definition edge : Type := list Z * list Z.

(** The loop over the edges; [lb] may be [None]. *)
Fixpoint check_edges (lb : option (list Z)) (clients backends : list (list Z)) (i : nat) (l : list json) : V (list edge) :=
  match l with
  | [] => mret []
  | x :: l =>
      let p := [key "edges"; S_index i] in
      x ← _obj p x [text "from"; text "to"];
      a ← _id (p ++ [key "from"]) (get x "from");
      b ← _id (p ++ [key "to"]) (get x "to");
      e ← match a, b with
          | Some a, Some b =>
              if decide ((a ∈ clients ∧ Some b = lb) ∨ (Some a = lb ∧ b ∈ backends)) then mret [(a, b)]
              else if decide (a ∈ clients ∧ b ∈ backends) then _ ← add p E_client_backend; mret []
              else _ ← add p E_edge; mret []
          | _, _ => mret []
          end;
      rest ← check_edges lb clients backends (S i) l;
      mret (e ++ rest)
  end.

Definition when (b : bool) (path : list segment) (r : reason) : V () := if b then add path r else mret ().

Definition all_ids (lb : option (list Z)) (clients backends : list node) : list (list Z) :=
  (match lb with Some x => [x] | None => [] end) ++ (n_id <$> clients) ++ (n_id <$> backends).

(** The edges of the document: a list of at most twenty. *)
Definition edges_in (doc : list (list Z * json)) : V (list json) :=
  match default (J_list []) (dict_get doc (text "edges")) with
  | J_list l =>
      if decide (MAX_CLIENTS + MAX_BACKENDS < length l)%nat then _ ← add [key "edges"] E_too_many_edges; mret []
      else mret l
  | _ => _ ← add [key "edges"] E_list; mret []
  end.

Definition load_enabled (doc : list (list Z * json)) : V bool :=
  load ← _obj [key "load"] (default (J_obj [(text "enabled", J_bool false)]) (dict_get doc (text "load"))) [text "enabled"];
  match default (J_bool false) (dict_get load (text "enabled")) with
  | J_bool b => mret b
  | _ => _ ← add [key "load"; key "enabled"] E_boolean; mret false
  end.

(** Everything up to [errs.raise_if_any()]. *)
Definition check_desired (doc : json) : V desired_out :=
  doc ← _obj [] doc (text <$> ["schema"; "nodes"; "edges"; "load"]%string);
  _ ← when (match get doc "schema" with J_str s => negb (bool_decide (s = SCHEMA)) | _ => true end) [key "schema"] E_schema;
  nodes ← _obj [key "nodes"] (get doc "nodes") (text <$> ["lb"; "clients"; "backends"]%string);
  lb ← _id [key "nodes"; key "lb"] (get nodes "lb");
  clients ← _node_list [key "nodes"; key "clients"] (default (J_list []) (dict_get nodes (text "clients")))
              CLIENT_FIELDS CLIENT_DEFAULTS MAX_CLIENTS;
  backends ← _node_list [key "nodes"; key "backends"] (default (J_list []) (dict_get nodes (text "backends")))
              BACKEND_FIELDS BACKEND_DEFAULTS MAX_BACKENDS;
  _ ← check_ages 0 clients;
  _ ← when (sum_exceeds ((λ c, cfg_get c "rps") <$> clients) MAX_TOTAL_RPS) [key "nodes"; key "clients"] E_total;
  _ ← when (negb (bool_decide (NoDup (all_ids lb clients backends)))) [key "nodes"] E_unique;
  l ← edges_in doc;
  edges ← check_edges lb (n_id <$> clients) (n_id <$> backends) 0 l;
  _ ← when (negb (bool_decide (NoDup edges))) [key "edges"] E_duplicate;
  enabled ← load_enabled doc;
  mret {| do_lb := lb;
          do_clients := (λ c, {| co_node := c; co_connected := bool_decide (n_id c ∈ (filter (λ e, Some e.2 = lb) edges).*1) |}) <$> clients;
          do_backends := (λ b, {| bo_node := b; bo_attached := bool_decide (n_id b ∈ (filter (λ e, Some e.1 = lb) edges).*2) |}) <$> backends;
          do_loadEnabled := enabled |}.

(** [ValidationError(errors)], or the normalized state. *)
Definition validate_desired (doc : json) : list err + desired_out :=
  let '(d, es) := check_desired doc in
  match es with [] => inr d | _ => inl es end.
End Validate.

(** ** Actions *)

Record action_out := { ao_action : json; ao_target : option (list Z); ao_factor : option (option num); ao_rate : option (option num) }.

(** [x in ACTIONS]: a list or an object cannot be looked up in a set. *)
Definition in_actions (x : json) : py bool :=
  match x with
  | J_list _ | J_obj _ => Raise TypeError
  | J_str s => Ok (bool_decide (s ∈ ACTIONS))
  | _ => Ok false
  end.

Definition is_text (x : json) (s : string) : bool :=
  match x with J_str y => bool_decide (y = text s) | _ => false end.

Definition check_action (doc : json) : py (V action_out) :=
  let d := _obj [] doc (text <$> ["action"; "target"; "factor"; "rate"]%string) in
  let action := get d.1 "action" in
  known ← in_actions action;
  Ok (d ← d;
      _ ← (if (known : bool) then mret () else add [key "action"] E_action);
      target ← _id [key "target"] (get d "target");
      factor ← (if is_text action "slow" then
                  x ← _number [key "factor"] (default (J_int 4) (dict_get d (text "factor"))) (1, 50, false); mret (Some x)
                else match dict_get d (text "factor") with
                     | Some _ => _ ← add [key "factor"] E_only_slow; mret None
                     | None => mret None
                     end);
      rate ← (if is_text action "errors" then
                x ← _number [key "rate"] (default (J_float (Finite (double_quot 3 10).1 (double_quot 3 10).2)) (dict_get d (text "rate")))
                      (0, 1, false); mret (Some x)
              else match dict_get d (text "rate") with
                   | Some _ => _ ← add [key "rate"] E_only_errors; mret None
                   | None => mret None
                   end);
      mret {| ao_action := action; ao_target := target; ao_factor := factor; ao_rate := rate |}).

Definition validate_action (doc : json) : py (list err + action_out) :=
  '(a, es) ← check_action doc;
  Ok (match es with [] => inr a | _ => inl es end).

(** ** What is accepted *)

(** An object is accepted as it is written, or has a key twice. *)
Lemma no_dupes_exact {A} (pairs : list (list Z * A)) :
  no_dupes pairs = if decide (NoDup (keys pairs)) then Ok pairs else Raise ValueError.
Proof.
  unfold no_dupes. induction pairs as [|[k v] pairs IH] using rev_ind; [by rewrite decide_True by constructor|].
  rewrite foldl_app, IH. unfold keys in *. rewrite fmap_app. cbn [foldl fmap list_fmap fst].
  destruct (decide (NoDup pairs.*1)) as [Hd|Hd].
  - change (Ok ?l ≫= ?f) with (f l). cbv beta. destruct (decide (k ∈ pairs.*1)) as [Hk|Hk].
    + rewrite decide_False; [done|]. rewrite NoDup_app. set_solver.
    + rewrite dict_set_fresh by done. rewrite decide_True; [done|]. apply NoDup_app. split_and!; [done|set_solver|apply NoDup_singleton].
  - rewrite decide_False; [done|]. rewrite NoDup_app. tauto.
Qed.

Lemma V_bind_inv {A B} (m : V A) (f : A → V B) b :
  (m ≫= f) = (b, []) ↔ ∃ a, m = (a, []) ∧ f a = (b, []).
Proof.
  unfold mbind, V_bind. destruct m as [a es]. cbn. destruct (f a) as [b' es'] eqn:E. split.
  - intros [= -> [-> ->]%app_eq_nil]. by exists a.
  - intros (a' & [= <- ->] & E'). rewrite E in E'. by injection E' as -> ->.
Qed.

Definition in_field (f : field) (x : num) : Prop :=
  num_lt x f.1.1 = false ∧ num_gt x f.1.2 = false ∧ (f.2 = true → num_integer x = true).

Lemma odd_part_exp p e : e ≤ (odd_part p e).2.
Proof. revert e. induction p as [p IH|p IH|]; intros e; cbn; [lia| |lia]. specialize (IH (e + 1)). lia. Qed.

Lemma int_num_integer z : num_integer (int_num z) = true.
Proof.
  unfold num_integer, int_num, norm. apply bool_decide_eq_true. destruct z as [|p|p]; cbn; [lia|..];
    pose proof (odd_part_exp p 0); destruct (odd_part p 0); cbn in *; lia.
Qed.

Lemma number_ok path v f x : _number path v f = (x, []) → ∃ y, x = Some y ∧ in_field f y.
Proof.
  destruct f as [[lo hi] integer]. unfold _number, in_field. cbn [fst snd]. intros E.
  assert (∀ y, (integer = true → num_integer y = true) →
    (if num_lt y lo || num_gt y hi then _ ← add path E_range; mret None else mret (Some y)) = (x, []) →
    ∃ y, x = Some y ∧ num_lt y lo = false ∧ num_gt y hi = false ∧ (integer = true → num_integer y = true)) as Hrange.
  { intros y Hi. destruct (num_lt y lo) eqn:E1, (num_gt y hi) eqn:E2; cbn; try done.
    intros [= <-]. by exists y. }
  destruct v as [| |z|[m e|]| | |]; try done.
  - apply (Hrange _ (λ _, int_num_integer z) E).
  - destruct integer; [destruct (num_integer (norm m e)) eqn:Hi; [|done]|]; eapply Hrange; try exact E; done.
Qed.

Lemma id_ok path v x : _id path v = (x, []) → ∃ s, v = J_str s ∧ x = Some s ∧ id_match s = true.
Proof.
  unfold _id. destruct v as [| | | |s| |]; try done. destruct (id_match s) eqn:E; [|done].
  intros [= <-]. by exists s.
Qed.

(** Every field has a value in its range. *)
Definition cfg_ok (fields : dict field) (cfg : dict num) : Prop :=
  ∀ k f, dict_get fields k = Some f → ∃ x, dict_get cfg k = Some x ∧ in_field f x.

Lemma node_fields_ok path n fields cfg cfg' all :
  (∀ k f, (k, f) ∈ fields → dict_get all k = Some f) → cfg_ok all cfg →
  node_fields path n fields cfg = (cfg', []) → cfg_ok all cfg'.
Proof.
  revert cfg. induction fields as [|[k f] fields IH]; intros cfg Hsub Hcfg; cbn [node_fields].
  { by intros [= <-]. }
  intros E. apply V_bind_inv in E as (cfg1 & E1 & E). eapply IH; [set_solver| |exact E].
  destruct (dict_get n (text k)) as [v|]; [|by injection E1 as <-].
  apply V_bind_inv in E1 as (x & (y & -> & Hy)%number_ok & E1). injection E1 as <-.
  intros k' f' Hk'. rewrite dict_get_set. case_decide as Hk; [|by apply Hcfg]. subst k'.
  rewrite (Hsub k f) in Hk' by set_solver. injection Hk' as <-. by exists y.
Qed.

Definition node_ok (fields : dict field) (n : node) : Prop :=
  id_match (n_id n) = true ∧ cfg_ok fields (n_cfg n).

Lemma nodes_loop_ok path fields defaults l : ∀ i out,
  NoDup (keys fields) → cfg_ok fields defaults →
  nodes_loop path i l fields defaults = (out, []) →
  length out = length l ∧ Forall (node_ok fields) out.
Proof.
  induction l as [|n l IH]; intros i out Hd Hdef; cbn [nodes_loop].
  { by intros [= <-]. }
  intros E. apply V_bind_inv in E as (o & _ & E). apply V_bind_inv in E as (nid & (s & _ & -> & Hs)%id_ok & E).
  apply V_bind_inv in E as (cfg & Ecfg & E). apply V_bind_inv in E as (out' & Eout & E).
  injection E as <-. destruct (IH _ _ Hd Hdef Eout) as [Hlen Hall]. cbn. split; [by f_equal|].
  constructor; [|done]. split; [done|]. eapply (node_fields_ok _ _ fields defaults cfg fields); [|done|exact Ecfg].
  intros k f Hin. by apply elem_of_dict.
Qed.

Lemma node_list_ok path v fields defaults limit out :
  NoDup (keys fields) → cfg_ok fields defaults →
  _node_list path v fields defaults limit = (out, []) →
  (length out ≤ limit)%nat ∧ Forall (node_ok fields) out.
Proof.
  intros Hd Hdef. unfold _node_list. destruct v as [| | | | |l|]; try done.
  intros E. apply V_bind_inv in E as (u & Hu & E). case_decide; [done|].
  apply nodes_loop_ok in E as [Hlen Hall]; [|done|done]. split; [|done]. rewrite Hlen, length_take. lia.
Qed.

Lemma when_inv b path r u : when b path r = (u, []) → b = false.
Proof. by destruct b. Qed.

Section Sound.
Context {sums : PySum}.

Definition age_ok (c : node) : Prop :=
  cfg_get c "maxConnAgeMs" = (0, 0) ∨ num_lt (cfg_get c "maxConnAgeMs") 1000 = false.

Lemma check_ages_ok cs : ∀ i u, check_ages i cs = (u, []) → Forall age_ok cs.
Proof.
  induction cs as [|c cs IH]; intros i u; cbn [check_ages]; [by constructor|].
  intros E. apply V_bind_inv in E as (v & Hv & E). constructor; [|by eapply IH].
  unfold age_ok. case_decide as Hc; [done|]. destruct (decide (cfg_get c "maxConnAgeMs" = (0, 0))); [by left|right].
  apply not_true_is_false. tauto.
Qed.

(** An edge of the document. *)
Definition edge_of (x : json) : option edge :=
  match x with
  | J_obj l => match get l "from", get l "to" with J_str a, J_str b => Some (a, b) | _, _ => None end
  | _ => None
  end.

Definition edge_ok (lb : option (list Z)) (clients backends : list (list Z)) (e : edge) : Prop :=
  (e.1 ∈ clients ∧ Some e.2 = lb) ∨ (Some e.1 = lb ∧ e.2 ∈ backends).

Lemma check_edges_ok lb clients backends l : ∀ i es,
  check_edges lb clients backends i l = (es, []) →
  edge_of <$> l = Some <$> es ∧ Forall (edge_ok lb clients backends) es.
Proof.
  induction l as [|x l IH]; intros i es; cbn [check_edges]; [by intros [= <-]|].
  intros E. apply V_bind_inv in E as (o & Ho & E). apply V_bind_inv in E as (a & (sa & Ha & -> & _)%id_ok & E).
  apply V_bind_inv in E as (b & (sb & Hb & -> & _)%id_ok & E). apply V_bind_inv in E as (e & He & E).
  apply V_bind_inv in E as (rest & Hrest & E). injection E as <-.
  destruct (IH _ _ Hrest) as [IH1 IH2].
  assert (edge_of x = Some (sa, sb)) as Hx.
  { unfold _obj in Ho. destruct x as [| | | | | |k]; try done. apply V_bind_inv in Ho as (u & _ & Ho).
    injection Ho as <-. cbn. by rewrite Ha, Hb. }
  case_decide as Hc; [|by case_decide]. injection He as <-. split.
  - rewrite fmap_cons, Hx, IH1. done.
  - by constructor.
Qed.

(** An accepted desired state. *)
Record desired_ok (d : desired_out) : Prop := {
  ok_lb : ∃ lb, do_lb d = Some lb ∧ id_match lb = true;
  ok_clients : (length (do_clients d) ≤ MAX_CLIENTS)%nat ∧ Forall (node_ok CLIENT_FIELDS) (co_node <$> do_clients d);
  ok_backends : (length (do_backends d) ≤ MAX_BACKENDS)%nat ∧ Forall (node_ok BACKEND_FIELDS) (bo_node <$> do_backends d);
  ok_unique : NoDup (all_ids (do_lb d) (co_node <$> do_clients d) (bo_node <$> do_backends d));
  ok_ages : Forall age_ok (co_node <$> do_clients d);
  ok_total : sum_exceeds ((λ c, cfg_get c "rps") <$> (co_node <$> do_clients d)) MAX_TOTAL_RPS = false;
}.

Lemma fields_NoDup : NoDup (keys CLIENT_FIELDS) ∧ NoDup (keys BACKEND_FIELDS).
Proof. split; by apply (bool_decide_unpack _); vm_compute. Qed.

Lemma defaults_ok : cfg_ok CLIENT_FIELDS CLIENT_DEFAULTS ∧ cfg_ok BACKEND_FIELDS BACKEND_DEFAULTS.
Proof.
  split; intros k f Hk; apply elem_of_dict in Hk; try (apply (bool_decide_unpack _); by vm_compute);
    repeat (apply elem_of_cons in Hk as [[= -> ->]|Hk]; [eexists; split; [reflexivity|by vm_compute]|]);
    by apply not_elem_of_nil in Hk.
Qed.

Lemma validate_desired_spec doc d :
  validate_desired doc = inr d →
  desired_ok d ∧
  ∃ o l es, doc = J_obj o ∧ default (J_list []) (dict_get o (text "edges")) = J_list l ∧
    edge_of <$> l = Some <$> es ∧ NoDup es ∧
    Forall (λ c, co_connected c = true ↔ ∃ lb, do_lb d = Some lb ∧ (n_id (co_node c), lb) ∈ es) (do_clients d) ∧
    Forall (λ b, bo_attached b = true ↔ ∃ lb, do_lb d = Some lb ∧ (lb, n_id (bo_node b)) ∈ es) (do_backends d).
Proof.
  unfold validate_desired. destruct (check_desired doc) as [d' es] eqn:E. destruct es; [|done]. intros [= ->].
  unfold check_desired in E.
  apply V_bind_inv in E as (o & Eo & E). apply V_bind_inv in E as (u1 & _ & E).
  apply V_bind_inv in E as (nodes & _ & E). apply V_bind_inv in E as (lb & (s & _ & -> & Hs)%id_ok & E).
  apply V_bind_inv in E as (cs & Ecs & E). apply V_bind_inv in E as (bs & Ebs & E).
  apply V_bind_inv in E as (u2 & Hages%check_ages_ok & E). apply V_bind_inv in E as (u3 & Hsum%when_inv & E).
  apply V_bind_inv in E as (u4 & Huniq%when_inv & E). apply V_bind_inv in E as (l & El & E).
  apply V_bind_inv in E as (es & [Hes1 Hes2]%check_edges_ok & E). apply V_bind_inv in E as (u5 & Hdup%when_inv & E).
  apply V_bind_inv in E as (en & _ & E). injection E as <-. cbn [do_lb do_clients do_backends].
  rewrite negb_false_iff, bool_decide_eq_true in Huniq, Hdup.
  destruct (node_list_ok _ _ _ _ _ _ (proj1 fields_NoDup) (proj1 defaults_ok) Ecs) as [Hcl Hcs].
  destruct (node_list_ok _ _ _ _ _ _ (proj2 fields_NoDup) (proj2 defaults_ok) Ebs) as [Hbl Hbs].
  split.
  - split; cbn [do_lb do_clients do_backends]; rewrite <- ?list_fmap_compose, ?length_fmap;
      unfold compose; cbn [co_node bo_node]; rewrite ?list_fmap_id; try done. by exists s.
  - unfold _obj in Eo. destruct doc as [| | | | | |o']; try done. apply V_bind_inv in Eo as (u & _ & Eo).
    injection Eo as <-. exists o', l, es. split_and!; [done| |done|done| |].
    + unfold edges_in in El. destruct (default (J_list []) (dict_get o' (text "edges"))) as [| | | | |l'|]; try done.
      destruct (decide (MAX_CLIENTS + MAX_BACKENDS < length l')%nat); [done|]. by injection El as <-.
    + rewrite Forall_fmap. apply Forall_true. intros c. unfold compose. cbn [co_connected co_node].
      rewrite bool_decide_eq_true, list_elem_of_fmap. setoid_rewrite list_elem_of_filter. split.
      * intros ([a b] & Ha & Hb & Hin). cbn in *. injection Hb as ->. subst. eauto.
      * intros (lb & [= <-] & Hin). by exists (n_id c, s).
    + rewrite Forall_fmap. apply Forall_true. intros c. unfold compose. cbn [bo_attached bo_node].
      rewrite bool_decide_eq_true, list_elem_of_fmap. setoid_rewrite list_elem_of_filter. split.
      * intros ([a b] & Ha & Hb & Hin). cbn in *. injection Hb as ->. subst. eauto.
      * intros (lb & [= <-] & Hin). by exists (s, n_id c).
Qed.

(** C27. What [validate_desired] returns can be relied on: one load balancer, at
    most 4 clients and 16 backends, all with distinct ids that match the pattern,
    every setting present and within its bounds (integers where required), the
    connection age zero or at least a second, the total rate within the limit.  A
    client counts as connected, a backend as attached, exactly if the document has
    the edge. *)
Theorem validate_desired_sound doc d :
  validate_desired doc = inr d →
  desired_ok d ∧
  ∃ o l es, doc = J_obj o ∧ default (J_list []) (dict_get o (text "edges")) = J_list l ∧
    edge_of <$> l = Some <$> es ∧ NoDup es ∧
    Forall (λ c, co_connected c = true ↔ ∃ lb, do_lb d = Some lb ∧ (n_id (co_node c), lb) ∈ es) (do_clients d) ∧
    Forall (λ b, bo_attached b = true ↔ ∃ lb, do_lb d = Some lb ∧ (lb, n_id (bo_node b)) ∈ es) (do_backends d).
Proof. apply validate_desired_spec. Qed.
End Sound.

Definition unhashable (x : json) : bool := match x with J_list _ | J_obj _ => true | _ => false end.

(** A known action on a valid target, with its parameter where it has one. *)
Definition action_ok (a : action_out) : Prop :=
  (∃ s, ao_action a = J_str s ∧ s ∈ ACTIONS) ∧
  (∃ t, ao_target a = Some t ∧ id_match t = true) ∧
  (if is_text (ao_action a) "slow" then ∃ x, ao_factor a = Some (Some x) ∧ in_field (1, 50, false) x
   else ao_factor a = None) ∧
  (if is_text (ao_action a) "errors" then ∃ x, ao_rate a = Some (Some x) ∧ in_field (0, 1, false) x
   else ao_rate a = None).

Lemma validate_action_spec doc :
  match validate_action doc with
  | Ok (inr a) => action_ok a
  | Ok (inl es) => es ≠ []
  | Raise x => x = TypeError ∧ ∃ o, doc = J_obj o ∧ unhashable (get o "action") = true
  end ∧
  ∀ o, doc = J_obj o → unhashable (get o "action") = true → validate_action doc = Raise TypeError.
Proof.
  assert (∀ d, (_obj [] doc (text <$> ["action"; "target"; "factor"; "rate"]%string)).1 = d →
    (doc = J_obj d ∨ d = [])) as Hd.
  { intros d <-. unfold _obj. destruct doc; try (by right). by left. }
  unfold validate_action, check_action.
  set (d0 := _obj [] doc (text <$> ["action"; "target"; "factor"; "rate"]%string)) in *. cbv zeta. split.
  - destruct (in_actions (get d0.1 "action")) as [known|x] eqn:Hin.
    + change (Ok known ≫= ?f) with (f known). cbv beta. unfold mbind at 1, py_bind at 1.
      destruct (d0 ≫= _) as [a es] eqn:E. destruct es; [|done].
      apply V_bind_inv in E as (d & Ed & E). rewrite Ed in *. cbn [fst] in *.
      apply V_bind_inv in E as (u & Hknown & E). apply V_bind_inv in E as (tg & (s & _ & -> & Hs)%id_ok & E).
      apply V_bind_inv in E as (fa & Hfa & E). apply V_bind_inv in E as (ra & Hra & E). injection E as <-.
      assert (∃ s, get d "action" = J_str s ∧ s ∈ ACTIONS) as (act & Hact & Hmem).
      { destruct known; [|done]. unfold in_actions in Hin. destruct (get d "action") as [| | | |act| |]; try done.
        injection Hin as Hin. apply bool_decide_eq_true in Hin. eauto. }
      unfold action_ok. cbn [ao_action ao_target ao_factor ao_rate].
      split_and!; [eauto|eauto| |].
      * destruct (is_text (get d "action") "slow").
        -- apply V_bind_inv in Hfa as (x & (y & -> & Hy)%number_ok & Hfa). injection Hfa as <-. eauto.
        -- destruct (dict_get d (text "factor")); [done|]. by injection Hfa as <-.
      * destruct (is_text (get d "action") "errors").
        -- apply V_bind_inv in Hra as (x & (y & -> & Hy)%number_ok & Hra). injection Hra as <-. eauto.
        -- destruct (dict_get d (text "rate")); [done|]. by injection Hra as <-.
    + cbn. unfold in_actions in Hin. destruct (get d0.1 "action") eqn:Ha; simplify_eq; split; try done.
      all: destruct (Hd _ eq_refl) as [Hdoc|He]; [|by rewrite He in Ha]; exists d0.1; split; [exact Hdoc|by rewrite Ha].
  - intros o -> Hu. change (d0.1) with o. destruct (get o "action"); done.
Qed.

(** [validate_action] returns a well-formed action, or errors.  The exception
    is an action that is a list or an object: testing it against the set of known
    actions raises [TypeError], which the HTTP handler does not catch. *)
Theorem validate_action_exact doc :
  match validate_action doc with
  | Ok (inr a) => action_ok a
  | Ok (inl es) => es ≠ []
  | Raise x => x = TypeError ∧ ∃ o, doc = J_obj o ∧ unhashable (get o "action") = true
  end ∧
  ∀ o, doc = J_obj o → unhashable (get o "action") = true → validate_action doc = Raise TypeError.
Proof. apply validate_action_spec. Qed.


(** ** Printing and validating *)

Definition print_num (x : num) : json := J_float (Finite x.1 x.2).

Definition print_node (n : node) : json :=
  J_obj ((text "id", J_str (n_id n)) :: ((λ '(k, x), (text k, print_num x)) <$> n_cfg n)).

Definition print_edge (e : edge) : json := J_obj [(text "from", J_str e.1); (text "to", J_str e.2)].

(** The edges of the canvas. *)
Definition canvas_edges (lb : list Z) (d : desired_out) : list edge :=
  ((λ c, (n_id (co_node c), lb)) <$> filter (λ c, co_connected c = true) (do_clients d)) ++
  ((λ b, (lb, n_id (bo_node b))) <$> filter (λ b, bo_attached b = true) (do_backends d)).

Definition print_desired (lb : list Z) (d : desired_out) : json :=
  J_obj [(text "schema", J_str SCHEMA);
         (text "nodes", J_obj [(text "lb", J_str lb);
                               (text "clients", J_list (print_node ∘ co_node <$> do_clients d));
                               (text "backends", J_list (print_node ∘ bo_node <$> do_backends d))]);
         (text "edges", J_list (print_edge <$> canvas_edges lb d));
         (text "load", J_obj [(text "enabled", J_bool (do_loadEnabled d))])].

(** A node as the validator would return it: its settings in the order of the
    fields, the numbers in lowest terms. *)
Definition canonical (fields : dict field) (n : node) : Prop :=
  keys (n_cfg n) = keys fields ∧ Forall (λ p : string * num, norm p.2.1 p.2.2 = p.2) (n_cfg n).

Lemma text_inj s s' : text s = text s' → s = s'.
Proof.
  revert s'. induction s as [|c s IH]; intros [|c' s']; cbn; try done. intros [= Hc Hs].
  f_equal; [|auto]. apply N2Z.inj in Hc. by rewrite <- (ascii_N_embedding c), <- (ascii_N_embedding c'), Hc.
Qed.

Lemma unknown_keys_none path l allowed : Forall (λ p, p.1 ∈ allowed) l → unknown_keys path l allowed = ((), []).
Proof.
  induction 1 as [|[k v] l Hk _ IH]; [done|]. cbn [unknown_keys]. rewrite decide_True by done.
  apply V_bind_inv. by exists ().
Qed.

Lemma obj_ok path l allowed : Forall (λ p, p.1 ∈ allowed) l → _obj path (J_obj l) allowed = (l, []).
Proof. intros Hl. cbn. apply V_bind_inv. exists (). split; [by apply unknown_keys_none|done]. Qed.

Lemma number_print path x f : in_field f x → norm x.1 x.2 = x → _number path (print_num x) f = (Some x, []).
Proof.
  destruct f as [[lo hi] integer]. intros (Hlo & Hhi & Hint) Hn. cbn in *. rewrite Hn, Hlo, Hhi.
  destruct integer; [|done]. by rewrite Hint.
Qed.

Lemma id_print path s : id_match s = true → _id path (J_str s) = (Some s, []).
Proof. intros Hs. cbn. by rewrite Hs. Qed.

Lemma get_settings cfg k :
  dict_get ((λ '(k, x), (text k, print_num x)) <$> cfg) (text k) = print_num <$> dict_get cfg k.
Proof.
  induction cfg as [|[k' x] cfg IH]; [done|]. rewrite fmap_cons. cbn [dict_get].
  destruct (decide (k = k')) as [->|Hk]; [by rewrite decide_True|]. by rewrite decide_False by (by intros ?%text_inj).
Qed.

Definition update_all (vals : dict num) (fields : dict field) (cfg : dict num) : dict num :=
  foldl (λ c '(k, _), match dict_get vals k with Some x => dict_set c k x | None => c end) cfg fields.

Lemma node_fields_print path n fields cfg vals :
  (∀ k f, (k, f) ∈ fields → ∃ x, dict_get vals k = Some x ∧ in_field f x ∧ norm x.1 x.2 = x ∧
     dict_get n (text k) = Some (print_num x)) →
  node_fields path n fields cfg = (update_all vals fields cfg, []).
Proof.
  revert cfg. induction fields as [|[k f] fields IH]; intros cfg H; [done|]. cbn [node_fields update_all foldl].
  destruct (H k f) as (x & Hx & Hf & Hn & Hg); [left|]. rewrite Hg, Hx. apply V_bind_inv. exists (dict_set cfg k x).
  split.
  - apply V_bind_inv. exists (Some x). split; [by apply number_print|done].
  - apply IH. intros k' f' Hin. apply H. by right.
Qed.

Lemma update_all_keys vals fields cfg :
  (∀ k, k ∈ keys fields → k ∈ keys cfg) → keys (update_all vals fields cfg) = keys cfg.
Proof.
  unfold update_all. revert cfg. induction fields as [|[k f] fields IH]; intros cfg H; [done|]. cbn [foldl].
  assert (k ∈ keys cfg) as [v Hv]%dict_get_is_Some by (apply H; left).
  assert (∀ k', k' ∈ keys fields → k' ∈ keys cfg) as H' by (intros k' Hk'; apply H; by right).
  destruct (dict_get vals k) as [x|]; [|by apply IH].
  rewrite IH; rewrite ?(keys_set_present cfg k x v) by done; done.
Qed.

Lemma update_all_get vals fields cfg k x :
  k ∈ keys fields → dict_get vals k = Some x → dict_get (update_all vals fields cfg) k = Some x.
Proof.
  intros Hk Hx. unfold update_all.
  assert (∀ (l : dict field) c, dict_get c k = Some x → dict_get (foldl (λ c '(k, _),
    match dict_get vals k with Some x => dict_set c k x | None => c end) c l) k = Some x) as Hkeep.
  { induction l as [|[k' f'] l IH]; intros c Hc; [done|]. cbn [foldl]. apply IH.
    destruct (dict_get vals k') as [x'|] eqn:Hx'; [|done]. rewrite dict_get_set. case_decide; congruence. }
  revert cfg. induction fields as [|[k' f'] fields IH]; intros cfg; [by apply not_elem_of_nil in Hk|]. cbn [foldl].
  unfold keys in Hk. rewrite fmap_cons in Hk. apply elem_of_cons in Hk as [Hk|Hk]; [|by apply IH].
  cbn in Hk. subst k'. apply Hkeep. rewrite Hx, dict_get_set. by rewrite decide_True.
Qed.

Lemma nodes_loop_print path fields defaults ns : ∀ i,
  NoDup (keys fields) → keys defaults = keys fields → ¬ "id"%string ∈ keys fields →
  Forall (node_ok fields) ns → Forall (canonical fields) ns →
  nodes_loop path i (print_node <$> ns) fields defaults = (ns, []).
Proof.
  induction ns as [|n ns IH]; intros i Hd Hdef Hid Hok Hcan; [done|].
  apply Forall_cons in Hok as [[Hidn Hcfg] Hok]. apply Forall_cons in Hcan as [[Hkeys Hnorm] Hcan].
  rewrite fmap_cons. cbn [nodes_loop].
  set (l := (text "id", J_str (n_id n)) :: ((λ '(k, x), (text k, print_num x)) <$> n_cfg n)).
  assert (∀ k, k ∈ keys fields → dict_get l (text k) = print_num <$> dict_get (n_cfg n) k) as Hget.
  { intros k Hk. subst l. cbn [dict_get]. rewrite decide_False by (intros ->%text_inj; done). apply get_settings. }
  apply V_bind_inv. exists l. split.
  { apply obj_ok. subst l. constructor; [by left|]. rewrite Forall_fmap. apply Forall_forall.
    intros [k x] Hin. right. cbn. apply list_elem_of_fmap. exists k. split; [done|]. rewrite <- Hkeys.
    apply list_elem_of_fmap. by exists (k, x). }
  apply V_bind_inv. exists (Some (n_id n)). split; [by apply id_print|].
  apply V_bind_inv. exists (n_cfg n). split.
  - rewrite (node_fields_print _ _ _ _ (n_cfg n)).
    + f_equal. apply dict_ext.
      * rewrite update_all_keys by (by rewrite Hdef). congruence.
      * rewrite update_all_keys by (by rewrite Hdef). by rewrite Hdef.
      * intros k. destruct (decide (k ∈ keys fields)) as [Hk|Hk].
        -- assert (k ∈ keys (n_cfg n)) as [x Hx]%dict_get_is_Some by congruence.
           rewrite Hx. by apply update_all_get.
        -- assert (dict_get (n_cfg n) k = None) as -> by (apply dict_get_None; congruence).
           apply dict_get_None. rewrite update_all_keys by (by rewrite Hdef). congruence.
    + intros k f Hin. apply elem_of_dict in Hin; [|done]. destruct (Hcfg k f Hin) as (x & Hx & Hf).
      exists x. split_and!; [done|done| |].
      * rewrite Forall_forall in Hnorm. apply (Hnorm (k, x)). apply elem_of_dict; [|done]. by rewrite Hkeys.
      * rewrite Hget, Hx; [done|]. by eapply dict_get_Some_keys.
  - apply V_bind_inv. exists ns. split; [by apply IH|]. by destruct n.
Qed.

Lemma check_edges_print lb clients backends es : ∀ i,
  Forall (edge_ok lb clients backends) es → Forall (λ e, id_match e.1 = true ∧ id_match e.2 = true) es →
  check_edges lb clients backends i (print_edge <$> es) = (es, []).
Proof.
  induction es as [|[a b] es IH]; intros i Hok Hid; [done|].
  apply Forall_cons in Hok as [He Hok]. apply Forall_cons in Hid as [[Ha Hb] Hid].
  rewrite fmap_cons. cbn [check_edges]. apply V_bind_inv. eexists. split; [apply obj_ok; repeat constructor; set_solver|].
  apply V_bind_inv. exists (Some a). split; [by apply id_print|]. apply V_bind_inv. exists (Some b). split; [by apply id_print|].
  apply V_bind_inv. exists [(a, b)]. split; [by rewrite decide_True|].
  apply V_bind_inv. exists es. split; [by apply IH|done].
Qed.

Section Roundtrip.
Context {sums : PySum}.

Lemma check_ages_print cs : ∀ i, Forall age_ok cs → check_ages i cs = ((), []).
Proof.
  induction cs as [|c cs IH]; intros i Hc; [done|]. apply Forall_cons in Hc as [Ha Hc]. cbn [check_ages].
  apply V_bind_inv. exists (). split; [|by apply IH]. rewrite decide_False; [done|].
  destruct Ha as [->|Ha]; [naive_solver|]. rewrite Ha. naive_solver.
Qed.

Lemma when_false b path r : b = false → when b path r = ((), []).
Proof. by intros ->. Qed.

Lemma NoDup_fmap_eq {A B} (f : A → B) l x y : NoDup (f <$> l) → x ∈ l → y ∈ l → f x = f y → x = y.
Proof.
  induction l as [|z l IH]; intros Hd Hx Hy E; [by apply not_elem_of_nil in Hx|].
  rewrite fmap_cons in Hd. apply NoDup_cons in Hd as [Hz Hd]. apply elem_of_cons in Hx as [->|Hx], Hy as [->|Hy]; try done.
  - destruct Hz. rewrite E. by apply list_elem_of_fmap_2.
  - destruct Hz. rewrite <- E. by apply list_elem_of_fmap_2.
  - auto.
Qed.

Lemma bool_decide_ext_b P `{Decision P} b : (P ↔ b = true) → bool_decide P = b.
Proof. intros E. destruct b; [by apply bool_decide_eq_true, E|]. apply bool_decide_eq_false. by rewrite E. Qed.

Section Edges.
Context (lb : list Z) (d : desired_out).
Context (Hids : NoDup (all_ids (Some lb) (co_node <$> do_clients d) (bo_node <$> do_backends d))).

Lemma ids_apart :
  ¬ lb ∈ n_id ∘ co_node <$> do_clients d ∧ ¬ lb ∈ n_id ∘ bo_node <$> do_backends d ∧
  NoDup (n_id ∘ co_node <$> do_clients d) ∧ NoDup (n_id ∘ bo_node <$> do_backends d).
Proof using Hids.
  unfold all_ids in Hids. rewrite <- !list_fmap_compose in Hids. apply NoDup_cons in Hids as [Hlb Hd].
  rewrite elem_of_app in Hlb. apply NoDup_app in Hd as (Hc & _ & Hb). tauto.
Qed.

Lemma connected_edge c : c ∈ do_clients d → (n_id (co_node c), lb) ∈ canvas_edges lb d ↔ co_connected c = true.
Proof using Hids.
  destruct ids_apart as (Hlc & Hlb & Hc & Hb). intros Hin. unfold canvas_edges.
  rewrite elem_of_app, !list_elem_of_fmap. split.
  - intros [(c' & [= Hid] & [Hcon Hc']%list_elem_of_filter)|(b & [= Hid _] & _)].
    + by rewrite (NoDup_fmap_eq _ _ c c' Hc Hin Hc' Hid).
    + destruct Hlc. rewrite <- Hid. apply (list_elem_of_fmap_2 (n_id ∘ co_node) _ c Hin).
  - intros Hcon. left. exists c. split; [done|]. by apply list_elem_of_filter.
Qed.

Lemma attached_edge b : b ∈ do_backends d → (lb, n_id (bo_node b)) ∈ canvas_edges lb d ↔ bo_attached b = true.
Proof using Hids.
  destruct ids_apart as (Hlc & Hlb & Hc & Hb). intros Hin. unfold canvas_edges.
  rewrite elem_of_app, !list_elem_of_fmap. split.
  - intros [(c & [= _ Hid] & _)|(b' & [= Hid] & [Hatt Hb']%list_elem_of_filter)].
    + destruct Hlb. rewrite <- Hid. apply (list_elem_of_fmap_2 (n_id ∘ bo_node) _ b Hin).
    + by rewrite (NoDup_fmap_eq _ _ b b' Hb Hin Hb' Hid).
  - intros Hatt. right. exists b. split; [done|]. by apply list_elem_of_filter.
Qed.

Lemma canvas_clients :
  (λ c, {| co_node := c; co_connected := bool_decide (n_id c ∈ (filter (λ e, Some e.2 = Some lb) (canvas_edges lb d)).*1) |}) <$>
    (co_node <$> do_clients d) = do_clients d.
Proof using Hids.
  rewrite <- list_fmap_compose. rewrite <- list_fmap_id. apply list_fmap_ext. intros i c Hc%list_elem_of_lookup_2.
  pose proof (connected_edge c Hc) as E. destruct c as [n con]. cbn in *. f_equal.
  apply bool_decide_ext_b. rewrite <- E, list_elem_of_fmap. setoid_rewrite list_elem_of_filter. split.
  - intros ([a b] & -> & [= ->] & Hin). exact Hin.
  - intros Hin. by exists (n_id n, lb).
Qed.

Lemma canvas_backends :
  (λ b, {| bo_node := b; bo_attached := bool_decide (n_id b ∈ (filter (λ e, Some e.1 = Some lb) (canvas_edges lb d)).*2) |}) <$>
    (bo_node <$> do_backends d) = do_backends d.
Proof using Hids.
  rewrite <- list_fmap_compose. rewrite <- list_fmap_id. apply list_fmap_ext. intros i b Hb%list_elem_of_lookup_2.
  pose proof (attached_edge b Hb) as E. destruct b as [n att]. cbn in *. f_equal.
  apply bool_decide_ext_b. rewrite <- E, list_elem_of_fmap. setoid_rewrite list_elem_of_filter. split.
  - intros ([x y] & -> & [= ->] & Hin). exact Hin.
  - intros Hin. by exists (lb, n_id n).
Qed.

Lemma canvas_edges_NoDup : NoDup (canvas_edges lb d).
Proof using Hids.
  destruct ids_apart as (Hlc & Hlb & Hc & Hb). unfold canvas_edges. apply NoDup_app. split_and!.
  - apply NoDup_fmap_2_strong.
    + intros x y [_ Hx]%list_elem_of_filter [_ Hy]%list_elem_of_filter [= E]. by apply (NoDup_fmap_eq _ _ x y Hc).
    + apply NoDup_filter. by apply NoDup_fmap_1 in Hc.
  - intros e (c & -> & [_ Hx]%list_elem_of_filter)%list_elem_of_fmap (b & [= E _] & _)%list_elem_of_fmap.
    destruct Hlc. rewrite <- E. apply (list_elem_of_fmap_2 (n_id ∘ co_node) _ c Hx).
  - apply NoDup_fmap_2_strong.
    + intros x y [_ Hx]%list_elem_of_filter [_ Hy]%list_elem_of_filter [= E]. by apply (NoDup_fmap_eq _ _ x y Hb).
    + apply NoDup_filter. by apply NoDup_fmap_1 in Hb.
Qed.

Lemma canvas_edges_ok :
  Forall (edge_ok (Some lb) (n_id <$> (co_node <$> do_clients d)) (n_id <$> (bo_node <$> do_backends d))) (canvas_edges lb d).
Proof.
  unfold canvas_edges. apply Forall_app; split; rewrite Forall_fmap; apply Forall_forall; intros x [_ Hx]%list_elem_of_filter.
  - left. cbn. split; [|done]. rewrite <- list_fmap_compose. apply (list_elem_of_fmap_2 (n_id ∘ co_node) _ x Hx).
  - right. cbn. split; [done|]. rewrite <- list_fmap_compose. apply (list_elem_of_fmap_2 (n_id ∘ bo_node) _ x Hx).
Qed.

Lemma canvas_edges_length : (length (canvas_edges lb d) ≤ length (do_clients d) + length (do_backends d))%nat.
Proof.
  unfold canvas_edges. rewrite length_app, !length_fmap. apply Nat.add_le_mono; apply length_filter.
Qed.
End Edges.

Lemma node_list_print path fields defaults limit ns :
  NoDup (keys fields) → keys defaults = keys fields → ¬ "id"%string ∈ keys fields →
  (length ns ≤ limit)%nat → Forall (node_ok fields) ns → Forall (canonical fields) ns →
  _node_list path (J_list (print_node <$> ns)) fields defaults limit = (ns, []).
Proof.
  intros Hd Hk Hid Hlen Hok Hcan. cbn [_node_list]. apply V_bind_inv. exists ().
  rewrite length_fmap, decide_False by lia. split; [done|]. rewrite take_ge by (rewrite length_fmap; lia).
  by apply nodes_loop_print.
Qed.

Lemma canvas_edges_ids lb d : id_match lb = true →
  Forall (node_ok CLIENT_FIELDS) (co_node <$> do_clients d) → Forall (node_ok BACKEND_FIELDS) (bo_node <$> do_backends d) →
  Forall (λ e, id_match e.1 = true ∧ id_match e.2 = true) (canvas_edges lb d).
Proof.
  intros Hlb Hc Hb. rewrite Forall_fmap, Forall_forall in Hc. rewrite Forall_fmap, Forall_forall in Hb. unfold canvas_edges.
  apply Forall_app; split; rewrite Forall_fmap; apply Forall_forall; intros x [_ Hx]%list_elem_of_filter.
  - destruct (Hc x Hx) as [Hid _]. by split.
  - destruct (Hb x Hx) as [Hid _]. by split.
Qed.

(** Every state that satisfies the conditions is accepted: its document
    validates, to the same state. *)
Theorem validate_desired_roundtrip lb d :
  desired_ok d → do_lb d = Some lb →
  Forall (canonical CLIENT_FIELDS) (co_node <$> do_clients d) →
  Forall (canonical BACKEND_FIELDS) (bo_node <$> do_backends d) →
  validate_desired (print_desired lb d) = inr d.
Proof.
  intros [(lb' & Hlb & Hlbm) [Hcl Hcs] [Hbl Hbs] Hu Hages Htot] Hlb2 Hcc Hcb.
  rewrite Hlb in Hlb2. injection Hlb2 as ->. rewrite Hlb in Hu. rewrite <- (length_fmap co_node) in Hcl.
  rewrite <- (length_fmap bo_node) in Hbl.
  assert (check_desired (print_desired lb d) = (d, [])) as E; [|unfold validate_desired; by rewrite E].
  unfold check_desired, print_desired. rewrite !list_fmap_compose.
  apply V_bind_inv. eexists. split; [apply obj_ok; repeat constructor; set_solver|].
  apply V_bind_inv. exists (). split; [done|].
  apply V_bind_inv. eexists. split; [apply obj_ok; repeat constructor; set_solver|].
  apply V_bind_inv. exists (Some lb). split; [by apply id_print|].
  apply V_bind_inv. exists (co_node <$> do_clients d). split.
  { apply node_list_print; try done; [apply fields_NoDup|by apply (bool_decide_unpack _); vm_compute]. }
  apply V_bind_inv. exists (bo_node <$> do_backends d). split.
  { apply node_list_print; try done; [apply fields_NoDup|by apply (bool_decide_unpack _); vm_compute]. }
  apply V_bind_inv. exists (). split; [by apply check_ages_print|].
  apply V_bind_inv. exists (). split; [by apply when_false|].
  apply V_bind_inv. exists (). split; [apply when_false; by rewrite bool_decide_true|].
  apply V_bind_inv. exists (print_edge <$> canvas_edges lb d). split.
  { unfold edges_in. match goal with |- context [default ?x (dict_get ?l ?k)] =>
      change (default x (dict_get l k)) with (J_list (print_edge <$> canvas_edges lb d)) end.
    cbv iota. rewrite decide_False; [done|]. pose proof (canvas_edges_length lb d). rewrite !length_fmap in *. lia. }
  apply V_bind_inv. exists (canvas_edges lb d). split.
  { apply check_edges_print; [apply canvas_edges_ok|by apply canvas_edges_ids]. }
  apply V_bind_inv. exists (). split; [apply when_false; rewrite bool_decide_true; [done|by apply canvas_edges_NoDup]|].
  apply V_bind_inv. exists (do_loadEnabled d). split; [done|].
  rewrite canvas_clients, canvas_backends by done. unfold mret, V_ret. rewrite <- Hlb. by destruct d.
Qed.
End Roundtrip.

(** ** A canvas *)

(** The exact sum, which is what every version of Python computes on integers. *)
Definition sample_sums : PySum := {| sum_exceeds l b :=
  bool_decide (b < foldr (λ x s, s + x.1 * 2 ^ x.2) 0 l) |}.

Definition sample_canvas : desired_out :=
  {| do_lb := Some (text "lb");
     do_clients := [{| co_node := {| n_id := text "c1"; n_cfg := CLIENT_DEFAULTS |}; co_connected := true |}];
     do_backends := [{| bo_node := {| n_id := text "b1"; n_cfg := BACKEND_DEFAULTS |}; bo_attached := true |};
                     {| bo_node := {| n_id := text "b2"; n_cfg := BACKEND_DEFAULTS |}; bo_attached := false |}];
     do_loadEnabled := true |}.

Lemma validate_desired_sound_witness :
  validate_desired (sums := sample_sums) (print_desired (text "lb") sample_canvas) = inr sample_canvas ∧
  desired_ok (sums := sample_sums) sample_canvas.
Proof.
  assert (validate_desired (sums := sample_sums) (print_desired (text "lb") sample_canvas) = inr sample_canvas) as E
    by (vm_compute; reflexivity).
  split; [exact E|]. exact (proj1 (@validate_desired_sound sample_sums _ _ E)).
Defined.

(** The defaults are a canonical configuration. *)
Lemma defaults_canonical s :
  canonical CLIENT_FIELDS {| n_id := s; n_cfg := CLIENT_DEFAULTS |} ∧
  canonical BACKEND_FIELDS {| n_id := s; n_cfg := BACKEND_DEFAULTS |}.
Proof. split; (split; [by vm_compute|repeat constructor]). Qed.

Lemma validate_desired_roundtrip_witness :
  validate_desired (sums := sample_sums) (print_desired (text "lb") sample_canvas) = inr sample_canvas.
Proof.
  apply (@validate_desired_roundtrip sample_sums).
  - split; cbn [do_lb do_clients do_backends sample_canvas].
    + exists (text "lb"). by vm_compute.
    + split; [vm_compute; lia|]. repeat constructor; apply defaults_ok.
    + split; [vm_compute; lia|]. repeat constructor; apply defaults_ok.
    + apply (bool_decide_unpack _). by vm_compute.
    + by repeat constructor.
    + by vm_compute.
  - reflexivity.
  - repeat constructor; apply defaults_canonical.
  - repeat constructor; apply (defaults_canonical _).
Defined.

(** The pattern of ids ends in [$], so that an id may end in a newline. *)
Example id_with_newline : id_match (text "lb" ++ [10]) = true.
Proof. reflexivity. Qed.
