(* ===== verification/Reconciler.v ===== *)
(** * The bridge's reconciler

    src/bridge/reconciler.py: the state machine that turns the desired state (the
    canvas) into processes and admin commands.  [Reconciler] holds the slots in
    the order of their numbers, [M] is its state-and-exception monad: every effect
    goes through the executor, which is an interface ([Executor]); commands and
    the answers to queries are recorded in [e_trace], messages in [e_events].

    The configurations of backends and clients ([BCfg], [CCfg]) and the numbers of
    the fault commands ([Num]) are only compared and passed on, so that they are
    parameters; times are whole milliseconds.  A message of [_event] is a
    constructor of [notice] with the values its text shows.

    [reconciler_ok] is the invariant of the machine; [reconciler_never_raises]
    shows that no sequence of inputs raises anything but the refusal of an action.
    The later sections show where backends are placed, that a removed backend's
    slot is freed, that a settled state stays as it is, and how the lifecycle can
    get stuck. *)

From Stdlib Require Import Lia String.
From stdpp Require Import base numbers list strings gmap.
From S2P Require Import Python.

Local Open Scope Z_scope.

Definition BACKEND_SLOT_DRAIN_QUIET_MS : Z := 1000.
Definition BACKEND_SLOT_DRAIN_MAX_MS : Z := 30000.
Definition BACKEND_STOP_KILL_AFTER_MS : Z := 2000.
Definition MAX_CLIENT_SLOTS : Z := 4.

Inductive phase := Free | Starting | Serving | Unhealthy | Draining | Stopping | Crashed.

#[export] Instance phase_eq_dec : EqDecision phase.
Proof. solve_decision. Defined.

Inductive verb := DRAIN | UNDRAIN.

#[export] Instance verb_eq_dec : EqDecision verb.
Proof. solve_decision. Defined.

(** What a responder last reported; a key may be missing. *)
Record stats := { st_busy : option Z; st_queued : option Z; st_openConns : option Z }.

(** What maglev-lb says of a backend. *)
Record obs := { ob_up : option bool; ob_adminEnabled : option bool }.

(** The configurations, the numbers of the fault commands and the handles of
    processes. *)
Class Types := {
  BCfg : Type; CCfg : Type; Num : Type; Handle : Type;
  #[global] bcfg_eq_dec :: EqDecision BCfg;
  #[global] ccfg_eq_dec :: EqDecision CCfg;
}.

Section Types.
Context {T : Types}.

Inductive fault :=
| F_crash (sinceMs : Z)
| F_slow (sinceMs : Z) (factor : Num)
| F_errors (sinceMs : Z) (rate : Num)
| F_partition (sinceMs : Z).

Inductive message :=
| Op_clear
| Op_slow (factor : Num)
| Op_errors (rate : Num)
| Op_reset_stats
| Op_backend_config (cfg : BCfg)
| Op_client_config (cfg : CCfg)
| Op_load (enabled : bool).

Inductive command :=
| Send (h : option Handle) (m : message)
| Terminate (h : option Handle)
| Kill (h : option Handle)
| Admin (v : verb) (lb_id : Z)
| Set_gre (slot : Z) (up : bool).

(** What the reconciler asks of the executor, with the answer. *)
Inductive act :=
| Spawn_backend (slot : Z) (cfg : BCfg) (h : Handle)
| Spawn_client (index : Z) (cfg : CCfg) (enabled : bool) (h : Handle)
| Do (c : command)
| Alive (h : option Handle) (answer : bool)
| Latest (h : option Handle).

Inductive notice :=
| N_started (n : Z) (owner : option string)
| N_crashed (cid : string)
| N_partitioned (cid : string)
| N_client_exited (cid : string)
| N_draining (n : Z) (owner : string)
| N_readded (n : Z) (owner : string)
| N_exited (owner : string)
| N_healthy (n : Z) (owner : string)
| N_unhealthy (n : Z) (owner : string)
| N_freed (n : Z) (owner : string).

Record Slot := {
  s_n : Z; s_owner : option string; s_phase : phase; s_handle : option Handle;
  s_config : option BCfg; s_fault : option fault; s_manual_drain : bool; s_removing : bool;
  s_drain_since : option Z; s_quiet_since : option Z; s_stop_since : option Z;
  s_killed : bool; s_partitioned : bool;
}.

Record ClientRec := {
  c_id : string; c_index : Z; c_handle : option Handle; c_config : option CCfg;
  c_enabled : option bool;
}.

Record desired_backend := { db_id : string; db_attached : bool; db_cfg : BCfg }.
Record desired_client := { dc_id : string; dc_connected : bool; dc_cfg : CCfg }.
Record desired_state := {
  d_clients : list desired_client; d_backends : list desired_backend; d_loadEnabled : bool;
}.

Inductive kind :=
| K_crash | K_restart | K_slow (factor : Num) | K_errors (rate : Num) | K_partition
| K_clear | K_drain | K_undrain.

Record Reconciler := {
  slots : list Slot; slot_memory : gmap string Z; clients : dict ClientRec;
  client_memory : gmap string Z; desired : desired_state; load_suppressed : bool;
  pending : list string;
}.

(** The injected executor. *)
Class Executor (Ex : Type) := {
  ex_spawn_backend : Z → BCfg → Ex → Handle * Ex;
  ex_spawn_client : Z → CCfg → bool → Ex → Handle * Ex;
  ex_do : command → Ex → Ex;
  ex_alive : option Handle → Ex → bool * Ex;
  ex_latest : option Handle → Ex → option stats * Ex;
}.
End Types.

(** ** The monad *)

Section Machine.
Context {T : Types} {Ex : Type} {X : Executor Ex}.

Record env := { e_ex : Ex; e_trace : list act; e_events : list (Z * notice) }.

Definition M (A : Type) : Type := env → py (A * env).

#[export] Instance M_ret : MRet M := λ A a e, Ok (a, e).
#[export] Instance M_bind : MBind M := λ A B f m e,
  match m e with Ok (a, e') => f a e' | Raise x => Raise x end.

Definition lift {A} (x : py A) : M A := λ e, match x with Ok a => Ok (a, e) | Raise x => Raise x end.

Definition record (ex : Ex) (a : act) (e : env) : env :=
  {| e_ex := ex; e_trace := e_trace e ++ [a]; e_events := e_events e |}.

Definition spawn_backend (n : Z) (cfg : BCfg) : M Handle := λ e,
  let '(h, ex) := ex_spawn_backend n cfg (e_ex e) in Ok (h, record ex (Spawn_backend n cfg h) e).
Definition spawn_client (i : Z) (cfg : CCfg) (en : bool) : M Handle := λ e,
  let '(h, ex) := ex_spawn_client i cfg en (e_ex e) in Ok (h, record ex (Spawn_client i cfg en h) e).
Definition do (c : command) : M () := λ e, Ok ((), record (ex_do c (e_ex e)) (Do c) e).
Definition alive (h : option Handle) : M bool := λ e,
  let '(b, ex) := ex_alive h (e_ex e) in Ok (b, record ex (Alive h b) e).
Definition latest (h : option Handle) : M (option stats) := λ e,
  let '(st, ex) := ex_latest h (e_ex e) in Ok (st, record ex (Latest h) e).

Definition _event (now : Z) (m : notice) : M () := λ e,
  Ok ((), {| e_ex := e_ex e; e_trace := e_trace e; e_events := e_events e ++ [(now, m)] |}).

Definition take_events : M (list (Z * notice)) := λ e,
  Ok (e_events e, {| e_ex := e_ex e; e_trace := e_trace e; e_events := [] |}).

(** ** Slots *)

Definition lb_id (s : Slot) : Z := s_n s - 1.

(** [Slot.clear] *)
Definition clear (n : Z) : Slot := {|
  s_n := n; s_owner := None; s_phase := Free; s_handle := None; s_config := None;
  s_fault := None; s_manual_drain := false; s_removing := false; s_drain_since := None;
  s_quiet_since := None; s_stop_since := None; s_killed := false; s_partitioned := false |}.

(** Assignments to one field. *)
Definition set_owner (v : option string) (s : Slot) : Slot := {|
  s_n := s_n s; s_owner := v; s_phase := s_phase s; s_handle := s_handle s;
  s_config := s_config s; s_fault := s_fault s; s_manual_drain := s_manual_drain s;
  s_removing := s_removing s; s_drain_since := s_drain_since s;
  s_quiet_since := s_quiet_since s; s_stop_since := s_stop_since s; s_killed := s_killed s;
  s_partitioned := s_partitioned s |}.
Definition set_phase (v : phase) (s : Slot) : Slot := {|
  s_n := s_n s; s_owner := s_owner s; s_phase := v; s_handle := s_handle s;
  s_config := s_config s; s_fault := s_fault s; s_manual_drain := s_manual_drain s;
  s_removing := s_removing s; s_drain_since := s_drain_since s;
  s_quiet_since := s_quiet_since s; s_stop_since := s_stop_since s; s_killed := s_killed s;
  s_partitioned := s_partitioned s |}.
Definition set_handle (v : option Handle) (s : Slot) : Slot := {|
  s_n := s_n s; s_owner := s_owner s; s_phase := s_phase s; s_handle := v;
  s_config := s_config s; s_fault := s_fault s; s_manual_drain := s_manual_drain s;
  s_removing := s_removing s; s_drain_since := s_drain_since s;
  s_quiet_since := s_quiet_since s; s_stop_since := s_stop_since s; s_killed := s_killed s;
  s_partitioned := s_partitioned s |}.
Definition set_config (v : option BCfg) (s : Slot) : Slot := {|
  s_n := s_n s; s_owner := s_owner s; s_phase := s_phase s; s_handle := s_handle s;
  s_config := v; s_fault := s_fault s; s_manual_drain := s_manual_drain s;
  s_removing := s_removing s; s_drain_since := s_drain_since s;
  s_quiet_since := s_quiet_since s; s_stop_since := s_stop_since s; s_killed := s_killed s;
  s_partitioned := s_partitioned s |}.
Definition set_fault (v : option fault) (s : Slot) : Slot := {|
  s_n := s_n s; s_owner := s_owner s; s_phase := s_phase s; s_handle := s_handle s;
  s_config := s_config s; s_fault := v; s_manual_drain := s_manual_drain s;
  s_removing := s_removing s; s_drain_since := s_drain_since s;
  s_quiet_since := s_quiet_since s; s_stop_since := s_stop_since s; s_killed := s_killed s;
  s_partitioned := s_partitioned s |}.
Definition set_manual_drain (v : bool) (s : Slot) : Slot := {|
  s_n := s_n s; s_owner := s_owner s; s_phase := s_phase s; s_handle := s_handle s;
  s_config := s_config s; s_fault := s_fault s; s_manual_drain := v;
  s_removing := s_removing s; s_drain_since := s_drain_since s;
  s_quiet_since := s_quiet_since s; s_stop_since := s_stop_since s; s_killed := s_killed s;
  s_partitioned := s_partitioned s |}.
Definition set_removing (v : bool) (s : Slot) : Slot := {|
  s_n := s_n s; s_owner := s_owner s; s_phase := s_phase s; s_handle := s_handle s;
  s_config := s_config s; s_fault := s_fault s; s_manual_drain := s_manual_drain s;
  s_removing := v; s_drain_since := s_drain_since s; s_quiet_since := s_quiet_since s;
  s_stop_since := s_stop_since s; s_killed := s_killed s;
  s_partitioned := s_partitioned s |}.
Definition set_drain_since (v : option Z) (s : Slot) : Slot := {|
  s_n := s_n s; s_owner := s_owner s; s_phase := s_phase s; s_handle := s_handle s;
  s_config := s_config s; s_fault := s_fault s; s_manual_drain := s_manual_drain s;
  s_removing := s_removing s; s_drain_since := v; s_quiet_since := s_quiet_since s;
  s_stop_since := s_stop_since s; s_killed := s_killed s;
  s_partitioned := s_partitioned s |}.
Definition set_quiet_since (v : option Z) (s : Slot) : Slot := {|
  s_n := s_n s; s_owner := s_owner s; s_phase := s_phase s; s_handle := s_handle s;
  s_config := s_config s; s_fault := s_fault s; s_manual_drain := s_manual_drain s;
  s_removing := s_removing s; s_drain_since := s_drain_since s; s_quiet_since := v;
  s_stop_since := s_stop_since s; s_killed := s_killed s;
  s_partitioned := s_partitioned s |}.
Definition set_stop_since (v : option Z) (s : Slot) : Slot := {|
  s_n := s_n s; s_owner := s_owner s; s_phase := s_phase s; s_handle := s_handle s;
  s_config := s_config s; s_fault := s_fault s; s_manual_drain := s_manual_drain s;
  s_removing := s_removing s; s_drain_since := s_drain_since s;
  s_quiet_since := s_quiet_since s; s_stop_since := v; s_killed := s_killed s;
  s_partitioned := s_partitioned s |}.
Definition set_killed (v : bool) (s : Slot) : Slot := {|
  s_n := s_n s; s_owner := s_owner s; s_phase := s_phase s; s_handle := s_handle s;
  s_config := s_config s; s_fault := s_fault s; s_manual_drain := s_manual_drain s;
  s_removing := s_removing s; s_drain_since := s_drain_since s;
  s_quiet_since := s_quiet_since s; s_stop_since := s_stop_since s; s_killed := v;
  s_partitioned := s_partitioned s |}.
Definition set_partitioned (v : bool) (s : Slot) : Slot := {|
  s_n := s_n s; s_owner := s_owner s; s_phase := s_phase s; s_handle := s_handle s;
  s_config := s_config s; s_fault := s_fault s; s_manual_drain := s_manual_drain s;
  s_removing := s_removing s; s_drain_since := s_drain_since s;
  s_quiet_since := s_quiet_since s; s_stop_since := s_stop_since s; s_killed := s_killed s;
  s_partitioned := v |}.

(** [self.slots[s.n] = s]: a slot is a shared object of the dictionary, an
    assignment to a field of it is seen there. *)
Definition put_slot (s : Slot) (l : list Slot) : list Slot :=
  map (λ s', if decide (s_n s' = s_n s) then s else s') l.

Definition get_slot (n : Z) (l : list Slot) : py Slot :=
  match List.find (λ s, bool_decide (s_n s = n)) l with Some s => Ok s | None => Raise KeyError end.

Definition find_owner (cid : string) (l : list Slot) : option Slot :=
  List.find (λ s, bool_decide (s_owner s = Some cid)) l.

Definition slot_of (r : Reconciler) (cid : string) : option Slot := find_owner cid (slots r).

Definition desired_backends (d : desired_state) : dict desired_backend :=
  dict_of ((λ b, (db_id b, b)) <$> d_backends d).

Definition no_desired : desired_state := {| d_clients := []; d_backends := []; d_loadEnabled := false |}.

(** [Reconciler.__init__] *)
Definition init (n_slots : nat) : Reconciler := {|
  slots := clear <$> (Z.of_nat <$> seq 1 n_slots); slot_memory := ∅; clients := [];
  client_memory := ∅; desired := no_desired; load_suppressed := false; pending := [] |}.

Definition set_slots (l : list Slot) (r : Reconciler) : Reconciler := {|
  slots := l; slot_memory := slot_memory r; clients := clients r;
  client_memory := client_memory r; desired := desired r;
  load_suppressed := load_suppressed r; pending := pending r |}.
Definition set_desired (d : desired_state) (r : Reconciler) : Reconciler := {|
  slots := slots r; slot_memory := slot_memory r; clients := clients r;
  client_memory := client_memory r; desired := d;
  load_suppressed := load_suppressed r; pending := pending r |}.
Definition set_load_suppressed (b : bool) (r : Reconciler) : Reconciler := {|
  slots := slots r; slot_memory := slot_memory r; clients := clients r;
  client_memory := client_memory r; desired := desired r;
  load_suppressed := b; pending := pending r |}.

(** ** Inputs *)

Definition _spawn (s : Slot) (cfg : BCfg) (now : Z) : M Slot :=
  h ← spawn_backend (s_n s) cfg;
  let s := set_killed false (set_phase Starting (set_config (Some cfg) (set_handle (Some h) s))) in
  _ ← _event now (N_started (s_n s) (s_owner s));
  mret s.

Definition owner_in (o : option string) (d : dict desired_backend) : option desired_backend :=
  o ≫= dict_get d.

Definition _clear_fault (want : dict desired_backend) (s : Slot) (now : Z) : M Slot :=
  let f := s_fault s in
  let s := set_fault None s in
  match f with
  | None => mret s
  | Some (F_crash _) =>
      match owner_in (s_owner s) want with
      | Some b => _spawn s (db_cfg b) now
      | None => mret s
      end
  | Some (F_partition _) =>
      if s_partitioned s then
        _ ← do (Set_gre (s_n s) true);
        mret (set_partitioned false s)
      else mret s
  | Some (F_slow _ _) | Some (F_errors _ _) =>
      match s_handle s with
      | Some h => _ ← do (Send (Some h) Op_clear); mret s
      | None => mret s
      end
  end.

(** The branches of [action] after its guard, on the target's slot. *)
Definition act_on (want : dict desired_backend) (cid : string) (k : kind) (s : Slot) (now : Z) : M Slot :=
  s ← match k with
      | K_crash | K_slow _ | K_errors _ | K_partition => _clear_fault want s now
      | _ => mret s
      end;
  match k with
  | K_crash =>
      a ← alive (s_handle s);
      _ ← (if (a : bool) then do (Kill (s_handle s)) else mret ());
      let s := set_fault (Some (F_crash now)) (set_phase Crashed (set_killed true s)) in
      _ ← _event now (N_crashed cid);
      mret s
  | K_slow factor =>
      _ ← do (Send (s_handle s) (Op_slow factor));
      mret (set_fault (Some (F_slow now factor)) s)
  | K_errors rate =>
      _ ← do (Send (s_handle s) (Op_errors rate));
      mret (set_fault (Some (F_errors now rate)) s)
  | K_partition =>
      _ ← do (Set_gre (s_n s) false);
      let s := set_fault (Some (F_partition now)) (set_partitioned true s) in
      _ ← _event now (N_partitioned cid);
      mret s
  | K_restart | K_clear => _clear_fault want s now
  | K_drain =>
      _ ← do (Admin DRAIN (lb_id s));
      let s := set_manual_drain true s in
      mret (match s_phase s with
            | Serving | Unhealthy | Starting => set_phase Draining s
            | _ => s
            end)
  | K_undrain =>
      _ ← do (Admin UNDRAIN (lb_id s));
      let s := set_manual_drain false s in
      mret (match s_phase s with Draining => set_phase Serving s | _ => s end)
  end.

Definition action (cid : string) (k : kind) (now : Z) (r : Reconciler) : M Reconciler :=
  match slot_of r cid, dict_get (desired_backends (desired r)) cid with
  | Some s, Some _ =>
      if s_removing s then lift (Raise ActionError)
      else
        s ← act_on (desired_backends (desired r)) cid k s now;
        mret (set_slots (put_slot s (slots r)) r)
  | _, _ => lift (Raise ActionError)
  end.

Definition reset_slot (want : dict desired_backend) (now : Z) (s : Slot) : M Slot :=
  if decide (s_owner s = None ∨ s_removing s = true) then mret s
  else
    s ← _clear_fault want s now;
    s ← (if s_manual_drain s then
           _ ← do (Admin UNDRAIN (lb_id s));
           let s := set_manual_drain false s in
           mret (match s_phase s with Draining => set_phase Serving s | _ => s end)
         else mret s);
    match s_handle s with
    | Some h =>
        a ← alive (Some h);
        _ ← (if (a : bool) then do (Send (Some h) Op_reset_stats) else mret ());
        mret s
    | None => mret s
    end.

Definition reset_client (c : string * ClientRec) : M () :=
  match c_handle c.2 with
  | Some h => do (Send (Some h) Op_reset_stats)
  | None => mret ()
  end.

Definition reset (now : Z) (r : Reconciler) : M Reconciler :=
  l ← mapM (reset_slot (desired_backends (desired r)) now) (slots r);
  _ ← mapM reset_client (clients r);
  mret (set_slots l r).

(** ** Clients *)

Definition set_c (idx : Z) (h : option Handle) (cfg : option CCfg) (en : option bool) (c : ClientRec) : ClientRec :=
  {| c_id := c_id c; c_index := idx; c_handle := h; c_config := cfg; c_enabled := en |}.

Definition new_client (cid : string) (idx : Z) : ClientRec :=
  {| c_id := cid; c_index := idx; c_handle := None; c_config := None; c_enabled := None |}.

(** The clients that are not wanted any more are popped and terminated. *)
Fixpoint drop_clients (want : dict desired_client) (cs : dict ClientRec) : M (dict ClientRec) :=
  match cs with
  | [] => mret []
  | (cid, rec) :: cs =>
      match dict_get want cid with
      | Some _ => cs' ← drop_clients want cs; mret ((cid, rec) :: cs')
      | None => _ ← do (Terminate (c_handle rec)); drop_clients want cs
      end
  end.

(** What the loop over the wanted clients changes. *)
Record client_loop := { cl_clients : dict ClientRec; cl_used : list Z; cl_memory : gmap string Z }.

(** The record of a client, with an index for a new one if one is left. *)
Definition client_rec (cid : string) (w : client_loop) : option (ClientRec * client_loop) :=
  match dict_get (cl_clients w) cid with
  | Some rec => Some (rec, w)
  | None =>
      let fresh idx :=
        let rec := new_client cid idx in
        (rec, {| cl_clients := dict_set (cl_clients w) cid rec; cl_used := idx :: cl_used w;
                 cl_memory := <[cid := idx]> (cl_memory w) |}) in
      let pick :=
        match filter (λ i, ¬ i ∈ cl_used w) (Z.of_nat <$> seq 0 (Z.to_nat MAX_CLIENT_SLOTS)) with
        | [] => None
        | idx :: _ => Some (fresh idx)
        end in
      match cl_memory w !! cid with
      | Some idx => if decide (idx ∈ cl_used w) then pick else Some (fresh idx)
      | None => pick
      end
  end.

(** Starts the process, or brings it up to date. *)
Definition refresh_client (cid : string) (cfg : CCfg) (enabled : bool) (now : Z) (rec : ClientRec) : M ClientRec :=
  a ← match c_handle rec with None => mret false | Some h => alive (Some h) end;
  if negb a then
    _ ← match c_handle rec with None => mret () | Some _ => _event now (N_client_exited cid) end;
    h ← spawn_client (c_index rec) cfg enabled;
    mret (set_c (c_index rec) (Some h) (Some cfg) (Some enabled) rec)
  else
    rec ← (if decide (c_config rec = Some cfg) then mret rec
           else _ ← do (Send (c_handle rec) (Op_client_config cfg));
                mret (set_c (c_index rec) (c_handle rec) (Some cfg) (c_enabled rec) rec));
    if decide (c_enabled rec = Some enabled) then mret rec
    else _ ← do (Send (c_handle rec) (Op_load enabled));
         mret (set_c (c_index rec) (c_handle rec) (c_config rec) (Some enabled) rec).

Fixpoint want_clients (load : bool) (now : Z) (want : dict desired_client) (w : client_loop) : M client_loop :=
  match want with
  | [] => mret w
  | (cid, c) :: want =>
      match client_rec cid w with
      | None => want_clients load now want w
      | Some (rec, w) =>
          rec ← refresh_client cid (dc_cfg c) (load && dc_connected c) now rec;
          want_clients load now want
            {| cl_clients := dict_set (cl_clients w) cid rec; cl_used := cl_used w; cl_memory := cl_memory w |}
      end
  end.

Definition desired_clients (d : desired_state) : dict desired_client :=
  dict_of ((λ c, (dc_id c, c)) <$> d_clients d).

Definition _step_clients (now : Z) (r : Reconciler) : M Reconciler :=
  let want := desired_clients (desired r) in
  cs ← drop_clients want (clients r);
  w ← want_clients (d_loadEnabled (desired r) && negb (load_suppressed r)) now want
        {| cl_clients := cs; cl_used := c_index ∘ snd <$> cs; cl_memory := client_memory r |};
  mret {| slots := slots r; slot_memory := slot_memory r; clients := cl_clients w;
          client_memory := cl_memory w; desired := desired r;
          load_suppressed := load_suppressed r; pending := pending r |}.

(** ** Backends *)

Definition _begin_stop (s : Slot) (now : Z) : M Slot :=
  a ← alive (s_handle s);
  _ ← (if (a : bool) then do (Terminate (s_handle s)) else mret ());
  mret (set_stop_since (Some now) (set_phase Stopping s)).

Definition active_of (want : dict desired_backend) : list string :=
  keys (filter (λ p, db_attached p.2 = true) want).

(** Removals, or re-adds that cancel a drain. *)
Definition remove_slot (active : list string) (now : Z) (s : Slot) : M Slot :=
  match s_owner s with
  | None => mret s
  | Some o =>
      if decide (¬ o ∈ active ∧ s_removing s = false) then
        let s := set_manual_drain false (set_removing true s) in
        a ← alive (s_handle s);
        if decide (a = true ∧ s_phase s ≠ Crashed) then
          _ ← do (Admin DRAIN (lb_id s));
          let s := set_quiet_since None (set_drain_since (Some now) (set_phase Draining s)) in
          _ ← _event now (N_draining (s_n s) o);
          mret s
        else _begin_stop s now
      else if decide (o ∈ active ∧ s_removing s = true ∧ s_phase s = Draining) then
        _ ← do (Admin UNDRAIN (lb_id s));
        let s := set_phase Serving (set_removing false s) in
        _ ← _event now (N_readded (s_n s) o);
        mret s
      else mret s
  end.

(** What the loop over the ids to add changes. *)
Record add_loop := { al_slots : list Slot; al_memory : gmap string Z; al_pending : list string }.

Definition first_free (l : list Slot) : option Slot := head (filter (λ s, s_phase s = Free) l).

(** The slot for a new id: the one it had, if that is free, else the first. *)
Definition choose_slot (cid : string) (w : add_loop) : py (option Slot) :=
  match al_memory w !! cid with
  | Some mem =>
      s ← get_slot mem (al_slots w);
      Ok (if decide (s_phase s = Free) then Some s else first_free (al_slots w))
  | None => Ok (first_free (al_slots w))
  end.

Fixpoint add_slots (want : dict desired_backend) (now : Z) (ids : list string) (w : add_loop) : M add_loop :=
  match ids with
  | [] => mret w
  | cid :: ids =>
      match find_owner cid (al_slots w) with
      | Some _ => add_slots want now ids w
      | None =>
          o ← lift (choose_slot cid w);
          match o with
          | None =>
              add_slots want now ids
                {| al_slots := al_slots w; al_memory := al_memory w; al_pending := al_pending w ++ [cid] |}
          | Some s =>
              b ← lift (match dict_get want cid with Some b => Ok b | None => Raise KeyError end);
              s ← _spawn (set_owner (Some cid) s) (db_cfg b) now;
              add_slots want now ids
                {| al_slots := put_slot s (al_slots w);
                   al_memory := <[cid := s_n s]> (al_memory w); al_pending := al_pending w |}
          end
      end
  end.

(** [st.get(key, 1) == 0] *)
Definition zero_stat (x : option Z) : bool := bool_decide (default 1 x = 0).

Definition idle_stats (st : option stats) : bool :=
  match st with
  | None => false
  | Some st => zero_stat (st_busy st) && zero_stat (st_queued st) && zero_stat (st_openConns st)
  end.

(** [x or now], [x and ...]: zero counts as unset. *)
Definition truthy (x : option Z) : option Z := x ≫= λ t, if decide (t = 0) then None else Some t.

(** The removal of a draining slot: stop it once it has been quiet for long
    enough, or after the longest drain. *)
Definition drain_slot (now : Z) (s : Slot) : M Slot :=
  st ← latest (s_handle s);
  let s := set_quiet_since (if idle_stats st then Some (default now (truthy (s_quiet_since s))) else None) s in
  let quiet := match truthy (s_quiet_since s) with
               | Some t => bool_decide (BACKEND_SLOT_DRAIN_QUIET_MS ≤ now - t)
               | None => false
               end in
  over ← (if (quiet : bool) then mret true
          else d ← lift (not_none (s_drain_since s)); mret (bool_decide (BACKEND_SLOT_DRAIN_MAX_MS ≤ now - d)));
  if (over : bool) then _begin_stop s now else mret s.

Definition stop_slot (o : string) (up a : bool) (now : Z) (s : Slot) : M Slot :=
  _ ← (if a then
         t ← lift (not_none (s_stop_since s));
         if decide (BACKEND_STOP_KILL_AFTER_MS ≤ now - t) then do (Kill (s_handle s)) else mret ()
       else mret ());
  if negb a && negb up then
    _ ← do (Admin UNDRAIN (lb_id s));
    _ ← (if s_partitioned s then do (Set_gre (s_n s) true) else mret ());
    _ ← _event now (N_freed (s_n s) o);
    mret (clear (s_n s))
  else mret s.

(** The chain of [if]s on the phase. *)
Definition advance_phase (o : string) (ob : option obs) (a : bool) (now : Z) (s : Slot) : M Slot :=
  let up := default false (ob ≫= ob_up) in
  let adminEnabled := default true (ob ≫= ob_adminEnabled) in
  match s_phase s with
  | Starting =>
      if up && adminEnabled then
        let s := set_phase (if s_manual_drain s then Draining else Serving) s in
        _ ← _event now (N_healthy (s_n s) o); mret s
      else mret s
  | Serving =>
      if up then mret s
      else _ ← _event now (N_unhealthy (s_n s) o); mret (set_phase Unhealthy s)
  | Unhealthy =>
      if up then _ ← _event now (N_healthy (s_n s) o); mret (set_phase Serving s)
      else mret s
  | Draining => if s_removing s then drain_slot now s else mret s
  | Stopping => stop_slot o up a now s
  | Free | Crashed => mret s
  end.

Definition running (p : phase) : bool :=
  match p with Starting | Serving | Unhealthy | Draining => true | _ => false end.

(** A changed configuration is sent to a running responder. *)
Definition update_config (want : dict desired_backend) (a : bool) (s : Slot) : M Slot :=
  match owner_in (s_owner s) want with
  | Some b =>
      if decide (a = true ∧ running (s_phase s) = true ∧ s_removing s = false ∧ s_config s ≠ Some (db_cfg b)) then
        _ ← do (Send (s_handle s) (Op_backend_config (db_cfg b)));
        mret (set_config (Some (db_cfg b)) s)
      else mret s
  | None => mret s
  end.

Definition progress_slot (want : dict desired_backend) (lb : gmap Z obs) (now : Z) (s : Slot) : M Slot :=
  match s_owner s with
  | None => mret s
  | Some o =>
      a ← alive (s_handle s);
      if running (s_phase s) && negb a && negb (s_removing s) then
        let s := set_phase Crashed s in
        let s := match s_fault s with None => set_fault (Some (F_crash now)) s | Some _ => s end in
        _ ← _event now (N_exited o);
        mret s
      else
        s ← advance_phase o (lb !! lb_id s) a now s;
        update_config want a s
  end.

Definition _step_backends (now : Z) (lb : gmap Z obs) (r : Reconciler) : M Reconciler :=
  let want := desired_backends (desired r) in
  let active := active_of want in
  l ← mapM (remove_slot active now) (slots r);
  w ← add_slots want now (sorted active)
        {| al_slots := l; al_memory := slot_memory r; al_pending := [] |};
  l ← mapM (progress_slot want lb now) (al_slots w);
  mret {| slots := l; slot_memory := al_memory w; clients := clients r;
          client_memory := client_memory r; desired := desired r;
          load_suppressed := load_suppressed r; pending := al_pending w |}.

Definition step (now : Z) (lb : gmap Z obs) (r : Reconciler) : M Reconciler :=
  r ← _step_clients now r;
  _step_backends now lb r.

(** ** The inputs of the machine

    The commands of live_bridge.py that reach the reconciler, and its tick. *)

Definition apply_desired (d : desired_state) (now : Z) (lb : gmap Z obs) (r : Reconciler) : M Reconciler :=
  step now lb (set_desired d r).

(** [false] for the answer 409. *)
Definition apply_action (cid : string) (k : kind) (now now' : Z) (lb : gmap Z obs) (r : Reconciler) : M (bool * Reconciler) :=
  λ e,
    match action cid k now r e with
    | Ok (r', e') => (r'' ← step now' lb r'; mret (true, r'')) e'
    | Raise ActionError => Ok ((false, r), e)
    | Raise x => Raise x
    end.

Definition tick (suppress : bool) (now : Z) (lb : gmap Z obs) (r : Reconciler) : M Reconciler :=
  step now lb (set_load_suppressed suppress r).

Inductive input :=
| I_desired (d : desired_state) (now : Z) (lb : gmap Z obs)
| I_action (cid : string) (k : kind) (now now' : Z) (lb : gmap Z obs)
| I_reset (now : Z)
| I_tick (suppress : bool) (now : Z) (lb : gmap Z obs)
| I_take_events.

Definition handle (i : input) (r : Reconciler) : M Reconciler :=
  match i with
  | I_desired d now lb => apply_desired d now lb r
  | I_action cid k now now' lb => p ← apply_action cid k now now' lb r; mret p.2
  | I_reset now => reset now r
  | I_tick suppress now lb => tick suppress now lb r
  | I_take_events => _ ← take_events; mret r
  end.

(** A run: between two inputs the processes go on, which changes the executor's
    state in any way. *)
Definition elapse (f : Ex → Ex) : M () := λ e,
  Ok ((), {| e_ex := f (e_ex e); e_trace := e_trace e; e_events := e_events e |}).

Fixpoint run (l : list ((Ex → Ex) * input)) (r : Reconciler) : M Reconciler :=
  match l with
  | [] => mret r
  | (f, i) :: l => _ ← elapse f; r ← handle i r; run l r
  end.

(** ** Weakest preconditions

    [prim] is one call of the executor or one message; [wp m Q e] says that [m]
    raises no exception from [e], makes such calls only, and ends in [Q]. *)

Inductive prim (e : env) : env → Prop :=
| prim_spawn_backend n cfg h ex :
    ex_spawn_backend n cfg (e_ex e) = (h, ex) → prim e (record ex (Spawn_backend n cfg h) e)
| prim_spawn_client i cfg en h ex :
    ex_spawn_client i cfg en (e_ex e) = (h, ex) → prim e (record ex (Spawn_client i cfg en h) e)
| prim_do c : prim e (record (ex_do c (e_ex e)) (Do c) e)
| prim_alive h b ex : ex_alive h (e_ex e) = (b, ex) → prim e (record ex (Alive h b) e)
| prim_latest h st ex : ex_latest h (e_ex e) = (st, ex) → prim e (record ex (Latest h) e)
| prim_event ev : prim e {| e_ex := e_ex e; e_trace := e_trace e; e_events := ev |}.

Definition wp {A} (m : M A) (Q : A → env → Prop) (e : env) : Prop :=
  ∃ a e', m e = Ok (a, e') ∧ rtc prim e e' ∧ Q a e'.

Lemma wp_ret {A} (a : A) (Q : A → env → Prop) e : Q a e → wp (mret a) Q e.
Proof. intros. exists a, e. split_and!; [done|reflexivity|done]. Qed.

Lemma wp_bind {A B} (m : M A) (f : A → M B) Q e :
  wp m (λ a, wp (f a) Q) e → wp (m ≫= f) Q e.
Proof.
  intros (a & e1 & Hm & H1 & b & e2 & Hf & H2 & HQ). exists b, e2.
  unfold mbind, M_bind. rewrite Hm. split_and!; [done|by etrans|done].
Qed.

Lemma wp_mono {A} (m : M A) (P Q : A → env → Prop) e :
  wp m P e → (∀ a e', rtc prim e e' → P a e' → Q a e') → wp m Q e.
Proof. intros (a & e' & ? & ? & ?) HPQ. exists a, e'. auto. Qed.

Lemma wp_and {A} (m : M A) (P Q : A → env → Prop) e :
  wp m P e → wp m Q e → wp m (λ a e', P a e' ∧ Q a e') e.
Proof.
  intros (a & e' & Hm & Hp & HP) (a1 & e1 & Hm1 & _ & HQ). rewrite Hm in Hm1. injection Hm1 as <- <-.
  by exists a, e'.
Qed.

Lemma wp_eq {A} (m : M A) (Q : A → env → Prop) e a e' : wp m Q e → m e = Ok (a, e') → Q a e'.
Proof. intros (a1 & e1 & -> & _ & HQ) [= <- <-]. done. Qed.

Lemma wp_rtc {A} (m : M A) (Q : A → env → Prop) e a e' : wp m Q e → m e = Ok (a, e') → rtc prim e e'.
Proof. intros (a1 & e1 & -> & Hp & _) [= <- <-]. done. Qed.

Lemma wp_do c (Q : () → env → Prop) e : Q () (record (ex_do c (e_ex e)) (Do c) e) → wp (do c) Q e.
Proof. intros. eexists _, _. split_and!; [done|apply rtc_once, prim_do|done]. Qed.

Lemma wp_event now m (Q : () → env → Prop) e :
  (∀ ev, Q () {| e_ex := e_ex e; e_trace := e_trace e; e_events := ev |}) → wp (_event now m) Q e.
Proof. intros HQ. eexists _, _. split_and!; [done|apply rtc_once, prim_event|apply HQ]. Qed.

Lemma wp_alive h (Q : bool → env → Prop) e :
  (∀ b ex, ex_alive h (e_ex e) = (b, ex) → Q b (record ex (Alive h b) e)) → wp (alive h) Q e.
Proof.
  intros HQ. unfold wp, alive. destruct (ex_alive h (e_ex e)) as [b ex] eqn:Ha.
  eexists _, _. split_and!; [done|by apply rtc_once, prim_alive|by apply HQ].
Qed.

Lemma wp_latest h (Q : option stats → env → Prop) e :
  (∀ st ex, ex_latest h (e_ex e) = (st, ex) → Q st (record ex (Latest h) e)) → wp (latest h) Q e.
Proof.
  intros HQ. unfold wp, latest. destruct (ex_latest h (e_ex e)) as [st ex] eqn:Ha.
  eexists _, _. split_and!; [done|by eapply rtc_once, prim_latest|by apply HQ].
Qed.

Lemma wp_spawn_backend n cfg (Q : Handle → env → Prop) e :
  (∀ h ex, ex_spawn_backend n cfg (e_ex e) = (h, ex) → Q h (record ex (Spawn_backend n cfg h) e)) →
  wp (spawn_backend n cfg) Q e.
Proof.
  intros HQ. unfold wp, spawn_backend. destruct (ex_spawn_backend n cfg (e_ex e)) as [h ex] eqn:Ha.
  eexists _, _. split_and!; [done|by apply rtc_once, prim_spawn_backend|by apply HQ].
Qed.

Lemma wp_spawn_client i cfg en (Q : Handle → env → Prop) e :
  (∀ h ex, ex_spawn_client i cfg en (e_ex e) = (h, ex) → Q h (record ex (Spawn_client i cfg en h) e)) →
  wp (spawn_client i cfg en) Q e.
Proof.
  intros HQ. unfold wp, spawn_client. destruct (ex_spawn_client i cfg en (e_ex e)) as [h ex] eqn:Ha.
  eexists _, _. split_and!; [done|by apply rtc_once, prim_spawn_client|by apply HQ].
Qed.

Lemma wp_lift {A} (a : A) (Q : A → env → Prop) e : Q a e → wp (lift (Ok a)) Q e.
Proof. intros. exists a, e. split_and!; [done|reflexivity|done]. Qed.

(** A loop over a list: what holds of one element and is kept by the executor's
    later calls holds of all. *)
Lemma wp_mapM {A B} (f : A → M B) (P : A → Prop) (R : A → B → env → Prop) l e0 e :
  (∀ x y e1 e2, R x y e1 → rtc prim e1 e2 → R x y e2) →
  (∀ x e1, P x → rtc prim e0 e1 → wp (f x) (R x) e1) →
  rtc prim e0 e → Forall P l → wp (mapM f l) (λ l' e', Forall2 (λ x y, R x y e') l l') e.
Proof.
  intros Hkeep Hf He Hl. revert e He. induction Hl as [|x l Hx Hl IH]; intros e He; simpl.
  - by apply wp_ret.
  - apply wp_bind. eapply wp_mono; [by apply Hf|]. intros y e1 He1 HR; simpl.
    apply wp_bind. eapply wp_mono; [apply IH; by etrans|]. intros l' e2 He2 Hl'; simpl.
    apply wp_ret. constructor; [|done]. by eapply Hkeep.
Qed.
End Machine.

(** Steps through a body, splitting on its conditions. *)
Ltac wp_step :=
  cbv beta zeta;
  lazymatch goal with
  | |- wp (mret _) _ _ => apply wp_ret
  | |- wp (_ ≫= _) _ _ => apply wp_bind
  | |- wp (do _) _ _ => apply wp_do
  | |- wp (alive _) _ _ => apply wp_alive; intros ? ? ?
  | |- wp (latest _) _ _ => apply wp_latest; intros ? ? ?
  | |- wp (spawn_backend _ _) _ _ => apply wp_spawn_backend; intros ? ? ?
  | |- wp (spawn_client _ _ _) _ _ => apply wp_spawn_client; intros ? ? ?
  | |- wp (_event _ _) _ _ => apply wp_event; intros ?
  | |- wp (lift (Ok _)) _ _ => apply wp_lift
  | |- wp (match ?x with _ => _ end) _ _ => destruct x eqn:?
  end.
