(* ===== verification/ReconcilerInv.v ===== *)
(** * The invariant of the reconciler

    [reconciler_ok]: the slots have distinct owners, each with a process, and know
    since when they are being removed; the clients have distinct indices.  Every
    operation on a slot keeps it ([act_on_ok] to [progress_slot_ok]), so do the
    loops over slots and clients, and so does every input
    ([reconciler_never_raises]).  [three_passes] is the shape of a step over the
    backends, for the properties in [ReconcilerSpec]. *)

From Stdlib Require Import Lia String.
From stdpp Require Import base numbers list strings gmap.
From S2P Require Import Python Reconciler.

Local Open Scope Z_scope.

Section Spec.
Context {T : Types} {Ex : Type} {X : Executor Ex}.
Implicit Types (s : Slot) (l : list Slot) (n : nat) (r : Reconciler) (e : @env T Ex).

(** ** The invariant *)

Definition is_partition (f : option fault) : bool :=
  match f with Some (F_partition _) => true | _ => false end.

(** A slot without an owner is as [clear] left it.  One with an owner has a
    process; it is being removed exactly while it drains for its removal or stops,
    and then knows since when; its link is down exactly during a partition. *)
Definition slot_ok (s : Slot) : Prop :=
  match s_owner s with
  | None => s = clear (s_n s)
  | Some _ =>
      s_phase s ≠ Free ∧ is_Some (s_handle s) ∧ is_Some (s_config s) ∧
      (s_removing s = true → s_phase s = Stopping ∨ s_phase s = Draining ∧ is_Some (s_drain_since s)) ∧
      (s_phase s = Stopping → s_removing s = true ∧ is_Some (s_stop_since s)) ∧
      s_partitioned s = is_partition (s_fault s)
  end.

(** An operation on a slot that keeps the invariant, its number and its owner. *)
Definition same_owner (s s' : Slot) (_ : @env T Ex) : Prop :=
  slot_ok s' ∧ s_n s' = s_n s ∧ s_owner s' = s_owner s.

Ltac slot_done :=
  unfold same_owner, slot_ok in *; simplify_eq/=;
  repeat match goal with H : _ ∧ _ |- _ => destruct H end; simplify_eq/=;
  repeat match goal with |- context [match ?p with _ => _ end] => is_var p; destruct p end; simplify_eq/=;
  split_and?; intros; try done; eauto; try intuition (eauto; congruence).

Lemma clear_fault_ok want s now e :
  slot_ok s → s_owner s ≠ None → s_removing s = false →
  wp (_clear_fault want s now)
    (λ s' e', same_owner s s' e' ∧ s_removing s' = false ∧ s_fault s' = None) e.
Proof.
  intros Hs Ho Hr. unfold _clear_fault, _spawn. destruct s as [n [o|] ph ? ? f ? rm ? ? ? ? pa]; cbn in *; [|done].
  repeat wp_step; slot_done.
Qed.

Ltac open_slot s := destruct s as [n [ow|] ph h cfg f md rm ds qs ss kl pa]; cbn in *; [|done].

Lemma act_on_ok want cid k s now e :
  slot_ok s → s_owner s ≠ None → s_removing s = false →
  wp (act_on want cid k s now) (same_owner s) e.
Proof.
  intros Hs Ho Hr. unfold act_on. apply wp_bind.
  apply (wp_mono _ (λ s1 e1, same_owner s s1 e1 ∧ s_removing s1 = false ∧
    match k with K_crash | K_slow _ | K_errors _ | K_partition => s_fault s1 = None | _ => True end)).
  { destruct k; try (apply wp_ret; split_and!; done);
      (eapply wp_mono; [by apply clear_fault_ok|naive_solver]). }
  intros s1 e1 _ ((Hs1 & Hn & Ho1) & Hr1 & Hf). rewrite <- Ho1 in Ho.
  assert (wp (_clear_fault want s1 now) (same_owner s) e1) as Hclear.
  { eapply wp_mono; [by apply clear_fault_ok|]. intros ??? ((? & ? & ?) & ? & ?). split_and!; congruence. }
  destruct k; cbv beta; try exact Hclear; unfold same_owner; rewrite <- Hn, <- Ho1; clear s Hs Hr Hn Ho1 Hclear;
    open_slot s1; repeat wp_step; slot_done.
Qed.

Lemma reset_slot_ok want now s e : slot_ok s → wp (reset_slot want now s) (same_owner s) e.
Proof.
  intros Hs. unfold reset_slot. case_decide as Hc; [by apply wp_ret|].
  apply Decidable.not_or in Hc as [Ho Hr%not_true_is_false].
  apply wp_bind. eapply wp_mono; [by apply clear_fault_ok|].
  intros s1 e1 _ ((Hs1 & Hn & Ho1) & Hr1 & _). rewrite <- Ho1 in Ho.
  unfold same_owner. rewrite <- Hn, <- Ho1. clear s Hs Hr Hn Ho1.
  open_slot s1; repeat wp_step; slot_done.
Qed.

Lemma remove_slot_ok active now s e : slot_ok s → wp (remove_slot active now s) (same_owner s) e.
Proof.
  intros Hs. unfold remove_slot, _begin_stop. destruct (s_owner s) as [o'|] eqn:Ho; [|by apply wp_ret].
  open_slot s. repeat wp_step; slot_done.
Qed.

Lemma wp_not_none {A} (x : option A) (Q : A → @env T Ex → Prop) e :
  is_Some x → (∀ a, x = Some a → Q a e) → wp (lift (not_none x)) Q e.
Proof. intros [a ->] HQ. by apply wp_lift, HQ. Qed.

Lemma drain_slot_ok now s e :
  slot_ok s → s_owner s ≠ None → s_phase s = Draining → s_removing s = true →
  wp (drain_slot now s) (same_owner s) e.
Proof.
  intros Hs Ho Hp Hr. unfold drain_slot, _begin_stop. open_slot s. simplify_eq.
  assert (is_Some ds) as Hds by (unfold slot_ok in Hs; cbn in Hs; naive_solver).
  apply wp_bind, wp_latest. intros st ex Hst. cbv beta zeta. cbn.
  repeat first [apply wp_not_none; [done|intros ? ->]|wp_step]; slot_done.
Qed.

Lemma stop_slot_ok o up a now s e :
  slot_ok s → s_owner s ≠ None → s_phase s = Stopping →
  wp (stop_slot o up a now s) (λ s' e', same_owner s s' e' ∨ s' = clear (s_n s)) e.
Proof.
  intros Hs Ho Hp. unfold stop_slot. open_slot s. simplify_eq.
  assert (is_Some ss) as Hds by (unfold slot_ok in Hs; cbn in Hs; naive_solver).
  repeat first [apply wp_not_none; [done|intros ? ->]|wp_step]; (right; reflexivity) || (left; slot_done).
Qed.

Lemma advance_phase_ok o ob a now s e :
  slot_ok s → s_owner s ≠ None →
  wp (advance_phase o ob a now s)
    (λ s' e', same_owner s s' e' ∨ s' = clear (s_n s) ∧ s_phase s = Stopping) e.
Proof.
  intros Hs Ho. unfold advance_phase. cbv zeta.
  destruct (s_phase s) eqn:Hp.
  5: { destruct (s_removing s) eqn:Hr; [|apply wp_ret; by left].
       eapply wp_mono; [by apply drain_slot_ok|by left]. }
  5: { eapply wp_mono; [by apply stop_slot_ok|naive_solver]. }
  all: open_slot s; simplify_eq; repeat wp_step; left; slot_done.
Qed.

Lemma update_config_ok want a s e : slot_ok s → wp (update_config want a s) (same_owner s) e.
Proof.
  intros Hs. unfold update_config. destruct (owner_in _ _) eqn:Ho; [|by apply wp_ret].
  open_slot s. repeat wp_step; slot_done.
Qed.

(** The progress of a slot may free it. *)
Lemma progress_slot_ok want lb now s e :
  slot_ok s →
  wp (progress_slot want lb now s) (λ s' e', slot_ok s' ∧ s_n s' = s_n s ∧
    (s_owner s' = s_owner s ∨ s_owner s' = None ∧ s_phase s = Stopping)) e.
Proof.
  intros Hs. unfold progress_slot. destruct (s_owner s) as [o|] eqn:Ho; [|apply wp_ret; naive_solver].
  apply wp_bind, wp_alive. intros a ex Ha.
  destruct (running (s_phase s) && negb a && negb (s_removing s)) eqn:Hc.
  - rewrite !andb_true_iff, !negb_true_iff in Hc. destruct Hc as [[Hrun Hdead] Hrm]. open_slot s; simplify_eq. repeat wp_step; slot_done.
  - apply wp_bind. eapply wp_mono; [apply advance_phase_ok; naive_solver|].
    intros s1 e1 _ Hs1. eapply wp_mono; [apply update_config_ok|].
    + destruct Hs1 as [(? & _)|(-> & _)]; [done|]. by unfold slot_ok.
    + intros s2 e2 _ (? & ? & ?). destruct Hs1 as [(? & ? & ?)|(-> & ?)]; simpl in *; naive_solver congruence.
Qed.

(** ** The slots as a whole *)

Definition owners (l : list Slot) : list string := omap s_owner l.

(** Slots numbered from 1, each as it should be, with distinct owners. *)
Record slots_ok (n : nat) (l : list Slot) : Prop := {
  ok_numbers : s_n <$> l = Z.of_nat <$> seq 1 n;
  ok_slots : Forall slot_ok l;
  ok_owners : NoDup (owners l);
}.

Lemma numbers_NoDup n l : s_n <$> l = Z.of_nat <$> seq 1 n → NoDup (s_n <$> l).
Proof. intros ->. apply NoDup_fmap_2; [apply _|apply NoDup_seq]. Qed.

Lemma numbers_range n l k : s_n <$> l = Z.of_nat <$> seq 1 n → k ∈ s_n <$> l ↔ 1 ≤ k ≤ Z.of_nat n.
Proof.
  intros ->. rewrite list_elem_of_fmap. setoid_rewrite elem_of_seq. split.
  - intros (i & -> & ?). lia.
  - intros Hk. exists (Z.to_nat k). lia.
Qed.

Lemma elem_of_owners l cid : cid ∈ owners l ↔ ∃ s, s ∈ l ∧ s_owner s = Some cid.
Proof. unfold owners. by rewrite list_elem_of_omap. Qed.

Lemma find_owner_Some cid l s : find_owner cid l = Some s → s ∈ l ∧ s_owner s = Some cid.
Proof.
  intros [Hin Hb]%List.find_some. by apply list_elem_of_In in Hin; apply bool_decide_eq_true in Hb.
Qed.

Lemma find_owner_None cid l : find_owner cid l = None ↔ ¬ cid ∈ owners l.
Proof.
  rewrite elem_of_owners. unfold find_owner. split.
  - intros Hn (s & Hin%list_elem_of_In & Ho). apply (List.find_none _ _ Hn) in Hin.
    by apply bool_decide_eq_false in Hin.
  - intros Hn. destruct (List.find _ _) eqn:Hf; [|done]. destruct Hn.
    apply find_owner_Some in Hf. eauto.
Qed.

Lemma first_free_spec l s : first_free l = Some s → s ∈ l ∧ s_phase s = Free.
Proof.
  unfold first_free. destruct (filter _ l) as [|s' l'] eqn:Hf; intros [= ->].
  assert (s ∈ filter (λ s, s_phase s = Free) l) as Hin by (rewrite Hf; left).
  by apply list_elem_of_filter in Hin as [??].
Qed.

Lemma first_free_None l : first_free l = None → Forall (λ s, s_phase s ≠ Free) l.
Proof.
  unfold first_free. destruct (filter _ l) as [|s' l'] eqn:Hf; intros [=].
  apply Forall_forall. intros s Hin Hp.
  assert (s ∈ filter (λ s, s_phase s = Free) l) as Hin' by by apply list_elem_of_filter.
  rewrite Hf in Hin'. set_solver.
Qed.

Lemma get_slot_ok n l k :
  s_n <$> l = Z.of_nat <$> seq 1 n → 1 ≤ k ≤ Z.of_nat n → ∃ s, get_slot k l = Ok s ∧ s ∈ l ∧ s_n s = k.
Proof.
  intros Hn Hk. apply (numbers_range n l k Hn), list_elem_of_fmap in Hk as (s & -> & Hin).
  unfold get_slot. destruct (List.find _ _) as [s'|] eqn:Hf.
  - exists s'. apply List.find_some in Hf as [Hin' Hb%bool_decide_eq_true].
    by apply list_elem_of_In in Hin'.
  - apply List.find_none with (x := s) in Hf; [|by apply list_elem_of_In].
    by apply bool_decide_eq_false in Hf.
Qed.

(** Writing a slot back replaces the one with its number. *)
Lemma put_slot_split l1 s l2 s' :
  NoDup (s_n <$> l1 ++ s :: l2) → s_n s' = s_n s → put_slot s' (l1 ++ s :: l2) = l1 ++ s' :: l2.
Proof.
  rewrite fmap_app, fmap_cons. intros Hd Hn. unfold put_slot.
  assert (∀ l, ¬ s_n s ∈ s_n <$> l → map (λ x, if decide (s_n x = s_n s') then s' else x) l = l) as Hid.
  { induction l as [|x l IH]; intros Hx; simpl; [done|]. rewrite fmap_cons, elem_of_cons in Hx.
    rewrite decide_False, IH; [done|tauto|]. rewrite Hn. intros Heq. apply Hx. by left. }
  apply NoDup_app in Hd as (_ & Hl1 & [Hl2 _]%NoDup_cons).
  rewrite map_app. cbn [map]. rewrite decide_True, !Hid by done || (intros Hin; by apply (Hl1 _ Hin); left).
  done.
Qed.

Lemma same_owner_slots n l l' e :
  slots_ok n l → Forall2 (λ s s', same_owner s s' e) l l' → slots_ok n l' ∧ owners l' = owners l.
Proof.
  intros [Hn _ Ho] Hl.
  assert (s_n <$> l' = s_n <$> l ∧ Forall slot_ok l' ∧ owners l' = owners l) as (Hn' & Hs' & Ho').
  { clear Hn Ho. unfold owners. induction Hl as [|s s' l l' (? & ? & Heq) Hl (? & ? & IH)]; [done|].
    cbn. rewrite Heq, IH. split_and!; [by f_equal|by constructor|done]. }
  split; [split|]; congruence.
Qed.

(** The slots after the additions: as before, or taken by one of the ids, for
    which a responder with its configuration was started. *)
Definition added (want : dict desired_backend) (ids : list string) (s s' : Slot) : Prop :=
  s' = s ∨
  s = clear (s_n s) ∧
  ∃ cid b h, cid ∈ ids ∧ dict_get want cid = Some b ∧
    s' = set_phase Starting (set_config (Some (db_cfg b)) (set_handle (Some h) (set_owner (Some cid) s))).

Definition no_free (l : list Slot) : Prop := Forall (λ s, s_phase s ≠ Free) l.

Definition memory_ok (n : nat) (m : gmap string Z) : Prop :=
  map_Forall (λ _ k, 1 ≤ k ≤ Z.of_nat n) m.

Lemma free_slot_clear s : slot_ok s → s_phase s = Free → s = clear (s_n s).
Proof. unfold slot_ok. destruct (s_owner s); naive_solver. Qed.

Lemma choose_slot_ok n cid (w : add_loop) :
  slots_ok n (al_slots w) → memory_ok n (al_memory w) →
  ∃ o, choose_slot cid w = Ok o ∧
    match o with
    | Some s => s ∈ al_slots w ∧ s = clear (s_n s)
    | None => no_free (al_slots w)
    end.
Proof.
  intros [Hn Hs _] Hm.
  assert (match first_free (al_slots w) with
          | Some s => s ∈ al_slots w ∧ s = clear (s_n s) | None => no_free (al_slots w) end) as Hff.
  { destruct (first_free _) as [s|] eqn:Hf.
    - apply first_free_spec in Hf as [Hin Hp]. split; [done|]. rewrite Forall_forall in Hs.
      by apply free_slot_clear; auto.
    - by apply first_free_None. }
  unfold choose_slot. destruct (al_memory w !! cid) as [k|] eqn:Hk; [|eauto].
  apply Hm in Hk. destruct (get_slot_ok n _ k Hn Hk) as (s & -> & Hin & <-). cbn.
  eexists; split; [done|]. case_decide as Hp; [|done]. split; [done|].
  rewrite Forall_forall in Hs. by apply free_slot_clear; auto.
Qed.

Lemma owners_put l1 s l2 s' cid :
  s_owner s = None → s_owner s' = Some cid → owners (l1 ++ s' :: l2) ≡ₚ cid :: owners (l1 ++ s :: l2).
Proof.
  intros Hs Hs'. unfold owners. rewrite !omap_app. cbn. rewrite Hs, Hs'. by rewrite Permutation_middle.
Qed.

Lemma _spawn_wp s cfg now (Q : Slot → @env T Ex → Prop) e :
  (∀ h e', Q (set_killed false (set_phase Starting (set_config (Some cfg) (set_handle (Some h) s)))) e') →
  wp (_spawn s cfg now) Q e.
Proof. intros HQ. unfold _spawn. repeat wp_step. apply HQ. Qed.

Lemma added_refl want ids l : Forall2 (added want ids) l l.
Proof. apply Forall2_same_length_lookup_2; [done|]. intros i s s' Hs Hs'. left. congruence. Qed.

Lemma added_no_free want ids l l' : Forall2 (added want ids) l l' → no_free l → no_free l'.
Proof.
  intros Hl Hf. unfold no_free in *. induction Hl as [|s s' l l' Ha Hl IH]; [done|].
  apply Forall_cons in Hf as [Hp Hf]. constructor; [|auto].
  destruct Ha as [->|(Hc & _)]; [done|]. destruct Hp. by rewrite Hc.
Qed.

Lemma added_trans want ids ids' l1 l2 l3 :
  (∀ x, x ∈ ids → x ∈ ids') →
  Forall2 (added want ids') l1 l2 → Forall2 (added want ids) l2 l3 → Forall2 (added want ids') l1 l3.
Proof.
  intros Hsub H12. revert l3. induction H12 as [|s1 s2 l1 l2 Ha H12 IH]; intros l3 H23.
  - by apply Forall2_nil_inv_l in H23 as ->.
  - apply Forall2_cons_inv_l in H23 as (s3 & l3' & Hb & H23 & ->). constructor; [|auto].
    destruct Hb as [->|(Hc & cid & b & h & Hin & Hw & ->)]; [done|].
    destruct Ha as [->|(Hc1 & cid1 & b1 & h1 & _ & _ & ->)].
    + right. split; [done|]. exists cid, b, h. auto.
    + discriminate Hc.
Qed.

Lemma added_owners want ids l l' cid : Forall2 (added want ids) l l' → cid ∈ owners l → cid ∈ owners l'.
Proof.
  rewrite !elem_of_owners. intros Hl (s & Hin & Ho).
  apply list_elem_of_lookup in Hin as [i Hi]. destruct (Forall2_lookup_l _ _ _ _ _ Hl Hi) as (s' & Hi' & Ha).
  exists s'. split; [by eapply list_elem_of_lookup_2|].
  destruct Ha as [->|(Hc & _)]; [done|]. by rewrite Hc in Ho.
Qed.

Lemma take_slot want n l s cid b h :
  slots_ok n l → s ∈ l → s = clear (s_n s) → ¬ cid ∈ owners l → dict_get want cid = Some b →
  let s' := set_killed false (set_phase Starting (set_config (Some (db_cfg b))
              (set_handle (Some h) (set_owner (Some cid) s)))) in
  slots_ok n (put_slot s' l) ∧ Forall2 (added want [cid]) l (put_slot s' l) ∧
  owners (put_slot s' l) ≡ₚ cid :: owners l.
Proof.
  intros [Hn Hs Ho] Hin Hc Hcid Hb s'.
  apply list_elem_of_split in Hin as (l1 & l2 & ->).
  rewrite (put_slot_split _ _ _ s') by (eauto using numbers_NoDup).
  assert (owners (l1 ++ s' :: l2) ≡ₚ cid :: owners (l1 ++ s :: l2)) as Hp
    by (apply owners_put; [by rewrite Hc|done]).
  split_and!; [split| |done].
  - rewrite <- Hn, !fmap_app, !fmap_cons. done.
  - apply Forall_app in Hs as [Hs1 [_ Hs2]%Forall_cons]. apply Forall_app. split; [done|].
    constructor; [|done]. subst s'. rewrite Hc. unfold slot_ok. cbn. naive_solver.
  - rewrite Hp. by constructor.
  - apply Forall2_app; [apply added_refl|]. constructor; [|apply added_refl]. right. split; [done|].
    exists cid, b, h. split_and!; [set_solver|done|]. subst s'. by rewrite Hc.
Qed.

Lemma add_slots_ok want now ids n (w : add_loop) e :
  slots_ok n (al_slots w) → memory_ok n (al_memory w) → NoDup ids →
  (∀ cid, cid ∈ ids → is_Some (dict_get want cid)) →
  wp (add_slots want now ids w) (λ w' _,
    slots_ok n (al_slots w') ∧ memory_ok n (al_memory w') ∧
    Forall2 (added want ids) (al_slots w) (al_slots w') ∧
    (∀ cid, cid ∈ ids → cid ∈ owners (al_slots w') ∨ cid ∈ al_pending w') ∧
    (∀ cid, cid ∈ owners (al_slots w') → cid ∈ owners (al_slots w) ∨ cid ∈ ids) ∧
    (∀ cid, cid ∈ al_pending w → cid ∈ al_pending w') ∧
    (∀ cid, cid ∈ al_pending w' →
       cid ∈ al_pending w ∨ cid ∈ ids ∧ ¬ cid ∈ owners (al_slots w') ∧ no_free (al_slots w'))) e.
Proof.
  revert w e. induction ids as [|cid ids IH]; intros w e Hok Hm Hd Hw.
  { apply wp_ret. split_and!; [done|done|apply added_refl|set_solver|naive_solver|naive_solver|naive_solver]. }
  apply NoDup_cons in Hd as [Hcid Hd].
  assert (∀ c, c ∈ ids → is_Some (dict_get want c)) as Hw' by set_solver.
  cbn [add_slots]. destruct (find_owner cid (al_slots w)) as [s|] eqn:Hf.
  { apply find_owner_Some in Hf as [Hin Ho]. eapply wp_mono; [by apply IH|].
    intros w' e' _ (? & ? & Ha & ? & ? & ? & ?). split_and!; [done|done| | |set_solver|done|set_solver].
    - eapply added_trans, Ha; [set_solver|apply added_refl].
    - intros c [->|Hc]%elem_of_cons; [|auto]. left. eapply added_owners; [done|]. apply elem_of_owners. eauto. }
  apply find_owner_None in Hf. apply wp_bind.
  destruct (choose_slot_ok n cid w Hok Hm) as (o & -> & Ho). apply wp_lift. destruct o as [s|].
  - destruct Ho as [Hin Hc]. destruct (Hw cid) as [b Hb]; [set_solver|]. rewrite Hb.
    apply wp_bind, wp_lift, wp_bind, _spawn_wp. intros h e1.
    destruct (take_slot want n _ s cid b h Hok Hin Hc Hf Hb) as (Hok1 & Ha1 & Hp).
    eapply wp_mono; [apply IH; [done| |done|done]|].
    { cbn [al_memory]. apply map_Forall_insert_2; [|done]. cbn. eapply numbers_range; [apply Hok|].
      apply list_elem_of_fmap. eauto. }
    cbn [al_slots al_pending]. intros w' e' _ (? & ? & Ha & Hall & Hnew & ? & Hpend).
    split_and!; [done|done| | | |done|].
    + eapply added_trans, Ha; [set_solver|]. eapply Forall2_impl; [done|]. unfold added. set_solver.
    + intros c [->|Hc']%elem_of_cons; [|auto]. left. eapply added_owners; [done|]. rewrite Hp. set_solver.
    + intros c Hc'%Hnew. rewrite Hp in Hc'. set_solver.
    + set_solver.
  - eapply wp_mono; [by apply IH|]. cbn [al_slots al_pending].
    intros w' e' _ (? & ? & Ha & Hall & Hnew & Hkeep & Hpend).
    split_and!; [done|done| | |set_solver|set_solver|].
    + eapply added_trans, Ha; [set_solver|apply added_refl].
    + intros c [->|Hc']%elem_of_cons; [|auto]. right. apply Hkeep. set_solver.
    + intros c [[Hc|<-%list_elem_of_singleton]%elem_of_app|Hc]%Hpend; [by left| |set_solver].
      right. split_and!; [set_solver| |by eapply added_no_free].
      intros [Hin|Hin]%Hnew; tauto.
Qed.

(** ** The clients *)

Definition indices (cs : dict ClientRec) : list Z := c_index ∘ snd <$> cs.

Definition index_ok (i : Z) : Prop := 0 ≤ i < MAX_CLIENT_SLOTS.

(** Distinct clients have distinct indices, that is source addresses, below the
    number of them. *)
Record clients_ok (cs : dict ClientRec) (m : gmap string Z) : Prop := {
  ok_keys : NoDup (keys cs);
  ok_indices : NoDup (indices cs);
  ok_range : Forall index_ok (indices cs);
  ok_memory : map_Forall (λ _ i, index_ok i) m;
}.

Record loop_ok (w : client_loop) : Prop := {
  lo_clients : clients_ok (cl_clients w) (cl_memory w);
  lo_used : ∀ i, i ∈ cl_used w ↔ i ∈ indices (cl_clients w);
}.

(** A client's process has the wanted configuration and load. *)
Definition current (load : bool) (c : desired_client) (rec : ClientRec) : Prop :=
  is_Some (c_handle rec) ∧ c_config rec = Some (dc_cfg c) ∧ c_enabled rec = Some (load && dc_connected c).

Lemma drop_clients_wp want cs e :
  wp (drop_clients want cs) (λ cs' _, cs' = filter (λ p, is_Some (dict_get want p.1)) cs) e.
Proof.
  revert e. induction cs as [|[cid rec] cs IH]; intros e; cbn [drop_clients]; [by apply wp_ret|].
  destruct (dict_get want cid) as [c|] eqn:Hc; rewrite ?filter_cons; cbn.
  - rewrite decide_True by done. apply wp_bind. eapply wp_mono; [apply IH|]. intros cs' e' _ ->. by apply wp_ret.
  - rewrite decide_False by (intros [??]; congruence). apply wp_bind, wp_do. apply IH.
Qed.

Lemma clients_ok_filter cs m (P : string * ClientRec → Prop) `{∀ p, Decision (P p)} :
  clients_ok cs m → clients_ok (filter P cs) m.
Proof.
  intros [Hk Hi Hr Hm].
  pose proof (sublist_filter P cs) as Hsub. split; [| | |done].
  - eapply sublist_NoDup; [exact Hk|]. by apply fmap_sublist.
  - eapply sublist_NoDup; [exact Hi|]. by apply fmap_sublist.
  - rewrite Forall_forall in Hr |- *. intros i Hin. apply Hr. by eapply elem_of_sublist, fmap_sublist.
Qed.

Lemma free_index (used ixs : list Z) :
  filter (λ i, ¬ i ∈ used) (Z.of_nat <$> seq 0 (Z.to_nat MAX_CLIENT_SLOTS)) = [] →
  (∀ i, i ∈ used → i ∈ ixs) → (4 ≤ length ixs)%nat.
Proof.
  intros Hf Hsub. change 4%nat with (length (Z.of_nat <$> seq 0 (Z.to_nat MAX_CLIENT_SLOTS))).
  apply submseteq_length, NoDup_submseteq.
  - apply NoDup_fmap_2; [apply _|apply NoDup_seq].
  - intros i Hi. apply Hsub. destruct (decide (i ∈ used)) as [|Hn]; [done|].
    assert (i ∈ filter (λ i, ¬ i ∈ used) (Z.of_nat <$> seq 0 (Z.to_nat MAX_CLIENT_SLOTS))) as Hin
      by (by apply list_elem_of_filter).
    rewrite Hf in Hin. by apply not_elem_of_nil in Hin.
Qed.

Lemma indices_set_fresh cs cid rec : ¬ cid ∈ keys cs → indices (dict_set cs cid rec) = indices cs ++ [c_index rec].
Proof. intros Hc. unfold indices. by rewrite dict_set_fresh, fmap_app. Qed.

Lemma indices_set cs cid rec rec' :
  dict_get cs cid = Some rec → c_index rec' = c_index rec → indices (dict_set cs cid rec') = indices cs.
Proof.
  intros Hg Hi. unfold indices. induction cs as [|[k x] cs IH]; cbn in *; [done|].
  case_decide; simplify_eq/=; f_equal; auto.
Qed.

(** Every client gets an index, as long as there are enough for all. *)
Lemma client_rec_ok cid (w : client_loop) :
  loop_ok w →
  match client_rec cid w with
  | Some (rec, w') =>
      loop_ok w' ∧ dict_get (cl_clients w') cid = Some rec ∧
      (∀ k, k ≠ cid → dict_get (cl_clients w') k = dict_get (cl_clients w) k)
  | None => dict_get (cl_clients w) cid = None ∧ (4 ≤ length (cl_clients w))%nat
  end.
Proof.
  intros [Hc Hu]. unfold client_rec. destruct (dict_get (cl_clients w) cid) as [rec|] eqn:Hg; [done|].
  pose proof (proj1 (dict_get_None _ _) Hg) as Hk.
  assert (∀ idx, ¬ idx ∈ cl_used w → index_ok idx →
    loop_ok {| cl_clients := dict_set (cl_clients w) cid (new_client cid idx); cl_used := idx :: cl_used w;
               cl_memory := <[cid := idx]> (cl_memory w) |}) as Hfresh.
  { intros idx Hidx Hr. destruct Hc as [H1 H2 H3 H4]. split; [split|]; cbn [cl_clients cl_used cl_memory].
    - by apply NoDup_keys_set.
    - rewrite indices_set_fresh by done. apply NoDup_app. split_and!; [done| |apply NoDup_singleton].
      intros i Hi ->%list_elem_of_singleton. by apply Hidx, Hu.
    - rewrite indices_set_fresh by done. apply Forall_app; split; [done|]. by apply Forall_singleton.
    - by apply map_Forall_insert_2.
    - intros i. rewrite indices_set_fresh by done. rewrite elem_of_cons, elem_of_app, list_elem_of_singleton, Hu. cbn. tauto. }
  assert (∀ idx, dict_get (dict_set (cl_clients w) cid (new_client cid idx)) cid = Some (new_client cid idx)
    ∧ ∀ k, k ≠ cid → dict_get (dict_set (cl_clients w) cid (new_client cid idx)) k = dict_get (cl_clients w) k) as Hget.
  { intros idx. split; [|intros k Hne]; rewrite dict_get_set;
      [by rewrite decide_True|by rewrite decide_False]. }
  destruct (filter _ _) as [|i l] eqn:Hf.
  - assert (4 ≤ length (cl_clients w))%nat.
    { apply (free_index _ (indices (cl_clients w))) in Hf; [|apply Hu]. unfold indices in Hf. by rewrite length_fmap in Hf. }
    destruct (cl_memory w !! cid) as [idx|] eqn:Hm; [case_decide|]; try done.
    split; [|apply Hget]. apply Hfresh; [done|]. by eapply ok_memory.
  - assert (i ∈ filter (λ i, ¬ i ∈ cl_used w) (Z.of_nat <$> seq 0 (Z.to_nat MAX_CLIENT_SLOTS))) as Hi
      by (rewrite Hf; left).
    apply list_elem_of_filter in Hi as [Hi Hin]. apply list_elem_of_fmap in Hin as (j & -> & Hj%elem_of_seq).
    assert (index_ok (Z.of_nat j)) by (unfold index_ok, MAX_CLIENT_SLOTS in *; lia).
    destruct (cl_memory w !! cid) as [idx|] eqn:Hm; [case_decide|];
      (split; [|apply Hget]); apply Hfresh; try done. by eapply ok_memory.
Qed.

Lemma refresh_client_wp cid c load now rec e :
  wp (refresh_client cid (dc_cfg c) (load && dc_connected c) now rec)
    (λ rec' _, current load c rec' ∧ c_index rec' = c_index rec) e.
Proof.
  unfold refresh_client, current. apply wp_bind.
  apply (wp_mono _ (λ a _, a = true → is_Some (c_handle rec))).
  { destruct (c_handle rec) as [h|]; repeat wp_step; naive_solver. }
  intros a e1 _ Ha. destruct rec as [ci ix h cf en]; cbn in *. destruct a; cbn.
  - repeat wp_step; cbn in *; naive_solver.
  - repeat wp_step; cbn in *; naive_solver.
Qed.

Lemma loop_ok_set (w : client_loop) cid rec rec' :
  loop_ok w → dict_get (cl_clients w) cid = Some rec → c_index rec' = c_index rec →
  loop_ok {| cl_clients := dict_set (cl_clients w) cid rec'; cl_used := cl_used w; cl_memory := cl_memory w |}.
Proof.
  intros [[H1 H2 H3 H4] Hu] Hg Hi. pose proof (indices_set _ _ _ _ Hg Hi) as Hix.
  split; [split|]; cbn [cl_clients cl_used cl_memory]; rewrite ?Hix; try done.
  by apply NoDup_keys_set.
Qed.

Lemma want_clients_ok load now want K (w : client_loop) e :
  loop_ok w → NoDup (keys want) → (∀ k, k ∈ keys want → k ∈ K) → (∀ k, k ∈ keys (cl_clients w) → k ∈ K) →
  wp (want_clients load now want w) (λ w' _,
    loop_ok w' ∧ (∀ k, k ∈ keys (cl_clients w') → k ∈ K) ∧
    (∀ k, ¬ k ∈ keys want → dict_get (cl_clients w') k = dict_get (cl_clients w) k) ∧
    (∀ k c, dict_get want k = Some c →
       (∃ rec, dict_get (cl_clients w') k = Some rec ∧ current load c rec) ∨
       dict_get (cl_clients w') k = None ∧ (5 ≤ length K)%nat)) e.
Proof.
  revert w e. induction want as [|[cid c] want IH]; intros w e Hok Hd HK Hw.
  { by apply wp_ret. }
  apply NoDup_cons in Hd as [Hcid Hd]. cbn [want_clients].
  assert (cid ∈ K ∧ ∀ k, k ∈ keys want → k ∈ K) as [HcK HK'] by (unfold keys in *; csimpl in HK; set_solver).
  pose proof (client_rec_ok cid w Hok) as Hrec.
  destruct (client_rec cid w) as [[rec w1]|].
  - destruct Hrec as (Hok1 & Hg & Hkeep). apply wp_bind. eapply wp_mono; [apply refresh_client_wp|].
    intros rec' e1 _ [Hcur Hix]. cbv beta.
    eapply wp_mono; [apply IH; [by eapply loop_ok_set|done|done|]|]; cbn [cl_clients].
    + intros k. rewrite elem_of_keys_set, <- dict_get_is_Some. intros [->|Hk]; [done|].
      destruct (decide (k = cid)) as [->|Hne]; [done|]. rewrite Hkeep in Hk by done.
      by apply Hw, dict_get_is_Some.
    + intros w' e' _ (Hok' & HwK & Hout & Hin). split_and!; [done|done| |].
      * intros k Hk. unfold keys in Hk. csimpl in Hk. rewrite elem_of_cons in Hk.
        rewrite Hout, dict_get_set, decide_False by tauto. apply Hkeep. tauto.
      * intros k c'. cbn [dict_get]. case_decide as Hk; [|apply Hin]. intros [= ->]. subst k.
        left. exists rec'. by rewrite Hout, dict_get_set, decide_True by done.
  - destruct Hrec as [Hg Hlen]. eapply wp_mono; [by apply IH|].
    intros w' e' _ (Hok' & HwK & Hout & Hin). split_and!; [done|done| |].
    + intros k Hk. unfold keys in Hk. csimpl in Hk. rewrite elem_of_cons in Hk. apply Hout. tauto.
    + intros k c'. cbn [dict_get]. case_decide as Hk; [|apply Hin]. intros [= ->]. subst k. right.
      rewrite Hout by done. split; [done|]. trans (length (cid :: keys (cl_clients w))).
      * unfold keys. cbn. rewrite length_fmap. lia.
      * apply submseteq_length, NoDup_submseteq.
        -- constructor; [by apply dict_get_None|]. apply Hok.
        -- intros k [->|Hk]%elem_of_cons; auto.
Qed.

(** ** The invariant of the machine *)

Record reconciler_ok (n : nat) (r : Reconciler) : Prop := {
  ok_backend_slots : slots_ok n (slots r);
  ok_slot_memory : memory_ok n (slot_memory r);
  ok_clients : clients_ok (clients r) (client_memory r);
}.

Lemma init_ok n : reconciler_ok n (init n).
Proof.
  split; [|apply map_Forall_empty|split; [constructor..|apply map_Forall_empty]].
  cbn. split.
  - induction (Z.of_nat <$> seq 1 n) as [|k ks IH]; [done|]. cbn. by f_equal.
  - apply Forall_fmap, Forall_true. by unfold slot_ok.
  - assert (owners (clear <$> (Z.of_nat <$> seq 1 n)) = []) as ->; [|constructor].
    unfold owners. induction (Z.of_nat <$> seq 1 n); [done|]. by cbn.
Qed.

Definition load_of (r : Reconciler) : bool := d_loadEnabled (desired r) && negb (load_suppressed r).

(** A step of the clients: exactly wanted clients remain; each has a process that
    is up to date, unless there are more of them than indices. *)
Lemma step_clients_ok n now r e :
  reconciler_ok n r →
  wp (_step_clients now r) (λ r' _,
    reconciler_ok n r' ∧ slots r' = slots r ∧ slot_memory r' = slot_memory r ∧ desired r' = desired r ∧
    load_suppressed r' = load_suppressed r ∧
    (∀ k, k ∈ keys (clients r') → k ∈ keys (desired_clients (desired r))) ∧
    (∀ k c, dict_get (desired_clients (desired r)) k = Some c →
       (∃ rec, dict_get (clients r') k = Some rec ∧ current (load_of r) c rec) ∨
       dict_get (clients r') k = None ∧ (5 ≤ length (keys (desired_clients (desired r))))%nat)) e.
Proof.
  intros [Hs Hm Hc]. unfold _step_clients. apply wp_bind. eapply wp_mono; [apply drop_clients_wp|].
  intros cs e1 _ ->. apply wp_bind. eapply wp_mono.
  { apply (want_clients_ok _ _ _ (keys (desired_clients (desired r)))).
    - split; [by apply clients_ok_filter|done].
    - apply NoDup_dict_of.
    - done.
    - cbn [cl_clients]. intros k Hk. apply list_elem_of_fmap in Hk as ([k' rec] & -> & Hk).
      apply list_elem_of_filter in Hk as [Hk _]. by apply dict_get_is_Some. }
  intros w' e2 _ (Hw & HK & _ & Hin). apply wp_ret. split_and!; try done. by split; [..|apply Hw].
Qed.

Lemma active_wanted (want : dict desired_backend) cid : cid ∈ active_of want → is_Some (dict_get want cid).
Proof.
  unfold active_of. intros (p & -> & [_ Hp]%list_elem_of_filter)%list_elem_of_fmap.
  apply dict_get_is_Some, list_elem_of_fmap. eauto.
Qed.

Lemma NoDup_active (want : dict desired_backend) : NoDup (keys want) → NoDup (active_of want).
Proof. intros Hd. eapply sublist_NoDup; [exact Hd|]. apply fmap_sublist, sublist_filter. Qed.

Lemma progress_slots n l l' :
  slots_ok n l →
  Forall2 (λ s s', slot_ok s' ∧ s_n s' = s_n s ∧ (s_owner s' = s_owner s ∨ s_owner s' = None ∧ s_phase s = Stopping)) l l' →
  slots_ok n l' ∧ owners l' `sublist_of` owners l.
Proof.
  intros [Hn _ Ho] Hl.
  assert (s_n <$> l' = s_n <$> l ∧ Forall slot_ok l' ∧ owners l' `sublist_of` owners l) as (Hn' & Hs' & Ho').
  { clear Hn Ho. unfold owners. induction Hl as [|s s' l l' (? & ? & Heq) Hl (? & ? & IH)]; [done|].
    cbn. split_and!; [by f_equal|by constructor|].
    destruct Heq as [->|[-> _]]; destruct (s_owner s); cbn;
      first [done|by apply sublist_skip|by apply sublist_cons]. }
  split; [split|done]; [congruence|done|]. by eapply sublist_NoDup.
Qed.

(** What a step of the backends does, in its three passes. *)
Definition three_passes (n : nat) (now : Z) (lb : gmap Z obs) (r r' : Reconciler) (e0 e' : @env T Ex) : Prop :=
  let want := desired_backends (desired r) in
  let ids := sorted (active_of want) in
  ∃ l1 w e1 e2,
    mapM (remove_slot (active_of want) now) (slots r) e0 = Ok (l1, e1) ∧
    add_slots want now ids {| al_slots := l1; al_memory := slot_memory r; al_pending := [] |} e1 = Ok (w, e2) ∧
    mapM (progress_slot want lb now) (al_slots w) e2 = Ok (slots r', e') ∧ rtc prim e1 e2 ∧
    slots_ok n l1 ∧ owners l1 = owners (slots r) ∧
    slots_ok n (al_slots w) ∧ Forall2 (added want ids) l1 (al_slots w) ∧
    (∀ cid, cid ∈ ids → cid ∈ owners (al_slots w) ∨ cid ∈ pending r') ∧
    (∀ cid, cid ∈ pending r' → cid ∈ ids ∧ ¬ cid ∈ owners (al_slots w) ∧ no_free (al_slots w)) ∧
    owners (slots r') `sublist_of` owners (al_slots w).

Lemma step_backends_ok n now lb r e :
  reconciler_ok n r →
  wp (_step_backends now lb r) (λ r' e',
    reconciler_ok n r' ∧ clients r' = clients r ∧ desired r' = desired r ∧
    load_suppressed r' = load_suppressed r ∧ three_passes n now lb r r' e e') e.
Proof.
  intros [Hs Hm Hc]. set (want := desired_backends (desired r)).
  assert (NoDup (active_of want)) as Hd by apply NoDup_active, NoDup_dict_of.
  destruct (wp_mapM (remove_slot (active_of want) now) slot_ok same_owner (slots r) e e) as (l1 & e1 & Hl1 & Hp1 & Hl);
    [done|intros; by apply remove_slot_ok|done|apply Hs|].
  destruct (same_owner_slots n _ _ _ Hs Hl) as [Hok1 Ho1].
  destruct (add_slots_ok want now (sorted (active_of want)) n
    {| al_slots := l1; al_memory := slot_memory r; al_pending := [] |} e1)
    as (w & e2 & Hw & Hp2 & Hok2 & Hm2 & Ha & Hall & _ & _ & Hpend);
    [done|done|by apply NoDup_sorted|intros cid; rewrite elem_of_sorted; apply active_wanted|].
  destruct (wp_mapM (progress_slot want lb now) slot_ok (λ s s' _, slot_ok s' ∧ s_n s' = s_n s ∧
      (s_owner s' = s_owner s ∨ s_owner s' = None ∧ s_phase s = Stopping)) (al_slots w) e2 e2)
    as (l3 & e3 & Hl3 & Hp3 & Hl'); [done|intros; by apply progress_slot_ok|done|apply Hok2|].
  destruct (progress_slots n _ _ Hok2 Hl') as [Hok3 Hsub].
  unfold _step_backends. cbv zeta. fold want.
  apply wp_bind. exists l1, e1. split_and!; [done|done|].
  apply wp_bind. exists w, e2. split_and!; [done|done|].
  apply wp_bind. exists l3, e3. split_and!; [done|done|].
  apply wp_ret. split_and!; [by split|done..|].
  exists l1, w, e1, e2. cbn. fold want. split_and!; try done. intros cid Hcid%Hpend. set_solver.
Qed.

(** Three passes over the slots follow the step of the clients. *)
Lemma step_passes n now lb r e :
  reconciler_ok n r →
  ∃ r' e' r1 e1, step now lb r e = Ok (r', e') ∧ reconciler_ok n r' ∧ desired r' = desired r ∧
    load_suppressed r' = load_suppressed r ∧ rtc prim e e1 ∧ rtc prim e1 e' ∧
    slots r1 = slots r ∧ desired r1 = desired r ∧ three_passes n now lb r1 r' e1 e'.
Proof.
  intros Hr. destruct (step_clients_ok n now r e Hr) as (r1 & e1 & Hc & Hp1 & Hr1 & Hs1 & _ & Hd1 & Hl1 & _).
  destruct (step_backends_ok n now lb r1 e1 Hr1) as (r2 & e2 & Hb & Hp2 & Hr2 & _ & Hd2 & Hl2 & Hpass).
  exists r2, e2, r1, e1. split_and!; try done; [|congruence..]. unfold step, mbind, M_bind. by rewrite Hc.
Qed.

Lemma step_ok n now lb r e : reconciler_ok n r → wp (step now lb r) (λ r' _, reconciler_ok n r') e.
Proof.
  intros Hr. destruct (step_passes n now lb r e Hr) as (r' & e' & r1 & e1 & Hs & Hr' & _ & _ & H1 & H2 & _).
  exists r', e'. split_and!; [done|by trans e1|done].
Qed.

Lemma set_slots_ok n l r : slots_ok n l → reconciler_ok n r → reconciler_ok n (set_slots l r).
Proof. intros Hl [_ Hm Hc]. by split. Qed.

Lemma find_owner_put n l cid s s' e :
  slots_ok n l → find_owner cid l = Some s → same_owner s s' e → slots_ok n (put_slot s' l).
Proof.
  intros Hok [Hin Ho]%find_owner_Some Hs. apply list_elem_of_split in Hin as (l1 & l2 & ->).
  rewrite (put_slot_split l1 s l2 s') by (apply Hs || eapply numbers_NoDup, Hok).
  pose proof (ok_slots _ _ Hok) as [Hl1 [_ Hl2]%Forall_cons]%Forall_app.
  assert (∀ k, Forall slot_ok k → Forall2 (λ s s', same_owner s s' e) k k) as Hrefl.
  { intros k Hk. induction Hk; by constructor. }
  eapply same_owner_slots; [done|]. apply Forall2_app; [|constructor]; auto.
Qed.

Lemma action_ok n cid k now r e :
  reconciler_ok n r →
  action cid k now r e = Raise ActionError ∨ wp (action cid k now r) (λ r' _, reconciler_ok n r') e.
Proof.
  intros Hr. unfold action, slot_of. destruct (find_owner cid (slots r)) as [s|] eqn:Hf; [|by left].
  destruct (dict_get _ _); [|by left]. destruct (s_removing s) eqn:Hrm; [by left|]. right.
  pose proof (find_owner_Some _ _ _ Hf) as [Hin Ho]. pose proof (ok_backend_slots _ _ Hr) as Hok.
  apply wp_bind. eapply wp_mono.
  { apply act_on_ok; [|congruence|done]. pose proof (ok_slots _ _ Hok) as Hall. rewrite Forall_forall in Hall. auto. }
  intros s' e' _ Hs'. apply wp_ret. apply set_slots_ok; [|done]. by eapply find_owner_put.
Qed.

Lemma reset_ok n now r e : reconciler_ok n r → wp (reset now r) (λ r' _, reconciler_ok n r') e.
Proof.
  intros Hr. unfold reset. apply wp_bind. eapply wp_mono.
  { apply (wp_mapM _ slot_ok same_owner _ e); [done|intros; by apply reset_slot_ok|done|].
    apply Hr. }
  intros l e1 _ Hl. apply wp_bind. eapply wp_mono.
  { apply (wp_mapM _ (λ _, True) (λ _ _ _, True) _ e1); [done| |done|by apply Forall_true].
    intros [k rec] e2 _ _. unfold reset_client. repeat wp_step; done. }
  intros _ e2 _ _. apply wp_ret, set_slots_ok; [|done]. apply (same_owner_slots n (slots r) l e1); [apply Hr|exact Hl].
Qed.

Lemma handle_ok n i r e :
  reconciler_ok n r → ∃ r' e', handle i r e = Ok (r', e') ∧ reconciler_ok n r'.
Proof.
  intros Hr. assert (∀ m : M Reconciler, wp m (λ r' _, reconciler_ok n r') e →
    ∃ r' e', m e = Ok (r', e') ∧ reconciler_ok n r') as Hwp by (intros m (r' & e' & ? & _ & ?); eauto).
  destruct i as [d now lb|cid k now now' lb|now|b now lb|]; cbn [handle].
  - apply Hwp, step_ok. destruct Hr. by split.
  - unfold apply_action, mbind, M_bind. destruct (action_ok n cid k now r e Hr) as [->|(r1 & e1 & -> & _ & Hr1)]; [eauto|].
    destruct (step_ok n now' lb r1 e1 Hr1) as (r2 & e2 & -> & _ & Hr2). eauto.
  - by apply Hwp, reset_ok.
  - apply Hwp, step_ok. destruct Hr. by split.
  - eexists r, _. done.
Qed.

Lemma run_ok n (l : list ((Ex → Ex) * input)) r e :
  reconciler_ok n r → ∃ r' e', run l r e = Ok (r', e') ∧ reconciler_ok n r'.
Proof.
  revert r e. induction l as [|[f i] l IH]; intros r e Hr.
  - by exists r, e.
  - cbn [run]. unfold mbind at 1, M_bind at 1. cbn [elapse].
    destruct (handle_ok n i r {| e_ex := f (e_ex e); e_trace := e_trace e; e_events := e_events e |} Hr)
      as (r1 & e1 & Hi & Hr1).
    unfold mbind, M_bind. rewrite Hi. by apply IH.
Qed.

End Spec.
