(* ===== verification/ReconcilerSpec.v ===== *)
(** * What the reconciler guarantees

    Where backends are placed, that a slot is only freed when its process is gone
    and maglev-lb has marked it down, that a removed backend's slot is freed, that
    a settled state stays as it is; and three ways in which the lifecycle departs
    from what its comment promises. *)

From Stdlib Require Import Lia String.
From stdpp Require Import base numbers list strings gmap.
From S2P Require Import Python Reconciler ReconcilerInv.

Local Open Scope Z_scope.

Section Spec.
Context {T : Types} {Ex : Type} {X : Executor Ex}.
Implicit Types (s : Slot) (l : list Slot) (n : nat) (r : Reconciler) (e : @env T Ex).

(** ** Following one slot through a step *)

(** The trace only grows. *)
Lemma prim_trace e e' : rtc prim e e' → ∃ tr, e_trace e' = e_trace e ++ tr.
Proof.
  induction 1 as [e|e e1 e2 H1 _ [tr IH]]; [exists []; by rewrite app_nil_r|].
  rewrite IH. destruct H1; cbn; eexists; by rewrite <- ?app_assoc, ?app_nil_l.
Qed.

(** An iteration of a loop that raises nothing. *)
Lemma mapM_lookup {A B} (f : A → M B) (P : A → Prop) (l0 : list A) (l' : list B) i x e e' :
  (∀ x e, P x → wp (f x) (λ _ _, True) e) → Forall P l0 → mapM f l0 e = Ok (l', e') → l0 !! i = Some x →
  ∃ y e1 e2, rtc prim e e1 ∧ f x e1 = Ok (y, e2) ∧ rtc prim e2 e' ∧ l' !! i = Some y.
Proof.
  intros Hf Hl. revert l' i e. induction Hl as [|x0 l0 Hx0 Hl IH]; intros l' i e Hm Hi; [done|].
  cbn [mapM] in Hm. unfold mbind at 1, M_bind at 1 in Hm.
  destruct (Hf x0 e Hx0) as (y0 & e1 & Hy & Hp & _). rewrite Hy in Hm.
  unfold mbind at 1, M_bind at 1 in Hm.
  destruct (wp_mapM f P (λ _ _ _, True) l0 e1 e1) as (k & e2 & Hk & Hp2 & _); [done|intros; by apply Hf|done|done|].
  rewrite Hk in Hm. injection Hm as <- <-. destruct i as [|i].
  - injection Hi as <-. exists y0, e, e1. done.
  - destruct (IH k i e1 Hk Hi) as (y & e3 & e4 & ? & ? & ? & ?). exists y, e3, e4.
    split_and!; try done. by etrans.
Qed.

(** A slot that has an owner: the step removes, or not, and then advances it. *)
Definition slot_step now lb r s s' e e' : Prop :=
  let want := desired_backends (desired r) in
  ∃ s1 e1 e2 e3 e4,
    rtc prim e e1 ∧ remove_slot (active_of want) now s e1 = Ok (s1, e2) ∧
    rtc prim e e3 ∧ progress_slot want lb now s1 e3 = Ok (s', e4) ∧ rtc prim e4 e' ∧ rtc prim e2 e3.

Lemma step_slot n now lb r r' e e' i s :
  reconciler_ok n r → step now lb r e = Ok (r', e') → slots r !! i = Some s → s_owner s ≠ None →
  ∃ s', slots r' !! i = Some s' ∧ slot_step now lb r s s' e e'.
Proof.
  intros Hr Hstep Hi Ho.
  destruct (step_passes n now lb r e Hr) as (r2 & e2 & r1 & e1 & Heq & _ & _ & _ & Hp1 & _ & Hs1 & Hd1 & Hpass).
  rewrite Hstep in Heq. injection Heq as <- <-.
  destruct Hpass as (l1 & w & ea & eb & Ha & Hw & Hpr & Hpw & Hok1 & _ & Hok2 & Hadd & _).
  rewrite Hs1, Hd1 in *.
  apply (mapM_lookup _ slot_ok _ _ i s) in Ha as (s1 & e3 & e4 & Q1 & Hrm & Q2 & Hi1);
    [|intros; eapply wp_mono; [by apply remove_slot_ok|done]|apply Hr|done].
  destruct (Forall2_lookup_l _ _ _ _ _ Hadd Hi1) as (s2 & Hi2 & Ha2).
  assert (s_owner s1 = s_owner s) as Ho1.
  { destruct (remove_slot_ok (active_of (desired_backends (desired r))) now s e3) as (x & y & Hx & _ & _ & _ & Hox).
    - pose proof (ok_slots _ _ (ok_backend_slots _ _ Hr)) as Hall. by eapply Forall_lookup_1.
    - congruence. }
  assert (rtc prim e3 e4) as He34.
  { destruct (remove_slot_ok (active_of (desired_backends (desired r))) now s e3) as (x & y & Hx & Hp & _).
    - pose proof (ok_slots _ _ (ok_backend_slots _ _ Hr)) as Hall. by eapply Forall_lookup_1.
    - congruence. }
  assert (s2 = s1) as ->.
  { destruct Ha2 as [->|(Hc2 & _)]; [done|]. rewrite Hc2 in Ho1. cbn in Ho1. congruence. }
  apply (mapM_lookup _ slot_ok _ _ i s1) in Hpr as (s3 & e5 & e6 & Q3 & Hprs & Q4 & Hi3);
    [|intros; eapply wp_mono; [by apply progress_slot_ok|done]|apply Hok2|done].
  exists s3. split; [done|]. exists s1, e3, e4, e5, e6. split_and!; try done.
  - by trans e1.
  - trans e1; [done|]. trans e3; [done|]. trans e4; [done|]. trans ea; [done|]. by trans eb.
  - trans ea; [done|]. by trans eb.
Qed.

(** ** When a slot is freed *)

Definition reported_up (lb : gmap Z obs) (id : Z) : bool := default false (lb !! id ≫= ob_up).

(** Among the calls made from [e] to [e']. *)
Definition called (a : act) e e' : Prop := ∃ tr, e_trace e' = e_trace e ++ tr ∧ a ∈ tr.

Lemma called_mono a e0 e1 e2 e3 : rtc prim e0 e1 → called a e1 e2 → rtc prim e2 e3 → called a e0 e3.
Proof.
  intros [t1 H1]%prim_trace (t2 & H2 & Ha) [t3 H3]%prim_trace. exists (t1 ++ t2 ++ t3).
  rewrite H3, H2, H1, <- !app_assoc. split; [done|]. set_solver.
Qed.

Lemma stop_slot_freed o up a now s e :
  slot_ok s → s_owner s ≠ None → s_phase s = Stopping →
  wp (stop_slot o up a now s) (λ s' e', s_owner s' = None →
    a = false ∧ up = false ∧ s' = clear (s_n s) ∧ called (Do (Admin UNDRAIN (lb_id s))) e e') e.
Proof.
  intros Hs Ho Hp. destruct a; [|destruct up]; unfold stop_slot; cbn [negb andb].
  - apply wp_bind, wp_bind, wp_not_none.
    { unfold slot_ok in Hs. destruct (s_owner s); naive_solver. }
    intros t Ht. case_decide; repeat wp_step; done.
  - repeat wp_step. done.
  - apply wp_bind, wp_ret, wp_bind, wp_do, wp_bind. destruct (s_partitioned s); repeat wp_step; intros _;
      (split_and!; [done..|]); eexists; cbn; (split; [by rewrite <- ?app_assoc|set_solver]).
Qed.

Lemma progress_slot_freed want lb now s e :
  slot_ok s → s_owner s ≠ None →
  wp (progress_slot want lb now s) (λ s' e', s_owner s' = None →
    reported_up lb (lb_id s) = false ∧ s' = clear (s_n s) ∧ called (Alive (s_handle s) false) e e' ∧
    called (Do (Admin UNDRAIN (lb_id s))) e e') e.
Proof.
  intros Hs Ho. unfold progress_slot. destruct (s_owner s) as [o|] eqn:Hso; [|done].
  apply wp_bind, wp_alive. intros a ex Ha.
  assert (called (Alive (s_handle s) a) e (record ex (Alive (s_handle s) a) e)) as Hal by (eexists; split; [done|set_solver]).
  destruct (running (s_phase s) && negb a && negb (s_removing s)).
  { destruct (s_fault (set_phase Crashed s)); repeat wp_step; cbn; congruence. }
  apply wp_bind. destruct (decide (s_phase s = Stopping)) as [Hp|Hp].
  - unfold advance_phase. rewrite Hp. cbv zeta.
    eapply wp_mono; [apply wp_and; [apply (stop_slot_ok o)|apply stop_slot_freed]; congruence|].
    intros s1 e1 He1 [Hk Hfr]. cbv beta.
    destruct (s_owner s1) as [o1|] eqn:Ho1.
    + eapply wp_mono; [apply update_config_ok|].
      * destruct Hk as [[? _]| ->]; [done|by unfold slot_ok].
      * intros s2 e2 _ (_ & _ & Ho2) Hn. congruence.
    + destruct (Hfr eq_refl) as (-> & Hup & -> & Hcall). apply wp_ret. intros _.
      split_and!; [done|done|by eapply called_mono|]. eapply called_mono; [|done|done].
      by apply rtc_once, prim_alive.
  - eapply wp_mono; [apply advance_phase_ok; congruence|]. intros s1 e1 _ [(Hs1 & _ & Ho1)|[_ ?]]; [|done].
    eapply wp_mono; [by apply update_config_ok|]. intros s2 e2 _ (_ & _ & Ho2) Hn. congruence.
Qed.

Lemma remove_slot_handle active now s e :
  slot_ok s → wp (remove_slot active now s) (λ s' _, s_handle s' = s_handle s) e.
Proof.
  intros _. unfold remove_slot, _begin_stop. destruct (s_owner s); repeat wp_step; done.
Qed.

(** C21. A step frees a slot, which makes maglev-lb's [UNDRAIN] of it, only if
    during the step the process was found to have exited and maglev-lb reports the
    slot down: a freed slot cannot attract flows that nobody answers. *)
Theorem freed_slot_is_down n now lb r r' e e' i s s' :
  reconciler_ok n r → step now lb r e = Ok (r', e') →
  slots r !! i = Some s → s_owner s ≠ None → slots r' !! i = Some s' → s_owner s' = None →
  s' = clear (s_n s) ∧ reported_up lb (lb_id s) = false ∧
  called (Alive (s_handle s) false) e e' ∧ called (Do (Admin UNDRAIN (lb_id s))) e e'.
Proof.
  intros Hr Hstep Hi Ho Hi' Ho'. pose proof (ok_slots _ _ (ok_backend_slots _ _ Hr)) as Hall.
  eapply Forall_lookup_1 in Hall as Hs; [|done].
  destruct (step_slot n now lb r r' e e' i s Hr Hstep Hi Ho) as (x & Hx & s1 & e1 & e2 & e3 & e4 & H1 & Hrm & H2 & Hpr & H3 & _).
  rewrite Hi' in Hx. injection Hx as <-.
  eapply wp_eq in Hrm as Hrm'; [|by apply remove_slot_ok].
  destruct Hrm' as (Hs1 & Hn1 & Ho1). eapply wp_eq in Hrm as Hh; [|by apply remove_slot_handle].
  eapply wp_eq in Hpr as Hfr; [|by apply progress_slot_freed; congruence].
  cbv beta in *. destruct (Hfr Ho') as (Hup & -> & Ha & Hu). unfold lb_id in *. rewrite Hn1, Hh in *.
  split_and!; [done|done|by eapply called_mono..].
Qed.

(** ** Placement *)

Lemma remove_slot_stopping active now s e o :
  s_owner s = Some o → o ∈ active →
  wp (remove_slot active now s) (λ s' _, s_phase s' = Stopping → s_phase s = Stopping) e.
Proof.
  intros Ho Hin. unfold remove_slot. rewrite Ho. rewrite decide_False by tauto.
  case_decide; repeat wp_step; done.
Qed.

Lemma remove_pass active now l l' e e' :
  Forall slot_ok l → mapM (remove_slot active now) l e = Ok (l', e') →
  Forall2 (λ s s', s_owner s' = s_owner s ∧
    ∀ o, s_owner s = Some o → o ∈ active → s_phase s' = Stopping → s_phase s = Stopping) l l'.
Proof.
  intros Hl Hm. refine (wp_eq _ (λ l' _, Forall2 _ l l') _ _ _ _ Hm).
  apply (wp_mapM _ slot_ok (λ s s' _, s_owner s' = s_owner s ∧
    ∀ o, s_owner s = Some o → o ∈ active → s_phase s' = Stopping → s_phase s = Stopping) _ e); [done| |done|done].
  intros s e1 Hs _. apply wp_and; [by eapply wp_mono; [by apply remove_slot_ok|intros ??? (_ & _ & ?)]|].
  destruct (s_owner s) as [o|] eqn:Ho.
  - destruct (decide (o ∈ active)).
    + eapply wp_mono; [by eapply remove_slot_stopping|]. intros ??? Hp o' [= <-] _. exact Hp.
    + eapply wp_mono; [by apply remove_slot_ok|]. naive_solver.
  - eapply wp_mono; [by apply remove_slot_ok|]. naive_solver.
Qed.

Lemma progress_pass want lb now l l' e e' :
  Forall slot_ok l → mapM (progress_slot want lb now) l e = Ok (l', e') →
  Forall2 (λ s s', s_owner s' = s_owner s ∨ s_owner s' = None ∧ s_phase s = Stopping) l l'.
Proof.
  intros Hl Hm. refine (wp_eq _ (λ l' _, Forall2 _ l l') _ _ _ _ Hm).
  apply (wp_mapM _ slot_ok (λ s s' _, s_owner s' = s_owner s ∨ s_owner s' = None ∧ s_phase s = Stopping) _ e);
    [done| |done|done].
  intros s e1 Hs _. eapply wp_mono; [by apply progress_slot_ok|]. by intros ??? (_ & _ & ?).
Qed.

(** Where a step places the backends. *)
Lemma step_places n now lb r e :
  reconciler_ok n r →
  let active := active_of (desired_backends (desired r)) in
  ∃ r' e', step now lb r e = Ok (r', e') ∧ NoDup (owners (slots r')) ∧
    (∀ cid, cid ∈ active → cid ∈ owners (slots r') ∨ cid ∈ pending r' ∨
       ∃ s, s ∈ slots r ∧ s_owner s = Some cid ∧ s_phase s = Stopping) ∧
    (∀ cid, cid ∈ owners (slots r') → cid ∈ active ∨ cid ∈ owners (slots r)) ∧
    (∀ cid, cid ∈ pending r' → cid ∈ active ∧ ¬ cid ∈ owners (slots r') ∧
       ∀ i s s', slots r !! i = Some s → slots r' !! i = Some s' → s_owner s' = None → s_owner s ≠ None).
Proof.
  intros Hr active.
  destruct (step_passes n now lb r e Hr) as (r2 & e2 & r1 & e1 & Hstep & Hr2 & _ & _ & _ & _ & Hs1 & Hd1 & Hpass).
  exists r2, e2. split_and!; [done|apply (ok_owners n), Hr2|..].
  all: destruct Hpass as (l1 & w & ea & eb & Ha & Hw & Hpr & _ & Hok1 & Ho1 & Hok2 & Hadd & Hall & Hpend & Hsub).
  all: rewrite Hs1, Hd1 in *; fold active in Ha, Hw, Hadd, Hall, Hpend.
  all: pose proof (remove_pass _ _ _ _ _ _ (ok_slots _ _ (ok_backend_slots _ _ Hr)) Ha) as Hrem.
  all: pose proof (progress_pass _ _ _ _ _ _ _ (ok_slots _ _ Hok2) Hpr) as Hprog.
  - intros cid Hcid. destruct (Hall cid) as [Hown|]; [by apply elem_of_sorted| |auto].
    apply elem_of_owners in Hown as (s2 & Hin2 & Ho2). apply list_elem_of_lookup in Hin2 as [i Hi2].
    destruct (Forall2_lookup_l _ _ _ _ _ Hprog Hi2) as (s3 & Hi3 & [Ho3|[_ Hp2]]).
    { left. apply elem_of_owners. exists s3. split; [by eapply list_elem_of_lookup_2|congruence]. }
    right; right. destruct (Forall2_lookup_r _ _ _ _ _ Hadd Hi2) as (s1 & Hi1 & [->|(_ & ? & ? & ? & _ & _ & ->)]); [|done].
    destruct (Forall2_lookup_r _ _ _ _ _ Hrem Hi1) as (s & Hi & Hos & Hst).
    exists s. rewrite <- Hos, Ho2 in *. split_and!; [by eapply list_elem_of_lookup_2|done|by eapply Hst].
  - intros cid Hcid. eapply elem_of_sublist in Hcid; [|done].
    apply elem_of_owners in Hcid as (s2 & Hin2 & Ho2). apply list_elem_of_lookup in Hin2 as [i Hi2].
    destruct (Forall2_lookup_r _ _ _ _ _ Hadd Hi2) as (s1 & Hi1 & [->|(_ & c & b & h & Hc' & _ & ->)]).
    + right. rewrite <- Ho1. apply elem_of_owners. exists s1. by split; [eapply list_elem_of_lookup_2|].
    + left. cbn in Ho2. injection Ho2 as <-. by rewrite elem_of_sorted in Hc'.
  - intros cid (Hcid & Hno & Hfree)%Hpend. rewrite elem_of_sorted in Hcid. split_and!; [done| |].
    + intros Hin. by eapply Hno, elem_of_sublist.
    + intros i s s' Hi Hi' Ho' Ho. destruct (Forall2_lookup_l _ _ _ _ _ Hrem Hi) as (s1 & Hi1 & Hos & _).
      destruct (Forall2_lookup_l _ _ _ _ _ Hadd Hi1) as (s2 & Hi2 & Ha2).
      eapply Forall_lookup_1 in Hfree as Hf2; [|done].
      destruct Ha2 as [->|(_ & c & b & h & _ & _ & ->)].
      * destruct Hf2. assert (slot_ok s1) as Hok by (eapply Forall_lookup_1; [apply Hok1|done]).
        unfold slot_ok in Hok. rewrite Hos, Ho in Hok. by rewrite Hok.
      * destruct (Forall2_lookup_l _ _ _ _ _ Hprog Hi2) as (s3 & Hi3 & Hs3). cbn in Hs3.
        rewrite Hi' in Hi3. injection Hi3 as <-. naive_solver congruence.
Qed.

(** C19. After a step every attached backend has a slot, is listed as pending, or
    has just lost the slot it was still stopping in (and gets one in the next
    step).  Only attached backends get a slot.  A backend is pending only if no
    slot was left: each one has an owner, or was freed in this very step. *)
Theorem backends_placed n now lb r e :
  reconciler_ok n r →
  let active := active_of (desired_backends (desired r)) in
  ∃ r' e', step now lb r e = Ok (r', e') ∧ NoDup (owners (slots r')) ∧
    (∀ cid, cid ∈ active → cid ∈ owners (slots r') ∨ cid ∈ pending r' ∨
       ∃ s, s ∈ slots r ∧ s_owner s = Some cid ∧ s_phase s = Stopping) ∧
    (∀ cid, cid ∈ owners (slots r') → cid ∈ active ∨ cid ∈ owners (slots r)) ∧
    (∀ cid, cid ∈ pending r' → cid ∈ active ∧ ¬ cid ∈ owners (slots r') ∧
       ∀ i s s', slots r !! i = Some s → slots r' !! i = Some s' → s_owner s' = None → s_owner s ≠ None).
Proof. apply step_places. Qed.

(** As long as no more than four clients are on the canvas, after a step each
    of them has a process with its configuration and load, no other client is
    left, and no two share an index, that is, a source address. *)
Theorem clients_all_run n now lb r e :
  reconciler_ok n r → (length (keys (desired_clients (desired r))) ≤ 4)%nat →
  ∃ r' e', step now lb r e = Ok (r', e') ∧
    (∀ k c, dict_get (desired_clients (desired r)) k = Some c →
       ∃ rec, dict_get (clients r') k = Some rec ∧ current (load_of r) c rec) ∧
    (∀ k, k ∈ keys (clients r') → k ∈ keys (desired_clients (desired r))) ∧
    NoDup (indices (clients r')) ∧ Forall index_ok (indices (clients r')).
Proof.
  intros Hr Hlen. destruct (step_clients_ok n now r e Hr) as (r1 & e1 & Hc & _ & Hr1 & _ & _ & _ & _ & Hk & Hall).
  destruct (step_backends_ok n now lb r1 e1 Hr1) as (r2 & e2 & Hb & _ & Hr2 & Hcl & _).
  exists r2, e2. split; [unfold step, mbind, M_bind; by rewrite Hc|]. rewrite Hcl. split_and!; [|done|apply Hr1..].
  intros k c Hkc. destruct (Hall k c Hkc) as [|[_ ?]]; [done|]. lia.
Qed.

(** ** Owners across a step *)

Lemma step_owner_back n now lb r r' e e' i s' o :
  reconciler_ok n r → step now lb r e = Ok (r', e') →
  ¬ o ∈ active_of (desired_backends (desired r)) → slots r' !! i = Some s' → s_owner s' = Some o →
  ∃ s, slots r !! i = Some s ∧ s_owner s = Some o.
Proof.
  intros Hr Hstep Hna Hi' Ho'.
  destruct (step_passes n now lb r e Hr) as (r2 & e2 & r1 & e1 & Heq & _ & _ & _ & _ & _ & Hs1 & Hd1 & Hpass).
  rewrite Hstep in Heq. injection Heq as <- <-.
  destruct Hpass as (l1 & w & ea & eb & Ha & _ & Hpr & _ & _ & _ & Hok2 & Hadd & _). rewrite Hs1, Hd1 in *.
  pose proof (remove_pass _ _ _ _ _ _ (ok_slots _ _ (ok_backend_slots _ _ Hr)) Ha) as Hrem.
  pose proof (progress_pass _ _ _ _ _ _ _ (ok_slots _ _ Hok2) Hpr) as Hprog.
  destruct (Forall2_lookup_r _ _ _ _ _ Hprog Hi') as (s2 & Hi2 & Hs2).
  destruct (Forall2_lookup_r _ _ _ _ _ Hadd Hi2) as (s1 & Hi1 & Hs1').
  destruct (Forall2_lookup_r _ _ _ _ _ Hrem Hi1) as (s & Hi & Hos & _). exists s. split; [done|].
  destruct Hs1' as [->|(_ & c & b & h & Hc' & _ & ->)]; [naive_solver congruence|].
  rewrite elem_of_sorted in Hc'. cbn in Hs2. naive_solver congruence.
Qed.

Lemma owner_unique n l i j s s' o :
  slots_ok n l → l !! i = Some s → l !! j = Some s' → s_owner s = Some o → s_owner s' = Some o → i = j.
Proof.
  intros [_ _ Hd] Hi Hj Ho Ho'. unfold owners in Hd. revert i j Hi Hj Hd.
  induction l as [|x l IH]; intros [|i] [|j] Hi Hj Hd; simplify_eq/=; try done.
  - rewrite Ho in Hd. apply NoDup_cons in Hd as [Hd _]. destruct Hd.
    apply list_elem_of_omap. exists s'. split; [by eapply list_elem_of_lookup_2|done].
  - rewrite Ho' in Hd. apply NoDup_cons in Hd as [Hd _]. destruct Hd.
    apply list_elem_of_omap. exists s. split; [by eapply list_elem_of_lookup_2|done].
  - f_equal. apply IH; [done|done|]. destruct (s_owner x); [by apply NoDup_cons in Hd as [_ Hd]|done].
Qed.

(** A backend that is not wanted: if its slot is freed, it is gone. *)
Lemma step_gone n now lb r r' e e' i s s' o :
  reconciler_ok n r → step now lb r e = Ok (r', e') → ¬ o ∈ active_of (desired_backends (desired r)) →
  slots r !! i = Some s → s_owner s = Some o → slots r' !! i = Some s' → s_owner s' = None →
  ¬ o ∈ owners (slots r').
Proof.
  intros Hr Hstep Hna Hi Ho Hi' Ho' (x & Hx & Hox)%elem_of_owners. apply list_elem_of_lookup in Hx as [j Hj].
  destruct (step_owner_back n now lb r r' e e' j x o) as (y & Hy & Hoy); [done..|].
  assert (i = j) as <- by (eapply owner_unique; [apply Hr|..]; done). congruence.
Qed.

Lemma step_still_gone n now lb r r' e e' o :
  reconciler_ok n r → step now lb r e = Ok (r', e') → ¬ o ∈ active_of (desired_backends (desired r)) →
  ¬ o ∈ owners (slots r) → ¬ o ∈ owners (slots r').
Proof.
  intros Hr Hstep Hna Hno (x & Hx & Hox)%elem_of_owners. apply list_elem_of_lookup in Hx as [j Hj].
  destruct (step_owner_back n now lb r r' e e' j x o) as (y & Hy & Hoy); [done..|].
  apply Hno, elem_of_owners. exists y. split; [by eapply list_elem_of_lookup_2|done].
Qed.

Lemma slot_lb_id n l i s : slots_ok n l → l !! i = Some s → lb_id s = Z.of_nat i.
Proof.
  intros [Hn _ _] Hi. assert ((s_n <$> l) !! i = Some (s_n s)) as Hl by (by rewrite list_lookup_fmap, Hi).
  rewrite Hn, list_lookup_fmap in Hl. apply fmap_Some in Hl as (k & Hk & Heq).
  apply lookup_seq in Hk as [-> _]. unfold lb_id. lia.
Qed.

(** ** Removal *)

(** What the removal relies on: an exited process stays exited, [alive] tells so,
    and a killed one has exited by the next step. *)
Class Processes := {
  dead : Handle → Ex → Prop;
  doomed : Handle → Ex → Prop;
  dead_answer h ex : dead h ex → (ex_alive (Some h) ex).1 = false;
  answer_dead h ex : (ex_alive (Some h) ex).1 = false → dead h (ex_alive (Some h) ex).2;
  kill_doomed h ex : doomed h (ex_do (Kill (Some h)) ex);
  dead_prim h e e' : prim e e' → dead h (e_ex e) → dead h (e_ex e');
  doomed_prim h e e' : prim e e' → doomed h (e_ex e) → doomed h (e_ex e');
}.

Section Removal.
Context {P : Processes}.

(** The time between two steps. *)
Definition passes (f : Ex → Ex) : Prop := ∀ h ex, dead h ex ∨ doomed h ex → dead h (f ex).

Definition ending h e : Prop := dead h (e_ex e) ∨ doomed h (e_ex e).

Lemma dead_rtc h e e' : rtc prim e e' → dead h (e_ex e) → dead h (e_ex e').
Proof. induction 1; eauto using dead_prim. Qed.

Lemma ending_rtc h e e' : rtc prim e e' → ending h e → ending h e'.
Proof. intros Hp [Hd|Hd]; [left|right]; induction Hp; eauto using dead_prim, doomed_prim. Qed.

(** The stages of a removal. *)
Definition drains (t : Z) (s : Slot) : Prop :=
  s_removing s = true ∧ s_phase s = Draining ∧ s_drain_since s = Some t.
Definition stops (t : Z) (s : Slot) : Prop :=
  s_removing s = true ∧ s_phase s = Stopping ∧ s_stop_since s = Some t.

Lemma remove_fresh active now s o e :
  s_owner s = Some o → ¬ o ∈ active → s_removing s = false →
  wp (remove_slot active now s) (λ s' _, s_owner s' = Some o ∧ (drains now s' ∨ stops now s')) e.
Proof.
  intros Ho Hin Hr. unfold remove_slot, _begin_stop, drains, stops. rewrite Ho, decide_True by done.
  repeat wp_step; cbn; auto 10.
Qed.

Lemma remove_removing active now s o e :
  s_owner s = Some o → ¬ o ∈ active → s_removing s = true → remove_slot active now s e = Ok (s, e).
Proof.
  intros Ho Hin Hr. unfold remove_slot. rewrite Ho. rewrite decide_False by (rewrite Hr; naive_solver).
  by rewrite decide_False by tauto.
Qed.

Lemma update_config_removing want a s e : s_removing s = true → update_config want a s e = Ok (s, e).
Proof.
  intros Hr. unfold update_config. destruct (owner_in _ _); [|done]. rewrite decide_False; [done|]. rewrite Hr. naive_solver.
Qed.

Lemma progress_drains want lb now s o t e :
  s_owner s = Some o → drains t s →
  wp (progress_slot want lb now s) (λ s' _, s_owner s' = Some o ∧
    (stops now s' ∨ drains t s' ∧ now < t + BACKEND_SLOT_DRAIN_MAX_MS)) e.
Proof.
  intros Ho (Hr & Hp & Hd). unfold progress_slot. rewrite Ho.
  apply wp_bind, wp_alive. intros a ex _. rewrite Hr, andb_false_r. unfold advance_phase. rewrite Hp, Hr. cbv zeta.
  apply wp_bind. apply (wp_mono _ (λ s' _, s_owner s' = Some o ∧
    (stops now s' ∨ drains t s' ∧ now < t + BACKEND_SLOT_DRAIN_MAX_MS))).
  - unfold drain_slot, _begin_stop, stops, drains. destruct s; cbn in *; subst. cbn.
    repeat wp_step; cbn; repeat case_bool_decide; simplify_eq/=; auto 10.
    split; [done|]. right. split_and!; [done..|]. unfold BACKEND_SLOT_DRAIN_MAX_MS in *. lia.
  - intros s1 e1 _ Hs1. exists s1, e1. rewrite update_config_removing by (unfold stops, drains in *; tauto). done.
Qed.

Lemma progress_stops want lb now s o t h e :
  s_owner s = Some o → stops t s → s_handle s = Some h →
  wp (progress_slot want lb now s) (λ s' e',
    s_owner s' = None ∨
    s' = s ∧ (t + BACKEND_STOP_KILL_AFTER_MS ≤ now → ending h e') ∧
    (dead h (e_ex e) → reported_up lb (lb_id s) = true)) e.
Proof.
  intros Ho (Hr & Hp & Hd) Hh. unfold progress_slot. rewrite Ho.
  apply wp_bind, wp_alive. intros a ex Ha. rewrite Hr, andb_false_r. unfold advance_phase. rewrite Hp. cbv zeta.
  change (default false (lb !! lb_id s ≫= ob_up)) with (reported_up lb (lb_id s)).
  rewrite Hh in *. pose proof (dead_answer h (e_ex e)) as Hans. pose proof (answer_dead h (e_ex e)) as Hdead.
  rewrite Ha in Hans, Hdead. cbn in Hans, Hdead.
  apply wp_bind. unfold stop_slot. rewrite Hd, Hh. destruct a; cbn [negb andb].
  - apply wp_bind, wp_bind, wp_lift. apply (wp_mono _ (λ _ e', t + BACKEND_STOP_KILL_AFTER_MS ≤ now → ending h e')).
    + case_decide; repeat wp_step; [|unfold BACKEND_STOP_KILL_AFTER_MS in *; lia].
      intros _. right. apply kill_doomed.
    + intros _ e1 _ He1. apply wp_ret. exists s, e1. rewrite update_config_removing by done.
      split_and!; [done|done|]. right. split_and!; [done|done|]. intros Hdd. by apply Hans in Hdd.
  - apply wp_bind, wp_ret. destruct (reported_up lb (lb_id s)); cbn [negb].
    + apply wp_ret. eexists s, _. rewrite update_config_removing by done. split_and!; [done|done|]. right.
      split_and!; [done| |done]. intros _. left. by apply Hdead.
    + repeat wp_step; apply wp_ret; by left.
Qed.

(** Where the removal of a backend stands; its slot is the [i]-th. *)
Inductive stage := Draining_since (t : Z) | Stopping_since (t : Z) | Ending | Gone.

Definition at_stage (o : string) (i : nat) r e (st : stage) : Prop :=
  match st with
  | Gone => ¬ o ∈ owners (slots r)
  | _ =>
      ∃ s h, slots r !! i = Some s ∧ s_owner s = Some o ∧ s_handle s = Some h ∧
        match st with
        | Draining_since t => drains t s
        | Stopping_since t => stops t s
        | _ => (∃ t, stops t s) ∧ ending h e
        end
  end.

(** The time a stage has to last, and what a step then makes of it. *)
Definition due (now : Z) (st : stage) : Prop :=
  match st with
  | Draining_since t => t + BACKEND_SLOT_DRAIN_MAX_MS ≤ now
  | Stopping_since t => t + BACKEND_STOP_KILL_AFTER_MS ≤ now
  | _ => True
  end.

Definition next_stage (now : Z) (up : bool) (st st' : stage) : Prop :=
  match st with
  | Draining_since _ => st' = Stopping_since now
  | Stopping_since _ => st' = Ending ∨ st' = Gone
  | Ending => st' = Gone ∨ st' = Ending ∧ up = true
  | Gone => st' = Gone
  end.

Lemma progress_handle want lb now s e :
  slot_ok s → wp (progress_slot want lb now s) (λ s' _, s_owner s' = None ∨ s_handle s' = s_handle s) e.
Proof.
  intros Hs. unfold progress_slot. destruct (s_owner s) as [o|] eqn:Ho; [|apply wp_ret; by right].
  apply wp_bind, wp_alive. intros a ex _. destruct (running (s_phase s) && negb a && negb (s_removing s)).
  { destruct (s_fault (set_phase Crashed s)); repeat wp_step; by right. }
  apply wp_bind. apply (wp_mono _ (λ s' _, s_owner s' = None ∨ s_handle s' = s_handle s)).
  - unfold slot_ok in Hs. rewrite Ho in Hs. destruct Hs as (_ & _ & _ & Hdr & Hst & _).
    unfold advance_phase, drain_slot, stop_slot, _begin_stop. cbv zeta. destruct (s_phase s) eqn:Hp.
    5: destruct (s_removing s) eqn:Hr; [destruct Hdr as [|[_ Hdr]]; [done..|]|].
    7: destruct Hst as [_ Hst]; [done|].
    all: repeat first [apply wp_not_none; [eassumption|intros ? ?]|wp_step]; by auto.
  - intros s1 e1 _ Hs1. unfold update_config. destruct (owner_in _ _); repeat wp_step; done.
Qed.

(** The slot of an unwanted backend after a step: its process is the same, or the
    backend is gone. *)
Lemma step_tracks n now lb r r' e e' o i s h :
  reconciler_ok n r → step now lb r e = Ok (r', e') → ¬ o ∈ active_of (desired_backends (desired r)) →
  slots r !! i = Some s → s_owner s = Some o → s_handle s = Some h →
  ∃ s', slot_step now lb r s s' e e' ∧
    (s_owner s' = None → ¬ o ∈ owners (slots r')) ∧
    (s_owner s' ≠ None → slots r' !! i = Some s' ∧ s_owner s' = Some o ∧ s_handle s' = Some h).
Proof.
  intros Hr Hstep Hna Hi Ho Hh.
  destruct (step_slot n now lb r r' e e' i s) as (s' & Hi' & Hss); [done..|congruence|].
  exists s'. split; [done|]. split; [intros Hn; by eapply step_gone|]. intros Hn.
  destruct Hss as (s1 & e1 & e2 & e3 & e4 & _ & Hrm & _ & Hpr & _).
  assert (slot_ok s) as Hs by (eapply Forall_lookup_1; [apply (ok_slots n), Hr|done]).
  eapply wp_eq in Hrm as Hrm1; [|by apply remove_slot_ok]. destruct Hrm1 as (Hs1 & _ & Ho1).
  eapply wp_eq in Hrm as Hh1; [|by apply remove_slot_handle]. cbv beta in Hh1.
  eapply wp_eq in Hpr as Hpr1; [|by apply progress_slot_ok]. destruct Hpr1 as (_ & _ & Ho2).
  eapply wp_eq in Hpr as Hh2; [|by apply progress_handle]. cbv beta in Hh2. naive_solver congruence.
Qed.

Lemma step_fresh n now lb r r' e e' o i s :
  reconciler_ok n r → step now lb r e = Ok (r', e') → ¬ o ∈ active_of (desired_backends (desired r)) →
  slots r !! i = Some s → s_owner s = Some o → s_removing s = false →
  ∃ st, at_stage o i r' e' st ∧ (st = Draining_since now ∨ st = Stopping_since now ∨ st = Gone).
Proof.
  intros Hr Hstep Hna Hi Ho Hrem.
  assert (slot_ok s) as Hs by (eapply Forall_lookup_1; [apply (ok_slots n), Hr|done]).
  assert (∃ h, s_handle s = Some h) as [h Hh].
  { unfold slot_ok in Hs. rewrite Ho in Hs. by destruct Hs as (_ & [h ->] & _); exists h. }
  destruct (step_tracks n now lb r r' e e' o i s h) as (s' & Hss & Hgone & Hkept); [done..|].
  destruct (decide (s_owner s' = None)) as [Ho'|Ho']; [exists Gone; naive_solver|].
  destruct (Hkept Ho') as (Hi' & Hoo & Hh').
  destruct Hss as (s1 & e1 & e2 & e3 & e4 & _ & Hrm & _ & Hpr & _).
  eapply wp_eq in Hrm as Hrm1; [|by apply remove_fresh]. destruct Hrm1 as [Ho1 [Hd|Hd]].
  - eapply wp_eq in Hpr as Hpr1; [|by eapply progress_drains].
    destruct Hpr1 as [_ [Hst|[Hst _]]]; [exists (Stopping_since now)|exists (Draining_since now)];
      (split; [|by auto]); by exists s', h.
  - eapply wp_eq in Hrm as Hh1; [|by apply remove_slot_handle].
    eapply wp_eq in Hpr as Hpr1; [|by eapply progress_stops; [done..|rewrite Hh1]].
    destruct Hpr1 as [?|(-> & _ & _)]; [congruence|].
    exists (Stopping_since now). split; [|by auto]. by exists s1, h.
Qed.

Lemma step_advances n now lb r r' e e' o i st :
  reconciler_ok n r → step now lb r e = Ok (r', e') → ¬ o ∈ active_of (desired_backends (desired r)) →
  at_stage o i r e st → due now st →
  (∀ s h, st = Ending → slots r !! i = Some s → s_handle s = Some h → dead h (e_ex e)) →
  ∃ st', at_stage o i r' e' st' ∧ next_stage now (reported_up lb (Z.of_nat i)) st st'.
Proof.
  intros Hr Hstep Hna Hst Hdue Hdead.
  destruct st as [t|t| |]; [| | |exists Gone; split; [by eapply step_still_gone|done]].
  all: destruct Hst as (s & h & Hi & Ho & Hh & Hst).
  all: assert (slot_ok s) as Hs by (eapply Forall_lookup_1; [apply (ok_slots n), Hr|done]).
  all: destruct (step_tracks n now lb r r' e e' o i s h) as (s' & Hss & Hgone & Hkept); [done..|].
  all: destruct Hss as (s1 & e1 & e2 & e3 & e4 & _ & Hrm & H3 & Hpr & H4 & _).
  all: rewrite (remove_removing _ _ _ o) in Hrm; [|done|done|]; [|unfold drains, stops in Hst; naive_solver].
  all: injection Hrm as <- <-.
  - eapply wp_eq in Hpr as Hpr1; [|by eapply progress_drains].
    destruct Hpr1 as [Ho' [Hst'|[_ ?]]]; [|cbn in Hdue; lia].
    exists (Stopping_since now). split; [|done]. destruct Hkept as (? & ? & ?); [congruence|]. by exists s', h.
  - eapply wp_eq in Hpr as Hpr1; [|by eapply progress_stops].
    destruct Hpr1 as [Hn|(-> & Hend & _)]; [exists Gone; split; [exact (Hgone Hn)|by right]|].
    exists Ending. split; [|by left]. destruct Hkept as (? & ? & ?); [congruence|].
    exists s, h. split_and!; [done..|by exists t|]. eapply ending_rtc; [done|]. by apply Hend.
  - destruct Hst as [[t Hst] Hend]. eapply wp_eq in Hpr as Hpr1; [|by eapply progress_stops].
    destruct Hpr1 as [Hn|(-> & _ & Hup)]; [exists Gone; split; [exact (Hgone Hn)|by left]|].
    exists Ending. destruct Hkept as (? & ? & ?); [congruence|]. split.
    + exists s, h. split_and!; [done..|by exists t|]. pose proof (Hdead s h eq_refl Hi Hh). left.
      eapply dead_rtc; [exact H4|]. eapply dead_rtc; [eapply wp_rtc; [|exact Hpr]; by apply progress_slot_ok|].
      by eapply dead_rtc.
    + right. split; [done|]. rewrite <- (slot_lb_id n (slots r) i s); [|apply Hr|done]. apply Hup.
      eapply dead_rtc; [exact H3|]. by eapply Hdead.
Qed.
Definition elapsed (f : Ex → Ex) e : env := {| e_ex := f (e_ex e); e_trace := e_trace e; e_events := e_events e |}.

Lemma tick_run n f b now lb r e :
  reconciler_ok n r →
  ∃ r' e', step now lb (set_load_suppressed b r) (elapsed f e) = Ok (r', e') ∧ reconciler_ok n r' ∧
    desired r' = desired r ∧ ∀ k, run ((f, I_tick b now lb) :: k) r e = run k r' e'.
Proof.
  intros Hr. assert (reconciler_ok n (set_load_suppressed b r)) as Hr0 by (destruct Hr; by split).
  destruct (step_passes n now lb (set_load_suppressed b r) (elapsed f e) Hr0)
    as (r' & e' & r1 & e1 & Hs & Hr' & Hd & _). exists r', e'. split_and!; [done|done|done|].
  intros k. cbn [run]. unfold mbind at 1, M_bind at 1. cbn [elapse handle]. unfold tick, mbind, M_bind.
  fold (elapsed f e). by rewrite Hs.
Qed.

Lemma tick_advances n f b now lb r e o i st :
  reconciler_ok n r → passes f → ¬ o ∈ active_of (desired_backends (desired r)) →
  at_stage o i r e st → due now st →
  ∃ r' e' st', reconciler_ok n r' ∧ desired r' = desired r ∧ at_stage o i r' e' st' ∧
    next_stage now (reported_up lb (Z.of_nat i)) st st' ∧ ∀ k, run ((f, I_tick b now lb) :: k) r e = run k r' e'.
Proof.
  intros Hr Hf Hna Hst Hdue. destruct (tick_run n f b now lb r e Hr) as (r' & e' & Hs & Hr' & Hd & Hrun).
  destruct (step_advances n now lb (set_load_suppressed b r) r' (elapsed f e) e' o i st) as (st' & Hst' & Hnext);
    [destruct Hr; by split|done|done| |done| |by exists r', e', st'].
  - destruct st; [exact Hst|exact Hst| |exact Hst]. destruct Hst as (s & h & ? & ? & ? & ? & Hend).
    exists s, h. split_and!; try done. left. by apply Hf.
  - intros s h -> Hi Hh. destruct Hst as (s0 & h0 & Hi0 & _ & Hh0 & _ & Hend). cbn in Hi.
    rewrite Hi in Hi0. injection Hi0 as <-. rewrite Hh in Hh0. injection Hh0 as <-. by apply Hf.
Qed.


(** A backend that is put back on the canvas while it drains for its removal
    is undrained at once, even when its responder has exited in the meantime: the
    step sends [UNDRAIN] for a slot whose process it finds dead, whatever
    maglev-lb reports of it. *)
Theorem readd_undrains_dead n now lb r r' e e' i s o t h :
  reconciler_ok n r → step now lb r e = Ok (r', e') → slots r !! i = Some s → s_owner s = Some o →
  o ∈ active_of (desired_backends (desired r)) → drains t s → s_handle s = Some h → dead h (e_ex e) →
  called (Do (Admin UNDRAIN (lb_id s))) e e' ∧ called (Alive (Some h) false) e e' ∧
  ∃ s', slots r' !! i = Some s' ∧ s_owner s' = Some o ∧ s_phase s' = Crashed.
Proof.
  intros Hr Hstep Hi Ho Hin (Hrm & Hp & _) Hh Hd.
  destruct (step_slot n now lb r r' e e' i s) as (s' & Hi' & s1 & e1 & e2 & e3 & e4 & H1 & Hrem & H3 & Hpr & H4 & H2);
    [done..|congruence|].
  unfold remove_slot in Hrem. rewrite Ho, decide_False in Hrem by tauto. rewrite decide_True in Hrem by done.
  injection Hrem as <- <-.
  pose proof (dead_answer h (e_ex e3) (dead_rtc _ _ _ H3 Hd)) as Hans.
  assert (wp (progress_slot (desired_backends (desired r)) lb now (set_phase Serving (set_removing false s)))
    (λ s' e', s_owner s' = Some o ∧ s_phase s' = Crashed ∧ called (Alive (Some h) false) e3 e') e3) as Hwp.
  { unfold progress_slot. cbn [set_phase set_removing s_owner s_handle]. rewrite Ho, Hh.
    apply wp_bind, wp_alive. intros a ex Ha. rewrite Ha in Hans. cbn in Hans. subst a. cbn.
    destruct (s_fault s); repeat wp_step; (split_and!; [done..|]); eexists; (split; [done|set_solver]). }
  pose proof (wp_eq _ _ _ _ _ Hwp Hpr) as (Ho' & Hp' & Hcall). pose proof (wp_rtc _ _ _ _ _ Hwp Hpr) as H34.
  split_and!; [|by eapply called_mono|by exists s'].
  eapply called_mono; [exact H1| |trans e3; [exact H2|by trans e4]].
  eexists. split; [done|set_solver].
Qed.
End Removal.

(** ** Settled states *)

Definition is_query (a : act) : bool := match a with Alive _ _ => true | _ => false end.

(** Nothing but questions whether processes live was asked between two states. *)
Definition silent e e' : Prop :=
  e_ex e' = e_ex e ∧ e_events e' = e_events e ∧
  ∃ tr, e_trace e' = e_trace e ++ tr ∧ Forall (λ a, is_query a = true) tr.

(** [m] only asks, and returns [a]. *)
Definition quietly {A} (m : M A) (a : A) e : Prop :=
  ∀ e1, silent e e1 → ∃ e2, m e1 = Ok (a, e2) ∧ silent e e2.

Lemma quietly_ret {A} (a : A) e : quietly (mret a) a e.
Proof. intros e1 He1. by exists e1. Qed.

Lemma quietly_lift {A} (a : A) e : quietly (lift (Ok a)) a e.
Proof. intros e1 He1. by exists e1. Qed.

Lemma quietly_bind {A B} (m : M A) (f : A → M B) a b e :
  quietly m a e → quietly (f a) b e → quietly (m ≫= f) b e.
Proof.
  intros Hm Hf e1 H1. destruct (Hm e1 H1) as (e2 & Hm2 & H2). destruct (Hf e2 H2) as (e3 & Hf3 & H3).
  exists e3. unfold mbind, M_bind. by rewrite Hm2.
Qed.

Lemma quietly_alive h a e : ex_alive h (e_ex e) = (a, e_ex e) → quietly (alive h) a e.
Proof.
  intros Ha e1 (Hex & Hev & tr & Htr & Hq). unfold alive. rewrite Hex, Ha. eexists; split; [done|].
  split_and!; [done|done|]. exists (tr ++ [Alive h a]). cbn. rewrite Htr, <- app_assoc. split; [done|].
  apply Forall_app; split; [done|by repeat constructor].
Qed.

Lemma quietly_mapM {A} (f : A → M A) (k : list A) e :
  Forall (λ x, quietly (f x) x e) k → quietly (mapM f k) k e.
Proof.
  induction 1 as [|x k Hx Hk IH]; cbn [mapM]; [apply quietly_ret|].
  eapply quietly_bind; [done|]. eapply quietly_bind; [done|]. apply quietly_ret.
Qed.

(** A slot that a step leaves as it is: free, or owned by an attached backend whose
    process runs with the wanted configuration and whose phase is what maglev-lb
    reports (or that is crashed, which waits for a restart). *)
Definition settled_slot (want : dict desired_backend) (lb : gmap Z obs) e (s : Slot) : Prop :=
  s_owner s = None ∨
  ∃ o b a, s_owner s = Some o ∧ dict_get want o = Some b ∧ o ∈ active_of want ∧ s_removing s = false ∧
    ex_alive (s_handle s) (e_ex e) = (a, e_ex e) ∧ (running (s_phase s) = true → a = true) ∧
    (running (s_phase s) = true → s_config s = Some (db_cfg b)) ∧
    let up := reported_up lb (lb_id s) in
    match s_phase s with
    | Starting => up && default true (lb !! lb_id s ≫= ob_adminEnabled) = false
    | Serving => up = true
    | Unhealthy => up = false
    | Draining | Crashed => True
    | Stopping | Free => False
    end.

Definition settled_client (load : bool) e (cs : dict ClientRec) (p : string * desired_client) : Prop :=
  ∃ rec, dict_get cs p.1 = Some rec ∧ current load p.2 rec ∧ ex_alive (c_handle rec) (e_ex e) = (true, e_ex e).

Definition settled (lb : gmap Z obs) r e : Prop :=
  let want := desired_backends (desired r) in
  Forall (settled_slot want lb e) (slots r) ∧
  pending r = filter (λ cid, ¬ cid ∈ owners (slots r)) (sorted (active_of want)) ∧
  (pending r ≠ [] → no_free (slots r)) ∧
  (∀ k, k ∈ keys (clients r) → k ∈ keys (desired_clients (desired r))) ∧
  Forall (settled_client (load_of r) e (clients r)) (desired_clients (desired r)).

Lemma settled_remove want lb e now s :
  settled_slot want lb e s → quietly (remove_slot (active_of want) now s) s e.
Proof.
  intros [Ho|(o & b & a & Ho & _ & Hin & Hr & _)]; unfold remove_slot; rewrite Ho; [apply quietly_ret|].
  rewrite decide_False by tauto. rewrite decide_False by (rewrite Hr; naive_solver). apply quietly_ret.
Qed.

Lemma settled_progress want lb e now s :
  settled_slot want lb e s → quietly (progress_slot want lb now s) s e.
Proof.
  intros [Ho|(o & b & a & Ho & Hb & Hin & Hr & Ha & Hrun & Hcfg & Hp)]; unfold progress_slot; rewrite Ho;
    [apply quietly_ret|].
  eapply quietly_bind; [by apply quietly_alive|]. cbv beta.
  assert (running (s_phase s) && negb a && negb (s_removing s) = false) as ->.
  { destruct (running (s_phase s)); [|done]. by rewrite Hrun. }
  eapply (quietly_bind _ _ s).
  - unfold advance_phase, reported_up in *. cbv zeta in *. rewrite Hr.
    destruct (s_phase s); try done; try rewrite Hp; apply quietly_ret.
  - unfold update_config. unfold owner_in. rewrite Ho. cbn. rewrite Hb.
    rewrite decide_False by naive_solver. apply quietly_ret.
Qed.

Lemma settled_add want n now e ids (w : add_loop) :
  slots_ok n (al_slots w) → memory_ok n (al_memory w) →
  (∀ cid, cid ∈ ids → cid ∈ owners (al_slots w) ∨ no_free (al_slots w)) →
  quietly (add_slots want now ids w)
    {| al_slots := al_slots w; al_memory := al_memory w;
       al_pending := al_pending w ++ filter (λ cid, ¬ cid ∈ owners (al_slots w)) ids |} e.
Proof.
  revert w. induction ids as [|cid ids IH]; intros w Hok Hm Hids.
  { rewrite app_nil_r. destruct w. apply quietly_ret. }
  cbn [add_slots]. rewrite filter_cons. destruct (find_owner cid (al_slots w)) as [s|] eqn:Hf.
  - apply find_owner_Some in Hf as [Hin Ho]. rewrite decide_False by (intros Hn; apply Hn, elem_of_owners; eauto).
    apply IH; [done|done|]. set_solver.
  - apply find_owner_None in Hf. rewrite decide_True by done.
    destruct (Hids cid) as [?|Hfree]; [set_solver|done|].
    destruct (choose_slot_ok n cid w Hok Hm) as (o & -> & Ho).
    assert (o = None) as ->.
    { destruct o as [s|]; [|done]. destruct Ho as [Hin Hc]. unfold no_free in Hfree.
      rewrite Forall_forall in Hfree. destruct (Hfree s Hin). by rewrite Hc. }
    eapply quietly_bind; [apply quietly_lift|].
    rewrite (cons_middle cid (al_pending w) (filter _ ids)), (assoc_L (++)).
    apply (IH {| al_slots := al_slots w; al_memory := al_memory w; al_pending := al_pending w ++ [cid] |});
      [done|done|set_solver].
Qed.

Lemma settled_drop want (cs : dict ClientRec) e :
  (∀ k, k ∈ keys cs → k ∈ keys want) → quietly (drop_clients want cs) cs e.
Proof.
  induction cs as [|[cid rec] cs IH]; intros Hk; cbn [drop_clients]; [apply quietly_ret|].
  assert (is_Some (dict_get want cid)) as [c ->] by (apply dict_get_is_Some, Hk; unfold keys; csimpl; set_solver).
  eapply quietly_bind; [apply IH|apply quietly_ret]. intros k Hin. apply Hk. unfold keys in *. csimpl. set_solver.
Qed.

Lemma settled_want load now want (w : client_loop) e :
  Forall (settled_client load e (cl_clients w)) want → quietly (want_clients load now want w) w e.
Proof.
  induction 1 as [|[cid c] want (rec & Hg & (Hh & Hcfg & Hen) & Ha) Hw IH]; cbn [want_clients]; [apply quietly_ret|].
  cbn in *. unfold client_rec. rewrite Hg. eapply (quietly_bind _ _ rec).
  - unfold refresh_client. destruct (c_handle rec) as [h|] eqn:Heq; [|by destruct Hh].
    eapply quietly_bind; [by apply quietly_alive|]. cbn [negb].
    rewrite decide_True by done. eapply quietly_bind; [apply quietly_ret|]. cbv beta.
    rewrite decide_True by done. apply quietly_ret.
  - cbv beta. rewrite dict_set_same by done. by destruct w.
Qed.

(** Once the processes are what the canvas asks for, a step changes nothing:
    it sends no command, starts nothing and reports nothing, it only asks whether
    the processes live. *)
Theorem settled_step_silent n now lb r e :
  reconciler_ok n r → settled lb r e → ∃ e', step now lb r e = Ok (r, e') ∧ silent e e'.
Proof.
  intros [Hs Hm Hc] (Hslots & Hpend & Hfree & Hkeys & Hcl). set (want := desired_backends (desired r)) in *.
  assert (silent e e) as He.
  { split_and!; [done|done|]. exists []. by rewrite app_nil_r. }
  enough (quietly (step now lb r) r e) as Hq by exact (Hq e He). unfold step.
  eapply (quietly_bind _ _ r).
  - unfold _step_clients. eapply quietly_bind; [by apply settled_drop|].
    eapply quietly_bind; [by apply settled_want|]. destruct r. apply quietly_ret.
  - unfold _step_backends. fold want. cbv zeta.
    eapply quietly_bind; [apply quietly_mapM; eapply Forall_impl; [done|]; intros s; apply settled_remove|].
    eapply quietly_bind; [apply (settled_add _ n); [done|done|]|].
    + cbn [al_slots]. intros cid Hcid. destruct (decide (cid ∈ owners (slots r))) as [|Hn]; [by left|right].
      apply Hfree. rewrite Hpend. intros Hnil.
      assert (cid ∈ filter (λ cid, ¬ cid ∈ owners (slots r)) (sorted (active_of want))) as Hin
        by by apply list_elem_of_filter.
      rewrite Hnil in Hin. by apply not_elem_of_nil in Hin.
    + cbn [al_slots al_memory al_pending app]. rewrite <- Hpend.
      eapply quietly_bind; [apply quietly_mapM; eapply Forall_impl; [done|]; intros s; apply settled_progress|].
      destruct r. apply quietly_ret.
Qed.

(** ** Where the lifecycle gets stuck *)

Definition starts (a : act) : bool := match a with Spawn_backend _ _ _ => true | _ => false end.

Lemma find_app_mid {A} (f : A → bool) (l1 l2 : list A) x :
  List.find f l1 = None → f x = true → List.find f (l1 ++ x :: l2) = Some x.
Proof.
  intros Hn Hx. induction l1 as [|y l1 IH]; cbn in *; [by rewrite Hx|]. destruct (f y); [done|auto].
Qed.

Lemma find_owner_put_slot n l cid s s' :
  slots_ok n l → find_owner cid l = Some s → s_n s' = s_n s → s_owner s' = Some cid →
  find_owner cid (put_slot s' l) = Some s'.
Proof.
  intros Hok Hf Hn Ho'. pose proof (find_owner_Some _ _ _ Hf) as [Hin Ho].
  apply list_elem_of_split in Hin as (l1 & l2 & ->).
  rewrite (put_slot_split l1 s l2 s') by (done || eapply numbers_NoDup, Hok).
  assert (¬ cid ∈ owners l1) as Hl1.
  { pose proof (ok_owners _ _ Hok) as Hd. unfold owners in Hd. rewrite omap_app in Hd. cbn in Hd. rewrite Ho in Hd.
    apply NoDup_app in Hd as (_ & Hd & _). intros Hin. apply (Hd cid Hin). left. }
  apply find_owner_None in Hl1. apply find_app_mid; [done|]. by apply bool_decide_eq_true.
Qed.

(** A responder that exits while a slowdown, an error rate or a partition is
    injected cannot be brought back by [restart] (or [clear]): the fault on record
    is not a crash, so clearing it starts nothing and the slot stays crashed, now
    without a fault; a further [restart] does nothing at all. *)
Theorem restart_leaves_crashed n cid k now r e s b :
  reconciler_ok n r → slot_of r cid = Some s → s_phase s = Crashed →
  dict_get (desired_backends (desired r)) cid = Some b →
  match s_fault s with Some (F_crash _) => False | _ => True end →
  k = K_restart ∨ k = K_clear →
  ∃ r' e' s' tr, action cid k now r e = Ok (r', e') ∧ slot_of r' cid = Some s' ∧
    s_phase s' = Crashed ∧ s_fault s' = None ∧
    e_trace e' = e_trace e ++ tr ∧ Forall (λ a, starts a = false) tr.
Proof.
  intros Hr Hs Hp Hb Hf Hk. unfold action. rewrite Hs, Hb. unfold slot_of in Hs.
  pose proof (find_owner_Some _ _ _ Hs) as [Hin Ho].
  assert (slot_ok s) as Hok by (pose proof (ok_slots _ _ (ok_backend_slots _ _ Hr)) as Hall; rewrite Forall_forall in Hall; auto).
  assert (s_removing s = false) as Hrm.
  { unfold slot_ok in Hok. rewrite Ho, Hp in Hok. destruct Hok as (_ & _ & _ & Hdr & _).
    destruct (s_removing s); [|done]. by destruct Hdr as [|[? _]]. }
  rewrite Hrm.
  assert (wp (act_on (desired_backends (desired r)) cid k s now) (λ s' e', s_n s' = s_n s ∧ s_owner s' = Some cid ∧
    s_phase s' = Crashed ∧ s_fault s' = None ∧ ∃ tr, e_trace e' = e_trace e ++ tr ∧ Forall (λ a, starts a = false) tr) e)
    as (s' & e' & Hact & _ & Hn' & Ho' & Hp' & Hf' & tr & Htr & Hq).
  { unfold act_on. apply wp_bind. destruct Hk as [-> | ->]; apply wp_ret; unfold _clear_fault; cbv zeta;
      (destruct (s_fault s) as [[]|]; [done|..]); repeat wp_step; (split_and!; [done..|]);
      first [by (exists []; rewrite app_nil_r)|eexists; split; [done|by repeat constructor]]. }
  eexists _, e', s', tr. unfold mbind, M_bind. rewrite Hact. split_and!; [done| |done..].
  unfold slot_of. cbn. eapply find_owner_put_slot; [apply Hr|done..].
Qed.

(** A manually drained backend whose process crashed and was restarted stays
    [starting] although maglev-lb reports it up: the step waits for its admin
    state to be enabled, which only [UNDRAIN] brings about.  (The same line is
    meant to make it [draining] again.) *)
Theorem drained_restart_stays_starting n now lb r r' e e' i s o ob :
  reconciler_ok n r → step now lb r e = Ok (r', e') → slots r !! i = Some s → s_owner s = Some o →
  o ∈ active_of (desired_backends (desired r)) → s_removing s = false → s_phase s = Starting →
  lb !! lb_id s = Some ob → ob_adminEnabled ob = Some false →
  ∃ s', slots r' !! i = Some s' ∧ s_owner s' = Some o ∧ s_manual_drain s' = s_manual_drain s ∧
    (s_phase s' = Starting ∨ s_phase s' = Crashed).
Proof.
  intros Hr Hstep Hi Ho Hin Hrm Hp Hob Hadm.
  destruct (step_slot n now lb r r' e e' i s) as (s' & Hi' & s1 & e1 & e2 & e3 & e4 & _ & Hrem & _ & Hpr & _);
    [done..|congruence|].
  unfold remove_slot in Hrem. rewrite Ho, decide_False in Hrem by tauto.
  rewrite decide_False in Hrem by (rewrite Hrm; naive_solver). injection Hrem as <- <-.
  exists s'. split; [done|].
  refine (wp_eq _ (λ s' _, s_owner s' = Some o ∧ s_manual_drain s' = s_manual_drain s ∧
    (s_phase s' = Starting ∨ s_phase s' = Crashed)) _ _ _ _ Hpr).
  unfold progress_slot. rewrite Ho, Hob. apply wp_bind, wp_alive. intros a ex _. rewrite Hp, Hrm.
  destruct a; cbn [running negb andb].
  - unfold advance_phase. rewrite Hp. cbn. rewrite Hadm. cbn. rewrite andb_false_r.
    apply wp_bind, wp_ret. unfold update_config. destruct (owner_in _ _); repeat wp_step; by auto.
  - destruct (s_fault (set_phase Crashed s)); repeat wp_step; by auto.
Qed.
End Spec.

(** ** A concrete executor

    Processes are numbers; the ones that have exited are listed. *)

#[export] Instance sample_types : Types := {| BCfg := Z; CCfg := Z; Num := Z; Handle := Z |}.

Record sample_procs := { sp_next : Z; sp_exited : list Z }.

Definition sample_end (h : Z) (p : sample_procs) : sample_procs :=
  {| sp_next := sp_next p; sp_exited := h :: sp_exited p |}.

Definition sample_spawn (p : sample_procs) : Z * sample_procs :=
  (sp_next p, {| sp_next := sp_next p + 1; sp_exited := sp_exited p |}).

#[export] Instance sample_executor : Executor sample_procs := {
  ex_spawn_backend _ _ p := sample_spawn p;
  ex_spawn_client _ _ _ p := sample_spawn p;
  ex_do c p := match c with Kill (Some h) | Terminate (Some h) => sample_end h p | _ => p end;
  ex_alive h p := (match h with Some h => bool_decide (¬ h ∈ sp_exited p) | None => false end, p);
  ex_latest _ p := (None, p);
}.

#[export] Program Instance sample_processes : Processes := {
  dead h p := h ∈ sp_exited p;
  doomed h p := h ∈ sp_exited p;
}.
Next Obligation. intros h p Hd. cbn. apply bool_decide_eq_false. intros Hn. by apply Hn. Qed.
Next Obligation. intros h p Hd. cbn in *. apply bool_decide_eq_false in Hd. by destruct (decide (h ∈ sp_exited p)). Qed.
Next Obligation. intros h p. left. Qed.
Next Obligation.
  intros h e e' Hp Hd. destruct Hp as [????[= _ <-]|?????[= _ <-]|c|???[= _ <-]|???[= _ <-]|]; try done.
  destruct c as [| [] | [] | |]; try done; by right.
Qed.
Next Obligation.
  intros h e e' Hp Hd. destruct Hp as [????[= _ <-]|?????[= _ <-]|c|???[= _ <-]|???[= _ <-]|]; try done.
  destruct c as [| [] | [] | |]; try done; by right.
Qed.

Lemma id_passes : passes (id : sample_procs → sample_procs).
Proof. by intros h p [|]. Qed.

Definition sample_env : @env sample_types sample_procs :=
  {| e_ex := {| sp_next := 1; sp_exited := [] |}; e_trace := []; e_events := [] |}.

Definition sample_desired (ids : list string) : desired_state := {|
  d_clients := [{| dc_id := "c1"; dc_connected := true; dc_cfg := 50 |}];
  d_backends := (λ id, {| db_id := id; db_attached := true; db_cfg := 8 |}) <$> ids; d_loadEnabled := true |}.

Definition sample_lb (l : list (Z * bool)) : gmap Z obs :=
  list_to_map (prod_map id (λ admin, {| ob_up := Some true; ob_adminEnabled := Some admin |}) <$> l).

Definition both_up : gmap Z obs := sample_lb [(0, true); (1, true)].

Definition sample_result (l : list ((sample_procs → sample_procs) * input)) : Reconciler * env :=
  match run l (init 2) sample_env with Ok p => p | Raise _ => (init 2, sample_env) end.

Lemma sample_ok l : reconciler_ok 2 (sample_result l).1.
Proof.
  destruct (run_ok 2 l (init 2) sample_env (init_ok 2)) as (r & e & Hrun & Hr).
  unfold sample_result. by rewrite Hrun.
Qed.

(** Two backends come up in two slots. *)
Definition sample_start : list ((sample_procs → sample_procs) * input) :=
  [(id, I_desired (sample_desired ["b1"; "b2"]) 1000 ∅); (id, I_tick false 1250 both_up)].

Definition sample_settled : Reconciler * @env sample_types sample_procs :=
  Eval vm_compute in sample_result sample_start.

Lemma sample_settled_ok : reconciler_ok 2 sample_settled.1.
Proof. change sample_settled with (sample_result sample_start). apply sample_ok. Qed.

Lemma settled_step_silent_witness :
  settled both_up sample_settled.1 sample_settled.2 ∧
  ∃ e', step 1500 both_up sample_settled.1 sample_settled.2 = Ok (sample_settled.1, e') ∧ silent sample_settled.2 e'.
Proof.
  assert (settled both_up sample_settled.1 sample_settled.2) as Hs.
  { unfold settled. split_and!.
    - repeat (apply Forall_cons_2; [right; eexists _, _, true; split_and!;
        first [reflexivity|by apply (bool_decide_unpack _)|done]|]). apply Forall_nil_2.
    - vm_compute. reflexivity.
    - vm_compute. done.
    - vm_compute. done.
    - apply Forall_cons_2; [|apply Forall_nil_2]. eexists. split; [reflexivity|]. vm_compute. naive_solver.
  }
  split; [exact Hs|]. apply (settled_step_silent 2); [apply sample_settled_ok|exact Hs].
Defined.

Definition sample_step (now : Z) (lb : gmap Z obs) (p : Reconciler * env) : Reconciler * env :=
  match step now lb p.1 p.2 with Ok p' => p' | Raise _ => p end.

Lemma sample_step_ok now lb p : reconciler_ok 2 p.1 → step now lb p.1 p.2 = Ok ((sample_step now lb p).1, (sample_step now lb p).2).
Proof.
  intros Hp. unfold sample_step. destruct (step_ok 2 now lb p.1 p.2 Hp) as (r & e & -> & _). done.
Qed.

Lemma set_desired_ok n d r : reconciler_ok n r → reconciler_ok n (set_desired d r).
Proof. intros []. by split. Qed.

Lemma backends_placed_witness :
  let r := set_desired (sample_desired ["b1"; "b2"; "b3"]) sample_settled.1 in
  ∃ r' e', step 2000 both_up r sample_settled.2 = Ok (r', e') ∧
    ("b3" ∈ owners (slots r') ∨ "b3" ∈ pending r' ∨
     ∃ s, s ∈ slots r ∧ s_owner s = Some "b3" ∧ s_phase s = Stopping).
Proof.
  intros r. destruct (backends_placed 2 2000 both_up r sample_settled.2) as (r' & e' & Hs & _ & Hall & _).
  - apply set_desired_ok, sample_settled_ok.
  - exists r', e'. split; [exact Hs|]. apply Hall. by apply (bool_decide_unpack _).
Defined.

Lemma clients_all_run_witness :
  ∃ r' e', step 2000 both_up sample_settled.1 sample_settled.2 = Ok (r', e') ∧ NoDup (indices (clients r')).
Proof.
  destruct (clients_all_run 2 2000 both_up sample_settled.1 sample_settled.2) as (r' & e' & Hs & _ & _ & Hd & _).
  - apply sample_settled_ok.
  - vm_compute. lia.
  - by exists r', e'.
Defined.

(** [b1] is taken off the canvas and stopped after thirty seconds. *)
Definition sample_stopped : Reconciler * @env sample_types sample_procs :=
  Eval vm_compute in sample_result (sample_start ++
    [(id, I_desired (sample_desired ["b2"]) 2000 both_up); (id, I_tick false 32000 both_up)]).

Lemma sample_stopped_ok : reconciler_ok 2 sample_stopped.1.
Proof.
  change sample_stopped with (sample_result (sample_start ++
    [(id, I_desired (sample_desired ["b2"]) 2000 both_up); (id, I_tick false 32000 both_up)])). apply sample_ok.
Qed.

Lemma freed_slot_is_down_witness :
  let p := sample_step 32250 (sample_lb [(1, true)]) sample_stopped in
  called (Alive (Some 2) false) sample_stopped.2 p.2 ∧ called (Do (Admin UNDRAIN 0)) sample_stopped.2 p.2.
Proof.
  intros p. assert (∃ s s', slots sample_stopped.1 !! 0%nat = Some s ∧ s_owner s ≠ None ∧ s_handle s = Some 2 ∧ lb_id s = 0 ∧
    slots p.1 !! 0%nat = Some s' ∧ s_owner s' = None) as (s & s' & Hi & Ho & Hh & Hl & Hi' & Ho').
  { eexists _, _. split_and!; (vm_compute; (reflexivity || done)). }
  destruct (freed_slot_is_down 2 32250 (sample_lb [(1, true)]) sample_stopped.1 p.1 sample_stopped.2 p.2 0%nat s s')
    as (_ & _ & Ha & Hu); [apply sample_stopped_ok| |done..|].
  - exact (sample_step_ok _ _ _ sample_stopped_ok).
  - rewrite Hh in Ha. rewrite Hl in Hu. split; [exact Ha|exact Hu].
Defined.


(** [b1]'s responder exits while it drains for its removal, then [b1] is put back. *)
Definition sample_draining : Reconciler * @env sample_types sample_procs :=
  Eval vm_compute in sample_result (sample_start ++ [(id, I_desired (sample_desired ["b2"]) 2000 both_up)]).

Lemma sample_draining_ok : reconciler_ok 2 sample_draining.1.
Proof.
  change sample_draining with (sample_result (sample_start ++ [(id, I_desired (sample_desired ["b2"]) 2000 both_up)])).
  apply sample_ok.
Qed.

Definition sample_readded : Reconciler * env :=
  (set_desired (sample_desired ["b1"; "b2"]) sample_draining.1, elapsed (sample_end 2) sample_draining.2).

Lemma readd_undrains_dead_witness :
  let p := sample_step 3000 both_up sample_readded in
  reported_up both_up 0 = true ∧
  called (Do (Admin UNDRAIN 0)) sample_readded.2 p.2 ∧ called (Alive (Some 2) false) sample_readded.2 p.2.
Proof.
  intros p. split; [reflexivity|].
  assert (∃ s, slots sample_readded.1 !! 0%nat = Some s ∧ s_owner s = Some "b1" ∧ drains 2000 s ∧
    s_handle s = Some 2 ∧ lb_id s = 0) as (s & Hi & Ho & Hd & Hh & Hl)
    by (eexists; split_and!; (vm_compute; (reflexivity || done))).
  destruct (readd_undrains_dead 2 3000 both_up sample_readded.1 p.1 sample_readded.2 p.2 0 s "b1" 2000 2)
    as (Hu & Ha & _).
  - apply set_desired_ok, sample_draining_ok.
  - exact (sample_step_ok 3000 both_up sample_readded (set_desired_ok _ _ _ sample_draining_ok)).
  - exact Hi.
  - exact Ho.
  - by apply (bool_decide_unpack _).
  - exact Hd.
  - exact Hh.
  - vm_compute. left.
  - rewrite Hl in Hu. split; [exact Hu|exact Ha].
Defined.

(** [b1] is slowed down, then its responder exits. *)
Definition sample_faulted : Reconciler * @env sample_types sample_procs :=
  Eval vm_compute in sample_result (sample_start ++
    [(id, I_action "b1" (K_slow 4) 2000 2000 both_up); (sample_end 2, I_tick false 2250 both_up)]).

Lemma sample_faulted_ok : reconciler_ok 2 sample_faulted.1.
Proof.
  change sample_faulted with (sample_result (sample_start ++
    [(id, I_action "b1" (K_slow 4) 2000 2000 both_up); (sample_end 2, I_tick false 2250 both_up)])). apply sample_ok.
Qed.

Lemma restart_leaves_crashed_witness :
  ∃ r' e' s', action "b1" K_restart 2500 sample_faulted.1 sample_faulted.2 = Ok (r', e') ∧
    slot_of r' "b1" = Some s' ∧ s_phase s' = Crashed ∧ s_fault s' = None.
Proof.
  assert (∃ s b, slot_of sample_faulted.1 "b1" = Some s ∧ s_phase s = Crashed ∧
    dict_get (desired_backends (desired sample_faulted.1)) "b1" = Some b ∧ s_fault s = Some (F_slow 2000 4))
    as (s & b & Hs & Hp & Hb & Hf) by (eexists _, _; split_and!; (vm_compute; reflexivity)).
  destruct (restart_leaves_crashed 2 "b1" K_restart 2500 sample_faulted.1 sample_faulted.2 s b)
    as (r' & e' & s' & tr & Ha & Hs' & Hp' & Hf' & _).
  - apply sample_faulted_ok.
  - exact Hs.
  - exact Hp.
  - exact Hb.
  - rewrite Hf. exact I.
  - by left.
  - exists r', e', s'. split_and!; [exact Ha|exact Hs'|exact Hp'|exact Hf'].
Defined.

(** [b1] is drained by hand, crashes and is restarted. *)
Definition sample_restarted : Reconciler * @env sample_types sample_procs :=
  Eval vm_compute in sample_result (sample_start ++
    [(id, I_action "b1" K_drain 2000 2000 both_up);
     (id, I_action "b1" K_crash 3000 3000 (sample_lb [(0, false); (1, true)]));
     (id, I_action "b1" K_restart 4000 4000 (sample_lb [(1, true)]))]).

Lemma sample_restarted_ok : reconciler_ok 2 sample_restarted.1.
Proof.
  change sample_restarted with (sample_result (sample_start ++
    [(id, I_action "b1" K_drain 2000 2000 both_up);
     (id, I_action "b1" K_crash 3000 3000 (sample_lb [(0, false); (1, true)]));
     (id, I_action "b1" K_restart 4000 4000 (sample_lb [(1, true)]))])). apply sample_ok.
Qed.

Lemma drained_restart_stays_starting_witness :
  let lb := sample_lb [(0, false); (1, true)] in
  let p := sample_step 6000 lb sample_restarted in
  reported_up lb 0 = true ∧
  ∃ s', slots p.1 !! 0%nat = Some s' ∧ s_manual_drain s' = true ∧ (s_phase s' = Starting ∨ s_phase s' = Crashed).
Proof.
  intros lb p. split; [reflexivity|].
  assert (∃ s, slots sample_restarted.1 !! 0%nat = Some s ∧ s_owner s = Some "b1" ∧ s_removing s = false ∧
    s_phase s = Starting ∧ s_manual_drain s = true ∧ lb_id s = 0) as (s & Hi & Ho & Hr & Hp & Hm & Hl)
    by (eexists; split_and!; (vm_compute; reflexivity)).
  destruct (drained_restart_stays_starting 2 6000 lb sample_restarted.1 p.1 sample_restarted.2 p.2 0 s "b1"
    {| ob_up := Some true; ob_adminEnabled := Some false |}) as (s' & Hi' & _ & Hm' & Hp').
  - apply sample_restarted_ok.
  - exact (sample_step_ok _ _ _ sample_restarted_ok).
  - exact Hi.
  - exact Ho.
  - by apply (bool_decide_unpack _).
  - exact Hr.
  - exact Hp.
  - rewrite Hl. reflexivity.
  - reflexivity.
  - exists s'. split_and!; [exact Hi'|congruence|exact Hp'].
Defined.
