(* ===== verification/ServiceServer.v ===== *)
(** * The live-mode backend

    src/bridge/service_server.py: the process a canvas backend stands for.  [Server]
    admits requests up to [capacity], queues up to [queue_limit] more and sheds the
    rest; [Conn] cuts the bytes of a connection into request lines.  Handlers run on
    one thread, each to its end, so that a run is a sequence of events ([event]).  A
    handler may end in an exception, which asyncio reports and survives: the state
    reached so far stays ([M]).

    What the clock and the random numbers give (the measured times, whether a
    request fails) is an input of the event that uses it, as is the moment a
    request's sleep is over.  The latency histograms and the busy integral, which
    only feed the statistics, are left out.

    - [requests_served_in_order]: admission, work conservation and accounting;
    - [idle_report_is_idle]: what the reconciler concludes from a report is true;
    - [nonascii_id_wedges]: a request id outside ASCII costs a unit of capacity for
      good;
    - [request_lines_submitted]: request lines are recognised however they arrive. *)

From Stdlib Require Import Lia String.
From stdpp Require Import base numbers list strings sets.
From S2P Require Import Prelude Net Hash Text Python Schema Reconciler.

Local Open Scope Z_scope.

(** ** Commands (livecommon.num, livecommon.parse_command) *)

(** [int(x)] *)
Definition trunc (x : num) : Z := if decide (0 ≤ x.2) then x.1 * 2 ^ x.2 else Z.quot x.1 (2 ^ (- x.2)).

(** A finite number of the command within the bounds; the callers keep their
    default otherwise. *)
Definition num_in (obj : list (list Z * json)) (key : string) (lo hi : Z) : option num :=
  x ← match get obj key with
      | J_int z => Some (int_num z)
      | J_float (Finite m e) => Some (norm m e)
      | _ => None
      end;
  if num_lt x lo || num_gt x hi then None else Some x.

Definition int_in (obj : list (list Z * json)) (key : string) (lo hi : Z) : option Z :=
  trunc <$> num_in obj key lo hi.

(** A control line after [json.loads] ([None]: not JSON): an object with a textual
    [op], and everything else is skipped. *)
Definition parse_command (doc : option json) : option (list Z * list (list Z * json)) :=
  match doc with
  | Some (J_obj o) => match get o "op" with J_str op => Some (op, o) | _ => None end
  | _ => None
  end.

(** ** State *)

Record request := { q_conn : nat; q_id : list Z; q_close : bool }.

#[export] Instance request_eq_dec : EqDecision request.
Proof. solve_decision. Defined.

Record Conn := { k_buf : list Z; k_got_bytes : bool; k_alive : bool; k_peer_ip : list Z }.

Record counters := { arrivals : Z; ok : Z; err : Z; shed : Z; probes : Z; accepts : Z; abandoned : Z }.

Record Server := {
  sv_slot : Z; lb_ip : list Z;
  capacity : Z; service_ms : num; service_cv : num; queue_limit : Z; error_rate : num;
  slow_factor : num; fault_error_rate : num;
  busy : Z; queue : list request; open_conns : Z;
  c : counters; resp_by_peer : list (list Z * Z);
}.

(** [Server.__init__] *)
Definition new_server (slot : Z) (lb : list Z) (cap : Z) (ms cv : num) (limit : Z) (rate : num) : Server :=
  {| sv_slot := slot; lb_ip := lb; capacity := cap; service_ms := ms; service_cv := cv; queue_limit := limit;
     error_rate := rate; slow_factor := int_num 1; fault_error_rate := int_num 0;
     busy := 0; queue := []; open_conns := 0;
     c := {| arrivals := 0; ok := 0; err := 0; shed := 0; probes := 0; accepts := 0; abandoned := 0 |}; resp_by_peer := [] |}.

(** What the handlers do, in order.  [Admit], [Shed] and [Done] mark the decision
    on a request and the end of its service. *)
Inductive effect :=
| Admit (r : request)
| Shed (r : request)
| Start (r : request)
| Done (r : request)
| Write (k : nat) (s : list Z)
| Close (k : nat).

(** The server, its connections in the order they were made, the coroutines
    [_serve] that have not ended, and the effects so far. *)
Record sys := { server : Server; conns : list Conn; tasks : list request; log : list effect }.

Definition M (A : Type) : Type := sys → py A * sys.

#[export] Instance M_ret : MRet M := λ A a s, (Ok a, s).
#[export] Instance M_bind : MBind M := λ A B f m s,
  match m s with (Ok a, s') => f a s' | (Raise x, s') => (Raise x, s') end.

Definition modify (f : sys → sys) : M () := λ s, (Ok (), f s).
Definition gets {A} (f : sys → A) : M A := λ s, (Ok (f s), s).

Definition emit (x : effect) : M () :=
  modify (λ s, {| server := server s; conns := conns s; tasks := tasks s; log := log s ++ [x] |}).

Definition on_server (f : Server → Server) : M () :=
  modify (λ s, {| server := f (server s); conns := conns s; tasks := tasks s; log := log s |}).

Definition set_conns (f : list Conn → list Conn) : M () :=
  modify (λ s, {| server := server s; conns := f (conns s); tasks := tasks s; log := log s |}).

Definition set_tasks (f : list request → list request) : M () :=
  modify (λ s, {| server := server s; conns := conns s; tasks := f (tasks s); log := log s |}).

Definition set_busy (f : Z → Z) (v : Server) : Server :=
  {| sv_slot := sv_slot v; lb_ip := lb_ip v; capacity := capacity v; service_ms := service_ms v; service_cv := service_cv v;
     queue_limit := queue_limit v; error_rate := error_rate v; slow_factor := slow_factor v;
     fault_error_rate := fault_error_rate v; busy := f (busy v); queue := queue v; open_conns := open_conns v; c := c v;
     resp_by_peer := resp_by_peer v |}.
Definition set_queue (f : list request → list request) (v : Server) : Server :=
  {| sv_slot := sv_slot v; lb_ip := lb_ip v; capacity := capacity v; service_ms := service_ms v; service_cv := service_cv v;
     queue_limit := queue_limit v; error_rate := error_rate v; slow_factor := slow_factor v;
     fault_error_rate := fault_error_rate v; busy := busy v; queue := f (queue v); open_conns := open_conns v; c := c v;
     resp_by_peer := resp_by_peer v |}.
Definition set_open_conns (f : Z → Z) (v : Server) : Server :=
  {| sv_slot := sv_slot v; lb_ip := lb_ip v; capacity := capacity v; service_ms := service_ms v; service_cv := service_cv v;
     queue_limit := queue_limit v; error_rate := error_rate v; slow_factor := slow_factor v;
     fault_error_rate := fault_error_rate v; busy := busy v; queue := queue v; open_conns := f (open_conns v); c := c v;
     resp_by_peer := resp_by_peer v |}.
Definition set_counters (f : counters → counters) (v : Server) : Server :=
  {| sv_slot := sv_slot v; lb_ip := lb_ip v; capacity := capacity v; service_ms := service_ms v; service_cv := service_cv v;
     queue_limit := queue_limit v; error_rate := error_rate v; slow_factor := slow_factor v;
     fault_error_rate := fault_error_rate v; busy := busy v; queue := queue v; open_conns := open_conns v; c := f (c v);
     resp_by_peer := resp_by_peer v |}.
Definition set_resp_by_peer (f : list (list Z * Z) → list (list Z * Z)) (v : Server) : Server :=
  {| sv_slot := sv_slot v; lb_ip := lb_ip v; capacity := capacity v; service_ms := service_ms v; service_cv := service_cv v;
     queue_limit := queue_limit v; error_rate := error_rate v; slow_factor := slow_factor v;
     fault_error_rate := fault_error_rate v; busy := busy v; queue := queue v; open_conns := open_conns v; c := c v;
     resp_by_peer := f (resp_by_peer v) |}.

Definition count (f : counters → counters) : M () := on_server (set_counters f).

Definition inc_arrivals x := {| arrivals := arrivals x + 1; ok := ok x; err := err x; shed := shed x; probes := probes x; accepts := accepts x; abandoned := abandoned x |}.
Definition inc_ok x := {| arrivals := arrivals x; ok := ok x + 1; err := err x; shed := shed x; probes := probes x; accepts := accepts x; abandoned := abandoned x |}.
Definition inc_err x := {| arrivals := arrivals x; ok := ok x; err := err x + 1; shed := shed x; probes := probes x; accepts := accepts x; abandoned := abandoned x |}.
Definition inc_shed x := {| arrivals := arrivals x; ok := ok x; err := err x; shed := shed x + 1; probes := probes x; accepts := accepts x; abandoned := abandoned x |}.
Definition inc_probes x := {| arrivals := arrivals x; ok := ok x; err := err x; shed := shed x; probes := probes x + 1; accepts := accepts x; abandoned := abandoned x |}.
Definition inc_accepts x := {| arrivals := arrivals x; ok := ok x; err := err x; shed := shed x; probes := probes x; accepts := accepts x + 1; abandoned := abandoned x |}.
Definition inc_abandoned x := {| arrivals := arrivals x; ok := ok x; err := err x; shed := shed x; probes := probes x; accepts := accepts x; abandoned := abandoned x + 1 |}.

Definition no_counts : counters := {| arrivals := 0; ok := 0; err := 0; shed := 0; probes := 0; accepts := 0; abandoned := 0 |}.

(** ** Replies *)

(** [Conn.reply]: nothing once the connection is lost; [text.encode("ascii")] raises
    [UnicodeEncodeError], a [ValueError]. *)
Definition ascii (s : list Z) : bool := forallb (λ x, bool_decide (x < 128)) s.

Definition reply (k : nat) (s : list Z) (close : bool) : M () :=
  l ← gets conns;
  match l !! k with
  | Some conn =>
      if k_alive conn then
        if ascii s then
          _ ← emit (Write k s);
          if close then emit (Close k) else mret ()
        else λ st, (Raise ValueError, st)
      else mret ()
  | None => mret ()
  end.

Definition shed_text (r : request) (slot : Z) : list Z := text "SHED " ++ q_id r ++ [32] ++ fmt_ld slot ++ [10].

Definition done_text (failed : bool) (r : request) (slot queued_us service_us : Z) : list Z :=
  text (if failed then "ERR" else "OK") ++ [32] ++ q_id r ++ [32] ++ fmt_ld slot ++ [32] ++
  fmt_ld queued_us ++ [32] ++ fmt_ld service_us ++ [10].

(** ** Admission *)

Definition _start (r : request) : M () :=
  _ ← on_server (set_busy (λ n, n + 1));
  _ ← set_tasks (λ l, l ++ [r]);
  emit (Start r).

Definition submit (r : request) : M () :=
  _ ← count inc_arrivals;
  v ← gets server;
  if decide (busy v < capacity v) then _ ← emit (Admit r); _start r
  else if decide (Z.of_nat (length (queue v)) < queue_limit v) then
    _ ← emit (Admit r); on_server (set_queue (λ q, q ++ [r]))
  else
    _ ← emit (Shed r); _ ← count inc_shed;
    reply (q_conn r) (shed_text r (sv_slot v)) (q_close r).

(** [while self.queue and self.busy < self.capacity]; [q] is the queue. *)
Fixpoint admit_queue (q : list request) : M () :=
  match q with
  | [] => mret ()
  | r :: q =>
      v ← gets server;
      if decide (busy v < capacity v) then
        _ ← on_server (set_queue (λ _, q)); _ ← _start r; admit_queue q
      else mret ()
  end.

Definition admit_more : M () := v ← gets server; admit_queue (queue v).

(** The reply to a request that has been served, if anyone is still listening. *)
Definition answer (r : request) (failed : bool) (queued_us service_us : Z) : M () :=
  l ← gets conns;
  match l !! q_conn r with
  | Some conn =>
      if k_alive conn then
        _ ← on_server (set_resp_by_peer (λ d, dict_set d (k_peer_ip conn) (default 0 (dict_get d (k_peer_ip conn)) + 1)));
        v ← gets server;
        reply (q_conn r) (done_text failed r (sv_slot v) queued_us service_us) (q_close r)
      else count inc_abandoned
  | None => mret ()
  end.

(** The end of a [_serve]: [i] is its place among those that have not ended. *)
Definition finish (i : nat) (failed : bool) (queued_us service_us : Z) : M () :=
  ts ← gets tasks;
  match ts !! i with
  | Some r =>
      _ ← set_tasks (delete i);
      _ ← emit (Done r);
      _ ← count (if failed then inc_err else inc_ok);
      _ ← answer r failed queued_us service_us;
      _ ← on_server (set_busy (λ n, n - 1));
      admit_more
  | None => mret ()
  end.

(** ** Control *)

Definition config (o : list (list Z * json)) (v : Server) : Server :=
  {| sv_slot := sv_slot v; lb_ip := lb_ip v;
     capacity := default (capacity v) (int_in o "capacity" 1 256);
     service_ms := default (service_ms v) (num_in o "serviceMs" 1 2000);
     service_cv := default (service_cv v) (num_in o "serviceCv" 0 3);
     queue_limit := default (queue_limit v) (int_in o "queueLimit" 0 4096);
     error_rate := default (error_rate v) (num_in o "errorRate" 0 1);
     slow_factor := slow_factor v; fault_error_rate := fault_error_rate v;
     busy := busy v; queue := queue v; open_conns := open_conns v; c := c v; resp_by_peer := resp_by_peer v |}.

Definition set_fault (slow rate : num) (v : Server) : Server :=
  {| sv_slot := sv_slot v; lb_ip := lb_ip v; capacity := capacity v; service_ms := service_ms v; service_cv := service_cv v;
     queue_limit := queue_limit v; error_rate := error_rate v; slow_factor := slow; fault_error_rate := rate;
     busy := busy v; queue := queue v; open_conns := open_conns v; c := c v; resp_by_peer := resp_by_peer v |}.

Definition reset_stats (v : Server) : Server := set_counters (λ _, no_counts) (set_resp_by_peer (λ _, []) v).

Definition on_command (cmd : list Z * list (list Z * json)) : M () :=
  let '(op, o) := cmd in
  if decide (op = text "config") then _ ← on_server (config o); admit_more
  else if decide (op = text "fault") then
    on_server (set_fault (default (int_num 1) (num_in o "slowFactor" 1 50)) (default (int_num 0) (num_in o "errorRate" 0 1)))
  else if decide (op = text "clear") then on_server (set_fault (int_num 1) (int_num 0))
  else if decide (op = text "reset_stats") then on_server reset_stats
  else mret ().

(** The fields of a report the reconciler reads. *)
Record report := { rep_busy : Z; rep_queued : Z; rep_openConns : Z; rep_counters : counters }.

Definition stats (v : Server) : report :=
  {| rep_busy := busy v; rep_queued := Z.of_nat (length (queue v)); rep_openConns := open_conns v; rep_counters := c v |}.

(** ** Connections *)

Definition MAX_LINE : Z := 256.

Definition connection_made (peer : option (list Z)) : M () :=
  _ ← set_conns (λ l, l ++ [{| k_buf := []; k_got_bytes := false; k_alive := true; k_peer_ip := default (text "?") peer |}]);
  on_server (set_open_conns (λ n, n + 1)).

(** [_on_idle] *)
Definition on_idle (k : nat) : M () :=
  l ← gets conns;
  match l !! k with Some conn => if k_alive conn then emit (Close k) else mret () | None => mret () end.

(** The white space of [str.split] below 128, and [line.decode("ascii", "replace")]. *)
Definition is_space (x : Z) : bool := bool_decide (9 ≤ x ≤ 13) || bool_decide (28 ≤ x ≤ 32).
Definition decode (s : list Z) : list Z := (λ x, if decide (x < 128) then x else 65533) <$> s.

(** [s.split()] *)
Fixpoint split (cur : list Z) (s : list Z) : list (list Z) :=
  match s with
  | [] => match cur with [] => [] | _ => [cur] end
  | x :: s => if is_space x then match cur with [] => split [] s | _ => cur :: split [] s end else split (cur ++ [x]) s
  end.

Definition parse_request (line : list Z) : option (list Z * bool) :=
  match split [] (decode line) with
  | [verb; id; how] =>
      if decide (verb = text "REQ" ∧ (how = text "close" ∨ how = text "keep") ∧ (length id ≤ 32)%nat)
      then Some (id, bool_decide (how = text "close")) else None
  | _ => None
  end.

(** The complete lines of a buffer, and what is left. *)
Fixpoint split_lines (s : list Z) : list (list Z) * list Z :=
  match s with
  | [] => ([], [])
  | x :: s =>
      let '(ls, rest) := split_lines s in
      if decide (x = 10) then ([] :: ls, rest)
      else match ls with [] => ([], x :: rest) | l :: ls => ((x :: l) :: ls, rest) end
  end.

Definition set_buf (b : list Z) (x : Conn) : Conn :=
  {| k_buf := b; k_got_bytes := k_got_bytes x; k_alive := k_alive x; k_peer_ip := k_peer_ip x |}.
Definition set_got (x : Conn) : Conn :=
  {| k_buf := k_buf x; k_got_bytes := true; k_alive := k_alive x; k_peer_ip := k_peer_ip x |}.
Definition set_lost (x : Conn) : Conn :=
  {| k_buf := k_buf x; k_got_bytes := k_got_bytes x; k_alive := false; k_peer_ip := k_peer_ip x |}.

Definition put_buf (k : nat) (b : list Z) : M () := set_conns (alter (set_buf b) k).

(** The loop of [data_received]: [self.buf] is cut before a line is looked at. *)
Fixpoint take_lines (k : nat) (ls : list (list Z)) (rest : list Z) : M () :=
  match ls with
  | [] => if decide (MAX_LINE < Z.of_nat (length rest)) then emit (Close k) else mret ()
  | line :: ls =>
      _ ← put_buf k (concat ((λ l, l ++ [10]) <$> ls) ++ rest);
      match parse_request line with
      | Some (id, close) => _ ← submit {| q_conn := k; q_id := id; q_close := close |}; take_lines k ls rest
      | None => emit (Close k)
      end
  end.

Definition data_received (k : nat) (data : list Z) : M () :=
  l ← gets conns;
  match l !! k with
  | Some conn =>
      _ ← (if k_got_bytes conn then mret () else _ ← set_conns (alter set_got k); count inc_accepts);
      let buf := k_buf conn ++ data in
      _ ← put_buf k buf;
      let '(ls, rest) := split_lines buf in
      take_lines k ls rest
  | None => mret ()
  end.

Definition connection_lost (k : nat) : M () :=
  l ← gets conns;
  match l !! k with
  | Some conn =>
      _ ← set_conns (alter set_lost k);
      _ ← on_server (set_open_conns (λ n, n - 1));
      v ← gets server;
      if decide (k_got_bytes conn = false ∧ k_peer_ip conn = lb_ip v) then count inc_probes else mret ()
  | None => mret ()
  end.

(** ** Runs *)

Inductive event :=
| Connected (peer : option (list Z))
| Data (k : nat) (data : list Z)
| Lost (k : nat)
| Idle (k : nat)
| Finish (i : nat) (failed : bool) (queued_us service_us : Z)
| Line (doc : option json).

Definition handle (ev : event) : M () :=
  match ev with
  | Connected peer => connection_made peer
  | Data k data => data_received k data
  | Lost k => connection_lost k
  | Idle k => on_idle k
  | Finish i failed queued_us service_us => finish i failed queued_us service_us
  | Line doc => match parse_command doc with Some cmd => on_command cmd | None => mret () end
  end.

(** asyncio delivers data of, and reports the loss of, connections that are not
    lost, and a coroutine ends once. *)
Definition enabled (s : sys) (ev : event) : Prop :=
  match ev with
  | Data k _ | Lost k => ∃ conn, conns s !! k = Some conn ∧ k_alive conn = true
  | Finish i _ _ _ => (i < length (tasks s))%nat
  | _ => True
  end.

Definition boot (v : Server) : sys := {| server := v; conns := []; tasks := []; log := [] |}.

Inductive exec : sys → list event → sys → Prop :=
| exec_nil s : exec s [] s
| exec_cons s ev r s1 evs s2 : enabled s ev → handle ev s = (r, s1) → exec s1 evs s2 → exec s (ev :: evs) s2.

(** ** Accounting *)

Definition admits (l : list effect) : list request := omap (λ x, match x with Admit r => Some r | _ => None end) l.
Definition sheds (l : list effect) : list request := omap (λ x, match x with Shed r => Some r | _ => None end) l.
Definition starts (l : list effect) : list request := omap (λ x, match x with Start r => Some r | _ => None end) l.
Definition dones (l : list effect) : list request := omap (λ x, match x with Done r => Some r | _ => None end) l.

Definition foreign (r : request) : Prop := ascii (q_id r) = false.
Definition len {A} (l : list A) : Z := Z.of_nat (length l).

(** How many requests the last [reset_stats] took out of the counters. *)
Record offsets := { o_arrivals : Z; o_shed : Z; o_done : Z }.

(** [busy] counts the requests in service, and those whose reply could not be
    encoded; [lo] and [hi] allow for the request a handler is working on. *)
Record accounted_in (lo hi : Z) (o : offsets) (s : sys) : Prop := {
  a_order : starts (log s) ++ queue (server s) = admits (log s);
  a_tasks : starts (log s) ≡ₚ dones (log s) ++ tasks s;
  a_busy : len (tasks s) + lo ≤ busy (server s) ≤ len (tasks s) + len (filter foreign (dones (log s))) + hi;
  a_conns : open_conns (server s) = len (filter (λ x, k_alive x = true) (conns s));
  a_arrivals : arrivals (c (server s)) = len (admits (log s)) + len (sheds (log s)) - o_arrivals o;
  a_shed : shed (c (server s)) = len (sheds (log s)) - o_shed o;
  a_done : ok (c (server s)) + err (c (server s)) = len (dones (log s)) - o_done o;
}.

Abbreviation accounted := (accounted_in 0 0).

(** No request waits while there is capacity. *)
Definition working (s : sys) : Prop := queue (server s) ≠ [] → capacity (server s) ≤ busy (server s).

Lemma admits_snoc l x : admits (l ++ [x]) = admits l ++ (match x with Admit r => [r] | _ => [] end).
Proof. unfold admits. rewrite omap_app. by destruct x. Qed.
Lemma sheds_snoc l x : sheds (l ++ [x]) = sheds l ++ (match x with Shed r => [r] | _ => [] end).
Proof. unfold sheds. rewrite omap_app. by destruct x. Qed.
Lemma starts_snoc l x : starts (l ++ [x]) = starts l ++ (match x with Start r => [r] | _ => [] end).
Proof. unfold starts. rewrite omap_app. by destruct x. Qed.
Lemma dones_snoc l x : dones (l ++ [x]) = dones l ++ (match x with Done r => [r] | _ => [] end).
Proof. unfold dones. rewrite omap_app. by destruct x. Qed.

Lemma len_snoc {A} (l : list A) x : len (l ++ [x]) = len l + 1.
Proof. unfold len. rewrite length_app. cbn. lia. Qed.

Lemma len_nonneg {A} (l : list A) : 0 ≤ len l.
Proof. unfold len. lia. Qed.

Create Rewrite HintDb logs.
#[local] Hint Rewrite admits_snoc sheds_snoc starts_snoc dones_snoc app_nil_r @len_snoc : logs.

#[local] Ltac run_in H := cbv [mbind M_bind mret M_ret gets modify emit on_server set_tasks set_conns count] in H; cbv beta iota in H.

(** The reply adds to the log only. *)
Definition writes (x : effect) : Prop := match x with Write _ _ | Close _ => True | _ => False end.

Definition with_log (w : list effect) (s : sys) : sys :=
  {| server := server s; conns := conns s; tasks := tasks s; log := log s ++ w |}.

Lemma reply_writes k t cl s r s' : reply k t cl s = (r, s') →
  ∃ w, Forall writes w ∧ s' = with_log w s ∧ (r = Ok () ∨ ascii t = false).
Proof.
  intros E. unfold reply in E. run_in E.
  assert (s = with_log [] s) as H0 by (destruct s; unfold with_log; by rewrite app_nil_r).
  destruct (conns s !! k) as [conn|]; [|injection E as <- <-; exists []; auto].
  destruct (k_alive conn); [|injection E as <- <-; exists []; auto].
  destruct (ascii t); [|injection E as <- <-; exists []; auto].
  destruct cl; injection E as <- <-.
  - exists [Write k t; Close k]. split_and!; [by repeat constructor| |by left]. unfold with_log. cbn. by rewrite <- app_assoc.
  - exists [Write k t]. split_and!; [by repeat constructor|done|by left].
Qed.

Lemma logs_writes l w : Forall writes w →
  admits (l ++ w) = admits l ∧ sheds (l ++ w) = sheds l ∧ starts (l ++ w) = starts l ∧ dones (l ++ w) = dones l.
Proof.
  induction w as [|x w IH] using rev_ind; intros Hw; [by rewrite app_nil_r|].
  apply Forall_app in Hw as [Hw Hx]. rewrite Forall_singleton in Hx. destruct (IH Hw) as (H1 & H2 & H3 & H4).
  rewrite app_assoc. autorewrite with logs. rewrite H1, H2, H3, H4. destruct x; try done; cbv iota; by rewrite !app_nil_r.
Qed.

Lemma accounted_writes lo hi o w s : Forall writes w → accounted_in lo hi o s → accounted_in lo hi o (with_log w s).
Proof.
  intros Hw []. destruct (logs_writes (log s) w Hw) as (H1 & H2 & H3 & H4).
  split; cbn [with_log server conns tasks log]; rewrite ?H1, ?H2, ?H3, ?H4; assumption.
Qed.

Lemma submit_ok o r s x s' : accounted o s → working s → submit r s = (x, s') →
  accounted o s' ∧ working s' ∧ conns s' = conns s.
Proof.
  intros [] Hw E. unfold submit, _start in E. run_in E.
  cbn [server conns tasks log busy capacity queue queue_limit set_counters set_queue set_busy] in E.
  destruct (decide (busy (server s) < capacity (server s))) as [Hb|Hb].
  - assert (queue (server s) = []) as Hq.
    { destruct (queue (server s)) eqn:Eq; [done|]. unfold working in Hw. rewrite Eq in Hw. specialize (Hw ltac:(done)). lia. }
    injection E as <- <-. split; [split; cbn; autorewrite with logs|split; [|done]].
    + rewrite Hq, app_nil_r in *. congruence.
    + rewrite a_tasks0. by rewrite <- app_assoc.
    + lia.
    + done.
    + rewrite a_arrivals0. lia.
    + done.
    + done.
    + unfold working. cbn. by rewrite Hq.
  - destruct (decide (Z.of_nat (length (queue (server s))) < queue_limit (server s))) as [Hl|Hl].
    + injection E as <- <-. split; [split; cbn; autorewrite with logs; try done|split; [|done]].
      * by rewrite app_assoc, a_order0.
      * lia.
      * unfold working. cbn. lia.
    + apply reply_writes in E as (w & Hlog & -> & _). split; [|split; [exact Hw|done]].
      apply accounted_writes; [done|]. split; cbn; autorewrite with logs; try done; lia.
Qed.

Lemma admit_queue_ok o q : ∀ s x s', accounted o s → queue (server s) = q → admit_queue q s = (x, s') →
  accounted o s' ∧ working s' ∧ x = Ok () ∧ capacity (server s') = capacity (server s) ∧ conns s' = conns s.
Proof.
  induction q as [|r q IH]; intros s x s' Ha Hq E; cbn [admit_queue] in E; unfold _start in E; run_in E.
  - injection E as <- <-. split_and!; try done. unfold working. by rewrite Hq.
  - cbn [server busy capacity queue set_queue set_busy conns tasks log] in E.
    destruct (decide (busy (server s) < capacity (server s))) as [Hb|Hb].
    + apply IH in E; [exact E| |done]. destruct Ha. split; cbn; autorewrite with logs; try done.
      * rewrite <- a_order0, Hq. by rewrite <- app_assoc.
      * rewrite a_tasks0. by rewrite <- app_assoc.
      * lia.
    + injection E as <- <-. split_and!; try done. unfold working. lia.
Qed.

Lemma admit_more_ok o s x s' : accounted o s → admit_more s = (x, s') →
  accounted o s' ∧ working s' ∧ x = Ok () ∧ capacity (server s') = capacity (server s) ∧ conns s' = conns s.
Proof. intros Ha E. eapply admit_queue_ok; [exact Ha|reflexivity|exact E]. Qed.

(** The texts around an id are ASCII. *)
Lemma ascii_app s t : ascii (s ++ t) = ascii s && ascii t.
Proof. apply forallb_app. Qed.

Lemma ascii_fmt_u n : ascii (fmt_u n) = true.
Proof.
  destruct (fmt_u_cons n) as (d & ds & -> & Hd & Hds). apply Is_true_true_1, forallb_True. constructor.
  - apply bool_decide_pack. lia.
  - eapply Forall_impl; [exact Hds|]. intros x Hx. apply bool_decide_pack. cbv beta in Hx. lia.
Qed.

Lemma ascii_fmt_ld n : ascii (fmt_ld n) = true.
Proof. unfold fmt_ld. case_decide; [|apply ascii_fmt_u]. exact (ascii_fmt_u (- n)). Qed.

Lemma ascii_done failed r slot q u : ascii (done_text failed r slot q u) = ascii (q_id r).
Proof.
  unfold done_text. rewrite !ascii_app, !ascii_fmt_ld. change (ascii [32]) with true. change (ascii [10]) with true.
  rewrite !andb_true_l, !andb_true_r. by destruct failed.
Qed.

(** The request that ends leaves the list, but not yet [busy]. *)
Lemma accounted_done o i (failed : bool) r s : tasks s !! i = Some r → accounted o s →
  accounted_in 1 (if ascii (q_id r) then 1 else 0) o
    {| server := set_counters (if failed then inc_err else inc_ok) (server s); conns := conns s;
       tasks := delete i (tasks s); log := log s ++ [Done r] |}.
Proof.
  intros Hi []. pose proof (delete_Permutation _ _ _ Hi) as Hp.
  assert (len (tasks s) = len (delete i (tasks s)) + 1) as Hlen by (apply Permutation_length in Hp; cbn [length] in Hp; unfold len; lia).
  split; cbn [server conns tasks log]; autorewrite with logs; try done.
  - rewrite a_tasks0, <- app_assoc. by apply Permutation_app_head.
  - rewrite filter_app. change (busy (set_counters ?f ?v)) with (busy v). unfold len in *. rewrite length_app, filter_cons, filter_nil.
    case_decide as Hf; unfold foreign in Hf; [rewrite Hf|apply not_false_is_true in Hf; rewrite Hf]; cbn [length]; lia.
  - by destruct failed.
  - by destruct failed.
  - destruct failed; cbn; lia.
Qed.

Definition same_room (s s' : sys) : Prop :=
  queue (server s') = queue (server s) ∧ busy (server s') = busy (server s) ∧
  capacity (server s') = capacity (server s) ∧ queue_limit (server s') = queue_limit (server s) ∧ conns s' = conns s.

Lemma answer_ok lo hi o r failed q u s x s' : accounted_in lo hi o s → answer r failed q u s = (x, s') →
  accounted_in lo hi o s' ∧ same_room s s' ∧ (x = Ok () ∨ foreign r).
Proof.
  intros Ha E. unfold answer in E. run_in E. unfold same_room.
  destruct (conns s !! q_conn r) as [conn|]; [|injection E as <- <-; auto 10].
  destruct (k_alive conn).
  - apply reply_writes in E as (w & Hw & -> & Hx). rewrite ascii_done in Hx. split_and!; try done.
    apply accounted_writes; [done|]. by destruct Ha.
  - injection E as <- <-. split_and!; try done; [|by left]. by destruct Ha.
Qed.

Lemma finish_ok o i failed q u s x s' : accounted o s → working s → finish i failed q u s = (x, s') →
  accounted o s' ∧ working s' ∧ conns s' = conns s.
Proof.
  intros Ha Hw E. unfold finish in E. run_in E.
  destruct (tasks s !! i) as [r|] eqn:Hi; [|by injection E as <- <-].
  apply (accounted_done o i failed r s Hi) in Ha. cbn [server conns tasks log] in E.
  destruct (answer r failed q u _) as [y s1] eqn:Er in E.
  destruct (answer_ok _ _ _ _ _ _ _ _ _ _ Ha Er) as (Ha1 & (Hq & Hb & Hc & _ & Hk) & Hx). destruct y as [[]|e].
  - eapply (admit_more_ok o) in E as (Ha2 & Hw2 & _ & _ & Hk2); [split_and!; [done|done|by rewrite Hk2]|].
    destruct Ha1. split; cbn [server conns tasks log]; try done.
    change (busy (set_busy ?f ?v)) with (f (busy v)). cbv beta. destruct (ascii (q_id r)); lia.
  - injection E as <- <-. split_and!; [|unfold working; by rewrite Hq, Hb, Hc|done].
    destruct Hx as [Hx|Hx]; [done|]. unfold foreign in Hx. rewrite Hx in Ha1. destruct Ha1. split; try done. lia.
Qed.

Definition alive_conns (l : list Conn) : Z := len (filter (λ x, k_alive x = true) l).

Lemma alive_cons x l : alive_conns (x :: l) = (if k_alive x then 1 else 0) + alive_conns l.
Proof.
  unfold alive_conns, len. rewrite filter_cons. destruct (k_alive x); [rewrite decide_True by done|rewrite decide_False by done];
    cbn [length]; lia.
Qed.

Lemma alive_alter f k l x : l !! k = Some x →
  alive_conns (alter f k l) = alive_conns l - (if k_alive x then 1 else 0) + (if k_alive (f x) then 1 else 0).
Proof.
  revert k. induction l as [|y l IH]; intros [|k] Hk; cbn in Hk; simplify_eq; cbn [alter list_alter]; rewrite !alive_cons; [lia|].
  change (list_alter f k l) with (alter f k l). rewrite (IH k Hk). lia.
Qed.

Lemma alive_keep f k l : (∀ x, k_alive (f x) = k_alive x) → alive_conns (alter f k l) = alive_conns l.
Proof.
  intros Hf. revert k. induction l as [|y l IH]; intros [|k]; [done..| |]; cbn [alter list_alter]; rewrite !alive_cons.
  - by rewrite Hf.
  - change (list_alter f k l) with (alter f k l). by rewrite IH.
Qed.

(** A change of the connections that keeps them alive. *)
Lemma accounted_conns o f k s : (∀ x, k_alive (f x) = k_alive x) → accounted o s → working s →
  let s' := {| server := server s; conns := alter f k (conns s); tasks := tasks s; log := log s |} in
  accounted o s' ∧ working s'.
Proof.
  intros Hf [] Hw. split; [|exact Hw]. split; try done. cbn [server conns]. rewrite a_conns0. symmetry. by apply alive_keep.
Qed.

Lemma emit_close_ok o k s : accounted o s → working s → accounted o (with_log [Close k] s) ∧ working (with_log [Close k] s).
Proof. intros Ha Hw. split; [|exact Hw]. apply accounted_writes; [by repeat constructor|done]. Qed.

Lemma take_lines_ok o k rest ls : ∀ s x s', accounted o s → working s → take_lines k ls rest s = (x, s') →
  accounted o s' ∧ working s'.
Proof.
  induction ls as [|line ls IH]; intros s x s' Ha Hw E; cbn [take_lines] in E; unfold put_buf in E; run_in E.
  - case_decide; injection E as <- <-; [by apply emit_close_ok|done].
  - destruct (accounted_conns o (set_buf (concat ((λ l, l ++ [10]) <$> ls) ++ rest)) k s ltac:(done) Ha Hw) as [Ha1 Hw1].
    destruct (parse_request line) as [[id close]|].
    + destruct (submit _ _) as [y s1] eqn:Es in E. destruct (submit_ok o _ _ _ _ Ha1 Hw1 Es) as (Ha2 & Hw2 & _).
      destruct y as [[]|e]; [by eapply IH|by injection E as <- <-].
    + injection E as <- <-. by apply (emit_close_ok o k _ Ha1).
Qed.

Lemma data_received_ok o k d s x s' : accounted o s → working s → data_received k d s = (x, s') →
  accounted o s' ∧ working s'.
Proof.
  intros Ha Hw E. unfold data_received in E. run_in E.
  destruct (conns s !! k) as [conn|] eqn:Hk; [|by injection E as <- <-]. unfold put_buf in E. run_in E.
  destruct (split_lines (k_buf conn ++ d)) as [ls rest].
  destruct (k_got_bytes conn); cbn [server conns tasks log] in E; (eapply take_lines_ok; [..|exact E]).
  - by destruct (accounted_conns o (set_buf (k_buf conn ++ d)) k s ltac:(done) Ha Hw).
  - by destruct (accounted_conns o (set_buf (k_buf conn ++ d)) k s ltac:(done) Ha Hw).
  - destruct (accounted_conns o set_got k s ltac:(done) Ha Hw) as [Ha1 Hw1].
    destruct (accounted_conns o (set_buf (k_buf conn ++ d)) k _ ltac:(done) Ha1 Hw1) as [[] _]. by split.
  - exact Hw.
Qed.

Lemma connection_made_ok o peer s x s' : accounted o s → working s → connection_made peer s = (x, s') →
  accounted o s' ∧ working s'.
Proof.
  intros [] Hw E. unfold connection_made in E. run_in E. injection E as <- <-. split; [|exact Hw]. split; try done.
  cbn [server conns]. change (open_conns (set_open_conns ?f ?v)) with (f (open_conns v)). rewrite a_conns0.
  unfold len. rewrite filter_app, length_app, filter_cons, decide_True, filter_nil by done. cbn [length]. lia.
Qed.

Lemma connection_lost_ok o k s x s' : accounted o s → working s → enabled s (Lost k) → connection_lost k s = (x, s') →
  accounted o s' ∧ working s'.
Proof.
  intros [] Hw (conn & Hk & Hal) E. unfold connection_lost in E. run_in E. rewrite Hk in E.
  assert (alive_conns (alter set_lost k (conns s)) = alive_conns (conns s) - 1) as Hn.
  { rewrite (alive_alter set_lost k _ conn Hk), Hal. cbn. lia. }
  unfold alive_conns in Hn. case_decide; injection E as <- <-; (split; [|exact Hw]); split; try done;
    cbn [server conns]; (etrans; [|symmetry; exact Hn]); cbn; lia.
Qed.

Definition is_op (name : string) (ev : event) : Prop :=
  match ev with Line doc => ∃ o, parse_command doc = Some (text name, o) | _ => False end.

Lemma on_command_ok o cmd s x s' : accounted o s → working s → on_command cmd s = (x, s') →
  ∃ o', accounted o' s' ∧ working s' ∧ (cmd.1 ≠ text "reset_stats" → o' = o).
Proof.
  intros Ha Hw E. destruct cmd as [op obj]. unfold on_command in E. run_in E.
  destruct (decide (op = text "config")).
  { eapply (admit_more_ok o) in E as (Ha2 & Hw2 & _); [by exists o|]. by destruct Ha. }
  destruct (decide (op = text "fault")). { injection E as <- <-. exists o. split_and!; [by destruct Ha|exact Hw|done]. }
  destruct (decide (op = text "clear")). { injection E as <- <-. exists o. split_and!; [by destruct Ha|exact Hw|done]. }
  destruct (decide (op = text "reset_stats")) as [Hr|]; injection E as <- <-; [|by exists o].
  exists {| o_arrivals := len (admits (log s)) + len (sheds (log s)); o_shed := len (sheds (log s)); o_done := len (dones (log s)) |}.
  split_and!; [|exact Hw|done]. destruct Ha. split; try done; cbn [o_arrivals o_shed o_done server log].
  - change (0 = len (admits (log s)) + len (sheds (log s)) - (len (admits (log s)) + len (sheds (log s)))). lia.
  - change (0 = len (sheds (log s)) - len (sheds (log s))). lia.
  - change (0 = len (dones (log s)) - len (dones (log s))). lia.
Qed.

Lemma handle_accounted o ev s x s' : enabled s ev → accounted o s → working s → handle ev s = (x, s') →
  ∃ o', accounted o' s' ∧ working s' ∧ (¬ is_op "reset_stats" ev → o' = o).
Proof.
  intros Hen Ha Hw E. destruct ev as [peer|k d|k|k|i failed q u|doc]; cbn [handle] in E.
  - destruct (connection_made_ok o _ _ _ _ Ha Hw E). by exists o.
  - destruct (data_received_ok o _ _ _ _ _ Ha Hw E). by exists o.
  - destruct (connection_lost_ok o _ _ _ _ Ha Hw Hen E). by exists o.
  - exists o. unfold on_idle in E. run_in E. destruct (conns s !! k) as [conn|]; [|by injection E as <- <-].
    destruct (k_alive conn); injection E as <- <-; [|done]. by destruct (emit_close_ok o k s Ha Hw).
  - destruct (finish_ok o _ _ _ _ _ _ _ Ha Hw E) as (? & ? & _). by exists o.
  - destruct (parse_command doc) as [cmd|] eqn:Hc; [|injection E as <- <-; by exists o].
    destruct (on_command_ok o cmd _ _ _ Ha Hw E) as (o' & Ha' & Hw' & Ho). exists o'. split_and!; [done|done|].
    intros Hr. apply Ho. intros Heq. apply Hr. destruct cmd as [op obj]. cbn in Heq. subst op. by exists obj.
Qed.

Lemma exec_accounted o s evs s' : exec s evs s' → accounted o s → working s →
  ∃ o', accounted o' s' ∧ working s' ∧ (Forall (λ ev, ¬ is_op "reset_stats" ev) evs → o' = o).
Proof.
  intros H. revert o. induction H as [s|s ev r s1 evs s2 Hen E _ IH]; intros o Ha Hw; [by exists o|].
  destruct (handle_accounted o ev s r s1 Hen Ha Hw E) as (o1 & Ha1 & Hw1 & Ho1). destruct (IH o1 Ha1 Hw1) as (o2 & Ha2 & Hw2 & Ho2).
  exists o2. split_and!; [done|done|]. intros [H1 H2]%Forall_cons. rewrite Ho2 by done. auto.
Qed.

(** ** Limits *)

(** At most [B] requests in service and [Q] waiting. *)
Definition fits (B Q : Z) (v : Server) : Prop :=
  capacity v ≤ B ∧ queue_limit v ≤ Q ∧ busy v ≤ B ∧ len (queue v) ≤ Q.

(** A configuration that stays within the limits. *)
Definition config_fits (B Q : Z) (ev : event) : Prop :=
  match ev with
  | Line doc => ∀ o, parse_command doc = Some (text "config", o) →
      (∀ n, int_in o "capacity" 1 256 = Some n → n ≤ B) ∧ (∀ n, int_in o "queueLimit" 0 4096 = Some n → n ≤ Q)
  | _ => True
  end.

Section Limits.
Context (B Q : Z).

Lemma submit_fits r s x s' : fits B Q (server s) → submit r s = (x, s') → fits B Q (server s').
Proof.
  intros (Hc & Hl & Hb & Hq) E. unfold submit, _start in E. run_in E.
  cbn [server conns tasks log busy capacity queue queue_limit set_counters set_queue set_busy] in E.
  case_decide; [injection E as <- <-; unfold fits; cbn [server set_counters set_busy busy capacity queue queue_limit]; lia|].
  case_decide.
  - injection E as <- <-. unfold fits. cbn [server set_counters set_queue busy capacity queue queue_limit].
    rewrite len_snoc. unfold len in *. lia.
  - apply reply_writes in E as (w & _ & -> & _). done.
Qed.

Lemma admit_queue_fits q : ∀ s x s', fits B Q (server s) → queue (server s) = q → admit_queue q s = (x, s') → fits B Q (server s').
Proof.
  induction q as [|r q IH]; intros s x s' Hf Hq E; cbn [admit_queue] in E; unfold _start in E; run_in E; [by injection E as <- <-|].
  cbn [server busy capacity queue set_queue set_busy conns tasks log] in E.
  case_decide; [|by injection E as <- <-]. apply IH in E; [exact E| |done]. destruct Hf as (Hc & Hl & Hb & Hn). rewrite Hq in Hn.
  unfold len in *. cbn [length] in Hn. unfold fits, len. cbn [server set_queue set_busy busy capacity queue queue_limit]. lia.
Qed.

Lemma take_lines_fits k rest ls : ∀ s x s', fits B Q (server s) → take_lines k ls rest s = (x, s') → fits B Q (server s').
Proof.
  induction ls as [|line ls IH]; intros s x s' Hf E; cbn [take_lines] in E; unfold put_buf in E; run_in E.
  - case_decide; by injection E as <- <-.
  - destruct (parse_request line) as [[id close]|]; [|by injection E as <- <-].
    destruct (submit _ _) as [y s1] eqn:Es in E. apply submit_fits in Es; [|done].
    destruct y as [[]|e]; [by eapply IH|by injection E as <- <-].
Qed.

Lemma handle_fits ev s x s' : config_fits B Q ev → fits B Q (server s) → handle ev s = (x, s') → fits B Q (server s').
Proof.
  intros Hcfg Hf E. destruct ev as [peer|k d|k|k|i failed q u|doc]; cbn [handle] in E.
  - unfold connection_made in E. run_in E. by injection E as <- <-.
  - unfold data_received, put_buf in E. run_in E. destruct (conns s !! k) as [conn|]; [|by injection E as <- <-].
    destruct (split_lines (k_buf conn ++ d)) as [ls rest]. destruct (k_got_bytes conn); by eapply take_lines_fits in E.
  - unfold connection_lost in E. run_in E. destruct (conns s !! k); [|by injection E as <- <-].
    case_decide; by injection E as <- <-.
  - unfold on_idle in E. run_in E. destruct (conns s !! k) as [conn|]; [|by injection E as <- <-].
    destruct (k_alive conn); by injection E as <- <-.
  - unfold finish in E. run_in E. destruct (tasks s !! i) as [r|]; [|by injection E as <- <-].
    destruct (answer r failed q u _) as [y s1] eqn:Er in E.
    assert (fits B Q (server s1)) as Hf1.
    { unfold answer in Er. run_in Er. cbn [conns] in Er. destruct (conns s !! q_conn r) as [conn|]; [|by injection Er as <- <-].
      destruct (k_alive conn); [|by injection Er as <- <-]. by apply reply_writes in Er as (w & _ & -> & _). }
    destruct y as [[]|e]; [|by injection E as <- <-]. eapply admit_queue_fits; [..|exact E]; [|done].
    destruct Hf1 as (? & ? & ? & ?). unfold fits. cbn [server set_busy busy capacity queue queue_limit]. lia.
  - destruct (parse_command doc) as [[op o]|] eqn:Hc; [|by injection E as <- <-]. unfold on_command in E. run_in E.
    destruct (decide (op = text "config")) as [->|].
    { destruct (Hcfg o Hc) as [H1 H2]. destruct Hf as (Hc1 & Hl & Hb & Hq). eapply admit_queue_fits; [..|exact E]; [|done].
      unfold fits. cbn [server config busy capacity queue queue_limit].
      destruct (int_in o "capacity" 1 256) as [a|]; destruct (int_in o "queueLimit" 0 4096) as [b|]; cbn [default from_option id];
        rewrite ?(H1 _ eq_refl), ?(H2 _ eq_refl); naive_solver. }
    repeat case_decide; by injection E as <- <-.
Qed.

Lemma exec_fits s evs s' : exec s evs s' → Forall (config_fits B Q) evs → fits B Q (server s) → fits B Q (server s').
Proof.
  induction 1 as [s|s ev r s1 evs s2 Hen E _ IH]; [done|]. intros [H1 H2]%Forall_cons Hf. apply IH; [done|]. by eapply handle_fits.
Qed.
End Limits.

(** ** Theorems *)

(** C30. A server that has handled any events.  Requests are started in the order
    they were admitted, and those not started yet are the queue.  None waits while
    there is capacity.  Every request that was started has been served or is in
    service; [busy] counts those in service, and besides them at most requests with
    an id outside ASCII.  The counters count the requests (until they are reset),
    and the limits hold if the configured ones do. *)
Theorem requests_served_in_order slot lb cap ms cv limit rate evs s :
  0 ≤ cap → 0 ≤ limit → exec (boot (new_server slot lb cap ms cv limit rate)) evs s →
  starts (log s) ++ queue (server s) = admits (log s) ∧
  (queue (server s) ≠ [] → capacity (server s) ≤ busy (server s)) ∧
  starts (log s) ≡ₚ dones (log s) ++ tasks s ∧
  len (tasks s) ≤ busy (server s) ≤ len (tasks s) + len (filter foreign (dones (log s))) ∧
  open_conns (server s) = alive_conns (conns s) ∧
  (Forall (λ ev, ¬ is_op "reset_stats" ev) evs →
   arrivals (c (server s)) = len (admits (log s)) + len (sheds (log s)) ∧
   shed (c (server s)) = len (sheds (log s)) ∧ ok (c (server s)) + err (c (server s)) = len (dones (log s))) ∧
  (∀ B Q, cap ≤ B → limit ≤ Q → Forall (config_fits B Q) evs → busy (server s) ≤ B ∧ len (queue (server s)) ≤ Q).
Proof.
  intros Hcap Hlim Hex. set (v := new_server slot lb cap ms cv limit rate) in *.
  assert (accounted {| o_arrivals := 0; o_shed := 0; o_done := 0 |} (boot v)) as Ha by (split; try done; cbn; lia).
  destruct (exec_accounted _ _ _ _ Hex Ha ltac:(intros Hq; by destruct Hq)) as (o' & [] & Hw & Ho). split_and!; try done; try lia.
  - intros Hr. rewrite (Ho Hr) in *. cbn [o_arrivals o_shed o_done] in *. lia.
  - intros B Q HB HQ Hcfg. destruct (exec_fits B Q _ _ _ Hex Hcfg) as (_ & _ & ? & ?); [|done].
    unfold fits, len. cbn. lia.
Qed.

(** The report as the reconciler reads it. *)
Definition seen (r : report) : Reconciler.stats :=
  {| st_busy := Some (rep_busy r); st_queued := Some (rep_queued r); st_openConns := Some (rep_openConns r) |}.

(** C31. When the reconciler takes a report for idle (and stops a draining
    backend), the server has no request in service or waiting, every request it
    admitted has been served, and no connection is open. *)
Theorem idle_report_is_idle slot lb cap ms cv limit rate evs s :
  exec (boot (new_server slot lb cap ms cv limit rate)) evs s →
  idle_stats (Some (seen (stats (server s)))) = true →
  tasks s = [] ∧ queue (server s) = [] ∧ admits (log s) ≡ₚ dones (log s) ∧ Forall (λ x, k_alive x = false) (conns s).
Proof.
  intros Hex Hidle. set (v := new_server slot lb cap ms cv limit rate) in *.
  assert (accounted {| o_arrivals := 0; o_shed := 0; o_done := 0 |} (boot v)) as Ha by (split; try done; cbn; lia).
  destruct (exec_accounted _ _ _ _ Hex Ha ltac:(intros Hq; by destruct Hq)) as (o' & [] & Hw & Ho).
  unfold idle_stats, zero_stat, seen, stats in Hidle. cbn [st_busy st_queued st_openConns rep_busy rep_queued rep_openConns default] in Hidle.
  rewrite !andb_true_iff, !bool_decide_eq_true in Hidle. destruct Hidle as [[Hb Hq] Hc]. cbn in Hb, Hq, Hc.
  assert (tasks s = []) as Ht by (destruct (tasks s); [done|unfold len in *; cbn [length] in *; lia]).
  assert (queue (server s) = []) as Hq' by (destruct (queue (server s)); [done|cbn in Hq; lia]).
  rewrite Ht, Hq', app_nil_r in *. split_and!; [done|done|by rewrite <- a_order0|].
  rewrite Hc in a_conns0. unfold len in a_conns0. assert (filter (λ x, k_alive x = true) (conns s) = []) as Hf.
  { destruct (filter _ (conns s)); [done|cbn in a_conns0; lia]. }
  apply Forall_forall. intros x Hx. destruct (k_alive x) eqn:E; [|done].
  assert (x ∈ filter (λ x, k_alive x = true) (conns s)) as Hin by (by apply list_elem_of_filter). rewrite Hf in Hin.
  by apply not_elem_of_nil in Hin.
Qed.

(** *** A lost unit of capacity *)

(** Nothing in service, and yet no capacity. *)
Definition wedged (s : sys) : Prop := tasks s = [] ∧ capacity (server s) ≤ busy (server s).

Lemma submit_wedged r s x s' : wedged s → submit r s = (x, s') → wedged s' ∧ starts (log s') = starts (log s).
Proof.
  intros [Ht Hb] E. unfold submit, _start in E. run_in E.
  cbn [server conns tasks log busy capacity queue queue_limit set_counters set_queue set_busy] in E.
  rewrite decide_False in E by lia. case_decide.
  - injection E as <- <-. split; [done|]. cbn [log]. by autorewrite with logs.
  - apply reply_writes in E as (w & Hw & -> & _). split; [done|].
    cbn [with_log log]. destruct (logs_writes (log s ++ [Shed r]) w Hw) as (_ & _ & -> & _). by autorewrite with logs.
Qed.

Lemma take_lines_wedged k rest ls : ∀ s x s', wedged s → take_lines k ls rest s = (x, s') →
  wedged s' ∧ starts (log s') = starts (log s).
Proof.
  induction ls as [|line ls IH]; intros s x s' Hw E; cbn [take_lines] in E; unfold put_buf in E; run_in E.
  - case_decide; injection E as <- <-; (split; [done|]); cbn [log]; by autorewrite with logs.
  - destruct (parse_request line) as [[id close]|].
    + destruct (submit _ _) as [y s1] eqn:Es in E. apply submit_wedged in Es as [Hw1 Hs1]; [|done].
      destruct y as [[]|e]; [|by injection E as <- <-]. destruct (IH _ _ _ Hw1 E) as [Hw2 Hs2]. split; [done|]. by rewrite Hs2.
    + injection E as <- <-. split; [done|]. cbn [log]. by autorewrite with logs.
Qed.

Lemma handle_wedged ev s x s' : enabled s ev → ¬ is_op "config" ev → wedged s → handle ev s = (x, s') →
  wedged s' ∧ starts (log s') = starts (log s).
Proof.
  intros Hen Hcfg Hw E. destruct ev as [peer|k d|k|k|i failed q u|doc]; cbn [handle] in E.
  - unfold connection_made in E. run_in E. by injection E as <- <-.
  - unfold data_received, put_buf in E. run_in E. destruct (conns s !! k) as [conn|]; [|by injection E as <- <-].
    destruct (split_lines (k_buf conn ++ d)) as [ls rest]. destruct (k_got_bytes conn); by apply take_lines_wedged in E.
  - unfold connection_lost in E. run_in E. destruct (conns s !! k); [|by injection E as <- <-].
    case_decide; by injection E as <- <-.
  - unfold on_idle in E. run_in E. destruct (conns s !! k) as [conn|]; [|by injection E as <- <-].
    destruct (k_alive conn); injection E as <- <-; (split; [done|]); cbn [log]; by autorewrite with logs.
  - destruct Hw as [Ht _]. cbn in Hen. rewrite Ht in Hen. cbn in Hen. lia.
  - destruct (parse_command doc) as [[op o]|] eqn:Hc; [|by injection E as <- <-]. unfold on_command in E. run_in E.
    rewrite decide_False in E by (intros ->; apply Hcfg; by exists o). repeat case_decide; by injection E as <- <-.
Qed.

Lemma exec_wedged s evs s' : exec s evs s' → Forall (λ ev, ¬ is_op "config" ev) evs → wedged s → starts (log s') = starts (log s).
Proof.
  induction 1 as [s|s ev r s1 evs s2 Hen E _ IH]; [done|]. intros [H1 H2]%Forall_cons Hw.
  destruct (handle_wedged _ _ _ _ Hen H1 Hw E) as [Hw1 <-]. by apply IH.
Qed.

(** [REQ \xff keep] and the request it is taken for. *)
Definition bad_line : list Z := text "REQ " ++ [255] ++ text " keep".
Definition bad_request : request := {| q_conn := 0; q_id := [65533]; q_close := false |}.

Definition no_break (l : list Z) : Prop := ¬ 10 ∈ l.

Lemma split_lines_plain l s : no_break l →
  split_lines (l ++ s) =
  let '(ls, rest) := split_lines s in match ls with [] => ([], l ++ rest) | x :: ls => ((l ++ x) :: ls, rest) end.
Proof.
  unfold no_break. induction l as [|x l IH]; intros Hl; [cbn [app]; by destruct (split_lines s) as [[|? ?] ?]|].
  rewrite not_elem_of_cons in Hl. destruct Hl as [Hx Hl]. cbn [app split_lines]. rewrite (IH Hl).
  destruct (split_lines s) as [[|y ls] rest]; by rewrite decide_False.
Qed.

Lemma split_lines_all ls : Forall no_break ls → split_lines (concat ((λ l, l ++ [10]) <$> ls)) = (ls, []).
Proof.
  induction 1 as [|l ls Hl _ IH]; [done|]. rewrite fmap_cons. cbn [concat]. rewrite <- app_assoc, split_lines_plain by done.
  cbn [app split_lines]. rewrite IH, decide_True by done. by rewrite app_nil_r.
Qed.

(** Every request is started while there is capacity. *)
Lemma take_bad_lines m : ∀ s, busy (server s) + Z.of_nat m ≤ capacity (server s) →
  ∃ s', take_lines 0 (replicate m bad_line) [] s = (Ok (), s') ∧
    busy (server s') = busy (server s) + Z.of_nat m ∧ capacity (server s') = capacity (server s) ∧
    tasks s' = tasks s ++ replicate m bad_request ∧ k_alive <$> conns s' !! 0%nat = k_alive <$> conns s !! 0%nat.
Proof.
  induction m as [|m IH]; intros s Hs.
  { exists s. rewrite app_nil_r. split_and!; try done. cbn; lia. }
  cbn [replicate take_lines]. change (parse_request bad_line) with (Some ([65533], false)).
  unfold submit, _start, put_buf. cbv [mbind M_bind mret M_ret gets modify emit on_server set_tasks set_conns count]. cbv beta iota.
  cbn [server conns tasks log busy capacity set_counters set_busy]. rewrite decide_True by lia.
  match goal with |- context [take_lines 0 (replicate m bad_line) [] ?x] => destruct (IH x) as (s' & -> & Hb & Hc & Ht & Hk) end.
  { cbn [server set_counters set_busy busy capacity]. lia. }
  exists s'. cbn [server set_counters set_busy busy capacity tasks conns] in *. split_and!; try done; [lia| |].
  - rewrite Ht, <- app_assoc. done.
  - rewrite Hk. destruct (conns s) as [|x l]; done.
Qed.

(** Each of them ends in the exception, without giving its unit back. *)
Lemma finish_bad m : ∀ s, tasks s = replicate m bad_request → k_alive <$> conns s !! 0%nat = Some true →
  ∃ s', exec s (replicate m (Finish 0 false 0 0)) s' ∧ tasks s' = [] ∧ busy (server s') = busy (server s) ∧
    capacity (server s') = capacity (server s).
Proof.
  induction m as [|m IH]; intros s Ht Hk; [exists s; split_and!; [constructor|done..]|].
  destruct (conns s !! 0%nat) as [conn|] eqn:Hc; [|done]. injection Hk as Hal.
  set (s1 := {| server := set_resp_by_peer (λ d, dict_set d (k_peer_ip conn) (default 0 (dict_get d (k_peer_ip conn)) + 1))
                            (set_counters inc_ok (server s));
                conns := conns s; tasks := replicate m bad_request; log := log s ++ [Done bad_request] |}).
  assert (handle (Finish 0 false 0 0) s = (Raise ValueError, s1)) as E.
  { cbn [handle]. unfold finish, answer, reply.
    cbv [mbind M_bind mret M_ret gets modify emit on_server set_tasks set_conns count]. rewrite Ht. cbv beta iota.
    change (replicate (S m) bad_request !! 0%nat) with (Some bad_request). cbv beta iota.
    cbn [conns q_conn bad_request]. rewrite Hc, Hal. cbv beta iota. cbn [conns]. rewrite Hc, Hal.
    rewrite ascii_done. change (ascii (q_id bad_request)) with false. cbv beta iota. cbn [server conns tasks log]. by rewrite Ht. }
  destruct (IH s1 eq_refl) as (s' & Hex & Ht' & Hb & Hcap); [cbn [s1 conns]; by rewrite Hc, <- Hal|].
  exists s'. split_and!; [|done|done|done]. cbn [replicate]. econstructor; [|exact E|exact Hex]. cbn. rewrite Ht. cbn. lia.
Qed.
(** C39. A request id that is not ASCII is accepted, and decoding has replaced its
    bytes by U+FFFD, which the reply cannot encode: the exception leaves [_serve]
    before [busy] is counted down.  A server of capacity [n] that has served [n]
    such requests starts no request ever again, unless it is reconfigured. *)
Theorem nonascii_id_wedges slot lb n ms cv limit rate :
  let v := new_server slot lb (Z.of_nat n) ms cv limit rate in
  ∃ s, exec (boot v) (Connected None :: Data 0 (concat (replicate n (bad_line ++ [10]))) :: replicate n (Finish 0 false 0 0)) s ∧
    tasks s = [] ∧ busy (server s) = Z.of_nat n ∧
    ∀ evs s', exec s evs s' → Forall (λ ev, ¬ is_op "config" ev) evs → starts (log s') = starts (log s).
Proof.
  intros v. set (s1 := (handle (Connected None) (boot v)).2).
  set (data := concat (replicate n (bad_line ++ [10]))).
  assert (split_lines data = (replicate n bad_line, [])) as Hsplit.
  { subst data. rewrite <- (fmap_replicate (λ l, l ++ [10])). apply split_lines_all. apply Forall_replicate. unfold no_break.
    by apply (bool_decide_unpack _); vm_compute. }
  set (s2 := (put_buf 0 data ((_ ← set_conns (alter set_got 0%nat); count inc_accepts) s1).2).2).
  assert (busy (server s2) = 0 ∧ capacity (server s2) = Z.of_nat n ∧ tasks s2 = [] ∧ k_alive <$> conns s2 !! 0%nat = Some true)
    as (Hb2 & Hc2 & Ht2 & Hk2) by done.
  destruct (take_bad_lines n s2) as (s3 & E3 & Hb & Hc & Ht & Hk); [lia|]. rewrite Ht2 in Ht. rewrite Hk2 in Hk.
  destruct (finish_bad n s3 Ht Hk) as (s & Hex & Ht' & Hb' & Hc').
  exists s. split_and!.
  - apply (exec_cons _ _ (Ok ()) s1); [done|reflexivity|]. apply (exec_cons _ _ (Ok ()) s3); [by eexists| |exact Hex].
    cbn [handle]. unfold data_received. cbv [mbind M_bind mret M_ret gets].
    change (conns s1 !! 0%nat) with (Some {| k_buf := []; k_got_bytes := false; k_alive := true; k_peer_ip := text "?" |}).
    cbv beta iota. cbn [k_got_bytes k_buf app]. rewrite Hsplit. exact E3.
  - done.
  - lia.
  - intros evs s' Hex' Hcfg. eapply exec_wedged; [done..|]. split; [done|]. lia.
Qed.

(** *** Request lines *)

Abbreviation ended := (λ l : list Z, l ++ [10]).

Lemma split_lines_none l : no_break l → split_lines l = ([], l).
Proof. intros Hl. rewrite <- (app_nil_r l) at 1. rewrite split_lines_plain by done. cbn. by rewrite app_nil_r. Qed.

(** What is cut off a stream of lines. *)
Lemma split_stream L : ∀ X Y, Forall no_break L → X ++ Y = concat (ended <$> L) →
  ∃ L1 L2 r, L = L1 ++ L2 ∧ split_lines X = (L1, r) ∧ no_break r ∧ r ++ Y = concat (ended <$> L2).
Proof.
  induction L as [|l L IH]; intros X Y HL E.
  { apply app_eq_nil in E as [-> ->]. exists [], [], []. split_and!; [done..|apply not_elem_of_nil|done]. }
  apply Forall_cons in HL as [Hl HL]. rewrite fmap_cons in E. cbn [concat] in E. rewrite <- app_assoc in E.
  apply app_eq_inv in E as [(k & -> & E)|(k & -> & E)].
  - destruct k as [|x k].
    + rewrite app_nil_r. exists [], (l :: L), l. split_and!; [done|by apply split_lines_none|done|].
      cbn in E. rewrite fmap_cons. cbn [concat]. by rewrite <- app_assoc, <- E.
    + injection E as <- E. symmetry in E. destruct (IH k Y HL E) as (L1 & L2 & r & -> & Hs & Hr & HY).
      exists (l :: L1), L2, r. split_and!; [done| |done|done]. rewrite split_lines_plain by done. cbn [split_lines].
      rewrite Hs, decide_True by done. by rewrite app_nil_r.
  - exists [], ((X ++ k) :: L), X. assert (no_break X) by (unfold no_break in *; set_solver).
    split_and!; [done|by apply split_lines_none|done|]. rewrite fmap_cons. cbn [concat]. by rewrite E, <- !app_assoc.
Qed.

(** What is left of a line that has not ended is shorter than the line. *)
Lemma stream_rest L r Y n : Forall (λ l, (length l ≤ n)%nat) L → no_break r → r ++ Y = concat (ended <$> L) → (length r ≤ n)%nat.
Proof.
  intros HL Hr E. destruct L as [|l L]; [apply app_eq_nil in E as [-> _]; cbn; lia|].
  apply Forall_cons in HL as [Hl _]. rewrite fmap_cons in E. cbn [concat] in E. rewrite <- app_assoc in E.
  apply app_eq_inv in E as [(k & -> & E)|(k & -> & E)]; [|rewrite length_app in Hl; lia].
  destruct k as [|x k]; [by rewrite app_nil_r|]. injection E as <- _. destruct Hr. set_solver.
Qed.

(** [ClientConn.send] of load_client.py *)
Definition request_text (q : list Z * bool) : list Z :=
  text "REQ " ++ q.1 ++ [32] ++ text (if q.2 then "close" else "keep") ++ [10].

Definition plain_id (id : list Z) : Prop := id ≠ [] ∧ (length id ≤ 32)%nat ∧ Forall (λ x, 33 ≤ x < 128) id.

Lemma split_word w s : ∀ cur, Forall (λ x, is_space x = false) w → split cur (w ++ s) = split (cur ++ w) s.
Proof.
  induction w as [|x w IH]; intros cur Hw; [by rewrite app_nil_r|]. apply Forall_cons in Hw as [Hx Hw].
  cbn [app split]. rewrite Hx, IH by done. by rewrite <- app_assoc.
Qed.

Lemma plain_space id : Forall (λ x, 33 ≤ x < 128) id → Forall (λ x, is_space x = false) id.
Proof.
  intros H. eapply Forall_impl; [exact H|]. cbv beta. intros x Hx. unfold is_space. by rewrite !bool_decide_false by lia.
Qed.

Lemma decode_ascii s : Forall (λ x, x < 128) s → decode s = s.
Proof. induction 1 as [|x s Hx _ IH]; [done|]. unfold decode in *. rewrite fmap_cons, IH. by rewrite decide_True. Qed.

Lemma parse_request_print id (cl : bool) : plain_id id →
  parse_request (text "REQ " ++ id ++ [32] ++ text (if cl then "close" else "keep")) = Some (id, cl).
Proof.
  intros (Hne & Hlen & Hid). unfold parse_request. rewrite decode_ascii.
  2:{ apply Forall_app; split; [by repeat constructor|]. apply Forall_app; split.
      - eapply Forall_impl; [exact Hid|]. intros x Hx. cbv beta in Hx. lia.
      - destruct cl; by repeat constructor. }
  change (text "REQ " ++ ?s) with (text "REQ" ++ 32 :: s).
  rewrite split_word by (by repeat constructor). cbn [split]. change (is_space 32) with true. cbv iota.
  rewrite split_word by (by apply plain_space). cbn [app split]. change (is_space 32) with true. cbv iota.
  destruct id as [|x id]; [done|]. cbv iota.
  replace (split [] (text (if cl then "close" else "keep"))) with [text (if cl then "close" else "keep")] by (by destruct cl).
  change (match text "REQ" with [] => ?a | _ :: _ => ?b end) with b. cbv iota.
  rewrite decide_True by (destruct cl; split_and!; auto). by destruct cl.
Qed.

(** The requests put to [submit], in order. *)
Definition submits (l : list effect) : list request :=
  omap (λ x, match x with Admit r | Shed r => Some r | _ => None end) l.

Lemma submits_snoc l x : submits (l ++ [x]) = submits l ++ (match x with Admit r | Shed r => [r] | _ => [] end).
Proof. unfold submits. rewrite omap_app. by destruct x. Qed.

Lemma submits_writes l w : Forall writes w → submits (l ++ w) = submits l.
Proof.
  intros Hw. unfold submits. rewrite omap_app. induction Hw as [|x w Hx _ IH]; [by rewrite app_nil_r|]. by destruct x.
Qed.

Lemma submit_submits r s : ascii (q_id r) = true →
  ∃ s', submit r s = (Ok (), s') ∧ submits (log s') = submits (log s) ++ [r] ∧ conns s' = conns s.
Proof.
  intros Hid. destruct (submit r s) as [x s'] eqn:E. exists s'. unfold submit, _start in E. run_in E.
  cbn [server conns tasks log busy capacity queue queue_limit set_counters set_queue set_busy] in E.
  case_decide; [|case_decide].
  - injection E as <- <-. split_and!; [done| |done]. cbn [log]. by rewrite !submits_snoc, app_nil_r.
  - injection E as <- <-. split_and!; [done| |done]. cbn [log]. by rewrite !submits_snoc.
  - apply reply_writes in E as (w & Hw & -> & Hx). split_and!; [|cbn [with_log log]; by rewrite submits_writes, submits_snoc|done].
    destruct Hx as [->|Hx]; [done|]. unfold shed_text in Hx. rewrite !ascii_app, Hid, ascii_fmt_ld in Hx. done.
Qed.

Definition on_conn (k : nat) (q : list Z * bool) : request := {| q_conn := k; q_id := q.1; q_close := q.2 |}.
Definition request_body (q : list Z * bool) : list Z := text "REQ " ++ q.1 ++ [32] ++ text (if q.2 then "close" else "keep").

(** The connection's buffer holds [b]. *)
Definition holds (k : nat) (b : list Z) (s : sys) : Prop := k_buf <$> conns s !! k = Some b.

Lemma plain_ascii id : plain_id id → ascii id = true.
Proof.
  intros (_ & _ & Hid). apply Is_true_true_1, forallb_True. eapply Forall_impl; [exact Hid|]. intros x Hx. apply bool_decide_pack.
  cbv beta in Hx. lia.
Qed.

Lemma holds_put k b b' s : holds k b' s → holds k b (put_buf k b s).2.
Proof.
  unfold holds. cbn [put_buf set_conns modify snd conns]. rewrite list_lookup_alter, decide_True by done. by destruct (conns s !! k).
Qed.

Lemma take_requests k rest qs : ∀ s b, Forall (λ q, plain_id q.1) qs → (length rest ≤ 256)%nat →
  holds k b s → (qs = [] → b = rest) →
  ∃ s', take_lines k (request_body <$> qs) rest s = (Ok (), s') ∧ submits (log s') = submits (log s) ++ (on_conn k <$> qs) ∧
    holds k rest s'.
Proof.
  induction qs as [|q qs IH]; intros s b Hqs Hrest Hb Hnil.
  - exists s. rewrite (Hnil eq_refl) in Hb. cbn [take_lines fmap list_fmap]. rewrite decide_False by (unfold MAX_LINE; lia).
    split_and!; [done|by rewrite app_nil_r|done].
  - apply Forall_cons in Hqs as [Hq Hqs]. rewrite fmap_cons. cbn [take_lines]. unfold request_body at 1.
    rewrite parse_request_print by done. unfold mbind, M_bind.
    set (s1 := (put_buf k (concat ((λ l, l ++ [10]) <$> (request_body <$> qs)) ++ rest) s).2).
    destruct (submit_submits (on_conn k q) s1 (plain_ascii _ Hq)) as (s2 & E2 & Hs2 & Hc2).
    destruct (IH s2 (concat ((λ l, l ++ [10]) <$> (request_body <$> qs)) ++ rest) Hqs Hrest) as (s3 & E3 & Hs3 & Hh3).
    + unfold holds. rewrite Hc2. by eapply holds_put.
    + by intros ->.
    + exists s3. split_and!; [|rewrite Hs3, Hs2, fmap_cons, <- app_assoc; done|done].
      change (put_buf k ?x s) with (@Ok () (), (put_buf k x s).2). cbv beta iota. fold s1.
      change {| q_conn := k; q_id := q.1; q_close := q.2 |} with (on_conn k q). by rewrite E2.
Qed.

(** Pieces of a connection's stream, one after the other. *)
Fixpoint feed (k : nat) (ds : list (list Z)) : M () :=
  match ds with [] => mret () | d :: ds => _ ← data_received k d; feed k ds end.

Lemma no_break_app a b : no_break (a ++ b) ↔ no_break a ∧ no_break b.
Proof. unfold no_break. rewrite elem_of_app. tauto. Qed.

Lemma split_lines_join s : concat (ended <$> (split_lines s).1) ++ (split_lines s).2 = s.
Proof.
  induction s as [|x s IH]; [done|]. cbn [split_lines]. destruct (split_lines s) as [ls rest]. cbn [fst snd] in IH.
  case_decide as Hx; [subst x; cbn [fst snd]; rewrite fmap_cons; cbn; by f_equal|].
  destruct ls as [|l ls]; cbn [fst snd] in *; [cbn in *; by f_equal|]. rewrite fmap_cons in *. cbn in *. by f_equal.
Qed.

Lemma request_body_ok qs : Forall (λ q, plain_id q.1) qs →
  Forall no_break (request_body <$> qs) ∧ Forall (λ l, (length l ≤ 256)%nat) (request_body <$> qs).
Proof.
  intros H. split; rewrite Forall_fmap; (eapply Forall_impl; [exact H|]); intros [id cl] (_ & Hlen & Hid); cbn in Hlen, Hid;
    unfold compose, request_body; cbn [fst snd].
  - rewrite !no_break_app. rewrite Forall_forall in Hid. split_and!; try (destruct cl; by apply (bool_decide_unpack _); vm_compute).
    intros Hx%Hid. lia.
  - rewrite !length_app. assert (length (text (if cl then "close" else "keep")) ≤ 5)%nat by (destruct cl; cbn; lia).
    cbn [text length]. lia.
Qed.

Lemma feed_requests k ds : ∀ qs b s, Forall (λ q, plain_id q.1) qs → holds k b s → no_break b →
  b ++ concat ds = concat (ended <$> (request_body <$> qs)) →
  ∃ s', feed k ds s = (Ok (), s') ∧ submits (log s') = submits (log s) ++ (on_conn k <$> qs) ∧ holds k [] s'.
Proof.
  induction ds as [|d ds IH]; intros qs b s Hqs Hb Hnb E; destruct (request_body_ok qs Hqs) as [Hok Hlen].
  { destruct (split_stream _ b [] Hok E) as (L1 & L2 & r & EL & Es & Hr & Er).
    rewrite split_lines_none in Es by done. injection Es as <- <-. rewrite app_nil_r in Er.
    assert (qs = [] ∧ b = []) as [-> ->]; [|exists s; split_and!; [done|by rewrite app_nil_r|done]].
    cbn [app] in EL. subst L2. destruct qs as [|q qs].
    - split; [done|]. done.
    - destruct Hnb. rewrite Er, fmap_cons, fmap_cons. cbn [concat]. set_solver. }
  cbn [concat] in E. rewrite app_assoc in E. destruct (split_stream _ (b ++ d) (concat ds) Hok E) as (L1 & L2 & r & EL & Es & Hr & Er).
  apply fmap_app_inv in EL as (qs1 & qs2 & -> & -> & ->). apply Forall_app in Hqs as [Hqs1 Hqs2].
  rewrite fmap_app in Hlen. apply Forall_app in Hlen as [_ Hlen2].
  unfold holds in Hb. destruct (conns s !! k) as [conn|] eqn:Hk; [|done]. injection Hb as <-.
  set (s1 := ((if k_got_bytes conn then mret () else _ ← set_conns (alter set_got k); count inc_accepts) s).2).
  assert (log s1 = log s ∧ holds k (k_buf conn) s1) as [Hl1 Hh1].
  { subst s1. unfold holds. destruct (k_got_bytes conn); [cbn; by rewrite Hk|].
    unfold mbind, M_bind. cbn [set_conns count on_server modify snd conns log]. by rewrite list_lookup_alter, decide_True, Hk. }
  set (s2 := (put_buf k (k_buf conn ++ d) s1).2).
  destruct (take_requests k r qs1 s2 (k_buf conn ++ d)) as (s3 & E3 & Hs3 & Hh3); [done|by eapply stream_rest|by eapply holds_put| |].
  { intros ->. pose proof (split_lines_join (k_buf conn ++ d)) as Hj. rewrite Es in Hj. by symmetry. }
  destruct (IH qs2 r s3 Hqs2 Hh3 Hr Er) as (s' & E' & Hs' & Hh'). exists s'. split_and!; [| |done].
  - cbn [feed]. unfold mbind, M_bind. assert (data_received k d s = (Ok (), s3)) as ->; [|exact E'].
    unfold data_received. unfold mbind, M_bind, gets. rewrite Hk, Es.
    assert ((if k_got_bytes conn then mret () else _ ← set_conns (alter set_got k); count inc_accepts) s = (Ok (), s1)) as E1
      by (subst s1; by destruct (k_got_bytes conn)).
    unfold mbind, M_bind in E1. rewrite E1. exact E3.
  - rewrite Hs', Hs3, fmap_app, app_assoc. subst s2. cbn [put_buf set_conns modify snd log]. by rewrite Hl1.
Qed.

(** A client's request lines, cut into pieces of any size, are put to the
    server as exactly those requests, in their order. *)
Theorem request_lines_submitted k qs ds s :
  Forall (λ q, plain_id q.1) qs → holds k [] s → concat ds = concat (request_text <$> qs) →
  ∃ s', feed k ds s = (Ok (), s') ∧ submits (log s') = submits (log s) ++ (on_conn k <$> qs) ∧ holds k [] s'.
Proof.
  intros Hqs Hb E. apply (feed_requests k ds qs []); [done|done|by apply not_elem_of_nil|]. cbn [app]. rewrite E, <- list_fmap_compose.
  f_equal. apply list_fmap_ext. intros i [id cl] _. unfold compose, request_body, request_text. cbn. by rewrite <- !app_assoc.
Qed.

(** ** Example: one request served, one waiting, one shed *)

Definition sample_server : Server := new_server 1 (text "10.98.0.1") 1 (int_num 25) (int_num 0) 1 (int_num 0).

Definition sample_events : list event :=
  [Connected (Some (text "10.98.0.200"));
   Data 0 (text "REQ 1 keep" ++ [10] ++ text "REQ 2 ke"); Data 0 (text "ep" ++ [10] ++ text "REQ 3 close" ++ [10]);
   Finish 0 false 0 25000].

Fixpoint play (evs : list event) (s : sys) : sys := match evs with [] => s | ev :: evs => play evs (handle ev s).2 end.

Definition sample_state : sys := Eval vm_compute in play sample_events (boot sample_server).

Lemma exec_step s ev evs s' : enabled s ev → exec (handle ev s).2 evs s' → exec s (ev :: evs) s'.
Proof. intros Hen H. eapply exec_cons; [done|apply surjective_pairing|done]. Qed.

Lemma sample_events_run : exec (boot sample_server) sample_events sample_state.
Proof.
  apply exec_step; [done|]. do 2 (apply exec_step; [eexists; split; vm_compute; reflexivity|]).
  apply exec_step; [vm_compute; lia|]. vm_compute. constructor.
Qed.

Lemma requests_served_in_order_witness :
  dones (log sample_state) = [{| q_conn := 0; q_id := text "1"; q_close := false |}] ∧
  tasks sample_state = [{| q_conn := 0; q_id := text "2"; q_close := false |}] ∧
  shed (c (server sample_state)) = 1 ∧
  arrivals (c (server sample_state)) = len (admits (log sample_state)) + len (sheds (log sample_state)) ∧
  busy (server sample_state) ≤ 1.
Proof.
  destruct (requests_served_in_order 1 (text "10.98.0.1") 1 (int_num 25) (int_num 0) 1 (int_num 0) sample_events sample_state
    ltac:(lia) ltac:(lia) sample_events_run) as (_ & _ & _ & _ & _ & Hc & Hl).
  split_and!; [vm_compute; reflexivity..| |].
  - apply Hc. repeat constructor; by intros [].
  - apply (Hl 1 1); [lia|lia|repeat constructor].
Defined.

Definition idle_events : list event := sample_events ++ [Finish 0 true 100 25000; Lost 0].
Definition idle_state : sys := Eval vm_compute in play idle_events (boot sample_server).

Lemma idle_report_is_idle_witness : tasks idle_state = [] ∧ length (dones (log idle_state)) = 2%nat.
Proof.
  split; [|reflexivity].
  apply (idle_report_is_idle 1 (text "10.98.0.1") 1 (int_num 25) (int_num 0) 1 (int_num 0) idle_events idle_state); [|by vm_compute].
  unfold idle_events, sample_events. cbn [app].
  apply exec_step; [done|]. do 2 (apply exec_step; [eexists; split; vm_compute; reflexivity|]).
  do 2 (apply exec_step; [vm_compute; lia|]). apply exec_step; [eexists; split; vm_compute; reflexivity|]. vm_compute. constructor.
Defined.

Lemma request_lines_submitted_witness :
  ∃ s', feed 0 [text "REQ 1 ke"; text "ep" ++ [10] ++ text "RE"; text "Q 2 close" ++ [10]]
          (play [Connected None] (boot sample_server)) = (Ok (), s') ∧
    submits (log s') = [{| q_conn := 0; q_id := text "1"; q_close := false |}; {| q_conn := 0; q_id := text "2"; q_close := true |}].
Proof.
  destruct (request_lines_submitted 0 [(text "1", false); (text "2", true)]
    [text "REQ 1 ke"; text "ep" ++ [10] ++ text "RE"; text "Q 2 close" ++ [10]] (play [Connected None] (boot sample_server)))
    as (s' & E & Hs & _).
  - unfold plain_id. by apply (bool_decide_unpack _); vm_compute.
  - reflexivity.
  - reflexivity.
  - exists s'. split; [exact E|exact Hs].
Defined.
