(* ===== verification/LbMetrics.v ===== *)
(** * The bridge's view of maglev-lb

    src/bridge/lbmetrics.py ([parse_prometheus], [summarize]) and the observation
    that [Bridge.poll_lb] of src/bridge/live_bridge.py makes of it.  A text is the
    list of its character codes; the exporter only writes ASCII.  [float] and [int]
    are written out for decimal digits, which is what the exporter prints; what
    they do with other numerals is a parameter ([Numerals]).

    [bridge_sees_backends]: what the reconciler is told of each backend is what
    the backend manager of the daemon holds at the moment of the request. *)

From Stdlib Require Import Lia Ascii String.
From stdpp Require Import base numbers list strings gmap.
From S2P Require Import Prelude Double Net Hash Text Kernel Conntrack ConntrackSpec Stats BackendManager TableGenerator Metrics Python Reconciler.

Local Open Scope Z_scope.

(** [float(s)] and [int(s)] of a text that is not a plain run of digits; [None]
    is [ValueError]. *)
Class Numerals := { float_other : list Z → option double; int_other : list Z → option Z }.

Section Reader.
Context {num : Numerals}.

Definition plain_digits (s : list Z) : bool :=
  bool_decide (s ≠ []) && bool_decide (length s ≤ 20)%nat && forallb isdigit s.

Definition float (s : list Z) : option double :=
  if plain_digits s then Some (double_of (dec_value 0 s)) else float_other s.

Definition int (s : list Z) : option Z :=
  if plain_digits s then Some (dec_value 0 s) else int_other s.

(** ** The text format *)

(** The ASCII line boundaries of [str.splitlines]. *)
Definition is_break (c : Z) : bool := bool_decide (10 ≤ c ≤ 13) || bool_decide (28 ≤ c ≤ 30).

Fixpoint splitlines (cur : list Z) (s : list Z) : list (list Z) :=
  match s with
  | [] => match cur with [] => [] | _ => [cur] end
  | c :: s =>
      if is_break c then
        cur :: splitlines [] (match s with
                              | c' :: s' => if decide (c = 13 ∧ c' = 10) then s' else s
                              | [] => s
                              end)
      else splitlines (cur ++ [c]) s
  end.

(** [s.split(c, 1)], when [c] occurs. *)
Fixpoint split_first (c : Z) (s : list Z) : option (list Z * list Z) :=
  match s with
  | [] => None
  | x :: s => if decide (x = c) then Some ([], s) else '(a, b) ← split_first c s; Some (x :: a, b)
  end.

Definition is_word (c : Z) : bool :=
  isdigit c || bool_decide (65 ≤ c ≤ 90) || bool_decide (97 ≤ c ≤ 122) || bool_decide (c = 95).

Fixpoint span_word (s : list Z) : list Z * list Z :=
  match s with
  | c :: s' => if is_word c then let '(w, r) := span_word s' in (c :: w, r) else ([], s)
  | [] => ([], [])
  end.

(** [_LABEL_RE] at the head of the text: the key, the value and what follows. *)
Definition match_label (s : list Z) : option (list Z * list Z * list Z) :=
  match span_word s with
  | ([], _) => None
  | (w, 61 :: 34 :: r) => '(v, r) ← split_first 34 r; Some (w, v, r)
  | _ => None
  end.

(** [_LABEL_RE.findall]: the matches from left to right. *)
Fixpoint findall (fuel : nat) (s : list Z) : list (list Z * list Z) :=
  match fuel, s with
  | S fuel, _ :: s' =>
      match match_label s with
      | Some (w, v, r) => (w, v) :: findall fuel r
      | None => findall fuel s'
      end
  | _, _ => []
  end.

Definition labels_of (rest : list Z) : list (list Z * list Z) := dict_of (findall (length rest) rest).

Record series := {
  sr_plain : list (list Z * double);
  sr_labeled : list (list Z * list (list (list Z * list Z) * double));
}.

Definition labeled_get (name : list Z) (st : series) : list (list (list Z * list Z) * double) :=
  default [] (dict_get (sr_labeled st) name).

Definition parse_line (st : series) (line : list Z) : series :=
  if bool_decide (line = []) || bool_decide (head line = Some 35) then st
  else
    match strrchr 32 line with
    | None => st
    | Some (ser, value) =>
        match float value with
        | None => st
        | Some v =>
            match split_first 123 ser with
            | Some (name, rest) =>
                {| sr_plain := sr_plain st;
                   sr_labeled := dict_set (sr_labeled st) name (labeled_get name st ++ [(labels_of rest, v)]) |}
            | None => {| sr_plain := dict_set (sr_plain st) ser v; sr_labeled := sr_labeled st |}
            end
        end
    end.

Definition parse_prometheus (s : list Z) : series :=
  foldl parse_line {| sr_plain := []; sr_labeled := [] |} (splitlines [] s).

(** ** The summary *)

Record summary := {
  sm_scalars : dict double;
  sm_drops : list (list Z * double);
  sm_lookups : list (list Z * double);
  sm_backends : list (Z * dict double);
}.

Definition scalar_metrics : list (string * string) :=
  [("rxPackets", "maglev_lb_rx_packets_total"); ("txPackets", "maglev_lb_tx_packets_total");
   ("rxBytes", "maglev_lb_rx_bytes_total"); ("txBytes", "maglev_lb_tx_bytes_total");
   ("ctEvictions", "maglev_lb_conntrack_evictions_total"); ("activeFlows", "maglev_lb_conntrack_active_flows");
   ("tableGeneration", "maglev_lb_table_generation");
   ("regenLastUs", "maglev_lb_table_regen_last_microseconds");
   ("backendsEligible", "maglev_lb_backends_eligible")]%string.

Definition per_backend_metrics : list (string * string) :=
  [("maglev_lb_backend_up", "up"); ("maglev_lb_backend_admin_enabled", "adminEnabled");
   ("maglev_lb_backend_draining", "draining"); ("maglev_lb_backend_packets_total", "packets");
   ("maglev_lb_backend_active_flows", "activeFlows");
   ("maglev_lb_backend_flows_assigned_total", "flowsAssigned");
   ("maglev_lb_backend_health_check_failures_total", "hcFailures")]%string.

(** [for labels, v in ...: out[labels.get(key, "?")] = v] *)
Definition by_label (key : string) (l : list (list (list Z * list Z) * double)) : list (list Z * double) :=
  foldl (λ d '(labels, v), dict_set d (default (text "?") (dict_get labels (text key))) v) [] l.

(** [out["backends"].setdefault(bid, {})[key] = v], if the id is a number. *)
Definition put_backend (key : string) (d : list (Z * dict double))
    (x : list (list Z * list Z) * double) : list (Z * dict double) :=
  match dict_get x.1 (text "backend_id") ≫= int with
  | Some bid => dict_set d bid (dict_set (default [] (dict_get d bid)) key x.2)
  | None => d
  end.

Definition summarize (s : list Z) : summary :=
  let st := parse_prometheus s in
  {| sm_scalars := (λ '(k, m), (k, default (double_of 0) (dict_get (sr_plain st) (text m)))) <$> scalar_metrics;
     sm_drops := by_label "reason" (labeled_get (text "maglev_lb_drops_total") st);
     sm_lookups := by_label "result" (labeled_get (text "maglev_lb_conntrack_lookups_total") st);
     sm_backends := foldl (λ d '(m, k), foldl (put_backend k) d (labeled_get (text m) st)) [] per_backend_metrics |}.

(** [x >= 1] *)
Definition at_least_one (x : double) : bool :=
  bool_decide (2 ^ Z.max 0 (- x.2) ≤ x.1 * 2 ^ Z.max 0 x.2).

(** [self.lb_obs] of [poll_lb] (its third entry is for the snapshot only). *)
Definition lb_obs (s : summary) : gmap Z obs :=
  list_to_map ((λ '(bid, b),
    let flag k := Some (at_least_one (default (double_of 0) (dict_get b k))) in
    (bid, {| ob_up := flag "up"%string; ob_adminEnabled := flag "adminEnabled"%string |})) <$> sm_backends s).

(** ** Reading the exporter's text *)

Definition printable (s : list Z) : Prop := Forall (λ c, 32 ≤ c) s.

Lemma splitlines_line l : ∀ cur s,
  printable l → splitlines cur (l ++ 10 :: s) = (cur ++ l) :: splitlines [] s.
Proof.
  induction l as [|c l IH]; intros cur s Hl; cbn [app splitlines].
  - change (is_break 10) with true. cbv iota. rewrite app_nil_r. f_equal. f_equal.
    destruct s as [|c' s]; [done|]. by rewrite decide_False by naive_solver.
  - apply Forall_cons in Hl as [Hc Hl].
    assert (is_break c = false) as ->.
    { unfold is_break. rewrite !bool_decide_false; [done|lia..]. }
    rewrite IH by done. by rewrite <- (assoc_L (++)).
Qed.

Lemma splitlines_render ls : Forall printable ls → splitlines [] (render ls) = ls.
Proof.
  unfold render. induction 1 as [|l ls Hl _ IH]; [done|]. cbn [map concat].
  rewrite <- (assoc_L (++)). cbn [app]. rewrite splitlines_line by done. by rewrite IH.
Qed.

Lemma digits_plain n : plain_digits (fmt_u n) = true.
Proof.
  unfold plain_digits. destruct (fmt_u_cons n) as (d & ds & E & _). pose proof (fmt_u_max n).
  rewrite !bool_decide_true by (done || (rewrite E; done)). cbn [andb].
  apply forallb_forall. intros c Hc%list_elem_of_In. pose proof (fmt_u_digits n) as Hd.
  rewrite Forall_forall in Hd. by apply isdigit_true, Hd.
Qed.

Lemma float_fmt_u n : 0 ≤ n < 2 ^ 64 → float (fmt_u n) = Some (double_of n).
Proof. intros Hn. unfold float. by rewrite digits_plain, fmt_u_value. Qed.

Lemma int_fmt_u n : 0 ≤ n < 2 ^ 64 → int (fmt_u n) = Some n.
Proof. intros Hn. unfold int. by rewrite digits_plain, fmt_u_value. Qed.

Lemma split_first_app c a b : ¬ c ∈ a → split_first c (a ++ c :: b) = Some (a, b).
Proof.
  induction a as [|x a IH]; intros Ha; cbn; [by rewrite decide_True|].
  rewrite elem_of_cons in Ha. rewrite decide_False by (intros ->; tauto). by rewrite IH by tauto.
Qed.

Lemma split_first_None c a : ¬ c ∈ a → split_first c a = None.
Proof.
  induction a as [|x a IH]; intros Ha; cbn; [done|].
  rewrite elem_of_cons in Ha. rewrite decide_False by (intros ->; tauto). by rewrite IH by tauto.
Qed.

(** A metric as the reader needs it: printable, with a name that is no comment and
    has no brace, and labels in braces if any. *)
Record readable (f : family) : Prop := {
  rd_name : ∃ c s, lit (f_name f) = c :: s ∧ c ≠ 35;
  rd_brace : ¬ 123 ∈ lit (f_name f);
  rd_printable : Forall printable (family_lines f);
  rd_labels : Forall (λ s, s.1 = [] ∨ ∃ rest, s.1 = 123 :: rest) (f_samples f);
  rd_values : Forall (λ s, 0 ≤ s.2 < 2 ^ 64) (f_samples f);
}.

Definition sample_effect (name : list Z) (st : series) (s : list Z * Z) : series :=
  match s.1 with
  | [] => {| sr_plain := dict_set (sr_plain st) name (double_of s.2); sr_labeled := sr_labeled st |}
  | _ :: rest =>
      {| sr_plain := sr_plain st;
         sr_labeled := dict_set (sr_labeled st) name (labeled_get name st ++ [(labels_of rest, double_of s.2)]) |}
  end.

Definition family_effect (st : series) (f : family) : series :=
  foldl (sample_effect (lit (f_name f))) st (f_samples f).

Lemma parse_sample f st lb val :
  readable f → (lb = [] ∨ ∃ rest, lb = 123 :: rest) → 0 ≤ val < 2 ^ 64 →
  parse_line st (metric_key f (lb, val) ++ lit " " ++ fmt_u val) = sample_effect (lit (f_name f)) st (lb, val).
Proof.
  intros [(c & s & Hname & Hc) Hbr _ _ _] Hlb Hval. unfold parse_line, sample_effect.
  change (lit " " ++ fmt_u val) with (32 :: fmt_u val). cbn [fst snd].
  rewrite bool_decide_false by (unfold metric_key; rewrite Hname; done).
  rewrite bool_decide_false by (unfold metric_key; rewrite Hname; cbn; congruence). cbn [orb].
  rewrite strrchr_app by (apply digits_no; [apply fmt_u_digits|lia]). rewrite float_fmt_u by done.
  unfold metric_key. cbn [fst]. destruct Hlb as [->|[rest ->]].
  - rewrite app_nil_r, split_first_None by done. done.
  - rewrite split_first_app by done. done.
Qed.

Lemma parse_family f st : readable f → foldl parse_line st (family_lines f) = family_effect st f.
Proof.
  intros Hf. unfold family_lines, family_effect. cbn [app foldl].
  change (parse_line st (lit "# HELP " ++ _)) with st. change (parse_line st (lit "# TYPE " ++ _)) with st.
  pose proof (rd_labels f Hf) as Hlb. pose proof (rd_values f Hf) as Hval. revert st Hval.
  induction Hlb as [|[lb val] l Hl _ IH]; intros st Hval; [done|]. apply Forall_cons in Hval as [Hv Hval].
  cbn [map foldl]. rewrite parse_sample by done. by apply IH.
Qed.

Lemma parse_families fs st : Forall readable fs →
  foldl parse_line st (concat (map family_lines fs)) = foldl family_effect st fs.
Proof.
  intros Hfs. revert st. induction Hfs as [|f fs Hf _ IH]; intros st; [done|].
  cbn [map concat foldl]. by rewrite foldl_app, parse_family, IH.
Qed.

(** What a metric contributes to the labelled series of its name. *)
Definition labelled_sample (s : list Z * Z) : option (list (list Z * list Z) * double) :=
  match s.1 with [] => None | _ :: rest => Some (labels_of rest, double_of s.2) end.

Definition labelled (f : family) : list (list (list Z * list Z) * double) := omap labelled_sample (f_samples f).

Lemma labeled_get_effect n f st :
  labeled_get n (family_effect st f) =
  labeled_get n st ++ (if decide (n = lit (f_name f)) then labelled f else []).
Proof.
  unfold family_effect, labelled. revert st.
  induction (f_samples f) as [|[lb val] l IH]; intros st; cbn [foldl omap list_omap].
  { by case_decide; rewrite app_nil_r. }
  rewrite IH. unfold sample_effect, labelled_sample. cbn [fst snd]. destruct lb as [|c rest]; [done|].
  unfold labeled_get at 1. cbn [sr_labeled]. rewrite dict_get_set. case_decide as Hn; [|done].
  subst n. cbn [from_option id]. by rewrite <- (assoc_L (++)).
Qed.

Lemma labeled_get_families n fs st :
  labeled_get n (foldl family_effect st fs) =
  labeled_get n st ++ concat (map (λ f, if decide (n = lit (f_name f)) then labelled f else []) fs).
Proof.
  revert st. induction fs as [|f fs IH]; intros st; cbn [foldl map concat]; [by rewrite app_nil_r|].
  by rewrite IH, labeled_get_effect, (assoc_L (++)).
Qed.

Lemma pick_family f fs :
  NoDup (map (lit ∘ f_name) fs) → f ∈ fs →
  concat (map (λ g, if decide (lit (f_name f) = lit (f_name g)) then labelled g else []) fs) = labelled f.
Proof.
  induction fs as [|g fs IH]; intros Hd Hin; [by apply not_elem_of_nil in Hin|].
  cbn [map concat] in *. apply NoDup_cons in Hd as [Hg Hd].
  assert (∀ n, ¬ n ∈ map (lit ∘ f_name) fs →
    concat (map (λ g, if decide (n = lit (f_name g)) then labelled g else []) fs) = []) as Hnone.
  { intros n Hn. clear -Hn. induction fs as [|x fs IH]; [done|]. cbn [map concat] in *.
    rewrite elem_of_cons in Hn. rewrite decide_False by (intros ->; apply Hn; by left). by rewrite IH by tauto. }
  apply elem_of_cons in Hin as [->|Hin].
  - rewrite decide_True by done. by rewrite Hnone, app_nil_r.
  - rewrite decide_False; [by apply IH|]. intros E. apply Hg. unfold compose. rewrite <- E.
    apply list_elem_of_In, in_map_iff. exists f. by rewrite <- list_elem_of_In.
Qed.

(** ** The labels of a backend *)

Lemma span_word_app w s :
  Forall (λ c, is_word c = true) w → match s with c :: _ => is_word c = false | [] => True end →
  span_word (w ++ s) = (w, s).
Proof.
  intros Hw Hs. induction Hw as [|c w Hc _ IH]; cbn.
  - destruct s as [|c s]; [done|]. cbn. by rewrite Hs.
  - by rewrite Hc, IH.
Qed.

Lemma match_label_app w v r :
  w ≠ [] → Forall (λ c, is_word c = true) w → ¬ 34 ∈ v →
  match_label (w ++ 61 :: 34 :: v ++ 34 :: r) = Some (w, v, r).
Proof.
  intros Hw Hf Hv. unfold match_label. rewrite span_word_app by done. destruct w as [|c w]; [done|].
  by rewrite split_first_app.
Qed.

Lemma findall_match fuel c s w v r :
  match_label (c :: s) = Some (w, v, r) → findall (S fuel) (c :: s) = (w, v) :: findall fuel r.
Proof. intros E. cbn [findall]. by rewrite E. Qed.

Lemma findall_skip fuel c s : is_word c = false → findall (S fuel) (c :: s) = findall fuel s.
Proof. intros E. cbn [findall]. unfold match_label. cbn [span_word]. by rewrite E. Qed.

Lemma labels_of_backend b :
  labels_of (drop 1 (backend_labels b)) =
  [(text "backend_id", fmt_u (b_id b)); (text "backend_addr", ip_port_text (b_addr b) (b_port b))].
Proof.
  set (id := fmt_u (b_id b)). set (ad := ip_port_text (b_addr b) (b_port b)).
  assert (¬ 34 ∈ id) as Hid by (apply digits_no; [apply fmt_u_digits|lia]).
  assert (¬ 34 ∈ ad) as Had.
  { unfold ad, ip_port_text. rewrite !elem_of_app. intros [Hin|[Hin|Hin]].
    - pose proof (dotted_quad_chars (b_addr b)) as Hc. rewrite Forall_forall in Hc. apply Hc in Hin. lia.
    - by apply list_elem_of_singleton in Hin.
    - revert Hin. apply digits_no; [apply fmt_u_digits|lia]. }
  set (rest := text "backend_id" ++ 61 :: 34 :: id ++ 34 :: 44 :: (text "backend_addr" ++ 61 :: 34 :: ad ++ [34; 125])).
  change (drop 1 (backend_labels b)) with rest. unfold labels_of.
  assert (∃ k, length rest = S (S (S (S k)))) as [k ->] by (eexists; reflexivity).
  unfold rest. change (text "backend_id") with (98 :: tail (text "backend_id")) at 1. cbn [app].
  erewrite findall_match.
  2: { change (98 :: tail (text "backend_id") ++ ?x) with (text "backend_id" ++ x).
       apply match_label_app; [done|by apply (bool_decide_unpack _); vm_compute|done]. }
  rewrite findall_skip by done.
  change (text "backend_addr") with (98 :: tail (text "backend_addr")) at 1. cbn [app].
  erewrite findall_match.
  2: { change (98 :: tail (text "backend_addr") ++ ?x) with (text "backend_addr" ++ x).
       apply match_label_app; [done|by apply (bool_decide_unpack _); vm_compute|done]. }
  rewrite findall_skip by done. by destruct k.
Qed.

(** ** The exporter's metrics are readable *)

Lemma printable_digits n : printable (fmt_u n).
Proof. eapply Forall_impl; [apply fmt_u_digits|]. cbv beta. lia. Qed.

Definition printable_head (f : family) : Prop :=
  printable (lit (f_name f)) ∧ printable (lit (f_help f)) ∧ printable (lit (f_type f)).

Definition labels_shape (s : list Z * Z) : Prop := printable s.1 ∧ (s.1 = [] ∨ ∃ rest, s.1 = 123 :: rest).

(** [readable] but for the values. *)
Record shaped (f : family) : Prop := {
  sh_name : ∃ c s, lit (f_name f) = c :: s ∧ c ≠ 35;
  sh_brace : ¬ 123 ∈ lit (f_name f);
  sh_head : printable_head f;
  sh_labels : Forall labels_shape (f_samples f);
}.

Lemma shaped_readable f : shaped f → Forall (λ s, 0 ≤ s.2 < 2 ^ 64) (f_samples f) → readable f.
Proof.
  intros [Hn Hb (H1 & H2 & H3) Hl] Hv. split; [done|done| | |done].
  - assert (printable (lit "# HELP ") ∧ printable (lit "# TYPE ") ∧ printable (lit " ")) as (Ha & Hc & Hd)
      by (split_and!; by apply (bool_decide_unpack _); vm_compute).
    unfold family_lines. repeat apply Forall_cons_2; [by repeat apply Forall_app_2..|].
    rewrite Forall_fmap. eapply Forall_impl; [exact Hl|]. intros [lb val] [Hp _]. unfold compose, metric_key.
    cbn [fst snd] in *. repeat apply Forall_app_2; try done. apply printable_digits.
  - eapply Forall_impl; [exact Hl|]. by intros [lb val] [_ Hs].
Qed.

Lemma backend_labels_shape b z : labels_shape (backend_labels b, z).
Proof.
  split; [|right; by eexists]. cbn [fst]. unfold backend_labels, ip_port_text.
  repeat apply Forall_app_2; try apply printable_digits; by apply (bool_decide_unpack _); vm_compute.
Qed.

Lemma per_backend_shaped name help type value bs :
  shaped (per_backend name help type value []) → shaped (per_backend name help type value bs).
Proof.
  intros [H1 H2 H3 _]. split; [done..|]. unfold per_backend. cbn [f_samples]. rewrite Forall_fmap.
  apply Forall_true. intros b. apply backend_labels_shape.
Qed.

Ltac closed_shape :=
  split; [by eexists _, _; split; [vm_compute; reflexivity|]|by apply (bool_decide_unpack _); vm_compute|
          (split_and!; by apply (bool_decide_unpack _); vm_compute)|];
  repeat apply Forall_cons_2; try apply Forall_nil_2;
  (split; [by apply (bool_decide_unpack _); vm_compute|]); first [by left|by right; eexists].

Lemma families_shaped v : Forall shaped (families v).
Proof.
  unfold families. repeat apply Forall_cons_2; try apply per_backend_shaped; try (by apply Forall_nil).
  all: closed_shape.
Qed.

Lemma families_readable v : metrics_view_ok v → Forall readable (families v).
Proof.
  intros [_ _ Hv]. unfold all_samples in Hv. pose proof (families_shaped v) as Hs.
  induction Hs as [|f fs Hf _ IH]; [by apply Forall_nil|]. cbn [map concat] in Hv.
  apply Forall_app in Hv as [Hvf Hvs]. constructor; [|by apply IH].
  unfold family_samples in Hvf. rewrite Forall_fmap in Hvf. by apply shaped_readable.
Qed.

(** ** The backends of the summary *)

Definition field (d : list (Z * dict double)) (id : Z) (k : string) : option double :=
  dict_get d id ≫= λ b, dict_get b k.

Definition backend_pass (key : string) (value : backend → Z) (bs : list backend)
    (d : list (Z * dict double)) : list (Z * dict double) :=
  foldl (put_backend key) d (map (λ b, (labels_of (drop 1 (backend_labels b)), double_of (value b))) bs).

Lemma put_backend_known key d b x :
  0 ≤ b_id b < 2 ^ 64 →
  put_backend key d (labels_of (drop 1 (backend_labels b)), x) =
  dict_set d (b_id b) (dict_set (default [] (dict_get d (b_id b))) key x).
Proof.
  intros Hid. unfold put_backend. cbn [fst snd]. rewrite labels_of_backend. cbn [dict_get].
  rewrite decide_True by done.
  change (Some (fmt_u (b_id b)) ≫= int) with (int (fmt_u (b_id b))). by rewrite int_fmt_u.
Qed.

Lemma field_put d id id' k k' x :
  field (dict_set d id (dict_set (default [] (dict_get d id)) k x)) id' k' =
  if decide (id' = id ∧ k' = k) then Some x else field d id' k'.
Proof.
  unfold field. rewrite dict_get_set. destruct (decide (id' = id)) as [->|Hne]; cbn.
  - rewrite dict_get_set. destruct (decide (k' = k)) as [->|Hk].
    + by rewrite decide_True.
    + rewrite decide_False by tauto. unfold dict in *. by destruct (dict_get d id).
  - by rewrite decide_False by tauto.
Qed.

Lemma backend_pass_field key value bs d :
  NoDup (b_id <$> bs) → Forall (λ b, 0 ≤ b_id b < 2 ^ 64) bs →
  (∀ b, b ∈ bs → field (backend_pass key value bs d) (b_id b) key = Some (double_of (value b))) ∧
  (∀ id k, k ≠ key ∨ ¬ id ∈ b_id <$> bs → field (backend_pass key value bs d) id k = field d id k) ∧
  (∀ id, id ∈ keys (backend_pass key value bs d) ↔ id ∈ keys d ∨ id ∈ b_id <$> bs).
Proof.
  unfold backend_pass. revert d. induction bs as [|b bs IH]; intros d Hd Hr.
  { cbn. split_and!; [|done|]; set_solver. }
  cbn [map foldl]. rewrite fmap_cons in Hd. apply NoDup_cons in Hd as [Hb Hd]. apply Forall_cons in Hr as [Hbr Hr].
  rewrite put_backend_known by done.
  destruct (IH (dict_set d (b_id b) (dict_set (default [] (dict_get d (b_id b))) key (double_of (value b)))) Hd Hr)
    as (Hin & Hout & Hkeys). split_and!.
  - intros b' [->|Hb']%elem_of_cons; [|by apply Hin].
    rewrite Hout by (by right). by rewrite field_put, decide_True.
  - intros id k Hk. rewrite fmap_cons, elem_of_cons in Hk. rewrite Hout, field_put by tauto.
    rewrite decide_False by (intros [-> ->]; tauto). done.
  - intros id. rewrite Hkeys, elem_of_keys_set, fmap_cons, elem_of_cons. tauto.
Qed.

Lemma labelled_per_backend name help type value bs :
  labelled (per_backend name help type value bs) =
  map (λ b, (labels_of (drop 1 (backend_labels b)), double_of (value b))) bs.
Proof.
  unfold labelled, per_backend. cbn [f_samples]. induction bs as [|b bs IH]; [done|].
  cbn [map omap list_omap]. by rewrite IH.
Qed.

Lemma labeled_get_body v f :
  metrics_view_ok v → f ∈ families v →
  labeled_get (lit (f_name f)) (parse_prometheus (metrics_body v)) = labelled f.
Proof.
  intros Hv Hin. unfold parse_prometheus, metrics_body.
  pose proof (families_readable v Hv) as Hr.
  rewrite splitlines_render.
  2: { clear Hin. induction Hr as [|g gs Hg _ IH]; [by apply Forall_nil|]. cbn [map concat].
       apply Forall_app_2; [apply Hg|done]. }
  rewrite parse_families, labeled_get_families by done. rewrite pick_family; [done| |done].
  apply (bool_decide_unpack _). by vm_compute.
Qed.

Lemma labeled_get_at v i n f :
  metrics_view_ok v → families v !! i = Some f → text n = lit (f_name f) →
  labeled_get (text n) (parse_prometheus (metrics_body v)) = labelled f.
Proof. intros Hv Hi ->. apply labeled_get_body; [done|]. by eapply list_elem_of_lookup_2. Qed.

Lemma lb_obs_lookup s id :
  lb_obs s !! id =
  (λ b : dict double,
     {| ob_up := Some (at_least_one (default (double_of 0) (dict_get b "up"%string)));
        ob_adminEnabled := Some (at_least_one (default (double_of 0) (dict_get b "adminEnabled"%string))) |}) <$>
  dict_get (sm_backends s) id.
Proof.
  unfold lb_obs. induction (sm_backends s) as [|[bid b] d IH]; [done|].
  rewrite fmap_cons, list_to_map_cons. cbn [dict_get fst snd].
  destruct (decide (id = bid)) as [->|Hne]; [by rewrite lookup_insert_eq|]. by rewrite lookup_insert_ne.
Qed.

(** The seven passes of [summarize], over the backends of the manager. *)
Lemma summarize_passes v : metrics_view_ok v →
  ∃ v1 v2 v3 v4 v5,
  sm_backends (summarize (metrics_body v)) =
  let bs := live (mv_bm v) in
  backend_pass "hcFailures" v5 bs (backend_pass "flowsAssigned" v4 bs (backend_pass "activeFlows" v3 bs
    (backend_pass "packets" v2 bs (backend_pass "draining" v1 bs (backend_pass "adminEnabled"
      (λ b, bool_value (bool_decide (b_admin_state b = BACKEND_ENABLED))) bs
      (backend_pass "up" (λ b, bool_value (b_healthy b)) bs []))))))%string.
Proof.
  intros Hv. eexists _, _, _, _, _. unfold summarize. cbn [sm_backends per_backend_metrics foldl].
  unfold backend_pass.
  rewrite (labeled_get_at v 14 "maglev_lb_backend_up" _ Hv eq_refl eq_refl).
  rewrite (labeled_get_at v 15 "maglev_lb_backend_admin_enabled" _ Hv eq_refl eq_refl).
  rewrite (labeled_get_at v 16 "maglev_lb_backend_draining" _ Hv eq_refl eq_refl).
  rewrite (labeled_get_at v 17 "maglev_lb_backend_packets_total" _ Hv eq_refl eq_refl).
  rewrite (labeled_get_at v 19 "maglev_lb_backend_active_flows" _ Hv eq_refl eq_refl).
  rewrite (labeled_get_at v 20 "maglev_lb_backend_flows_assigned_total" _ Hv eq_refl eq_refl).
  rewrite (labeled_get_at v 21 "maglev_lb_backend_health_check_failures_total" _ Hv eq_refl eq_refl).
  rewrite !labelled_per_backend. reflexivity.
Qed.

(** What the exporter serves, read by the bridge. *)
Lemma bridge_obs v id :
  metrics_view_ok v → bm_next_id (mv_bm v) ≤ 2 ^ 32 →
  (∀ b, b ∈ live (mv_bm v) → b_id b = id →
     lb_obs (summarize (metrics_body v)) !! id =
     Some {| ob_up := Some (b_healthy b);
             ob_adminEnabled := Some (bool_decide (b_admin_state b = BACKEND_ENABLED)) |}) ∧
  (¬ id ∈ b_id <$> live (mv_bm v) → lb_obs (summarize (metrics_body v)) !! id = None).
Proof.
  intros Hv Hnext. pose proof (vo_bm v Hv) as Hbm.
  destruct (summarize_passes v Hv) as (v1 & v2 & v3 & v4 & v5 & E). cbv zeta in E.
  set (bs := live (mv_bm v)) in *.
  assert (NoDup (b_id <$> bs)) as Hd by by apply live_ids_NoDup.
  assert (Forall (λ b, 0 ≤ b_id b < 2 ^ 64) bs) as Hr.
  { apply Forall_forall. intros b (i & Hi)%elem_of_live. apply (ok_ids _ Hbm) in Hi. lia. }
  rewrite lb_obs_lookup, E. split.
  - intros b Hb <-.
    assert (∀ key value d k, k ≠ key → field (backend_pass key value bs d) (b_id b) k = field d (b_id b) k) as Hother.
    { intros. apply (backend_pass_field key value bs d Hd Hr). by left. }
    assert (∀ key value d, field (backend_pass key value bs d) (b_id b) key = Some (double_of (value b))) as Hhere.
    { intros. by apply (backend_pass_field key value bs d Hd Hr). }
    set (d := backend_pass "hcFailures" _ _ _) in *.
    assert (field d (b_id b) "up" = Some (double_of (bool_value (b_healthy b)))) as Hup.
    { subst d. rewrite !Hother by done. by rewrite Hhere. }
    assert (field d (b_id b) "adminEnabled" =
      Some (double_of (bool_value (bool_decide (b_admin_state b = BACKEND_ENABLED))))) as Hadm.
    { subst d. rewrite !Hother by done. by rewrite Hhere. }
    clearbody d. unfold field in Hup, Hadm. unfold dict in *. destruct (dict_get d (b_id b)) as [x|]; [|done].
    cbn in Hup, Hadm |- *. rewrite Hup, Hadm. by destruct (b_healthy b), (bool_decide _).
  - intros Hid. set (d := backend_pass "hcFailures" _ _ _).
    assert (dict_get d id = None) as ->; [|done]. apply dict_get_None.
    assert (∀ key value d, id ∈ keys (backend_pass key value bs d) → id ∈ keys d) as Hkeys.
    { intros key value d0 Hk. by apply (backend_pass_field key value bs d0 Hd Hr) in Hk as [|]. }
    intros Hk. do 7 apply Hkeys in Hk. by apply not_elem_of_nil in Hk.
Qed.

(** C22. What the bridge reconciles against is what the daemon holds: it decodes
    from the exporter's response, for exactly the backends of the manager, their
    health and whether they are enabled, as they were when the request was
    answered. *)
Theorem bridge_sees_backends k cfd close_errno buf v
    (Hv : metrics_view_ok v) (Hids : bm_next_id (mv_bm v) ≤ 2 ^ 32)
    (Hbuf : length buf = Z.to_nat METRICS_BODY_CAP) (Hfd : cfd ∉ k_open k) :
  ∃ k' body, handle_client (opened cfd k) cfd close_errno (Some buf) v =
      Val (k', [http_header (Z.of_nat (length body)); body]) ∧
    ∀ id, lb_obs (summarize body) !! id =
      (λ b, {| ob_up := Some (b_healthy b);
               ob_adminEnabled := Some (bool_decide (b_admin_state b = BACKEND_ENABLED)) |}) <$>
      List.find (λ b, bool_decide (b_id b = id)) (live (mv_bm v)).
Proof.
  destruct (handle_client_spec k cfd close_errno (Some buf) v Hv) as [errno E]; [by intros ? [= <-]|done|].
  eexists _, (metrics_body v). split; [exact E|]. intros id.
  destruct (bridge_obs v id Hv Hids) as [Hin Hout].
  destruct (List.find _ _) as [b|] eqn:Hf.
  - apply List.find_some in Hf as [Hb%list_elem_of_In Hid%bool_decide_eq_true]. by apply Hin.
  - apply Hout. intros (b & -> & Hb)%list_elem_of_fmap. apply list_elem_of_In in Hb.
    apply (List.find_none _ _ Hf) in Hb. by apply bool_decide_eq_false in Hb.
Qed.
End Reader.

(** ** Example *)

Definition no_numerals : Numerals := {| float_other _ := None; int_other _ := None |}.

Lemma bridge_sees_backends_witness :
  ∃ k' body, handle_client (opened 5 {| k_open := {[3; 4]}; k_errno := 0 |}) 5 None (Some sample_block) sample_view =
      Val (k', [http_header (Z.of_nat (length body)); body]) ∧
    (@lb_obs (@summarize no_numerals body)) !! 0 = (λ b, {| ob_up := Some (b_healthy b);
      ob_adminEnabled := Some (bool_decide (b_admin_state b = BACKEND_ENABLED)) |}) <$> head (live (mv_bm sample_view)).
Proof.
  destruct (@bridge_sees_backends no_numerals {| k_open := {[3; 4]}; k_errno := 0 |} 5 None sample_block sample_view)
    as (k' & body & E & Hobs).
  - apply sample_view_ok.
  - by vm_compute.
  - apply length_replicate.
  - set_solver.
  - exists k', body. split; [exact E|]. rewrite Hobs. by vm_compute.
Defined.
