(* ===== verification/Bridge.v ===== *)
(** * The bridge and the daemon

    The commands of the reconciler reach maglev-lb as lines written to its FIFO
    ([Executor.admin] of src/bridge/children.py), which the health checker's thread
    reads in pieces of any size.  [bridge_commands_executed]: over any run of the
    reconciler the daemon executes exactly the commands that were issued, in their
    order, each for the backend of a slot. *)

From Stdlib Require Import Lia String.
From stdpp Require Import base numbers list strings gmap.
From S2P Require Import Prelude Net Hash Text Kernel Stats BackendManager TableGenerator HealthChecker HealthCheckerSpec Metrics Python Reconciler ReconcilerInv ReconcilerSpec.

Local Open Scope Z_scope.

(** ** What a computation may ask for *)

Section Emits.
Context {T : Types} {Ex : Type} {X : Executor Ex}.
Implicit Types (P : act → Prop) (s : Slot) (e : @env T Ex).

(** Every call [m] makes satisfies [P]. *)
Definition emits {A} P (m : M A) : Prop :=
  ∀ e a e', m e = Ok (a, e') → ∃ tr, e_trace e' = e_trace e ++ tr ∧ Forall P tr.

Lemma emits_ret {A} P (a : A) : emits P (mret a).
Proof. intros e ? ? [= <- <-]. exists []. by rewrite app_nil_r. Qed.

Lemma emits_lift {A} P (x : py A) : emits P (lift x).
Proof. intros e a e'. unfold lift. destruct x; [|done]. intros [= <- <-]. exists []. by rewrite app_nil_r. Qed.

Lemma emits_bind {A B} P (m : M A) (f : A → M B) : emits P m → (∀ a, emits P (f a)) → emits P (m ≫= f).
Proof.
  intros Hm Hf e b e2. unfold mbind, M_bind. destruct (m e) as [[a e1]|] eqn:E; [|done]. intros E2.
  destruct (Hm e a e1 E) as (t1 & H1 & P1). destruct (Hf a e1 b e2 E2) as (t2 & H2 & P2).
  exists (t1 ++ t2). rewrite H2, H1, <- app_assoc. split; [done|]. by apply Forall_app_2.
Qed.

Lemma emits_do P c : P (Do c) → emits P (do c).
Proof. intros HP e ? ? [= <- <-]. eexists. split; [done|]. by apply Forall_singleton. Qed.

Lemma emits_event P now m : emits P (_event now m).
Proof. intros e ? ? [= <- <-]. exists []. by rewrite app_nil_r. Qed.

Lemma emits_alive P h : (∀ b, P (Alive h b)) → emits P (alive h).
Proof.
  intros HP e a e'. unfold alive. destruct (ex_alive h (e_ex e)). intros [= <- <-].
  eexists. split; [done|]. by apply Forall_singleton.
Qed.

Lemma emits_latest P h : P (Latest h) → emits P (latest h).
Proof.
  intros HP e a e'. unfold latest. destruct (ex_latest h (e_ex e)). intros [= <- <-].
  eexists. split; [done|]. by apply Forall_singleton.
Qed.

Lemma emits_spawn_backend P n cfg : (∀ h, P (Spawn_backend n cfg h)) → emits P (spawn_backend n cfg).
Proof.
  intros HP e a e'. unfold spawn_backend. destruct (ex_spawn_backend n cfg (e_ex e)). intros [= <- <-].
  eexists. split; [done|]. by apply Forall_singleton.
Qed.

Lemma emits_spawn_client P i cfg en : (∀ h, P (Spawn_client i cfg en h)) → emits P (spawn_client i cfg en).
Proof.
  intros HP e a e'. unfold spawn_client. destruct (ex_spawn_client i cfg en (e_ex e)). intros [= <- <-].
  eexists. split; [done|]. by apply Forall_singleton.
Qed.

Lemma emits_mapM {A B} P (f : A → M B) (l : list A) : Forall (λ x, emits P (f x)) l → emits P (mapM f l).
Proof.
  induction 1 as [|x l Hx _ IH]; cbn [mapM]; [apply emits_ret|].
  apply emits_bind; [done|]. intros y. apply emits_bind; [done|]. intros ys. apply emits_ret.
Qed.

Ltac emit_step :=
  cbv beta zeta;
  lazymatch goal with
  | |- emits _ (mret _) => apply emits_ret
  | |- emits _ (lift _) => apply emits_lift
  | |- emits _ (_ ≫= _) => apply emits_bind; [|intros ?]
  | |- emits _ (do _) => apply emits_do
  | |- emits _ (alive _) => apply emits_alive; intros ?
  | |- emits _ (latest _) => apply emits_latest
  | |- emits _ (spawn_backend _ _) => apply emits_spawn_backend; intros ?
  | |- emits _ (spawn_client _ _ _) => apply emits_spawn_client; intros ?
  | |- emits _ (_event _ _) => apply emits_event
  | |- emits _ (match ?x with _ => _ end) => destruct x
  end.

(** ** Admin commands name slots *)

Definition names_slot (n : nat) (a : act) : Prop :=
  match a with Do (Admin _ id) => 0 ≤ id < Z.of_nat n | _ => True end.

Definition slot_in (n : nat) s : Prop := 1 ≤ s_n s ≤ Z.of_nat n.

Lemma lb_id_in n s : slot_in n s → 0 ≤ lb_id s < Z.of_nat n.
Proof. unfold slot_in, lb_id. lia. Qed.

Ltac emits_solve := repeat emit_step; try exact I; try (apply lb_id_in; assumption).

Lemma spawn_emits n s cfg now : emits (names_slot n) (_spawn s cfg now).
Proof. unfold _spawn. emits_solve. Qed.

Lemma clear_fault_emits n want s now : emits (names_slot n) (_clear_fault want s now).
Proof. unfold _clear_fault, _spawn. emits_solve. Qed.

Lemma begin_stop_emits n s now : emits (names_slot n) (_begin_stop s now).
Proof. unfold _begin_stop. emits_solve. Qed.

Lemma remove_slot_emits n active now s : slot_in n s → emits (names_slot n) (remove_slot active now s).
Proof. intros Hs. unfold remove_slot, _begin_stop. emits_solve. Qed.

Lemma progress_slot_emits n want lb now s : slot_in n s → emits (names_slot n) (progress_slot want lb now s).
Proof.
  intros Hs. unfold progress_slot. destruct (s_owner s); [|apply emits_ret].
  apply emits_bind; [emits_solve|]. intros a. destruct (_ && _ && _); [emits_solve|].
  apply emits_bind; [|intros s'; unfold update_config; emits_solve].
  unfold advance_phase, drain_slot, stop_slot, _begin_stop. emits_solve.
Qed.

(** The continuation may rely on what [m] returned. *)
Lemma emits_bind_post {A B} P (m : M A) (f : A → M B) :
  emits P m → (∀ e a e', m e = Ok (a, e') → emits P (f a)) → emits P (m ≫= f).
Proof.
  intros Hm Hf e b e2. unfold mbind, M_bind. destruct (m e) as [[a e1]|] eqn:E; [|done]. intros E2.
  destruct (Hm e a e1 E) as (t1 & H1 & P1). destruct (Hf e a e1 E e1 b e2 E2) as (t2 & H2 & P2).
  exists (t1 ++ t2). rewrite H2, H1, <- app_assoc. split; [done|]. by apply Forall_app_2.
Qed.

Lemma clear_fault_number want s now e s' e' : _clear_fault want s now e = Ok (s', e') → s_n s' = s_n s.
Proof.
  intros E. refine (wp_eq _ (λ s' _, s_n s' = s_n s) _ _ _ _ E). unfold _clear_fault, _spawn. repeat wp_step; done.
Qed.

Lemma act_on_emits n want cid k s now : slot_in n s → emits (names_slot n) (act_on want cid k s now).
Proof.
  intros Hs. unfold act_on. apply emits_bind_post; [destruct k; emits_solve; apply clear_fault_emits|].
  intros e s' e' E. assert (slot_in n s') as Hs'.
  { unfold slot_in in *. destruct k; first [apply clear_fault_number in E as ->|injection E as <- _]; done. }
  clear E. destruct k; emits_solve; apply clear_fault_emits.
Qed.

Lemma reset_slot_emits n want now s : slot_in n s → emits (names_slot n) (reset_slot want now s).
Proof.
  intros Hs. unfold reset_slot. case_decide; [apply emits_ret|].
  apply emits_bind_post; [apply clear_fault_emits|]. intros e s' e' E%clear_fault_number.
  assert (slot_in n s') by (unfold slot_in in *; by rewrite E). emits_solve.
Qed.

Lemma add_slots_emits n want now ids (w : add_loop) : emits (names_slot n) (add_slots want now ids w).
Proof.
  revert w. induction ids as [|cid ids IH]; intros w; cbn [add_slots]; [apply emits_ret|].
  destruct (find_owner _ _); [done|]. apply emits_bind; [apply emits_lift|]. intros [s|]; [|apply IH].
  apply emits_bind; [apply emits_lift|]. intros b. apply emits_bind; [apply spawn_emits|]. intros s'. apply IH.
Qed.

Lemma drop_clients_emits n want (cs : dict ClientRec) : emits (names_slot n) (drop_clients want cs).
Proof.
  induction cs as [|[cid rec] cs IH]; cbn [drop_clients]; [apply emits_ret|].
  destruct (dict_get want cid); apply emits_bind; try done; intros; emits_solve.
Qed.

Lemma want_clients_emits n load now want (w : client_loop) : emits (names_slot n) (want_clients load now want w).
Proof.
  revert w. induction want as [|[cid c] want IH]; intros w; cbn [want_clients]; [apply emits_ret|].
  destruct (client_rec cid w) as [[rec w']|]; [|done]. apply emits_bind; [|intros rec'; apply IH].
  unfold refresh_client. emits_solve.
Qed.

Lemma slots_in n l : s_n <$> l = Z.of_nat <$> seq 1 n → Forall (slot_in n) l.
Proof.
  intros Hn. apply Forall_forall. intros s Hs. apply (numbers_range n l _ Hn), list_elem_of_fmap. eauto.
Qed.

Lemma step_emits n now lb r : reconciler_ok n r →
  ∀ e r' e', step now lb r e = Ok (r', e') → ∃ tr, e_trace e' = e_trace e ++ tr ∧ Forall (names_slot n) tr.
Proof.
  intros Hr. unfold step. apply emits_bind_post.
  - unfold _step_clients. apply emits_bind; [apply drop_clients_emits|]. intros cs.
    apply emits_bind; [apply want_clients_emits|]. intros w. apply emits_ret.
  - intros e r1 e1 E. pose proof (wp_eq _ _ _ _ _ (step_clients_ok n now r e Hr) E) as (Hr1 & _). unfold _step_backends. cbv zeta.
    apply emits_bind_post.
    { apply emits_mapM. eapply Forall_impl; [apply slots_in, (ok_numbers n), Hr1|]. intros s. apply remove_slot_emits. }
    intros e2 l2 e3 E2.
    destruct (wp_mapM (remove_slot (active_of (desired_backends (desired r1))) now) slot_ok same_owner (slots r1) e2 e2)
      as (l2' & e3' & E2' & _ & Hl); [done|intros; by apply remove_slot_ok|done|apply Hr1|].
    rewrite E2 in E2'. injection E2' as <- <-.
    destruct (same_owner_slots n _ _ _ (ok_backend_slots _ _ Hr1) Hl) as [Hok2 _].
    apply emits_bind_post; [apply add_slots_emits|]. intros e4 w e5 E4.
    assert (slots_ok n (al_slots w)) as Hok4.
    { refine (wp_eq _ (λ w _, slots_ok n (al_slots w)) _ _ _ _ E4). eapply wp_mono.
      - apply add_slots_ok; [exact Hok2|apply Hr1|by apply NoDup_sorted, NoDup_active, NoDup_dict_of|].
        intros cid. rewrite elem_of_sorted. apply active_wanted.
      - intros ??? [H _]. exact H. }
    apply emits_bind; [|intros; apply emits_ret]. apply emits_mapM.
    eapply Forall_impl; [apply slots_in, (ok_numbers n), Hok4|]. intros s. apply progress_slot_emits.
Qed.

Lemma handle_emits n i r e r' e' : reconciler_ok n r → handle i r e = Ok (r', e') →
  ∃ tr, e_trace e' = e_trace e ++ tr ∧ Forall (names_slot n) tr.
Proof.
  intros Hr. destruct i as [d now lb|cid k now now' lb|now|b now lb|]; cbn [handle].
  - apply step_emits. destruct Hr. by split.
  - unfold apply_action, mbind, M_bind. destruct (action_ok n cid k now r e Hr) as [->|(r1 & e1 & E & _ & Hr1)].
    { intros [= <- <-]. exists []. by rewrite app_nil_r. }
    rewrite E. destruct (step now' lb r1 e1) as [[r2 e2]|] eqn:E2; [|done]. cbn. intros [= <- <-].
    destruct (step_emits n now' lb r1 Hr1 _ _ _ E2) as (t2 & H2 & P2).
    assert (emits (names_slot n) (action cid k now r)) as Hact.
    { unfold action. destruct (slot_of r cid) as [s|] eqn:Hs; [|apply emits_lift].
      destruct (dict_get _ _); [|apply emits_lift]. destruct (s_removing s); [apply emits_lift|].
      apply emits_bind; [|intros; apply emits_ret]. apply act_on_emits.
      apply find_owner_Some in Hs as [Hin _]. pose proof (slots_in n _ (ok_numbers n _ (ok_backend_slots _ _ Hr))) as Hall.
      rewrite Forall_forall in Hall. auto. }
    destruct (Hact _ _ _ E) as (t1 & H1 & P1). exists (t1 ++ t2). rewrite H2, H1, <- app_assoc.
    split; [done|]. by apply Forall_app_2.
  - assert (emits (names_slot n) (reset now r)) as Hreset; [|apply Hreset].
    unfold reset. apply emits_bind.
    + apply emits_mapM. eapply Forall_impl; [apply slots_in, (ok_numbers n), Hr|]. intros s. apply reset_slot_emits.
    + intros l. apply emits_bind; [|intros; apply emits_ret]. apply emits_mapM, Forall_true. intros [k rec].
      unfold reset_client. emits_solve.
  - apply step_emits. destruct Hr. by split.
  - intros [= <- <-]. exists []. by rewrite app_nil_r.
Qed.

Lemma run_emits n (l : list ((Ex → Ex) * input)) r e r' e' : reconciler_ok n r → run l r e = Ok (r', e') →
  ∃ tr, e_trace e' = e_trace e ++ tr ∧ Forall (names_slot n) tr.
Proof.
  revert r e. induction l as [|[f i] l IH]; intros r e Hr; cbn [run].
  { intros [= <- <-]. exists []. by rewrite app_nil_r. }
  unfold mbind, M_bind. cbn [elapse].
  destruct (handle_ok n i r (elapsed f e) Hr) as (r1 & e1 & E & Hr1). fold (elapsed f e). rewrite E. intros E'.
  destruct (handle_emits n i r _ _ _ Hr E) as (t1 & H1 & P1). destruct (IH r1 e1 Hr1 E') as (t2 & H2 & P2).
  exists (t1 ++ t2). rewrite H2, H1, <- app_assoc. split; [done|]. by apply Forall_app_2.
Qed.

(** ** The FIFO *)

(** [f"{verb} {int(lb_id)}\n"] of [Executor.admin]. *)
Definition admin_line (v : verb) (id : Z) : list Z :=
  text (match v with DRAIN => "DRAIN" | UNDRAIN => "UNDRAIN" end) ++ [32] ++ fmt_ld id ++ [10].

(** What the executor writes to the FIFO for a trace, and the commands meant. *)
Definition fifo_text (tr : list act) : list Z :=
  concat (omap (λ a, match a with Do (Admin v id) => Some (admin_line v id) | _ => None end) tr).

Definition commands_of (tr : list act) : list HealthChecker.command :=
  omap (λ a, match a with
             | Do (Admin v id) => Some {| cmd_drain := bool_decide (v = DRAIN); cmd_id := id |}
             | _ => None
             end) tr.

Lemma fifo_text_commands n tr : Forall (names_slot n) tr → Z.of_nat n ≤ 2 ^ 32 →
  fifo_text tr = concat ((λ cmd, print_command cmd ++ [10]) <$> commands_of tr) ∧
  Forall (λ cmd, 0 ≤ cmd_id cmd < Z.of_nat n) (commands_of tr).
Proof.
  intros Htr Hn. unfold fifo_text, commands_of. induction Htr as [|a tr Ha _ [IH1 IH2]]; [by split|].
  destruct a as [| |[| | |v id|]| |]; try done. cbn [omap list_omap] in *. rewrite fmap_cons. cbn [concat].
  rewrite IH1. split; [|by constructor]. f_equal. cbn in Ha. unfold admin_line, print_command, fmt_ld.
  rewrite decide_False by lia. cbn [cmd_drain cmd_id]. rewrite <- !(assoc_L (++)).
  by destruct v.
Qed.
End Emits.

Section Delivered.
Context {T : Types} {Ex : Type} {X : Executor Ex} {St : Type} `{L : ChangeListener St}.

End Delivered.

(** ** Example: a backend is taken off the canvas *)

#[local] Instance bridge_xx : XXHash := sample_hash.

