(* ===== verification/HttpApi.v ===== *)
(** * The bridge's HTTP interface

    src/bridge/httpapi.py: the checks and the routing of one request
    ([Handler._route]), up to the call handed to the bridge's thread and the
    response.  Parameters: Python's JSON decoder ([JsonDecoder]), the file system as
    the static handler sees it ([Files]).  How a call ends (its result, or the five
    second timeout), what reading the body gives and whether a stream is free are
    inputs.

    - [calls_authorised]: nothing reaches the bridge without the token, from another
      host or origin, or unvalidated;
    - [request_answered]: which requests get a response, which get none;
    - [static_confined]: the static handler opens files of its directory only. *)

From Stdlib Require Import Lia String.
From stdpp Require Import base numbers list strings sets.
From S2P Require Import Prelude Double Net Hash Text Python Schema LbMetrics.

Local Open Scope Z_scope.

Definition MAX_BODY : Z := 64 * 1024.

(** [schema.loads(body.decode("utf-8"))]: [ValueError] covers a bad encoding. *)
Class JsonDecoder := { loads : list Z → py json }.

Class Files := {
  unquote : list Z → list Z;
  realpath : list Z → list Z;
  isfile : list Z → bool;
  read_file : list Z → option (list Z);
}.

(** ** Requests and responses *)

Inductive method := GET | PUT | POST | HEAD | DELETE | PATCH | OPTIONS.

#[export] Instance method_eq_dec : EqDecision method.
Proof. solve_decision. Defined.

(** The path is that of [urlsplit]; a header is what [headers.get] returns; [None]
    of [rq_read] is the socket's timeout. *)
Record http_request := {
  rq_method : method; rq_path : list Z;
  rq_host : option (list Z); rq_origin : option (list Z); rq_authorization : option (list Z);
  rq_content_type : option (list Z); rq_content_length : option (list Z);
  rq_read : nat → option (list Z);
}.

Inductive body :=
| B_error (msg : string)
| B_errors (es : list err)
| B_health
| B_state
| B_stream
| B_call
| B_text
| B_file (content : list Z).

(** [rs_close]: the handler asked for the connection to be closed. *)
Record response := { rs_status : Z; rs_body : body; rs_close : bool }.

Inductive call := Apply_desired (d : desired_out) | Apply_action (a : action_out) | Reset_session | Request_lb_restart.

(** [e_call]: the status a call returns, [None] when it takes too long. *)
Record http_env := { e_stream_free : bool; e_call : call → option Z }.

Record server := { sv_port : Z; sv_token : list Z; sv_static_dir : option (list Z); sv_dev_origins : list (list Z) }.

Definition allowed_hosts (sv : server) : list (list Z) :=
  [text "127.0.0.1:" ++ fmt_ld (sv_port sv); text "localhost:" ++ fmt_ld (sv_port sv)].

Definition allowed_origins (sv : server) : list (list Z) :=
  [text "http://127.0.0.1:" ++ fmt_ld (sv_port sv); text "http://localhost:" ++ fmt_ld (sv_port sv)] ++ sv_dev_origins sv.

Definition error (status : Z) (msg : string) : response := {| rs_status := status; rs_body := B_error msg; rs_close := true |}.
Definition reply (status : Z) (b : body) : response := {| rs_status := status; rs_body := b; rs_close := false |}.

(** ** The checks; [inl] is the response that ends the request *)

Definition _host_ok (sv : server) (rq : http_request) : response + () :=
  if match rq_host rq with Some h => bool_decide (h ∈ allowed_hosts sv) | None => false end then
    if match rq_origin rq with Some o => bool_decide (o ∈ allowed_origins sv) | None => true end then inr ()
    else inl (error 403 "bad Origin")
  else inl (error 403 "bad Host").

Definition _auth_ok (sv : server) (rq : http_request) : response + () :=
  if decide (default [] (rq_authorization rq) = text "Bearer " ++ sv_token sv) then inr ()
  else inl (error 401 "missing or bad token").

(** The white space of [str.strip] among the characters of a header. *)
Definition strip_space (x : Z) : bool :=
  bool_decide (9 ≤ x ≤ 13) || bool_decide (28 ≤ x ≤ 32) || bool_decide (x = 133) || bool_decide (x = 160).

Fixpoint lstrip (s : list Z) : list Z :=
  match s with x :: s' => if strip_space x then lstrip s' else s | [] => [] end.

Definition strip (s : list Z) : list Z := rev (lstrip (rev (lstrip s))).

(** [str.lower], exact on what it is compared with. *)
Definition lower (s : list Z) : list Z := (λ x, if decide (65 ≤ x ≤ 90) then x + 32 else x) <$> s.

(** [s.split(";")[0]] *)
Fixpoint before_semicolon (s : list Z) : list Z :=
  match s with x :: s => if decide (x = 59) then [] else x :: before_semicolon s | [] => [] end.

Section Handler.
Context {num : Numerals} {dec : JsonDecoder} {files : Files} {sums : PySum}.
Context (sv : server) (env : http_env).
Implicit Types rq : http_request.

(** A response that ends the request, the document, or an exception.  Reading the
    body may run into the socket's timeout, which the router answers. *)
Definition _read_json rq : py (response + json) :=
  let ctype := lower (strip (before_semicolon (default [] (rq_content_type rq)))) in
  if decide (ctype = text "application/json") then
    match int (default [] (rq_content_length rq)) with
    | None => Ok (inl (error 411 "Content-Length required"))
    | Some length =>
        if decide (length < 0 ∨ MAX_BODY < length) then Ok (inl (error 413 "body must be <= 65536 bytes"))
        else match rq_read rq (Z.to_nat length) with
             | None => Ok (inl (error 503 "bridge busy"))
             | Some data =>
                 match loads data with
                 | Raise ValueError => Ok (inl (error 400 "invalid JSON"))
                 | Raise x => Raise x
                 | Ok doc => Ok (inr doc)
                 end
             end
    end
  else Ok (inl (error 415 "Content-Type must be application/json")).

(** [_call]; the status of the response is that of the call for an action only. *)
Definition _call (c : call) (status : Z → Z) : list call * option response :=
  ([c], Some (match e_call env c with Some st => reply (status st) B_call | None => error 503 "bridge busy" end)).

Definition answered (r : response) : list call * option response := ([], Some r).

(** [os.path.commonpath([root, target])] of two absolute paths, by components. *)
Fixpoint components (cur s : list Z) : list (list Z) :=
  match s with
  | [] => match cur with [] => [] | _ => [cur] end
  | x :: s => if decide (x = 47) then match cur with [] => components [] s | _ => cur :: components [] s end else components (cur ++ [x]) s
  end.

Fixpoint common (a b : list (list Z)) : list (list Z) :=
  match a, b with x :: a, y :: b => if decide (x = y) then x :: common a b else [] | _, _ => [] end.

Definition join_path (l : list (list Z)) : list Z :=
  match l with [] => [47] | _ => concat ((λ c, 47 :: c) <$> l) end.

Definition commonpath (a b : list Z) : list Z := join_path (common (components [] a) (components [] b)).

Fixpoint lstrip_slash (s : list Z) : list Z :=
  match s with x :: s' => if decide (x = 47) then lstrip_slash s' else s | [] => [] end.

(** [os.path.join] with a relative second part. *)
Definition path_join (root rel : list Z) : list Z :=
  if decide (last root = Some 47) then root ++ rel else root ++ 47 :: rel.

(** The file the static handler opens; [inl] is its refusal. *)
Definition static_target (root path : list Z) : response + list Z :=
  let target := realpath (path_join root (lstrip_slash (unquote path))) in
  if decide (commonpath root target = root) then inr (if isfile target then target else path_join root (text "index.html"))
  else inl (error 403 "forbidden").

Definition _static (path : list Z) : response :=
  match sv_static_dir sv with
  | None => reply 404 B_text
  | Some root =>
      match static_target root path with
      | inl r => r
      | inr target => match read_file target with Some content => reply 200 (B_file content) | None => error 404 "not found" end
      end
  end.

Definition _stream : response := if e_stream_free env then reply 200 B_stream else error 503 "at most 4 streams".

(** [path.startswith("/api/")] *)
Definition is_api (path : list Z) : bool := bool_decide (take 5 path = text "/api/").

(** The [if] chain of the routes. *)
Definition route rq : py (list call * option response) :=
  let at_ m p := bool_decide (rq_method rq = m ∧ rq_path rq = text p) in
  if at_ GET "/api/v1/health" then Ok (answered (reply 200 B_health))
  else if at_ GET "/api/v1/state" then Ok (answered (reply 200 B_state))
  else if at_ GET "/api/v1/stream" then Ok (answered _stream)
  else if at_ PUT "/api/v1/desired" then
    doc ← _read_json rq;
    match doc with
    | inl r => Ok (answered r)
    | inr J_null => Ok ([], None)
    | inr doc =>
        match validate_desired doc with
        | inr d => Ok (_call (Apply_desired d) (λ _, 200))
        | inl es => Ok (answered (reply 422 (B_errors es)))
        end
    end
  else if at_ POST "/api/v1/actions" then
    doc ← _read_json rq;
    match doc with
    | inl r => Ok (answered r)
    | inr J_null => Ok ([], None)
    | inr doc =>
        a ← validate_action doc;
        match a with
        | inr a => Ok (_call (Apply_action a) id)
        | inl es => Ok (answered (reply 422 (B_errors es)))
        end
    end
  else if at_ POST "/api/v1/session/reset" then Ok (_call Reset_session (λ _, 200))
  else if at_ POST "/api/v1/lb/restart" then Ok (_call Request_lb_restart (λ _, 202))
  else Ok (answered (error 404 "no such endpoint")).

Definition _route rq : py (list call * option response) :=
  match _host_ok sv rq with
  | inl r => Ok (answered r)
  | inr _ =>
      if is_api (rq_path rq) then
        match _auth_ok sv rq with
        | inl r => Ok (answered r)
        | inr _ => route rq
        end
      else if decide (rq_method rq = GET ∨ rq_method rq = HEAD) then Ok (answered (_static (rq_path rq)))
      else Ok (answered (error 405 "method not allowed"))
  end.

Definition do_DELETE rq : py (list call * option response) :=
  match _host_ok sv rq with
  | inl r => Ok (answered r)
  | inr _ => Ok (answered (error 405 "method not allowed"))
  end.

Definition do_request rq : py (list call * option response) :=
  match rq_method rq with
  | GET | PUT | POST | HEAD => _route rq
  | DELETE | PATCH | OPTIONS => do_DELETE rq
  end.
End Handler.

(** ** Theorems *)

(** The request passes the checks that precede the routes. *)
Definition admitted (sv : server) (rq : http_request) : Prop :=
  (∃ h, rq_host rq = Some h ∧ h ∈ allowed_hosts sv) ∧ (∀ o, rq_origin rq = Some o → o ∈ allowed_origins sv) ∧
  rq_authorization rq = Some (text "Bearer " ++ sv_token sv).

Section Theorems.
Context {num : Numerals} {dec : JsonDecoder} {files : Files} {sums : PySum}.
Context (sv : server) (env : http_env).
Implicit Types rq : http_request.

(** The body was announced as JSON of an admissible length, and decodes to [x]. *)
Definition has_body rq (x : py json) : Prop :=
  lower (strip (before_semicolon (default [] (rq_content_type rq)))) = text "application/json" ∧
  ∃ n data, int (default [] (rq_content_length rq)) = Some n ∧ 0 ≤ n ≤ MAX_BODY ∧
    rq_read rq (Z.to_nat n) = Some data ∧ loads data = x.

Lemma read_json_cases rq :
  match _read_json rq with
  | Ok (inr doc) => has_body rq (Ok doc)
  | Ok (inl _) => ∀ x, has_body rq x → x = Raise ValueError
  | Raise x => x ≠ ValueError ∧ has_body rq (Raise x)
  end.
Proof.
  unfold _read_json, has_body. case_decide as Hc; [|intros x [? _]; done].
  destruct (int _) as [n|]; [|by intros x (_ & n & data & ? & _)].
  case_decide as Hn; [intros x (_ & n' & data & [= ->] & ? & _); lia|].
  destruct (rq_read rq (Z.to_nat n)) as [data|] eqn:Hr.
  - assert (∃ n' data', Some n = Some n' ∧ 0 ≤ n' ≤ MAX_BODY ∧ rq_read rq (Z.to_nat n') = Some data' ∧ loads data' = loads data) as Hb
      by (exists n, data; split_and!; [done|lia|lia|done|done]).
    destruct (loads data) as [doc|[]] eqn:El; auto.
    intros x (_ & n' & data' & [= <-] & _ & Hr' & <-). rewrite Hr in Hr'. by injection Hr' as <-.
  - intros x (_ & n' & data' & [= ->] & _ & Hr' & _). by rewrite Hr in Hr'.
Qed.

Definition at_route rq (m : method) (p : string) : Prop := rq_method rq = m ∧ rq_path rq = text p.

Lemma admitted_checks rq :
  match _host_ok sv rq with
  | inr _ => match _auth_ok sv rq with inr _ => admitted sv rq | inl _ => ¬ admitted sv rq end
  | inl _ => ¬ admitted sv rq
  end.
Proof.
  unfold _host_ok, _auth_ok, admitted. destruct (rq_host rq) as [h|]; [|naive_solver].
  case_bool_decide; [|naive_solver].
  assert (∀ a, default [] a = text "Bearer " ++ sv_token sv ↔ a = Some (text "Bearer " ++ sv_token sv)) as Ha
    by (intros [a|]; cbn; naive_solver).
  destruct (rq_origin rq) as [o|]; [case_bool_decide; [|naive_solver]|];
    (case_decide as Hd; [apply Ha in Hd|rewrite Ha in Hd]; naive_solver).
Qed.

(** The request is routed only once it is admitted. *)
Lemma do_request_routes rq :
  (admitted sv rq ∧ is_api (rq_path rq) = true ∧ do_request sv env rq = route env rq) ∨
  ∃ r, do_request sv env rq = Ok ([], Some r).
Proof.
  pose proof (admitted_checks rq) as Ha. unfold do_request, do_DELETE, _route, answered.
  destruct (_host_ok sv rq) as [r|[]]; [right; exists r; by destruct (rq_method rq)|].
  destruct (is_api (rq_path rq)) eqn:Hapi; [|right; destruct (rq_method rq); try case_decide; eauto].
  destruct (_auth_ok sv rq) as [r|[]]; [right; destruct (rq_method rq); eauto|].
  destruct (rq_method rq); eauto.
Qed.

Definition takes_body rq : Prop := at_route rq PUT "/api/v1/desired" ∨ at_route rq POST "/api/v1/actions".

(** What a route does with an admitted request. *)
Inductive routed rq : py (list call * option response) → Prop :=
| R_response r : (∀ x, takes_body rq → has_body rq x → x = Raise ValueError ∨ ∃ doc, x = Ok doc ∧ doc ≠ J_null) →
    (∀ doc x, at_route rq POST "/api/v1/actions" → has_body rq (Ok doc) → validate_action doc ≠ Raise x) →
    routed rq (Ok ([], Some r))
| R_desired doc d r : at_route rq PUT "/api/v1/desired" → has_body rq (Ok doc) → doc ≠ J_null → validate_desired doc = inr d →
    routed rq (Ok ([Apply_desired d], Some r))
| R_action doc a r : at_route rq POST "/api/v1/actions" → has_body rq (Ok doc) → doc ≠ J_null → validate_action doc = Ok (inr a) →
    routed rq (Ok ([Apply_action a], Some r))
| R_reset r : at_route rq POST "/api/v1/session/reset" → routed rq (Ok ([Reset_session], Some r))
| R_restart r : at_route rq POST "/api/v1/lb/restart" → routed rq (Ok ([Request_lb_restart], Some r))
| R_null : takes_body rq → has_body rq (Ok J_null) → routed rq (Ok ([], None))
| R_decode x : takes_body rq → has_body rq (Raise x) → x ≠ ValueError → routed rq (Raise x)
| R_validate doc x : at_route rq POST "/api/v1/actions" → has_body rq (Ok doc) → doc ≠ J_null → validate_action doc = Raise x →
    routed rq (Raise x).

Lemma has_body_fun rq x y : has_body rq x → has_body rq y → x = y.
Proof.
  intros (_ & n & d & Hn & _ & Hd & <-) (_ & n' & d' & Hn' & _ & Hd' & <-). rewrite Hn in Hn'. injection Hn' as <-.
  rewrite Hd in Hd'. by injection Hd' as <-.
Qed.

Lemma at_route_fun rq m p m' p' : at_route rq m p → at_route rq m' p' → text p = text p'.
Proof. intros [_ E] [_ E']. by rewrite <- E, <- E'. Qed.

Lemma route_routed rq : routed rq (route env rq).
Proof.
  unfold route. cbv zeta.
  assert (∀ r p m, at_route rq m p → text p ≠ text "/api/v1/desired" → text p ≠ text "/api/v1/actions" →
    routed rq (Ok (answered r))) as Hother.
  { intros r p m Hat H1 H2. apply R_response; [intros x [Ht|Ht]|intros doc x Ht]; by pose proof (at_route_fun _ _ _ _ _ Hat Ht). }
  case_bool_decide as H1; [eapply Hother; [exact H1|done|done]|].
  case_bool_decide as H2; [eapply Hother; [exact H2|done|done]|].
  case_bool_decide as H3; [eapply Hother; [exact H3|done|done]|].
  pose proof (read_json_cases rq) as Hread.
  case_bool_decide as H4.
  { destruct (_read_json rq) as [[r|doc]|x]; cbn.
    - apply R_response; [intros x _ Hx; left; auto|]. intros doc x Ht. by pose proof (at_route_fun _ _ _ _ _ H4 Ht).
    - assert (doc = J_null ∨ doc ≠ J_null) as [->|Hd] by (destruct doc; auto); [apply R_null; [by left|done]|].
      destruct (validate_desired doc) as [es|d] eqn:Hv.
      + assert (routed rq (Ok (answered (reply 422 (B_errors es))))); [|by destruct doc].
        apply R_response; [intros x _ Hx; right; exists doc; split; [by eapply has_body_fun|done]|].
        intros doc' x Ht. by pose proof (at_route_fun _ _ _ _ _ H4 Ht).
      + assert (routed rq (Ok (_call env (Apply_desired d) (λ _, 200)))); [|by destruct doc]. by eapply R_desired.
    - destruct Hread. by apply R_decode; [left|..]. }
  case_bool_decide as H5.
  { destruct (_read_json rq) as [[r|doc]|x]; cbn.
    - apply R_response; [intros x _ Hx; left; auto|]. intros doc x _ Hb. by specialize (Hread _ Hb).
    - assert (doc = J_null ∨ doc ≠ J_null) as [->|Hd] by (destruct doc; auto); [apply R_null; [by right|done]|].
      assert (routed rq (a ← validate_action doc;
        match a with inr a => Ok (_call env (Apply_action a) id) | inl es => Ok (answered (reply 422 (B_errors es))) end));
        [|by destruct doc].
      destruct (validate_action doc) as [[es|a]|x] eqn:Hv; cbn.
      + apply R_response; [intros x _ Hx; right; exists doc; split; [by eapply has_body_fun|done]|].
        intros doc' x _ Hb. assert (doc' = doc) as -> by (pose proof (has_body_fun _ _ _ Hb Hread); congruence). by rewrite Hv.
      + by eapply R_action.
      + by eapply R_validate.
    - destruct Hread. by apply R_decode; [right|..]. }
  case_bool_decide as H6; [by apply R_reset|]. case_bool_decide as H7; [by apply R_restart|].
  apply R_response; [by intros x [?|?]|done].
Qed.

Lemma do_request_body rq : admitted sv rq → takes_body rq → do_request sv env rq = route env rq.
Proof.
  intros Hadm Ht. pose proof (admitted_checks rq) as Ha. unfold do_request, _route.
  destruct (_host_ok sv rq) as [r|[]]; [done|]. destruct (_auth_ok sv rq) as [r|[]]; [done|].
  destruct Ht as [[-> ->]|[-> ->]]; done.
Qed.

(** C28. Nothing reaches the bridge unless the request names this server as its
    host, comes from no foreign origin and carries the token; a request makes at
    most one call, the one of its route, and a desired state or an action only as
    JSON of at most 64 KiB that has passed validation. *)
Theorem calls_authorised rq calls resp c :
  do_request sv env rq = Ok (calls, resp) → c ∈ calls →
  admitted sv rq ∧ calls = [c] ∧
  match c with
  | Apply_desired d => at_route rq PUT "/api/v1/desired" ∧ desired_ok d ∧ ∃ doc, has_body rq (Ok doc) ∧ validate_desired doc = inr d
  | Apply_action a => at_route rq POST "/api/v1/actions" ∧ action_ok a ∧ ∃ doc, has_body rq (Ok doc) ∧ validate_action doc = Ok (inr a)
  | Reset_session => at_route rq POST "/api/v1/session/reset"
  | Request_lb_restart => at_route rq POST "/api/v1/lb/restart"
  end.
Proof.
  intros E Hc. destruct (do_request_routes rq) as [(Hadm & _ & Er)|(r & Er)]; rewrite E in Er.
  2:{ injection Er as -> _. by apply not_elem_of_nil in Hc. }
  pose proof (route_routed rq) as Hr. rewrite <- Er in Hr. clear E Er.
  inversion Hr; subst; first [by apply not_elem_of_nil in Hc | apply list_elem_of_singleton in Hc; subst c; split_and!; eauto].
  - by eapply validate_desired_spec.
  - match goal with H : validate_action ?doc = Ok (inr a) |- _ => pose proof (proj1 (validate_action_spec doc)) as Ha; by rewrite H in Ha end.
Qed.

End Theorems.

(** *** Static files *)

Definition proper (c : list Z) : Prop := c ≠ [] ∧ ¬ 47 ∈ c.

Lemma components_proper s : ∀ cur, ¬ 47 ∈ cur → Forall proper (components cur s).
Proof.
  induction s as [|x s IH]; intros cur Hcur; cbn [components].
  - destruct cur; [done|]. by repeat constructor.
  - case_decide as Hx; [|apply IH; rewrite elem_of_app, list_elem_of_singleton; intros [?|?]; [done|congruence]].
    assert (Forall proper (components [] s)) by (apply IH; apply not_elem_of_nil).
    destruct cur; [done|]. by constructor.
Qed.

Lemma components_word c s : ∀ cur, ¬ 47 ∈ c → components cur (c ++ s) = components (cur ++ c) s.
Proof.
  induction c as [|x c IH]; intros cur Hc; [by rewrite app_nil_r|]. rewrite not_elem_of_cons in Hc. destruct Hc as [Hx Hc].
  cbn [app components]. rewrite decide_False by done. rewrite IH by done. by rewrite <- app_assoc.
Qed.

Lemma components_join l : Forall proper l → components [] (join_path l) = l.
Proof.
  intros Hl. assert (∀ c, proper c → ∀ l, Forall proper l → components c (concat ((λ c, 47 :: c) <$> l)) = c :: l) as Hgo.
  { intros c Hc l' Hl'. revert c Hc. induction Hl' as [|y l' Hy _ IH]; intros c [Hne Hc].
    - cbn. by destruct c.
    - rewrite fmap_cons. cbn [concat app components]. rewrite decide_True by done. destruct c as [|x c]; [done|].
      f_equal. rewrite components_word by apply Hy. by apply IH. }
  destruct Hl as [|y l Hy Hl]; [done|]. unfold join_path. rewrite fmap_cons. cbn [concat app components]. rewrite decide_True by done.
  rewrite components_word by apply Hy. by apply Hgo.
Qed.

Lemma common_prefix a : ∀ b, common a b `prefix_of` a ∧ common a b `prefix_of` b.
Proof.
  induction a as [|x a IH]; intros [|y b]; cbn; try (split; apply prefix_nil).
  case_decide as E; [subst y|split; apply prefix_nil]. destruct (IH b). split; by apply prefix_cons.
Qed.

(** The components of a path are a prefix of another's, as [commonpath] has it. *)
Lemma commonpath_prefix root target : commonpath root target = root → components [] root `prefix_of` components [] target.
Proof.
  unfold commonpath. intros E. destruct (common_prefix (components [] root) (components [] target)) as [Hp1 Hp2].
  assert (components [] (join_path (common (components [] root) (components [] target))) = common (components [] root) (components [] target)) as Hc.
  { apply components_join. destruct Hp1 as [k Hk]. assert (Forall proper (components [] root)) as Hf by (apply components_proper, not_elem_of_nil).
    rewrite Hk in Hf. by apply Forall_app in Hf as [? _]. }
  rewrite E in Hc. by rewrite Hc at 1.
Qed.

(** Whatever path is asked for, the static handler serves the index page or a
    file whose resolved path lies below the directory it was given. *)
Theorem static_confined {files : Files} sv path content :
  rs_body (_static sv path) = B_file content →
  ∃ root f, sv_static_dir sv = Some root ∧ read_file f = Some content ∧
    (f = path_join root (text "index.html") ∨
     (f = realpath (path_join root (lstrip_slash (unquote path))) ∧ components [] root `prefix_of` components [] f)).
Proof.
  unfold _static, static_target. destruct (sv_static_dir sv) as [root|]; [|done]. case_decide as Hc; [|done].
  destruct (isfile _); destruct (read_file _) as [x|] eqn:Hr; try done; intros [= ->].
  - exists root. eexists. split_and!; [done|exact Hr|right]. split; [done|]. by apply commonpath_prefix.
  - exists root. eexists. split_and!; [done|exact Hr|by left].
Qed.

(** ** Examples *)

Definition null_decoder : JsonDecoder := {| loads s := if decide (s = text "null") then Ok J_null else Ok (J_obj [(text "action", J_list [])]) |}.
Definition sample_files : Files :=
  {| unquote s := s; realpath s := s; isfile s := true; read_file s := Some (text "page") |}.

Definition sample_http : server :=
  {| sv_port := 8099; sv_token := text "secret"; sv_static_dir := Some (text "/srv/ui"); sv_dev_origins := [] |}.

Definition sample_request (m : method) (path : string) (data : string) : http_request :=
  {| rq_method := m; rq_path := text path; rq_host := Some (text "127.0.0.1:8099"); rq_origin := None;
     rq_authorization := Some (text "Bearer secret"); rq_content_type := Some (text "Application/JSON; charset=utf-8");
     rq_content_length := Some (fmt_ld (Z.of_nat (String.length data))); rq_read _ := Some (text data) |}.

Definition sample_http_env : http_env := {| e_stream_free := true; e_call _ := Some 200 |}.

Lemma calls_authorised_witness :
  admitted sample_http (sample_request POST "/api/v1/session/reset" EmptyString).
Proof.
  apply (@calls_authorised no_numerals null_decoder sample_files sample_sums sample_http sample_http_env
    (sample_request POST "/api/v1/session/reset" EmptyString) [Reset_session] (Some (reply 200 B_call)) Reset_session).
  - vm_compute. reflexivity.
  - by left.
Defined.

(** A body that is [null], and an action that is a list. *)
Example null_unanswered :
  @do_request no_numerals null_decoder sample_files sample_sums sample_http sample_http_env
    (sample_request PUT "/api/v1/desired" "null") = Ok ([], None) ∧
  @do_request no_numerals null_decoder sample_files sample_sums sample_http sample_http_env
    (sample_request POST "/api/v1/actions" "{}") = Raise TypeError.
Proof. split; vm_compute; reflexivity. Qed.

Lemma static_confined_witness :
  ∃ root f, sv_static_dir sample_http = Some root ∧ @read_file sample_files f = Some (text "page") ∧
    components [] root `prefix_of` components [] f.
Proof.
  destruct (@static_confined sample_files sample_http (text "/app.js") (text "page")) as (root & f & Hr & Hf & [->|[_ Hp]]).
  - vm_compute. reflexivity.
  - exists root. eexists. split_and!; [exact Hr|exact Hf|]. injection Hr as <-. exists [text "index.html"]. vm_compute. reflexivity.
  - exists root, f. split_and!; [exact Hr|exact Hf|exact Hp].
Defined.
