(* ===== verification/LoadClient.v ===== *)
(** * The live-mode client

    src/bridge/load_client.py: the process that generates load against the virtual
    address.  A [ClientConn] matches the replies on a connection with the requests
    that wait for them; a [Client] schedules requests, retries them and counts what
    became of them; the pool of connections is maintained in ticks.

    When arrivals are due, how an attempt ends and when a sleep is over are inputs
    of the events, and so is the limit on requests in flight, which is computed in
    floating point.  Latencies are left out.

    - [replies_matched]: the server's replies resolve exactly the requests they
      answer, in whatever order and pieces they arrive;
    - [requests_accounted]: every scheduled request is counted exactly once, and
      retries are bounded;
    - [burst_exceeds_limit]: the limit on requests in flight does not hold for
      arrivals that are due at the same time;
    - [pool_maintained], [picks_fair]: the size of the pool, and that requests are
      spread evenly over it. *)

From Stdlib Require Import Lia String.
From stdpp Require Import base numbers list strings sets.
From S2P Require Import Prelude Double Net Hash Text Python Schema Reconciler ServiceServer LbMetrics.

Local Open Scope Z_scope.

(** ** Connections *)

(** [pending]: the ids of the requests sent, and whether their future is done. *)
Record ClientConn := { cc_buf : list Z; cc_pending : list (list Z * bool) }.

Record result := { rs_verb : list Z; rs_slot : Z; rs_queued_us : Z; rs_service_us : Z }.

#[export] Instance result_eq_dec : EqDecision result.
Proof. solve_decision. Defined.

Inductive signal := Resolve (id : list Z) (r : result) | Crash (id : list Z) | Abort.

Definition pop (p : list (list Z * bool)) (id : list Z) : list (list Z * bool) := filter (λ x, x.1 ≠ id) p.

(** [send]: the future is registered and the line written. *)
Definition send (id : list Z) (close : bool) (k : ClientConn) : ClientConn * list Z :=
  ({| cc_buf := cc_buf k; cc_pending := dict_set (cc_pending k) id false |}, request_text (id, close)).

Section Replies.
Context {num : Numerals}.

(** [int(parts[i]) if len(parts) > i else 0] *)
Definition part_int (parts : list (list Z)) (i : nat) : option Z :=
  match parts !! i with Some p => int p | None => Some 0 end.

(** One complete line. *)
Definition take_reply (line : list Z) (p : list (list Z * bool)) : list (list Z * bool) * list signal :=
  let parts := split [] (decode line) in
  match parts with
  | verb :: id :: slot :: _ =>
      if decide (verb ∈ [text "OK"; text "ERR"; text "SHED"]) then
        match dict_get p id with
        | None => (p, [])
        | Some done =>
            (pop p id,
             match done, int slot, part_int parts 3, part_int parts 4 with
             | false, Some n, Some q, Some u => [Resolve id {| rs_verb := verb; rs_slot := n; rs_queued_us := q; rs_service_us := u |}]
             | _, _, _, _ => []
             end)
        end
      else (p, [])
  | _ => (p, [])
  end.

Fixpoint take_replies (ls : list (list Z)) (p : list (list Z * bool)) : list (list Z * bool) * list signal :=
  match ls with
  | [] => (p, [])
  | l :: ls => let '(p, s) := take_reply l p in let '(p, s') := take_replies ls p in (p, s ++ s')
  end.

Definition client_data_received (data : list Z) (k : ClientConn) : ClientConn * list signal :=
  let '(ls, rest) := split_lines (cc_buf k ++ data) in
  let '(p, s) := take_replies ls (cc_pending k) in
  ({| cc_buf := rest; cc_pending := p |}, s ++ (if decide (MAX_LINE < Z.of_nat (length rest)) then [Abort] else [])).

Fixpoint receive_all (ds : list (list Z)) (k : ClientConn) : ClientConn * list signal :=
  match ds with
  | [] => (k, [])
  | d :: ds => let '(k, s) := client_data_received d k in let '(k, s') := receive_all ds k in (k, s ++ s')
  end.

Definition client_connection_lost (k : ClientConn) : ClientConn * list signal :=
  ({| cc_buf := cc_buf k; cc_pending := [] |}, Crash <$> (filter (λ x : list Z * bool, x.2 = false) (cc_pending k)).*1).
End Replies.

(** *** Replies find their requests *)

(** The replies of a server: to a request that was served, and to one shed. *)
Inductive answer := Served (failed : bool) (queued_us service_us : Z) | Refused.

Record sent := { an_req : request; an_slot : Z; an_kind : answer }.

Definition sent_text (a : sent) : list Z :=
  match an_kind a with
  | Served failed q u => done_text failed (an_req a) (an_slot a) q u
  | Refused => shed_text (an_req a) (an_slot a)
  end.

Definition sent_result (a : sent) : result :=
  match an_kind a with
  | Served failed q u => {| rs_verb := text (if failed then "ERR" else "OK"); rs_slot := an_slot a; rs_queued_us := q; rs_service_us := u |}
  | Refused => {| rs_verb := text "SHED"; rs_slot := an_slot a; rs_queued_us := 0; rs_service_us := 0 |}
  end.

Definition word64 (n : Z) : Prop := 0 ≤ n < 2 ^ 64.

Definition sent_ok (a : sent) : Prop :=
  plain_id (q_id (an_req a)) ∧ word64 (an_slot a) ∧
  match an_kind a with Served _ q u => word64 q ∧ word64 u | Refused => True end.

(** A reply without its newline, as words. *)
Definition sent_words (a : sent) : list (list Z) :=
  rs_verb (sent_result a) :: q_id (an_req a) :: fmt_u (an_slot a) ::
  match an_kind a with Served _ q u => [fmt_u q; fmt_u u] | Refused => [] end.

Fixpoint unwords (l : list (list Z)) : list Z :=
  match l with [] => [] | [w] => w | w :: l => w ++ 32 :: unwords l end.

Definition word (w : list Z) : Prop := w ≠ [] ∧ Forall (λ x, 33 ≤ x < 128) w.

Lemma fmt_ld_u n : 0 ≤ n → fmt_ld n = fmt_u n.
Proof. intros H. unfold fmt_ld. by rewrite decide_False by lia. Qed.

Lemma sent_text_words a : sent_ok a → sent_text a = unwords (sent_words a) ++ [10].
Proof.
  intros (_ & Hs & Hk). unfold sent_text, sent_words, sent_result, word64 in *. destruct (an_kind a) as [failed q u|].
  - unfold done_text. rewrite !fmt_ld_u by lia. cbn [unwords rs_verb]. destruct failed; cbn [app]; repeat (rewrite <- app_assoc; cbn [app]); done.
  - unfold shed_text. rewrite !fmt_ld_u by lia. cbn [unwords rs_verb app]. repeat (rewrite <- app_assoc; cbn [app]). done.
Qed.

Lemma fmt_u_word n : word (fmt_u n).
Proof.
  destruct (fmt_u_cons n) as (d & ds & E & _). split; [by rewrite E|]. eapply Forall_impl; [apply fmt_u_digits|]. cbv beta. lia.
Qed.

Lemma sent_words_ok a : sent_ok a → Forall word (sent_words a).
Proof.
  intros ((Hne & _ & Hid) & _). unfold sent_words. constructor; [|constructor; [done|constructor; [apply fmt_u_word|]]].
  - unfold sent_result, word. destruct (an_kind a) as [[] q u|]; (split; [done|]); by apply (bool_decide_unpack _); vm_compute.
  - destruct (an_kind a); [|done]. repeat constructor; apply fmt_u_word.
Qed.

Lemma split_unwords l : Forall word l → split [] (unwords l) = l.
Proof.
  induction 1 as [|w l [Hne Hw] Hl IH]; [done|]. assert (Forall (λ x, is_space x = false) w) by (by apply plain_space).
  destruct l as [|w' l].
  - cbn [unwords]. rewrite <- (app_nil_r w) at 1. rewrite split_word by done. cbn. by destruct w.
  - change (unwords (w :: w' :: l)) with (w ++ 32 :: unwords (w' :: l)). rewrite split_word by done. cbn [app split].
    change (is_space 32) with true. cbv iota. rewrite IH. by destruct w.
Qed.

Lemma unwords_ascii l : Forall word l → Forall (λ x, 32 ≤ x < 128) (unwords l).
Proof.
  induction 1 as [|w l [_ Hw] Hl IH]; [constructor|].
  assert (Forall (λ x, 32 ≤ x < 128) w) by (eapply Forall_impl; [exact Hw|]; cbv beta; lia).
  destruct l as [|w' l]; [done|]. change (unwords (w :: w' :: l)) with (w ++ 32 :: unwords (w' :: l)).
  apply Forall_app. split; [done|]. constructor; [lia|done].
Qed.

Lemma sent_length a : sent_ok a → (length (unwords (sent_words a)) ≤ 256)%nat.
Proof.
  intros ((_ & Hid & _) & _). pose proof (fmt_u_max (an_slot a)).
  assert (length (rs_verb (sent_result a)) ≤ 4)%nat by (unfold sent_result; destruct (an_kind a) as [[]|]; cbn; lia).
  unfold sent_words. destruct (an_kind a) as [f q u|]; cbn [unwords]; repeat (rewrite length_app; cbn [length]);
    [pose proof (fmt_u_max q); pose proof (fmt_u_max u)|]; lia.
Qed.

Section Matching.
Context {num : Numerals}.

Lemma take_reply_sent a p : sent_ok a → dict_get p (q_id (an_req a)) = Some false →
  take_reply (unwords (sent_words a)) p = (pop p (q_id (an_req a)), [Resolve (q_id (an_req a)) (sent_result a)]).
Proof.
  intros Ha Hp. unfold take_reply. pose proof (sent_words_ok a Ha) as Hw. rewrite decode_ascii, split_unwords by
    (done || (eapply Forall_impl; [by apply unwords_ascii|]; cbv beta; lia)).
  destruct Ha as (_ & Hs & Hk). unfold word64 in *. unfold sent_words at 1. cbv iota. rewrite decide_True.
  2:{ unfold sent_result. destruct (an_kind a) as [[]|]; by apply (bool_decide_unpack _); vm_compute. }
  rewrite Hp, int_fmt_u by done. unfold part_int, sent_words, sent_result.
  destruct (an_kind a) as [failed q u|]; cbn [lookup list_lookup]; [|done]. destruct Hk. by rewrite !int_fmt_u.
Qed.

Lemma dict_get_pop p id id' : id' ≠ id → dict_get (pop p id) id' = dict_get p id'.
Proof.
  intros Hne. unfold pop. induction p as [|[k b] p IH]; [done|]. rewrite filter_cons. cbn [fst dict_get].
  destruct (decide (k ≠ id)) as [Hk|Hk]; cbn [dict_get]; [by rewrite IH|]. rewrite IH, decide_False; [done|].
  apply dec_stable in Hk. congruence.
Qed.

Definition pop_all (ids : list (list Z)) (p : list (list Z * bool)) : list (list Z * bool) := foldl pop p ids.

Lemma take_replies_sent l : ∀ p, Forall sent_ok l → NoDup ((λ a, q_id (an_req a)) <$> l) →
  Forall (λ a, dict_get p (q_id (an_req a)) = Some false) l →
  take_replies ((λ a, unwords (sent_words a)) <$> l) p =
  (pop_all ((λ a, q_id (an_req a)) <$> l) p, (λ a, Resolve (q_id (an_req a)) (sent_result a)) <$> l).
Proof.
  induction l as [|a l IH]; intros p Hok Hnd Hp; [done|]. rewrite !fmap_cons in *.
  apply Forall_cons in Hok as [Ha Hok]. apply NoDup_cons in Hnd as [Hn Hnd]. apply Forall_cons in Hp as [Hpa Hp].
  cbn [take_replies]. rewrite take_reply_sent by done. rewrite IH; [done|done|done|].
  apply Forall_forall. intros b Hb. rewrite Forall_forall in Hp. rewrite dict_get_pop; [by apply Hp|].
  intros E. apply Hn. rewrite <- E. by apply (list_elem_of_fmap_2 (λ a, q_id (an_req a))).
Qed.

Lemma take_replies_app l l' p :
  take_replies (l ++ l') p = let '(p, s) := take_replies l p in let '(p, s') := take_replies l' p in (p, s ++ s').
Proof.
  revert p. induction l as [|x l IH]; intros p; cbn [take_replies app]; [by destruct (take_replies l' p)|].
  destruct (take_reply x p) as [p1 s1]. rewrite IH. destruct (take_replies l p1) as [p2 s2]. destruct (take_replies l' p2) as [p3 s3].
  by rewrite app_assoc.
Qed.

(** How the stream is cut does not matter. *)
Lemma receive_stream ds : ∀ L k, Forall no_break L → Forall (λ l, (length l ≤ 256)%nat) L → no_break (cc_buf k) →
  cc_buf k ++ concat ds = concat (ended <$> L) →
  receive_all ds k = let '(p, s) := take_replies L (cc_pending k) in ({| cc_buf := []; cc_pending := p |}, s).
Proof.
  induction ds as [|d ds IH]; intros L k HL Hlen Hb E.
  - destruct (split_stream L (cc_buf k) [] HL E) as (L1 & L2 & r & -> & Es & Hr & Er).
    rewrite split_lines_none in Es by done. injection Es as <- <-. rewrite app_nil_r in Er. cbn [app receive_all].
    destruct L2 as [|l L2]; [cbn; destruct k; cbn in *; by subst|]. destruct Hb. rewrite Er, fmap_cons. cbn [concat]. set_solver.
  - cbn [concat] in E. rewrite app_assoc in E. destruct (split_stream L (cc_buf k ++ d) (concat ds) HL E) as (L1 & L2 & r & -> & Es & Hr & Er).
    apply Forall_app in HL as [_ HL2]. apply Forall_app in Hlen as [_ Hlen2]. cbn [receive_all]. unfold client_data_received. rewrite Es.
    rewrite take_replies_app. destruct (take_replies L1 (cc_pending k)) as [p1 s1].
    rewrite decide_False by (pose proof (stream_rest L2 r _ 256 Hlen2 Hr Er); unfold MAX_LINE; lia).
    rewrite (IH L2 {| cc_buf := r; cc_pending := p1 |}) by done. cbn [cc_pending]. destruct (take_replies L2 p1). by rewrite app_nil_r.
Qed.

(** C33. The replies of the server to requests that wait on a connection, in any
    order and cut into pieces of any size, resolve exactly these requests, each with
    what the server said of it. *)
Theorem replies_matched l ds k :
  Forall sent_ok l → NoDup ((λ a, q_id (an_req a)) <$> l) → cc_buf k = [] →
  Forall (λ a, dict_get (cc_pending k) (q_id (an_req a)) = Some false) l → concat ds = concat (sent_text <$> l) →
  receive_all ds k =
  ({| cc_buf := []; cc_pending := pop_all ((λ a, q_id (an_req a)) <$> l) (cc_pending k) |},
   (λ a, Resolve (q_id (an_req a)) (sent_result a)) <$> l).
Proof.
  intros Hok Hnd Hbuf Hp E. rewrite (receive_stream ds ((λ a, unwords (sent_words a)) <$> l)).
  - by rewrite take_replies_sent.
  - rewrite Forall_fmap. eapply Forall_impl; [exact Hok|]. intros a Ha. unfold compose, no_break. intros Hin.
    pose proof (unwords_ascii _ (sent_words_ok a Ha)) as Hw. rewrite Forall_forall in Hw. specialize (Hw 10 Hin). cbv beta in Hw. lia.
  - rewrite Forall_fmap. eapply Forall_impl; [exact Hok|]. intros a Ha. by apply sent_length.
  - rewrite Hbuf. apply not_elem_of_nil.
  - rewrite Hbuf, E. cbn [app]. f_equal. rewrite <- list_fmap_compose. apply list_fmap_ext. intros i a Ha%list_elem_of_lookup_2.
    rewrite Forall_forall in Hok. unfold compose. by apply sent_text_words, Hok.
Qed.
End Matching.

(** ** The client *)

(** How an attempt may end without a reply. *)
Inductive exc := TimeoutError | OSError (errno : Z) | Crashed.

Definition NO_ROUTE_ERRNOS : list Z := [113; 101; 99].

Definition classify (e : exc) : string :=
  match e with
  | TimeoutError => "timeout"
  | OSError n => if decide (n ∈ NO_ROUTE_ERRNOS) then "no-route" else "crashed"
  | Crashed => "crashed"
  end.

Record totals := { scheduled : Z; attempts : Z; succeeded : Z; failed : Z; retried : Z; localDrops : Z }.

Definition no_totals : totals := {| scheduled := 0; attempts := 0; succeeded := 0; failed := 0; retried := 0; localDrops := 0 |}.

(** A counter of [failed_by_reason]; the reason is [None] for a request that was
    never attempted. *)
Definition reason : Type := option string.

Record Client := {
  rps : num; timeout_ms : num; retries : Z; pool_size : Z; max_conn_age_ms : Z; load_enabled : bool;
  in_flight : Z; cl_c : totals; failed_by_reason : list (reason * Z); resp_by_slot : list (Z * Z);
}.

(** A request that is scheduled, in its attempt [a] of [limit], or waiting to be
    attempted again. *)
Inductive task := Fresh | Attempt (a limit : Z) | Backoff (a limit : Z) (why : string).

Record cstate := { client : Client; reqs : list task }.

Definition bump {K} `{EqDecision K} (d : list (K * Z)) (k : K) : list (K * Z) := dict_set d k (default 0 (dict_get d k) + 1).

Definition set_totals (f : totals → totals) (v : Client) : Client :=
  {| rps := rps v; timeout_ms := timeout_ms v; retries := retries v; pool_size := pool_size v; max_conn_age_ms := max_conn_age_ms v;
     load_enabled := load_enabled v; in_flight := in_flight v; cl_c := f (cl_c v); failed_by_reason := failed_by_reason v;
     resp_by_slot := resp_by_slot v |}.
Definition set_in_flight (f : Z → Z) (v : Client) : Client :=
  {| rps := rps v; timeout_ms := timeout_ms v; retries := retries v; pool_size := pool_size v; max_conn_age_ms := max_conn_age_ms v;
     load_enabled := load_enabled v; in_flight := f (in_flight v); cl_c := cl_c v; failed_by_reason := failed_by_reason v;
     resp_by_slot := resp_by_slot v |}.
Definition count_reason (r : reason) (v : Client) : Client :=
  {| rps := rps v; timeout_ms := timeout_ms v; retries := retries v; pool_size := pool_size v; max_conn_age_ms := max_conn_age_ms v;
     load_enabled := load_enabled v; in_flight := in_flight v; cl_c := cl_c v; failed_by_reason := bump (failed_by_reason v) r;
     resp_by_slot := resp_by_slot v |}.
Definition count_slot (n : Z) (v : Client) : Client :=
  {| rps := rps v; timeout_ms := timeout_ms v; retries := retries v; pool_size := pool_size v; max_conn_age_ms := max_conn_age_ms v;
     load_enabled := load_enabled v; in_flight := in_flight v; cl_c := cl_c v; failed_by_reason := failed_by_reason v;
     resp_by_slot := bump (resp_by_slot v) n |}.

Definition inc_scheduled x := {| scheduled := scheduled x + 1; attempts := attempts x; succeeded := succeeded x; failed := failed x; retried := retried x; localDrops := localDrops x |}.
Definition inc_succeeded x := {| scheduled := scheduled x; attempts := attempts x; succeeded := succeeded x + 1; failed := failed x; retried := retried x; localDrops := localDrops x |}.
Definition inc_failed x := {| scheduled := scheduled x; attempts := attempts x; succeeded := succeeded x; failed := failed x + 1; retried := retried x; localDrops := localDrops x |}.
Definition inc_dropped x := {| scheduled := scheduled x; attempts := attempts x; succeeded := succeeded x; failed := failed x + 1; retried := retried x; localDrops := localDrops x + 1 |}.
Definition inc_attempts (again : bool) x :=
  {| scheduled := scheduled x; attempts := attempts x + 1; succeeded := succeeded x; failed := failed x;
     retried := retried x + (if again then 1 else 0); localDrops := localDrops x |}.

(** One turn of the scheduler's inner loop; [cap] is [max_in_flight()]. *)
Definition arrive (cap : Z) (s : cstate) : cstate :=
  let v := set_totals inc_scheduled (client s) in
  if decide (cap ≤ in_flight v) then
    {| client := count_reason (Some "client-overload"%string) (set_totals inc_dropped v); reqs := reqs s |}
  else {| client := v; reqs := reqs s ++ [Fresh] |}.

(** The loop [for attempt in range(...)] of [_request], from attempt [a] on; after
    the last one the request has failed. *)
Definition attempt_from (i : nat) (a limit : Z) (why : reason) (s : cstate) : cstate :=
  if decide (a < limit) then
    {| client := set_totals (inc_attempts (bool_decide (0 < a))) (client s); reqs := <[i := Attempt a limit]> (reqs s) |}
  else
    {| client := set_in_flight (λ n, n - 1) (count_reason why (set_totals inc_failed (client s))); reqs := delete i (reqs s) |}.

Definition begin (i : nat) (s : cstate) : cstate :=
  match reqs s !! i with
  | Some Fresh =>
      attempt_from i 0 (retries (client s) + 1) None {| client := set_in_flight (λ n, n + 1) (client s); reqs := reqs s |}
  | _ => s
  end.

(** How an attempt ended: a reply with its verb and slot, or not. *)
Inductive ending := Replied (verb : string) (slot : Z) | Broken (e : exc).

Definition end_attempt (i : nat) (out : ending) (s : cstate) : cstate :=
  match reqs s !! i with
  | Some (Attempt a limit) =>
      let v := match out with Replied _ n => count_slot n (client s) | Broken _ => client s end in
      let why := match out with
                 | Replied verb _ => if decide (verb = "SHED"%string) then "shed"%string else "error"%string
                 | Broken e => classify e
                 end in
      if match out with Replied verb _ => bool_decide (verb = "OK"%string) | Broken _ => false end then
        {| client := set_in_flight (λ n, n - 1) (set_totals inc_succeeded v); reqs := delete i (reqs s) |}
      else if decide (a < retries v) then {| client := v; reqs := <[i := Backoff a limit why]> (reqs s) |}
      else attempt_from i (a + 1) limit (Some why) {| client := v; reqs := reqs s |}
  | _ => s
  end.

Definition wake (i : nat) (s : cstate) : cstate :=
  match reqs s !! i with
  | Some (Backoff a limit why) => attempt_from i (a + 1) limit (Some why) s
  | _ => s
  end.

Definition client_config (o : list (list Z * json)) (v : Client) : Client :=
  {| rps := default (rps v) (num_in o "rps" 0 2000);
     timeout_ms := default (timeout_ms v) (num_in o "timeoutMs" 50 10000);
     retries := default (retries v) (int_in o "retries" 0 5);
     pool_size := default (pool_size v) (int_in o "poolSize" 0 64);
     max_conn_age_ms := match int_in o "maxConnAgeMs" 0 60000 with
                        | Some age => if decide (age = 0 ∨ 1000 ≤ age) then age else max_conn_age_ms v
                        | None => max_conn_age_ms v
                        end;
     load_enabled := load_enabled v; in_flight := in_flight v; cl_c := cl_c v; failed_by_reason := failed_by_reason v;
     resp_by_slot := resp_by_slot v |}.

Definition set_load (b : bool) (v : Client) : Client :=
  {| rps := rps v; timeout_ms := timeout_ms v; retries := retries v; pool_size := pool_size v; max_conn_age_ms := max_conn_age_ms v;
     load_enabled := b; in_flight := in_flight v; cl_c := cl_c v; failed_by_reason := failed_by_reason v;
     resp_by_slot := resp_by_slot v |}.

Definition client_reset_stats (v : Client) : Client :=
  {| rps := rps v; timeout_ms := timeout_ms v; retries := retries v; pool_size := pool_size v; max_conn_age_ms := max_conn_age_ms v;
     load_enabled := load_enabled v; in_flight := in_flight v; cl_c := no_totals; failed_by_reason := []; resp_by_slot := [] |}.

Definition client_on_command (cmd : list Z * list (list Z * json)) (v : Client) : Client :=
  let '(op, o) := cmd in
  if decide (op = text "config") then client_config o v
  else if decide (op = text "load") then match get o "enabled" with J_bool b => set_load b v | _ => v end
  else if decide (op = text "reset_stats") then client_reset_stats v
  else v.

(** The scheduler's guard: the client generates load. *)
Definition generates (v : Client) : bool := load_enabled v && num_gt (rps v) 0.

Inductive client_event := Due (cap : Z) | Begin (i : nat) | End (i : nat) (out : ending) | Wake (i : nat) | Control (doc : option json).

Definition client_handle (ev : client_event) (s : cstate) : cstate :=
  match ev with
  | Due cap => if generates (client s) then arrive cap s else s
  | Begin i => begin i s
  | End i out => end_attempt i out s
  | Wake i => wake i s
  | Control doc => match parse_command doc with Some cmd => {| client := client_on_command cmd (client s); reqs := reqs s |} | None => s end
  end.

Definition client_run (evs : list client_event) (s : cstate) : cstate := foldl (λ s ev, client_handle ev s) s evs.

(** [Client.__init__] *)
Definition new_client (r t : num) (retry pool age : Z) (paused : bool) : Client :=
  {| rps := r; timeout_ms := t; retries := retry; pool_size := pool; max_conn_age_ms := age; load_enabled := negb paused;
     in_flight := 0; cl_c := no_totals; failed_by_reason := []; resp_by_slot := [] |}.

(** *** Accounting *)

Definition sum_with {A} (f : A → Z) (l : list A) : Z := foldr (λ x n, f x + n) 0 l.

Lemma sum_with_app {A} (f : A → Z) l l' : sum_with f (l ++ l') = sum_with f l + sum_with f l'.
Proof. unfold sum_with. induction l as [|x l IH]; cbn; [done|]. rewrite IH. lia. Qed.

Lemma sum_with_cons {A} (f : A → Z) x l : sum_with f (x :: l) = f x + sum_with f l.
Proof. done. Qed.

Lemma sum_with_middle {A} (f : A → Z) l i x : l !! i = Some x → sum_with f l = sum_with f (take i l) + f x + sum_with f (drop (S i) l).
Proof.
  intros Hi. pose proof (take_drop_middle l i x Hi) as E. apply (f_equal (sum_with f)) in E. rewrite sum_with_app, sum_with_cons in E. lia.
Qed.

Lemma sum_with_insert {A} (f : A → Z) l i x y : l !! i = Some x → sum_with f (<[i := y]> l) = sum_with f l - f x + f y.
Proof.
  intros Hi. rewrite insert_take_drop by (by eapply lookup_lt_Some). rewrite (sum_with_middle f l i x Hi), sum_with_app, sum_with_cons. lia.
Qed.

Lemma sum_with_delete {A} (f : A → Z) l i x : l !! i = Some x → sum_with f (delete i l) = sum_with f l - f x.
Proof. intros Hi. rewrite delete_take_drop, (sum_with_middle f l i x Hi), sum_with_app. lia. Qed.

Definition one (t : task) : Z := 1.
Definition begun (t : task) : Z := match t with Fresh => 0 | _ => 1 end.
Definition again (t : task) : Z := match t with Fresh => 0 | Attempt a _ | Backoff a _ _ => a end.

Definition task_ok (R : Z) (t : task) : Prop :=
  match t with Fresh => True | Attempt a limit | Backoff a limit _ => 0 ≤ a < limit ∧ limit ≤ R + 1 end.

(** The requests the client has come to an end with. *)
Definition settled (c : totals) : Z := succeeded c + failed c - localDrops c.

Lemma bump_total {K} `{EqDecision K} (d : list (K * Z)) k : sum_with snd (bump d k) = sum_with snd d + 1.
Proof.
  unfold bump. assert (∀ n, sum_with snd (dict_set d k n) = sum_with snd d - default 0 (dict_get d k) + n) as H; [|rewrite H; lia].
  intros n. induction d as [|[k' v] d IH]; cbn [dict_set dict_get]; [rewrite sum_with_cons; cbn; lia|].
  case_decide; rewrite !sum_with_cons; cbn [snd default from_option id]; lia.
Qed.

(** [S] and [T]: how many requests the last reset left without their arrival and
    without their attempts in the counters. *)
Record counted (R S T : Z) (s : cstate) : Prop := {
  k_retries : 0 ≤ retries (client s) ≤ R;
  k_tasks : Forall (task_ok R) (reqs s);
  k_flight : in_flight (client s) = sum_with begun (reqs s);
  k_scheduled : scheduled (cl_c (client s)) = succeeded (cl_c (client s)) + failed (cl_c (client s)) + sum_with one (reqs s) - S;
  k_reasons : sum_with snd (failed_by_reason (client s)) = failed (cl_c (client s));
  k_attempts : attempts (cl_c (client s)) = settled (cl_c (client s)) + in_flight (client s) + retried (cl_c (client s)) - T;
  k_retried : 0 ≤ retried (cl_c (client s)) ≤ R * settled (cl_c (client s)) + sum_with again (reqs s);
}.

(** The request [i] goes on with attempt [a], its first or the one after [again t]. *)
Lemma attempt_from_counted R S T i a limit why s t :
  reqs s !! i = Some t → a = again t + begun t → 0 ≤ a ≤ limit → 0 < limit ≤ R + 1 →
  counted R S T {| client := set_in_flight (λ n, n - (1 - begun t)) (client s); reqs := reqs s |} →
  counted R S T (attempt_from i a limit why s).
Proof.
  intros Hi Ht Ha Hl []. unfold settled in *. cbn [client reqs set_in_flight retries in_flight cl_c failed_by_reason] in *.
  assert (0 ≤ again t ∧ (begun t = 0 ∧ again t = 0 ∨ begun t = 1 ∧ again t ≤ R)) as Hag.
  { rewrite Forall_forall in k_tasks0. apply list_elem_of_lookup_2 in Hi. specialize (k_tasks0 _ Hi). destruct t; cbn in *; lia. }
  unfold attempt_from. case_decide as Hc.
  - split; unfold settled; cbn [client reqs set_totals retries in_flight cl_c failed_by_reason inc_attempts scheduled succeeded failed attempts retried localDrops];
      try done; rewrite ?(sum_with_insert _ _ _ _ _ Hi); cbn [one begun again].
    + apply Forall_insert; [done|]. cbn. lia.
    + lia.
    + change (one t) with 1. change (one (Attempt a limit)) with 1. lia.
    + case_bool_decide; lia.
    + case_bool_decide; lia.
  - assert (begun t = 1) as Hb by lia.
    split; unfold settled; cbn [client reqs set_totals set_in_flight count_reason retries in_flight cl_c failed_by_reason inc_failed scheduled succeeded failed attempts retried localDrops];
      try done; rewrite ?(sum_with_delete _ _ _ _ Hi), ?bump_total.
    + by apply Forall_delete.
    + lia.
    + change (one t) with 1. lia.
    + lia.
    + lia.
    + nia.
Qed.

Lemma arrive_counted R S T cap s : counted R S T s → counted R S T (arrive cap s).
Proof.
  intros []. unfold arrive, settled in *. cbn [in_flight set_totals]. case_decide; split; unfold settled;
    cbn [client reqs set_totals count_reason retries in_flight cl_c failed_by_reason inc_scheduled inc_dropped scheduled succeeded failed attempts retried localDrops];
    rewrite ?bump_total, ?sum_with_app, ?sum_with_cons; cbn [begun again]; try done; try lia.
  - apply Forall_app. split; [done|]. by repeat constructor.
  - change (sum_with begun []) with 0. lia.
  - change (one Fresh) with 1. change (sum_with one []) with 0. lia.
  - change (sum_with again []) with 0. lia.
Qed.

Lemma begin_counted R S T i s : counted R S T s → counted R S T (begin i s).
Proof.
  intros Hs. unfold begin. destruct (reqs s !! i) as [[| |]|] eqn:Hi; try done. destruct Hs.
  eapply attempt_from_counted; [exact Hi|done|cbn; lia|cbn; lia|]. unfold settled in *.
  split; unfold settled; cbn [client reqs set_in_flight retries in_flight cl_c failed_by_reason begun]; try done; lia.
Qed.

Lemma reqs_task R S T i s t : counted R S T s → reqs s !! i = Some t → task_ok R t.
Proof. intros [] Hi. rewrite Forall_forall in k_tasks0. eapply k_tasks0, list_elem_of_lookup_2, Hi. Qed.

(** Counters other than the ones the invariant is about. *)
Lemma count_slot_counted R S T n s : counted R S T s → counted R S T {| client := count_slot n (client s); reqs := reqs s |}.
Proof. by intros []. Qed.

Lemma next_counted R S T i a limit why s t : reqs s !! i = Some t → begun t = 1 → again t = a → task_ok R t →
  limit = (match t with Attempt _ l | Backoff _ l _ => l | Fresh => 0 end) →
  counted R S T s → counted R S T (attempt_from i (a + 1) limit why s).
Proof.
  intros Hi Hb Hag Hok Hl []. eapply attempt_from_counted; [exact Hi|lia|destruct t; cbn in *; lia|destruct t; cbn in *; lia|].
  unfold settled in *. split; unfold settled; cbn [client reqs set_in_flight retries in_flight cl_c failed_by_reason]; try done; lia.
Qed.

Lemma end_attempt_counted R S T i out s : counted R S T s → counted R S T (end_attempt i out s).
Proof.
  intros Hs. unfold end_attempt. destruct (reqs s !! i) as [[|a limit|]|] eqn:Hi; try done.
  pose proof (reqs_task _ _ _ _ _ _ Hs Hi) as Hok.
  set (v := match out with Replied _ n => count_slot n (client s) | Broken _ => client s end).
  assert (counted R S T {| client := v; reqs := reqs s |}) as Hv by (subst v; destruct out; [by apply count_slot_counted|by destruct s]).
  match goal with |- counted _ _ _ (if ?b then _ else _) => destruct b end.
  - destruct Hv. unfold settled in *. cbn [client reqs] in *. split; unfold settled;
      cbn [client reqs set_totals set_in_flight retries in_flight cl_c failed_by_reason inc_succeeded scheduled succeeded failed attempts retried localDrops];
      rewrite ?(sum_with_delete _ _ _ _ Hi); cbn [begun again]; try done; try lia.
    + by apply Forall_delete.
    + change (one (Attempt a limit)) with 1. lia.
    + cbn in Hok. nia.
  - case_decide.
    + destruct Hv. cbn [client reqs] in *. split; cbn [client reqs]; rewrite ?(sum_with_insert _ _ _ _ _ Hi); cbn [begun again]; try done; try lia.
      * by apply Forall_insert.
      * change (one (Attempt a limit)) with 1. change (one (Backoff a limit ?w)) with 1. lia.
    + by eapply next_counted.
Qed.

Lemma wake_counted R S T i s : counted R S T s → counted R S T (wake i s).
Proof.
  intros Hs. unfold wake. destruct (reqs s !! i) as [[| |a limit why]|] eqn:Hi; try done.
  pose proof (reqs_task _ _ _ _ _ _ Hs Hi) as Hok. by eapply next_counted.
Qed.

Definition is_reset (ev : client_event) : Prop :=
  match ev with Control doc => ∃ o, parse_command doc = Some (text "reset_stats", o) | _ => False end.

Lemma int_in_bounds o k lo hi n : 0 ≤ lo → int_in o k lo hi = Some n → lo ≤ n ≤ hi.
Proof.
  intros Hlo. unfold int_in. destruct (num_in o k lo hi) as [[m e]|] eqn:E; [|done]. intros [= <-].
  unfold num_in in E. apply bind_Some in E as (x & _ & E). destruct (num_lt x lo || num_gt x hi) eqn:Hb; [done|]. injection E as ->.
  apply orb_false_iff in Hb as [H1 H2]. unfold num_lt, num_gt in H1, H2. rewrite bool_decide_eq_false in H1, H2. cbn [fst snd] in *.
  unfold trunc. cbn [fst snd]. case_decide as He.
  - rewrite (Z.max_r 0 e), (Z.max_l 0 (- e)), Z.pow_0_r in H1, H2 by lia. lia.
  - rewrite (Z.max_l 0 e), (Z.max_r 0 (- e)), Z.pow_0_r in H1, H2 by lia. assert (0 < 2 ^ (- e)) by (apply Z.pow_pos_nonneg; lia).
    rewrite Z.quot_div_nonneg by nia. split; [apply Z.div_le_lower_bound; lia|]. apply Z.div_le_upper_bound; lia.
Qed.

Lemma again_nonneg R l : Forall (task_ok R) l → 0 ≤ sum_with again l ≤ R * sum_with begun l.
Proof.
  induction 1 as [|t l Ht _ IH]; [cbn; lia|]. rewrite !sum_with_cons. destruct t; cbn in *; lia.
Qed.

Lemma client_handle_counted R S T ev s : 5 ≤ R → counted R S T s →
  ∃ S' T', counted R S' T' (client_handle ev s) ∧ (¬ is_reset ev → S' = S ∧ T' = T).
Proof.
  intros HR Hs. destruct ev as [cap|i|i out|i|doc]; cbn [client_handle].
  - exists S, T. split; [destruct (generates _); [by apply arrive_counted|done]|done].
  - exists S, T. split; [by apply begin_counted|done].
  - exists S, T. split; [by apply end_attempt_counted|done].
  - exists S, T. split; [by apply wake_counted|done].
  - destruct (parse_command doc) as [[op o]|] eqn:Hc; [|by exists S, T]. unfold client_on_command.
    destruct Hs. unfold settled in *. case_decide; [|case_decide; [|case_decide as Hr]].
    + exists S, T. split; [|done]. split; try done. cbn [client client_config retries].
      destruct (int_in o "retries" 0 5) as [n|] eqn:En; [|done]. apply int_in_bounds in En; [|lia]. cbn. lia.
    + exists S, T. split; [|done]. destruct (get o "enabled"); by split.
    + exists (sum_with one (reqs s)), (in_flight (client s)). split.
      * split; unfold settled; cbn [client reqs client_reset_stats retries in_flight cl_c failed_by_reason no_totals scheduled succeeded failed attempts retried localDrops]; try done; try lia.
        pose proof (again_nonneg R _ k_tasks0). lia.
      * intros Hn. destruct Hn. subst op. by exists o.
    + exists S, T. by split.
Qed.

Lemma client_run_counted R evs : ∀ S T s, 5 ≤ R → counted R S T s →
  ∃ S' T', counted R S' T' (client_run evs s) ∧ (Forall (λ ev, ¬ is_reset ev) evs → S' = S ∧ T' = T).
Proof.
  induction evs as [|ev evs IH]; intros S T s HR Hs; [by exists S, T|].
  destruct (client_handle_counted R S T ev s HR Hs) as (S1 & T1 & H1 & E1). destruct (IH S1 T1 _ HR H1) as (S2 & T2 & H2 & E2).
  exists S2, T2. split; [done|]. intros [Hev Hevs]%Forall_cons. destruct (E1 Hev), (E2 Hevs). by subst.
Qed.

(** C32. The client's books.  Of the requests scheduled since the start each has
    succeeded, has failed, or is still on its way; each failure has one reason;
    [in_flight] counts the requests that have begun.  Every attempt but the first of
    a request is counted as a retry, and a request makes no more than [R + 1]
    attempts if the retries configured never exceed [R]. *)
Theorem requests_accounted r t retry pool age paused evs R :
  5 ≤ R → 0 ≤ retry ≤ R → Forall (λ ev, ¬ is_reset ev) evs →
  let s := client_run evs {| client := new_client r t retry pool age paused; reqs := [] |} in
  let c := cl_c (client s) in
  scheduled c = succeeded c + failed c + len (reqs s) ∧
  sum_with snd (failed_by_reason (client s)) = failed c ∧
  in_flight (client s) = len (filter (λ t, begun t = 1) (reqs s)) ∧
  attempts c = settled c + in_flight (client s) + retried c ∧
  attempts c ≤ (R + 1) * (settled c + in_flight (client s)).
Proof.
  intros HR Hr Hev s c. destruct (client_run_counted R evs 0 0 {| client := new_client r t retry pool age paused; reqs := [] |} HR)
    as (S & T & Hc & E); [split; try done; unfold settled; cbn; lia|]. destruct (E Hev) as [-> ->]. fold s in Hc. destruct Hc. fold c in k_scheduled0, k_reasons0, k_attempts0, k_retried0.
  assert (∀ l, sum_with one l = len l) as Hone by (induction l as [|x l IH]; [done|rewrite sum_with_cons, IH; unfold len, one; cbn [length]; lia]).
  assert (∀ l, sum_with begun l = len (filter (λ t, begun t = 1) l)) as Hbeg.
  { induction l as [|x l IH]; [done|]. rewrite sum_with_cons, IH, filter_cons. unfold len.
    destruct x; cbn [begun]; [rewrite decide_False by lia|rewrite decide_True by done..]; cbn [length]; lia. }
  pose proof (again_nonneg R _ k_tasks0) as Hag. rewrite Hone in k_scheduled0. rewrite <- Hbeg. split_and!; try lia.
Qed.

(** [in_flight] grows when a request begins to run, not when it is spawned: of
    arrivals that are due at once, as after a stall, all are started, however low
    the limit is. *)
Theorem burst_exceeds_limit r t retry pool age n cap :
  num_gt r 0 = true → 0 ≤ retry → 0 < cap →
  let s := client_run (replicate n (Due cap) ++ (Begin <$> seq 0 n))
             {| client := new_client r t retry pool age false; reqs := [] |} in
  in_flight (client s) = Z.of_nat n ∧ localDrops (cl_c (client s)) = 0.
Proof.
  intros Hg Hr Hc. unfold client_run. rewrite foldl_app.
  assert (∀ m s, generates (client s) = true → in_flight (client s) = 0 → localDrops (cl_c (client s)) = 0 → retries (client s) = retry →
    let s' := foldl (λ s ev, client_handle ev s) s (replicate m (Due cap)) in
    in_flight (client s') = 0 ∧ localDrops (cl_c (client s')) = 0 ∧ retries (client s') = retry ∧ reqs s' = reqs s ++ replicate m Fresh) as Hdue.
  { induction m as [|m IH]; intros s H0 H1 H2 H3; [cbn; by rewrite app_nil_r|]. cbn [replicate foldl client_handle].
    rewrite H0. unfold arrive. cbn [in_flight set_totals]. rewrite decide_False by lia.
    destruct (IH {| client := set_totals inc_scheduled (client s); reqs := reqs s ++ [Fresh] |}) as (? & ? & ? & E); [done..|].
    split_and!; [done..|]. rewrite E. cbn [reqs]. by rewrite <- app_assoc. }
  destruct (Hdue n {| client := new_client r t retry pool age false; reqs := [] |}) as (H1 & H2 & H3 & H4); [done..|].
  set (s0 := foldl _ _ (replicate n (Due cap))) in *. clearbody s0. cbn [reqs app] in H4.
  assert (∀ m j s, (j + m = n)%nat → localDrops (cl_c (client s)) = 0 → retries (client s) = retry → in_flight (client s) = Z.of_nat j →
    length (reqs s) = n → (∀ i, (j ≤ i < n)%nat → reqs s !! i = Some Fresh) →
    let s' := foldl (λ s ev, client_handle ev s) s (Begin <$> seq j m) in
    in_flight (client s') = Z.of_nat n ∧ localDrops (cl_c (client s')) = 0) as Hbeg.
  { induction m as [|m IH]; intros j s Hj Hd Hre Hf Hl Hi; [split; [cbn; rewrite Hf; lia|done]|].
    cbn [seq fmap list_fmap foldl client_handle]. unfold begin. rewrite (Hi j) by lia. unfold attempt_from. rewrite decide_True by lia.
    apply IH; cbn [client reqs set_totals set_in_flight retries in_flight cl_c inc_attempts localDrops]; [lia|done|done|lia|by rewrite length_insert|].
    intros i Hij. rewrite list_lookup_insert_ne by lia. apply Hi. lia. }
  apply (Hbeg n 0%nat s0); [lia|done|done|done|by rewrite H4, length_replicate|].
  intros i Hi. rewrite H4. apply lookup_replicate_2. lia.
Qed.

(** ** The pool *)

(** [pc_pending]: requests wait for a reply on the connection. *)
Record pooled := { pc_id : nat; pc_alive : bool; pc_retiring : bool; pc_pending : bool; pc_opened_ms : Z }.

Definition retire (c : pooled) : pooled :=
  {| pc_id := pc_id c; pc_alive := pc_alive c; pc_retiring := true; pc_pending := pc_pending c; pc_opened_ms := pc_opened_ms c |}.

Definition aged (age now : Z) (c : pooled) : bool := bool_decide (0 < age) && bool_decide (age < now - pc_opened_ms c).

(** [active[size:]] retire. *)
Fixpoint retire_beyond (size : nat) (p : list pooled) : list pooled :=
  match p with
  | [] => []
  | c :: p =>
      if pc_retiring c then c :: retire_beyond size p
      else match size with O => retire c :: retire_beyond O p | S size => c :: retire_beyond size p end
  end.

Definition active (p : list pooled) : list pooled := filter (λ c, pc_retiring c = false) p.

(** One turn of [pool_maintainer] up to its connects: the pool, the connections
    closed, and how many to open. *)
Definition maintain (size : nat) (age now : Z) (p : list pooled) : list pooled * list nat * Z :=
  let p := filter (λ c, pc_alive c = true) p in
  let p := (λ c, if negb (pc_retiring c) && aged age now c then retire c else c) <$> p in
  let p := retire_beyond size p in
  (p, pc_id <$> filter (λ c, pc_retiring c = true ∧ pc_pending c = false) p, Z.of_nat size - len (active p)).

(** [_pick_conn]: the connection and the new [rr]. *)
Definition pick_conn (rr : nat) (p : list pooled) : option (pooled * nat) :=
  let live := filter (λ c, pc_alive c = true ∧ pc_retiring c = false) p in
  match live with
  | [] => None
  | _ => let rr := ((rr + 1) mod length live)%nat in c ← live !! rr; Some (c, rr)
  end.

Lemma retire_beyond_active size p : active (retire_beyond size p) = take size (active p).
Proof.
  revert size. induction p as [|c p IH]; intros size; [by destruct size|]. unfold active in *. cbn [retire_beyond].
  destruct (pc_retiring c) eqn:Hc.
  - rewrite !filter_cons, Hc, !decide_False by done. apply IH.
  - rewrite (filter_cons _ c p), Hc, decide_True by done. destruct size as [|size]; rewrite filter_cons.
    + rewrite decide_False by done. by rewrite IH.
    + rewrite Hc, decide_True by done. cbn [take]. by rewrite IH.
Qed.

Lemma retire_beyond_ids size p : pc_id <$> retire_beyond size p = pc_id <$> p.
Proof.
  revert size. induction p as [|c p IH]; intros size; [done|]. cbn [retire_beyond].
  destruct (pc_retiring c); [rewrite !fmap_cons, IH; done|]. destruct size; rewrite !fmap_cons, IH; done.
Qed.

(** A turn of the pool's maintenance keeps exactly the connections that are
    alive; at most [size] of them stay in use, none of these older than the limit,
    and the number to open is what is missing; only connections without a pending
    request are closed. *)
Theorem pool_maintained size age now p :
  let '(p', closed, want) := maintain size age now p in
  pc_id <$> p' = pc_id <$> filter (λ c, pc_alive c = true) p ∧
  len (active p') + want = Z.of_nat size ∧ 0 ≤ want ∧
  Forall (λ c, aged age now c = false) (active p') ∧
  (∀ c, c ∈ p' → pc_id c ∈ closed → NoDup (pc_id <$> p') → pc_retiring c = true ∧ pc_pending c = false).
Proof.
  unfold maintain. cbv zeta. set (p1 := filter (λ c, pc_alive c = true) p).
  set (p2 := (λ c, if negb (pc_retiring c) && aged age now c then retire c else c) <$> p1).
  rewrite retire_beyond_ids, retire_beyond_active. split_and!.
  - subst p2. rewrite <- list_fmap_compose. apply list_fmap_ext. intros i c _. unfold compose. by destruct (negb _ && _).
  - lia.
  - unfold len. rewrite length_take. lia.
  - apply Forall_take, Forall_forall. intros c [Hr Hc]%list_elem_of_filter. subst p2. apply list_elem_of_fmap in Hc as (c' & -> & _).
    destruct (pc_retiring c') eqn:Hr'; cbn [negb andb] in *; [by rewrite Hr in Hr'|]. by destruct (aged age now c') eqn:Ha.
  - intros c Hc (c' & Hid & [[Hr Hp] Hc']%list_elem_of_filter)%list_elem_of_fmap Hnd.
    rewrite <- (retire_beyond_ids size) in Hnd. by rewrite (NoDup_fmap_eq pc_id _ c c' Hnd Hc Hc' Hid).
Qed.

(** The connections [n] requests are sent on. *)
Fixpoint picks (n rr : nat) (p : list pooled) : list pooled :=
  match n with
  | O => []
  | S n => match pick_conn rr p with Some (c, rr) => c :: picks n rr p | None => [] end
  end.

Lemma turns_permutation L rr : (λ i, (rr + i) mod L)%nat <$> seq 1 L ≡ₚ seq 0 L.
Proof.
  destruct (decide (L = 0)%nat) as [->|HL]; [done|]. apply NoDup_Permutation_bis.
  - apply NoDup_ListNoDup, NoDup_fmap_2_strong; [|apply NoDup_seq]. intros i j Hi%elem_of_seq Hj%elem_of_seq E.
    pose proof (Nat.div_mod (rr + i) L HL). pose proof (Nat.div_mod (rr + j) L HL). rewrite E in *.
    assert ((rr + i) / L = (rr + j) / L)%nat; [|nia]. nia.
  - by rewrite length_fmap, !length_seq.
  - intros x Hx. apply list_elem_of_In, list_elem_of_fmap in Hx as (i & -> & _). apply list_elem_of_In, elem_of_seq.
    pose proof (Nat.mod_upper_bound (rr + i) L HL). lia.
Qed.

(** The connections in use. *)
Definition live_conns (p : list pooled) : list pooled := filter (λ c, pc_alive c = true ∧ pc_retiring c = false) p.

Lemma picks_turns p rr n : ∀ r k, live_conns p ≠ [] → ((r + 1) mod length (live_conns p) = (rr + S k) mod length (live_conns p))%nat →
  picks n r p = omap (λ i, live_conns p !! ((rr + i) mod length (live_conns p))%nat) (seq (S k) n).
Proof.
  induction n as [|n IH]; intros r k Hne E; [done|]. cbn [picks seq omap list_omap]. unfold pick_conn. fold (live_conns p).
  assert (length (live_conns p) ≠ 0)%nat as HL by (by destruct (live_conns p)).
  destruct (lookup_lt_is_Some_2 (live_conns p) ((rr + S k) mod length (live_conns p))%nat) as [c Hc]; [by apply Nat.mod_upper_bound|].
  rewrite Hc, E. assert (match live_conns p with [] => None | _ :: _ => c ← live_conns p !! ((rr + S k) mod length (live_conns p))%nat;
    Some (c, ((rr + S k) mod length (live_conns p))%nat) end = Some (c, ((rr + S k) mod length (live_conns p))%nat)) as -> by
    (destruct (live_conns p); [done|by rewrite Hc]).
  f_equal. apply IH; [done|]. rewrite Nat.Div0.add_mod_idemp_l. f_equal. lia.
Qed.

Lemma omap_lookup_seq {A} (l : list A) : omap (l !!.) (seq 0 (length l)) = l.
Proof.
  assert (∀ l' l'' : list A, omap ((l' ++ l'') !!.) (seq (length l') (length l'')) = l'') as H; [|exact (H [] l)].
  intros l' l''. revert l'. induction l'' as [|x l'' IH]; intros l'; [done|]. cbn [length seq omap list_omap].
  rewrite list_lookup_middle by done. f_equal. specialize (IH (l' ++ [x])). rewrite <- app_assoc, length_app, Nat.add_1_r in IH. exact IH.
Qed.

(** The requests of a pooled client go round: of as many requests as connections
    are in use, every connection gets exactly one. *)
Theorem picks_fair p rr : picks (length (live_conns p)) rr p ≡ₚ live_conns p.
Proof.
  destruct (decide (live_conns p = [])) as [->|Hne]; [done|].
  rewrite (picks_turns p rr _ rr 0 Hne) by (f_equal; lia). set (l := live_conns p) in *.
  assert (∀ L, omap (λ i, l !! ((rr + i) mod length l)%nat) L = omap (l !!.) ((λ i, (rr + i) mod length l)%nat <$> L)) as ->.
  { induction L as [|x L IH]; [done|]. rewrite fmap_cons. cbn. by rewrite IH. }
  by rewrite (turns_permutation (length l) rr), omap_lookup_seq.
Qed.

(** ** Samples *)

Definition sample_sent : list sent :=
  [{| an_req := {| q_conn := 0; q_id := text "2"; q_close := false |}; an_slot := 1; an_kind := Refused |};
   {| an_req := {| q_conn := 0; q_id := text "1"; q_close := false |}; an_slot := 1; an_kind := Served true 15 2500 |}].

Definition waiting_conn : ClientConn := {| cc_buf := []; cc_pending := [(text "1", false); (text "2", false); (text "3", false)] |}.

Lemma replies_matched_witness :
  @receive_all no_numerals [text "SHED 2 1" ++ [10] ++ text "ER"; text "R 1 1 15 25"; text "00" ++ [10]] waiting_conn =
  ({| cc_buf := []; cc_pending := [(text "3", false)] |},
   [Resolve (text "2") {| rs_verb := text "SHED"; rs_slot := 1; rs_queued_us := 0; rs_service_us := 0 |};
    Resolve (text "1") {| rs_verb := text "ERR"; rs_slot := 1; rs_queued_us := 15; rs_service_us := 2500 |}]).
Proof.
  refine (@replies_matched no_numerals sample_sent _ waiting_conn _ _ _ _ _).
  - unfold sample_sent, sent_ok, plain_id, word64. repeat constructor; cbn; try lia; by apply (bool_decide_unpack _); vm_compute.
  - by apply (bool_decide_unpack _); vm_compute.
  - reflexivity.
  - by apply (bool_decide_unpack _); vm_compute.
  - by vm_compute.
Defined.

(** A request that succeeds at the second attempt and one that is still running. *)
Definition sample_load : list client_event :=
  [Due 64; Begin 0; Due 64; End 0 (Broken Crashed); Wake 0; Begin 1; End 0 (Replied "OK" 3)].

Definition sample_client : cstate :=
  client_run sample_load {| client := new_client (int_num 50) (int_num 500) 2 0 0 false; reqs := [] |}.

Lemma requests_accounted_witness :
  reqs sample_client = [Attempt 0 3] ∧ succeeded (cl_c (client sample_client)) = 1 ∧
  retried (cl_c (client sample_client)) = 1 ∧
  scheduled (cl_c (client sample_client)) = succeeded (cl_c (client sample_client)) + failed (cl_c (client sample_client)) + len (reqs sample_client).
Proof.
  destruct (requests_accounted (int_num 50) (int_num 500) 2 0 0 false sample_load 5) as [H _]; [lia|lia| |].
  - repeat constructor; by intros [].
  - by repeat split.
Defined.

Lemma burst_exceeds_limit_witness :
  in_flight (client (client_run (replicate 100 (Due 64) ++ (Begin <$> seq 0 100))
    {| client := new_client (int_num 50) (int_num 500) 2 0 0 false; reqs := [] |})) = 100.
Proof. apply (burst_exceeds_limit (int_num 50) (int_num 500) 2 0 0 100 64); [reflexivity|lia|lia]. Defined.
