(* ===== verification/Publisher.v ===== *)
(** * Streaming snapshots

    [Publisher] and [Handler._stream] of src/bridge/httpapi.py: the bridge publishes a
    snapshot at every tick; up to four threads each stream to a browser whatever is
    newer than what they sent last, and the bridge pauses the load when no stream has
    been open for ten seconds.

    The calls under the lock of the publisher are the steps.  Bodies are of any type;
    when a thread wakes, and whether a write fails, is an input.  Times are in
    milliseconds.

    - [streams_follow]: what each stream carries, and how many there are;
    - [pause_only_unwatched]: the load is paused for want of a browser only when none
      has been connected for ten seconds. *)

From Stdlib Require Import Lia.
From stdpp Require Import base numbers list sorting sets.
From S2P Require Import Prelude.

Local Open Scope Z_scope.

Definition MAX_STREAMS : Z := 4.
Definition AUTO_PAUSE_AFTER_MS : Z := 10000.

Section Publisher.
Context {Body : Type} (empty : Body).

(** What a stream writes: a snapshot with its number, or a keepalive. *)
Inductive frame := Snapshot (seq : Z) (b : Body) | Keepalive.

(** A thread in the loop of [_stream]: the local [seq] and what it has written. *)
Record stream := { st_seq : Z; st_out : list frame }.

Record publisher := {
  pb_seq : Z; pb_body : Body; pb_streams : Z; pb_last_stream_seen : Z; pb_closing : bool;
  pb_slots : Z;                (** what is left of the semaphore *)
  pb_threads : list stream;
}.

Definition new_publisher (now : Z) : publisher :=
  {| pb_seq := 0; pb_body := empty; pb_streams := 0; pb_last_stream_seen := now; pb_closing := false; pb_slots := MAX_STREAMS; pb_threads := [] |}.

Definition publish (b : Body) (p : publisher) : publisher :=
  {| pb_seq := pb_seq p + 1; pb_body := b; pb_streams := pb_streams p; pb_last_stream_seen := pb_last_stream_seen p;
     pb_closing := pb_closing p; pb_slots := pb_slots p; pb_threads := pb_threads p |}.

(** [stream_count], with the semaphore and the threads. *)
Definition stream_count (delta now : Z) (threads : list stream) (p : publisher) : publisher :=
  {| pb_seq := pb_seq p; pb_body := pb_body p; pb_streams := pb_streams p + delta; pb_last_stream_seen := now;
     pb_closing := pb_closing p; pb_slots := pb_slots p - delta; pb_threads := threads |}.

Definition seconds_without_streams (now : Z) (p : publisher) : Z :=
  if decide (0 < pb_streams p) then 0 else now - pb_last_stream_seen p.

Definition close (p : publisher) : publisher :=
  {| pb_seq := pb_seq p; pb_body := pb_body p; pb_streams := pb_streams p; pb_last_stream_seen := pb_last_stream_seen p;
     pb_closing := true; pb_slots := pb_slots p; pb_threads := pb_threads p |}.

(** [_stream] up to its loop; without a free slot the request is refused. *)
Definition open_stream (now : Z) (p : publisher) : publisher :=
  if decide (pb_slots p ≤ 0) then p else stream_count 1 now (pb_threads p ++ [{| st_seq := -1; st_out := [] |}]) p.

(** The end of thread [i]. *)
Definition end_stream (i : nat) (now : Z) (p : publisher) : publisher := stream_count (-1) now (delete i (pb_threads p)) p.

(** Thread [i] returns from [wait_newer] and writes; [ok] is false if that fails. *)
Definition wake_stream (i : nat) (now : Z) (ok : bool) (p : publisher) : publisher :=
  match pb_threads p !! i with
  | None => p
  | Some t =>
      if pb_closing p then end_stream i now p
      else if ok then
        let t := if decide (pb_seq p = st_seq t) then {| st_seq := st_seq t; st_out := st_out t ++ [Keepalive] |}
                 else {| st_seq := pb_seq p; st_out := st_out t ++ [Snapshot (pb_seq p) (pb_body p)] |} in
        {| pb_seq := pb_seq p; pb_body := pb_body p; pb_streams := pb_streams p; pb_last_stream_seen := pb_last_stream_seen p;
           pb_closing := pb_closing p; pb_slots := pb_slots p; pb_threads := <[i := t]> (pb_threads p) |}
      else end_stream i now p
  end.

Inductive pub_event := Publish (b : Body) | Open (now : Z) | Wakes (i : nat) (now : Z) (ok : bool) | Close.

Definition pub_step (ev : pub_event) (p : publisher) : publisher :=
  match ev with
  | Publish b => publish b p
  | Open now => open_stream now p
  | Wakes i now ok => wake_stream i now ok p
  | Close => close p
  end.

Definition pub_run (evs : list pub_event) (p : publisher) : publisher := foldl (λ p ev, pub_step ev p) p evs.

(** [tick]'s decision *)
Definition suppress (no_auto_pause : bool) (now : Z) (p : publisher) : bool :=
  negb no_auto_pause && bool_decide (AUTO_PAUSE_AFTER_MS < seconds_without_streams now p).

(** ** What the streams carry *)

(** Everything published so far, the empty body first. *)
Definition bodies (evs : list pub_event) : list Body := empty :: omap (λ ev, match ev with Publish b => Some b | _ => None end) evs.

Definition snapshots (out : list frame) : list (Z * Body) := omap (λ f, match f with Snapshot n b => Some (n, b) | Keepalive => None end) out.

Record stream_ok (seq : Z) (evs : list pub_event) (t : stream) : Prop := {
  so_order : StronglySorted Z.lt (snapshots (st_out t)).*1;
  so_bodies : ∀ n b, (n, b) ∈ snapshots (st_out t) → 0 ≤ n ∧ bodies evs !! Z.to_nat n = Some b;
  so_last : from_option fst (-1) (last (snapshots (st_out t))) = st_seq t;
  so_seq : st_seq t ≤ seq;
}.

Record pub_ok (p : publisher) (evs : list pub_event) : Prop := {
  po_seq : pb_seq p + 1 = Z.of_nat (length (bodies evs));
  po_body : last (bodies evs) = Some (pb_body p);
  po_streams : pb_streams p = Z.of_nat (length (pb_threads p));
  po_slots : pb_slots p + pb_streams p = MAX_STREAMS;
  po_free : 0 ≤ pb_slots p;
  po_threads : Forall (stream_ok (pb_seq p) evs) (pb_threads p);
}.

Lemma bodies_snoc evs ev : bodies (evs ++ [ev]) = bodies evs ++ match ev with Publish b => [b] | _ => [] end.
Proof. unfold bodies. rewrite omap_app. by destruct ev. Qed.

Lemma bodies_extend evs ev n b : bodies evs !! n = Some b → bodies (evs ++ [ev]) !! n = Some b.
Proof. intros H. rewrite bodies_snoc. by apply lookup_app_l_Some. Qed.

Lemma stream_ok_extend n n' evs ev t : n ≤ n' → stream_ok n evs t → stream_ok n' (evs ++ [ev]) t.
Proof.
  intros Hp [H1 H2 H3 H4]. split; [done| |done|lia]. intros k b Hin. destruct (H2 k b Hin). split; [done|]. by apply bodies_extend.
Qed.

Lemma snapshots_snoc out f : snapshots (out ++ [f]) = snapshots out ++ match f with Snapshot n b => [(n, b)] | Keepalive => [] end.
Proof. unfold snapshots. rewrite omap_app. by destruct f. Qed.

Lemma current_body p evs b : pub_ok p evs → bodies evs !! Z.to_nat (pb_seq p) = Some b → b = pb_body p.
Proof.
  intros [Hs Hb _ _ _ _] H. rewrite last_lookup in Hb. replace (pred (length (bodies evs))) with (Z.to_nat (pb_seq p)) in Hb by lia. congruence.
Qed.

Lemma order_below t n b : StronglySorted Z.lt (snapshots (st_out t)).*1 → from_option fst (-1) (last (snapshots (st_out t))) = st_seq t →
  (n, b) ∈ snapshots (st_out t) → n ≤ st_seq t.
Proof.
  intros Hs Hl Hin. destruct (snapshots (st_out t)) as [|x l _] using rev_ind; [by apply not_elem_of_nil in Hin|].
  rewrite last_snoc in Hl. cbn in Hl. apply elem_of_app in Hin as [Hin|Hin]; [|apply list_elem_of_singleton in Hin; subst x; cbn in Hl; lia].
  rewrite fmap_app in Hs. apply StronglySorted_app in Hs as (Hs & _). specialize (Hs n x.1). cbv beta in Hs.
  enough (n < x.1) by lia. apply Hs; [|left]. apply list_elem_of_fmap. by exists (n, b).
Qed.

(** A stream that sends the current snapshot. *)
Lemma send_ok p evs ev t : pub_ok p evs → pb_seq p ≠ st_seq t → stream_ok (pb_seq p) evs t →
  stream_ok (pb_seq p) (evs ++ [ev]) {| st_seq := pb_seq p; st_out := st_out t ++ [Snapshot (pb_seq p) (pb_body p)] |}.
Proof.
  intros Hp Hne [H1 H2 H3 H4]. split; cbn [st_out st_seq]; rewrite ?snapshots_snoc.
  - rewrite fmap_app. apply StronglySorted_app_2; [|done|repeat constructor].
    intros x y Hx Hy. apply list_elem_of_fmap in Hx as ([n b] & -> & Hin). cbn in Hy. apply list_elem_of_singleton in Hy. subst y. cbn.
    pose proof (order_below t n b H1 H3 Hin). lia.
  - intros n b [Hin|Hin]%elem_of_app; [destruct (H2 n b Hin); split; [done|by apply bodies_extend]|].
    apply list_elem_of_singleton in Hin. injection Hin as -> ->. destruct Hp as [Hs Hb _ _ _ _].
    assert (length (bodies evs) ≠ 0%nat) by done. split; [lia|]. apply bodies_extend. rewrite last_lookup in Hb.
    by replace (pred (length (bodies evs))) with (Z.to_nat (pb_seq p)) in Hb by lia.
  - by rewrite last_snoc.
  - lia.
Qed.

Lemma pub_step_ok ev p evs : pub_ok p evs → pub_ok (pub_step ev p) (evs ++ [ev]).
Proof.
  intros Hp. assert (∀ n, pb_seq p ≤ n → Forall (stream_ok n (evs ++ [ev])) (pb_threads p)) as Hext.
  { intros n Hle. eapply Forall_impl; [apply Hp|]. intros t. by apply stream_ok_extend. }
  assert (∀ i now, (∀ b, ev ≠ Publish b) → is_Some (pb_threads p !! i) → pub_ok (end_stream i now p) (evs ++ [ev])) as Hend.
  { intros i now Hev [t Ht]. pose proof (lookup_lt_Some _ _ _ Ht). destruct Hp as [H1 H2 H3 H4 H5 _].
    assert (bodies (evs ++ [ev]) = bodies evs) as Eb by (rewrite bodies_snoc; destruct ev; [by destruct (Hev b)|by rewrite app_nil_r..]).
    split; cbn [end_stream stream_count pb_seq pb_body pb_streams pb_slots pb_threads]; rewrite ?Eb; try done; try lia.
    - rewrite length_delete by (by exists t). lia.
    - apply Forall_delete, Hext. cbn. lia. }
  destruct ev as [b|now|i now ok|]; cbn [pub_step].
  - destruct Hp as [H1 H2 H3 H4 H5 _]. split; cbn [publish pb_seq pb_body pb_streams pb_slots pb_threads]; rewrite ?bodies_snoc; try done.
    + rewrite length_app. cbn [length]. lia.
    + by rewrite last_snoc.
    + apply Hext. cbn. lia.
  - assert (bodies (evs ++ [Open now]) = bodies evs) as Eb by (by rewrite bodies_snoc, app_nil_r).
    unfold open_stream. destruct Hp as [H1 H2 H3 H4 H5 H6]. case_decide; split; rewrite ?Eb; try done; try (by apply Hext).
    + cbn. rewrite length_app. cbn. lia.
    + cbn. lia.
    + cbn. lia.
    + cbn. apply Forall_app. split; [apply Hext; cbn; lia|]. apply Forall_singleton. split; cbn; try done; [constructor|by intros ?? ?%not_elem_of_nil|].
      unfold bodies in H1. cbn in H1. lia.
  - assert (bodies (evs ++ [Wakes i now ok]) = bodies evs) as Eb by (by rewrite bodies_snoc, app_nil_r).
    assert (pub_ok p (evs ++ [Wakes i now ok])) as Hp' by (destruct Hp; split; rewrite ?Eb; try done; by apply Hext).
    unfold wake_stream. destruct (pb_threads p !! i) as [t|] eqn:Ht; [|done].
    destruct (pb_closing p); [by apply Hend; [done|exists t]|]. destruct ok; [|by apply Hend; [done|exists t]].
    assert (stream_ok (pb_seq p) evs t) as Htok by (pose proof (po_threads _ _ Hp) as H; rewrite Forall_forall in H; apply H; by eapply list_elem_of_lookup_2).
    pose proof (send_ok p evs (Wakes i now true) t Hp) as Hsend. destruct Hp' as [H1 H2 H3 H4 H5 H6].
    split; cbn [pb_seq pb_body pb_streams pb_slots pb_threads]; try done; [by rewrite length_insert|].
    apply Forall_insert; [exact H6|]. case_decide as Hs.
    + destruct (stream_ok_extend (pb_seq p) (pb_seq p) evs (Wakes i now true) t ltac:(lia) Htok) as [S1 S2 S3 S4].
      split; cbn [st_out st_seq]; rewrite ?snapshots_snoc, ?app_nil_r; done.
    + by apply Hsend.
  - destruct Hp as [H1 H2 H3 H4 H5 H6]. assert (bodies (evs ++ [Close]) = bodies evs) as Eb by (by rewrite bodies_snoc, app_nil_r).
    split; cbn [close pb_seq pb_body pb_streams pb_slots pb_threads]; rewrite ?Eb; try done. apply Hext. lia.
Qed.

Lemma pub_run_ok now evs : pub_ok (pub_run evs (new_publisher now)) evs.
Proof.
  induction evs as [|ev evs IH] using rev_ind.
  - split; try done; unfold MAX_STREAMS; cbn; lia.
  - unfold pub_run in *. rewrite foldl_snoc. by apply pub_step_ok.
Qed.

(** There are never more than four streams, and [streams] counts them.  A stream
    carries published snapshots with increasing numbers, none twice and none out of
    order, and a thread that wakes has then sent the newest. *)
Theorem streams_follow now evs :
  let p := pub_run evs (new_publisher now) in
  pb_streams p = Z.of_nat (length (pb_threads p)) ∧ pb_streams p ≤ MAX_STREAMS ∧
  ∀ i t, pb_threads p !! i = Some t →
    StronglySorted Z.lt (snapshots (st_out t)).*1 ∧
    (∀ n b, (n, b) ∈ snapshots (st_out t) → bodies evs !! Z.to_nat n = Some b) ∧
    (pb_closing p = false → ∀ now', ∃ t', pb_threads (wake_stream i now' true p) !! i = Some t' ∧
       last (snapshots (st_out t')) = Some (pb_seq p, pb_body p)).
Proof.
  intros p. pose proof (pub_run_ok now evs) as Hp. fold p in Hp. split; [apply Hp|]. split; [destruct Hp; lia|].
  intros i t Ht. assert (stream_ok (pb_seq p) evs t) as [H1 H2 H3 H4].
  { pose proof (po_threads _ _ Hp) as H. rewrite Forall_forall in H. apply H. by eapply list_elem_of_lookup_2. }
  split; [done|]. split; [intros n b Hin; by apply H2|]. intros Hc now'. unfold wake_stream. rewrite Ht, Hc. cbn [pb_threads].
  rewrite list_lookup_insert_eq by (by eapply lookup_lt_Some). eexists. split; [reflexivity|]. case_decide as Hs; cbn [st_out]; rewrite snapshots_snoc.
  - rewrite app_nil_r. assert (0 ≤ pb_seq p) as Hpos.
    { pose proof (po_seq _ _ Hp) as Hq. unfold bodies in Hq. cbn in Hq. lia. }
    destruct (last (snapshots (st_out t))) as [[n b]|] eqn:El; cbn in H3; [|lia]. apply last_Some in El as [l El].
    assert ((n, b) ∈ snapshots (st_out t)) as Hin by (rewrite El; set_solver). destruct (H2 n b Hin) as [_ Hb].
    assert (n = pb_seq p) as -> by lia. f_equal. f_equal. by eapply current_body.
  - by rewrite last_snoc.
Qed.

(** A step that leaves no stream: there was none and the time is kept, or the last
    one has just ended. *)
Lemma step_unwatched ev p : pb_threads (pub_step ev p) = [] →
  (pb_threads p = [] ∧ pb_last_stream_seen (pub_step ev p) = pb_last_stream_seen p) ∨
  ∃ i now ok, ev = Wakes i now ok ∧ pb_last_stream_seen (pub_step ev p) = now.
Proof.
  destruct ev as [b|now|i now ok|]; cbn [pub_step]; [by left| | |by left].
  - unfold open_stream. case_decide; [by left|]. cbn. by intros [_ ?]%app_eq_nil.
  - unfold wake_stream. destruct (pb_threads p !! i) as [t|] eqn:Ht; [|by left]. intros E. right. exists i, now, ok. split; [done|].
    destruct (pb_closing p); [done|]. destruct ok; [|done]. exfalso. cbn [pb_threads] in E. apply (f_equal length) in E. rewrite length_insert in E.
    apply lookup_lt_Some in Ht. cbn in E. lia.
Qed.

(** Since when there is no stream. *)
Lemma unwatched_since now evs : pb_threads (pub_run evs (new_publisher now)) = [] →
  ∃ before after, evs = before ++ after ∧
    (∀ l l', after = l ++ l' → pb_threads (pub_run (before ++ l) (new_publisher now)) = []) ∧
    let seen := pb_last_stream_seen (pub_run evs (new_publisher now)) in
    (before = [] ∧ seen = now ∨ ∃ l i ok, before = l ++ [Wakes i seen ok]).
Proof.
  induction evs as [|ev evs IH] using rev_ind; intros Hn.
  { exists [], []. split_and!; [done| |by left]. intros l l' [-> ->]%eq_sym%app_eq_nil. done. }
  assert (pub_run (evs ++ [ev]) (new_publisher now) = pub_step ev (pub_run evs (new_publisher now))) as E by (unfold pub_run; by rewrite foldl_snoc).
  rewrite E in *. destruct (step_unwatched _ _ Hn) as [[Hn' Hseen]|(i & t & ok & -> & Hseen)].
  - destruct (IH Hn') as (before & after & -> & Hno & Hs). exists before, (after ++ [ev]). split_and!; [by rewrite app_assoc| |by rewrite Hseen].
    intros l l' El. destruct l' as [|x l' _] using rev_ind.
    + rewrite app_nil_r in El. rewrite <- El, app_assoc, E. exact Hn.
    + rewrite app_assoc in El. apply app_inj_tail in El as [-> _]. by eapply Hno.
  - exists (evs ++ [Wakes i t ok]), []. split_and!; [by rewrite app_nil_r| |right; by exists evs, i, ok; rewrite Hseen].
    intros l l' [-> ->]%eq_sym%app_eq_nil. rewrite app_nil_r, E. exact Hn.
Qed.

(** The bridge pauses the load for want of a browser only if for more than ten
    seconds no stream has been open: none is open since the bridge started or since
    the last one ended, and that was more than ten seconds ago. *)
Theorem pause_only_unwatched t0 evs no_auto_pause now :
  suppress no_auto_pause now (pub_run evs (new_publisher t0)) = true →
  ∃ before after since, evs = before ++ after ∧ since + AUTO_PAUSE_AFTER_MS < now ∧
    (∀ l l', after = l ++ l' → pb_threads (pub_run (before ++ l) (new_publisher t0)) = []) ∧
    (before = [] ∧ since = t0 ∨ ∃ l i ok, before = l ++ [Wakes i since ok]).
Proof.
  intros [_ Hs%bool_decide_eq_true]%andb_prop. unfold seconds_without_streams, AUTO_PAUSE_AFTER_MS in *. pose proof (pub_run_ok t0 evs) as Hp.
  case_decide as Hn; [lia|]. destruct (unwatched_since t0 evs) as (before & after & E & Hno & Hseen).
  { rewrite (po_streams _ _ Hp) in Hn. apply length_zero_iff_nil. lia. }
  exists before, after, (pb_last_stream_seen (pub_run evs (new_publisher t0))). split_and!; [done|lia|done|exact Hseen].
Qed.
End Publisher.

(** ** Sample *)

(** A browser connects, is sent a snapshot and leaves. *)
Definition sample_watch : list (@pub_event nat) := [Open 100; Publish 7%nat; Wakes 0 250 true; Publish 8%nat; Wakes 0 400 false; Publish 9%nat].

Lemma pause_only_unwatched_witness :
  ∃ before after since, sample_watch = before ++ after ∧ since + AUTO_PAUSE_AFTER_MS < 10401 ∧
    (before = [] ∧ since = 0 ∨ ∃ l i ok, before = l ++ [Wakes i since ok]).
Proof.
  destruct (pause_only_unwatched 0%nat 0 sample_watch false 10401) as (before & after & since & E & Ht & _ & Hs).
  - by vm_compute.
  - exists before, after, since. split; [exact E|]. split; [exact Ht|exact Hs].
Defined.
