(* ===== verification/Windows.v ===== *)
(** * Rates and latencies

    src/bridge/windows.py and the histograms of src/bridge/livecommon.py: a process
    of the live mode records latencies in buckets and reports, four times a second,
    what it has recorded since its last report; the bridge keeps the sum of the
    reports of the last five seconds and reads percentiles off it.  Rates are taken
    over a window of one second of counters.

    The bucket of a latency, computed with logarithms, is an input, as are times and
    counters, which are integers here.

    - [latency_window_exact]: what the bridge sums up is what was recorded and
      reported within the window;
    - [percentile_exact]: the bucket reported for the median, the 95th or the 99th
      percentile is the right one, despite the rounding;
    - [rate_window_base]: what a rate is taken over, and that it is never
      negative. *)

From Stdlib Require Import Lia String.
From stdpp Require Import base numbers list strings sets sorting.
From S2P Require Import Prelude Double Net Hash Text Python LbMetrics.

Local Open Scope Z_scope.

(** ** Histograms *)

Definition HIST_BUCKETS : nat := 200.

(** A report: counts by the bucket's number, as text. *)
Definition report : Type := list (list Z * Z).

Record LogHistogram := { lh_counts : list Z; lh_delta : list (Z * Z) }.

Definition new_histogram : LogHistogram := {| lh_counts := replicate HIST_BUCKETS 0; lh_delta := [] |}.

(** [record] of a latency in bucket [i]. *)
Definition record_latency (i : Z) (h : LogHistogram) : LogHistogram :=
  {| lh_counts := alter (Z.add 1) (Z.to_nat i) (lh_counts h);
     lh_delta := dict_set (lh_delta h) i (default 0 (dict_get (lh_delta h) i) + 1) |}.

Definition take_delta (h : LogHistogram) : report * LogHistogram :=
  (dict_of ((λ '(k, v), (fmt_u k, v)) <$> lh_delta h), {| lh_counts := lh_counts h; lh_delta := [] |}).

(** What a process records before each of its reports, and when it reports. *)
Abbreviation batch := (Z * list Z)%type.

Section Windows.
Context {num : Numerals}.

Fixpoint merge_into (counts : list Z) (delta : report) : py (list Z) :=
  match delta with
  | [] => Ok counts
  | (k, v) :: delta =>
      match int k with
      | None => Raise ValueError
      | Some i =>
          merge_into (if decide (0 ≤ i < Z.of_nat HIST_BUCKETS) then alter (Z.add v) (Z.to_nat i) counts else counts) delta
      end
  end.

(** [counts[i] -= v]: a negative index counts from the end. *)
Definition subtract_at (counts : list Z) (i v : Z) : py (list Z) :=
  let j := if decide (i < 0) then i + Z.of_nat (length counts) else i in
  if decide (0 ≤ j < Z.of_nat (length counts)) then Ok (alter (λ c, c - v) (Z.to_nat j) counts) else Raise IndexError.

Fixpoint subtract (counts : list Z) (delta : report) : py (list Z) :=
  match delta with
  | [] => Ok counts
  | (k, v) :: delta =>
      match int k with
      | None => Raise ValueError
      | Some i => counts ← subtract_at counts i v; subtract counts delta
      end
  end.

(** ** The latencies of the last seconds *)

Record LatencyWindow := { lw_parts : list (Z * report); lw_counts : list Z }.

Definition new_latency_window : LatencyWindow := {| lw_parts := []; lw_counts := replicate HIST_BUCKETS 0 |}.

Fixpoint expire (cutoff : Z) (parts : list (Z * report)) (counts : list Z) : py LatencyWindow :=
  match parts with
  | (t, old) :: rest =>
      if decide (t < cutoff) then counts ← subtract counts old; expire cutoff rest counts
      else Ok {| lw_parts := parts; lw_counts := counts |}
  | [] => Ok {| lw_parts := []; lw_counts := counts |}
  end.

Definition latency_push (window t : Z) (delta : report) (w : LatencyWindow) : py LatencyWindow :=
  match delta with
  | [] => expire (t - window) (lw_parts w) (lw_counts w)
  | _ => counts ← merge_into (lw_counts w) delta; expire (t - window) (lw_parts w ++ [(t, delta)]) counts
  end.

(** *** Reports and windows *)

Definition send_report (b : batch) (h : LogHistogram) : report * LogHistogram := take_delta (foldl (λ h i, record_latency i h) h b.2).

(** The process and the bridge, report by report. *)
Fixpoint observe (window : Z) (l : list batch) (h : LogHistogram) (w : LatencyWindow) : py (LogHistogram * LatencyWindow) :=
  match l with
  | [] => Ok (h, w)
  | b :: l => let '(d, h) := send_report b h in w ← latency_push window b.1 d w; observe window l h w
  end.

Definition occurrences (i : Z) (l : list Z) : Z := Z.of_nat (length (filter (λ j, j = i) l)).

Definition bucket_ok (i : Z) : Prop := 0 ≤ i < Z.of_nat HIST_BUCKETS.

(** The entries of a report, before they are written as text. *)
Record delta_ok (d : list (Z * Z)) : Prop := { do_keys : NoDup (keys d); do_range : Forall bucket_ok (keys d) }.

Definition as_text (d : list (Z * Z)) : report := (λ '(k, v), (fmt_u k, v)) <$> d.

Definition at_bucket (d : list (Z * Z)) (i : Z) : Z := default 0 (dict_get d i).

(** All buckets at once. *)
Definition shift (f : Z → Z) (counts : list Z) : list Z := imap (λ i c, c + f (Z.of_nat i)) counts.

Lemma shift_shift f g counts : shift f (shift g counts) = shift (λ i, g i + f i) counts.
Proof. unfold shift. apply list_eq. intros i. rewrite !list_lookup_imap. destruct (counts !! i); cbn; [f_equal; lia|done]. Qed.

Lemma shift_ext f g counts : (∀ i, f i = g i) → shift f counts = shift g counts.
Proof. intros H. unfold shift. apply imap_ext. intros i c _. by rewrite H. Qed.

Lemma shift_0 f counts : (∀ i, f i = 0) → shift f counts = counts.
Proof.
  intros H. unfold shift. apply list_eq. intros i. rewrite list_lookup_imap. destruct (counts !! i); cbn; [rewrite H; f_equal; lia|done].
Qed.

Lemma length_shift f counts : length (shift f counts) = length counts.
Proof. apply length_imap. Qed.

(** One entry after the other. *)
Lemma shift_alter (v i : Z) counts : bucket_ok i →
  alter (λ c, c + v) (Z.to_nat i) counts = shift (λ j, if decide (j = i) then v else 0) counts.
Proof.
  intros Hi. unfold shift. apply list_eq. intros j. rewrite list_lookup_imap. unfold bucket_ok in Hi.
  rewrite list_lookup_alter. destruct (decide (Z.to_nat i = j)) as [<-|Hne].
  - destruct (counts !! Z.to_nat i); cbn; [|done]. by rewrite decide_True by lia.
  - destruct (counts !! j); cbn; [|done]. rewrite decide_False by lia. f_equal. lia.
Qed.

Lemma at_bucket_cons k v d i : delta_ok ((k, v) :: d) →
  at_bucket ((k, v) :: d) i = (if decide (i = k) then v else 0) + at_bucket d i.
Proof.
  intros [Hk _]. unfold at_bucket. cbn [dict_get]. case_decide as E; [|lia]. subst i.
  apply NoDup_cons in Hk as [Hk _]. rewrite (proj2 (dict_get_None d k) Hk). cbn. lia.
Qed.

Lemma delta_ok_cons k v d : delta_ok ((k, v) :: d) → bucket_ok k ∧ delta_ok d.
Proof. intros [Hk Hr]. apply NoDup_cons in Hk as [_ Hk]. apply Forall_cons in Hr as [? Hr]. by split. Qed.

Lemma merge_into_text d : ∀ counts, delta_ok d → merge_into counts (as_text d) = Ok (shift (at_bucket d) counts).
Proof.
  induction d as [|[k v] d IH]; intros counts Hd; [cbn; by rewrite shift_0|].
  destruct (delta_ok_cons _ _ _ Hd) as [Hk Hd']. cbn [as_text fmap list_fmap merge_into].
  rewrite int_fmt_u by (unfold bucket_ok, HIST_BUCKETS in Hk; lia). rewrite decide_True by done.
  fold (as_text d). rewrite IH by done. f_equal.
  assert (alter (Z.add v) (Z.to_nat k) counts = alter (λ c, c + v) (Z.to_nat k) counts) as ->
    by (apply list_alter_ext; [intros; cbv beta; lia|done]).
  rewrite shift_alter, shift_shift by done. apply shift_ext. intros i. by rewrite at_bucket_cons.
Qed.

Lemma subtract_text d : ∀ counts, length counts = HIST_BUCKETS → delta_ok d →
  subtract counts (as_text d) = Ok (shift (λ i, - at_bucket d i) counts).
Proof.
  induction d as [|[k v] d IH]; intros counts Hl Hd; [cbn; by rewrite shift_0|].
  destruct (delta_ok_cons _ _ _ Hd) as [Hk Hd']. cbn [as_text fmap list_fmap subtract].
  rewrite int_fmt_u by (unfold bucket_ok, HIST_BUCKETS in Hk; lia). unfold subtract_at. unfold bucket_ok in Hk.
  rewrite (decide_False (P := k < 0)), decide_True by lia. cbn [mbind py_bind]. fold (as_text d).
  rewrite IH by (done || by rewrite length_alter). f_equal.
  assert (alter (λ c, c - v) (Z.to_nat k) counts = alter (λ c, c + - v) (Z.to_nat k) counts) as ->
    by (apply list_alter_ext; [intros; cbv beta; lia|done]).
  rewrite shift_alter, shift_shift by done. apply shift_ext. intros i. rewrite at_bucket_cons by done. case_decide; lia.
Qed.

(** What a process has recorded since its last report. *)
Definition delta_of (ds : list Z) : list (Z * Z) := foldl (λ d i, dict_set d i (at_bucket d i + 1)) [] ds.

Lemma delta_of_snoc ds i : delta_of (ds ++ [i]) = dict_set (delta_of ds) i (at_bucket (delta_of ds) i + 1).
Proof. unfold delta_of. by rewrite foldl_app. Qed.

Lemma occurrences_app i l l' : occurrences i (l ++ l') = occurrences i l + occurrences i l'.
Proof. unfold occurrences. rewrite filter_app, length_app. lia. Qed.

Lemma delta_of_spec ds : Forall bucket_ok ds → delta_ok (delta_of ds) ∧ (∀ i, at_bucket (delta_of ds) i = occurrences i ds).
Proof.
  induction ds as [|j ds IH] using rev_ind; intros Hds; [by split; [split; constructor|]|].
  apply Forall_app in Hds as [Hds Hj]. rewrite Forall_singleton in Hj. destruct (IH Hds) as [[Hk Hr] Hat]. rewrite delta_of_snoc. split.
  - split; [by apply NoDup_keys_set|]. apply Forall_forall. intros k [->|Hin]%elem_of_keys_set; [done|]. rewrite Forall_forall in Hr. auto.
  - intros i. rewrite occurrences_app, <- Hat. unfold at_bucket at 1. rewrite dict_get_set. unfold occurrences. rewrite filter_cons.
    destruct (decide (i = j)) as [->|Hne]; [rewrite decide_True by done; cbn; lia|]. rewrite decide_False by done. cbn. unfold at_bucket. lia.
Qed.

Lemma delta_of_nonempty ds : ds ≠ [] → delta_of ds ≠ [].
Proof.
  destruct ds as [|j ds _] using rev_ind; [done|]. intros _. rewrite delta_of_snoc. intros E.
  assert (j ∈ keys (dict_set (delta_of ds) j (at_bucket (delta_of ds) j + 1))) as Hj by (apply elem_of_keys_set; by left).
  rewrite E in Hj. by apply not_elem_of_nil in Hj.
Qed.

Lemma fmt_u_inj_on d : Forall bucket_ok (keys d) → NoDup (keys d) → NoDup (as_text d).*1.
Proof.
  intros Hr Hd. unfold as_text. rewrite <- list_fmap_compose.
  assert ((fst ∘ (λ '(k, v), (fmt_u k, v))) <$> d = fmt_u <$> keys d) as ->.
  { unfold keys. rewrite <- list_fmap_compose. apply list_fmap_ext. by intros ? [] _. }
  apply NoDup_fmap_2_strong; [|done]. intros i j Hi Hj E. rewrite Forall_forall in Hr. apply Hr in Hi, Hj.
  unfold bucket_ok, HIST_BUCKETS in *. pose proof (int_fmt_u i ltac:(lia)) as H. rewrite E, int_fmt_u in H by lia. by injection H.
Qed.

Lemma send_report_spec b h : lh_delta h = [] → Forall bucket_ok b.2 →
  ∃ h', send_report b h = (as_text (delta_of b.2), h') ∧ lh_delta h' = [].
Proof.
  intros Hh Hb. unfold send_report, take_delta.
  assert (lh_delta (foldl (λ h i, record_latency i h) h b.2) = delta_of b.2) as ->.
  { destruct b as [t ds]. cbn [snd]. clear Hb. induction ds as [|i ds IH] using rev_ind; [done|].
    rewrite foldl_app, delta_of_snoc. cbn [foldl record_latency lh_delta]. by rewrite IH. }
  destruct (delta_of_spec _ Hb) as [[Hk Hr] _]. rewrite dict_of_NoDup by (by apply fmt_u_inj_on).
  by eexists.
Qed.

(** The window that holds the batches [kept]. *)
Definition window_of (kept : list batch) : LatencyWindow :=
  {| lw_parts := (λ b, (b.1, as_text (delta_of b.2))) <$> filter (λ b, b.2 ≠ []) kept;
     lw_counts := shift (λ i, occurrences i (concat kept.*2)) (replicate HIST_BUCKETS 0) |}.

Definition recent (cutoff : Z) (l : list batch) : list batch := filter (λ b, cutoff ≤ b.1) l.

Lemma recent_Forall cutoff l : Forall (λ b, cutoff ≤ b.1) l → recent cutoff l = l.
Proof.
  induction 1 as [|b l Hb _ IH]; [done|]. unfold recent in *. rewrite filter_cons, decide_True by done. f_equal. exact IH.
Qed.

(** The reports arrive in the order of their times. *)
Definition in_order : list batch → Prop := StronglySorted (λ b b', b.1 ≤ b'.1).

Lemma recent_all cutoff b l : in_order (b :: l) → cutoff ≤ b.1 → recent cutoff (b :: l) = b :: l.
Proof.
  intros [Hs _]%StronglySorted_cons Hb. apply recent_Forall. constructor; [done|]. eapply Forall_impl; [exact Hs|]. intros b'. cbn. lia.
Qed.

Lemma in_order_recent cutoff l : in_order l → in_order (recent cutoff l).
Proof.
  unfold in_order, recent. induction 1 as [|b l _ IH Hb]; [constructor|]. rewrite filter_cons. case_decide; [|done].
  constructor; [done|]. apply Forall_forall. intros b' [_ Hin]%list_elem_of_filter. rewrite Forall_forall in Hb. auto.
Qed.

Lemma zeros_length f : length (shift f (replicate HIST_BUCKETS 0)) = HIST_BUCKETS.
Proof. by rewrite length_shift, length_replicate. Qed.

Lemma expire_window cutoff kept :
  in_order kept → Forall (λ b, Forall bucket_ok b.2) kept →
  expire cutoff (lw_parts (window_of kept)) (lw_counts (window_of kept)) = Ok (window_of (recent cutoff kept)).
Proof.
  induction kept as [|[t ds] kept IH]; intros Hs Hk; [done|]. apply Forall_cons in Hk as [Hds Hk]. cbn [snd] in Hds.
  assert (in_order kept) as Hs' by (by apply StronglySorted_cons in Hs as [_ ?]).
  destruct (decide (ds = [])) as [->|Hne].
  { specialize (IH Hs' Hk). unfold recent. rewrite filter_cons. unfold window_of in *. cbn [lw_parts lw_counts] in *.
    rewrite filter_cons, decide_False by auto. cbn [fmap list_fmap concat snd app]. unfold recent in IH. etrans; [exact IH|]. f_equal.
    case_decide; [|done]. rewrite filter_cons, decide_False by auto. done. }
  destruct (decide (cutoff ≤ t)) as [Hc|Hc].
  { rewrite recent_all by done. unfold window_of. cbn [lw_parts lw_counts]. rewrite filter_cons, decide_True by done.
    cbn [fmap list_fmap expire fst]. by rewrite decide_False by lia. }
  unfold recent. rewrite filter_cons, decide_False by done. fold (recent cutoff kept). rewrite <- (IH Hs' Hk).
  unfold window_of. cbn [lw_parts lw_counts]. rewrite filter_cons, decide_True by done. cbn [fmap list_fmap expire fst snd].
  rewrite decide_True by lia. destruct (delta_of_spec ds Hds) as [Hd Hat]. rewrite subtract_text by (done || apply zeros_length).
  cbn [mbind py_bind]. f_equal. rewrite shift_shift. apply shift_ext. intros i. cbn [concat]. rewrite occurrences_app, Hat. lia.
Qed.

Lemma latency_push_window window kept b :
  in_order (kept ++ [b]) → Forall (λ b, Forall bucket_ok b.2) (kept ++ [b]) →
  latency_push window b.1 (as_text (delta_of b.2)) (window_of kept) = Ok (window_of (recent (b.1 - window) (kept ++ [b]))).
Proof.
  intros Hs Hk. rewrite <- expire_window by done. destruct b as [t ds]. cbn [fst snd].
  apply Forall_app in Hk as [Hk Hds]. rewrite Forall_singleton in Hds. cbn [snd] in Hds. destruct (delta_of_spec ds Hds) as [Hd Hat].
  unfold window_of. cbn [lw_parts lw_counts]. rewrite filter_app, !fmap_app, concat_app, filter_cons. cbn [snd fmap list_fmap concat app].
  unfold latency_push. cbn [lw_parts lw_counts]. destruct (decide (ds = [])) as [->|Hne].
  - rewrite decide_False by auto. cbn [delta_of foldl as_text fmap list_fmap app]. rewrite !app_nil_r. done.
  - rewrite decide_True by done. pose proof (delta_of_nonempty ds Hne). rewrite merge_into_text by done.
    rewrite filter_nil. cbn [fmap list_fmap fst snd]. rewrite app_nil_r.
    destruct (as_text (delta_of ds)) as [|x d] eqn:E; [by destruct (delta_of ds)|]. cbn [mbind py_bind]. f_equal. rewrite shift_shift. apply shift_ext. intros i. by rewrite occurrences_app, Hat.
Qed.

Lemma recent_recent c c' l l' : c ≤ c' → recent c' (recent c l ++ l') = recent c' (l ++ l').
Proof.
  intros Hc. unfold recent. rewrite !filter_app. f_equal. rewrite list_filter_filter. apply list_filter_iff. intros b. lia.
Qed.

Lemma observe_window window l : ∀ h c kept,
  lh_delta h = [] → in_order (kept ++ l) → Forall (λ b, Forall bucket_ok b.2) (kept ++ l) →
  (∀ b, b ∈ l → c ≤ b.1 - window) →
  ∃ h', observe window l h (window_of (recent c kept)) =
    Ok (h', window_of (recent (from_option (λ b : batch, b.1 - window) c (last l)) (kept ++ l))).
Proof.
  induction l as [|b l IH]; intros h c kept Hh Hs Hk Hc; [exists h; by rewrite app_nil_r|].
  cbn [observe]. destruct (send_report_spec b h Hh) as (h1 & -> & Hh1).
  { apply Forall_app in Hk as [_ [? _]%Forall_cons]. done. }
  rewrite cons_middle, app_assoc in Hs, Hk. assert (c ≤ b.1 - window) as Hcb by (apply Hc; left).
  rewrite latency_push_window.
  - cbn [mbind py_bind]. rewrite recent_recent by done. destruct (IH h1 (b.1 - window) (kept ++ [b])) as [h' E]; [done..| |].
    + intros b' Hb'. apply StronglySorted_app in Hs as (Hs & _). specialize (Hs b b'). cbv beta in Hs. enough (b.1 ≤ b'.1) by lia. apply Hs; [set_solver|done].
    + exists h'. rewrite E. f_equal. f_equal. f_equal. rewrite <- app_assoc. cbn [app]. f_equal. destruct l as [|b' l]; [done|].
      change (last (b :: b' :: l)) with (last (b' :: l)). destruct (last (b' :: l)) eqn:El; [done|]. by apply last_None in El.
  - apply StronglySorted_app in Hs as (Hx & Hs & _). apply StronglySorted_app in Hs as (Hy & Hs & Hz). apply StronglySorted_app_2; [|by apply in_order_recent|done].
    intros x y [_ Hin]%list_elem_of_filter. by apply Hy.
  - apply Forall_app in Hk as [Hk _]. apply Forall_app in Hk as [Hk Hb]. apply Forall_app. split; [|done].
    apply Forall_forall. intros x [_ Hin]%list_elem_of_filter. rewrite Forall_forall in Hk. auto.
Qed.

(** C34. Whatever a process records between its reports, the bridge takes the
    reports without an exception, and once one has arrived each bucket of the window
    counts exactly the latencies of the reports of the last [window] milliseconds. *)
Theorem latency_window_exact window l b :
  in_order (l ++ [b]) → Forall (λ b, Forall bucket_ok b.2) (l ++ [b]) →
  ∃ h w, observe window (l ++ [b]) new_histogram new_latency_window = Ok (h, w) ∧
    ∀ i, bucket_ok i →
      lw_counts w !! Z.to_nat i = Some (occurrences i (concat (filter (λ b', b.1 - window ≤ b'.1) (l ++ [b])).*2)).
Proof.
  intros Hs Hk. assert (∃ c, ∀ b', b' ∈ l ++ [b] → c ≤ b'.1 - window) as [c Hc].
  { destruct (l ++ [b]) as [|b0 l0]; [exists 0; by intros ? ?%not_elem_of_nil|]. exists (b0.1 - window).
    apply StronglySorted_cons in Hs as [Hs _]. rewrite Forall_forall in Hs. intros b' [->|Hin]%elem_of_cons; [lia|]. specialize (Hs b' Hin). cbv beta in Hs. lia. }
  destruct (observe_window window (l ++ [b]) new_histogram c []) as [h E]; [done..|]. rewrite last_snoc in E. cbn [app from_option] in E.
  assert (window_of (recent c []) = new_latency_window) as Ew by (unfold window_of; by rewrite shift_0).
  rewrite Ew in E. eexists _, _. split; [exact E|]. intros i Hi. unfold window_of. cbn [lw_counts]. unfold shift, bucket_ok in *.
  rewrite list_lookup_imap, lookup_replicate_2 by lia. cbn. by rewrite Z2Nat.id by lia.
Qed.
End Windows.

(** ** Percentiles *)

Definition sum_of (l : list Z) : Z := foldr Z.add 0 l.

(** [n >= a] *)
Definition at_least (n : Z) (a : double) : bool := bool_decide (a.1 * 2 ^ Z.max 0 a.2 ≤ n * 2 ^ Z.max 0 (- a.2)).

Fixpoint percentile_from (target : double) (i : nat) (seen : Z) (counts : list Z) : option nat :=
  match counts with
  | [] => None
  | c :: counts =>
      let seen := seen + c in
      if at_least seen target && bool_decide (0 < c) then Some i else percentile_from target (S i) seen counts
  end.

(** The bucket whose midpoint [percentile] returns. *)
Definition percentile (counts : list Z) (q : double) : option nat :=
  let total := sum_of counts in
  if decide (total = 0) then None
  else Some (default (HIST_BUCKETS - 1)%nat (percentile_from (double_mul q (double_of total)) 0 0 counts)).

(** The literals 0.5, 0.95 and 0.99. *)
Definition percent (p : Z) : double := double_quot p 100.

(** *** The rounded target *)

Lemma round_half_even_le num den k : 0 < den → num ≤ k * den → round_half_even num den ≤ k.
Proof.
  intros Hd H. unfold round_half_even. pose proof (Z.div_mod num den ltac:(lia)) as E. pose proof (Z.mod_pos_bound num den Hd).
  set (q := num / den) in *. set (r := num mod den) in *. assert (q < k ∨ q = k ∧ r = 0) as [Hq|[Hq Hr]] by nia.
  - repeat case_decide; try destruct (Z.even q); lia.
  - rewrite decide_True by lia. lia.
Qed.

Lemma round_half_even_scale num den c : 0 < den → 0 < c → round_half_even (num * c) (den * c) = round_half_even num den.
Proof.
  intros Hd Hc. unfold round_half_even. rewrite Z.div_mul_cancel_r, Zmult_mod_distr_r by lia.
  repeat case_decide; (done || nia).
Qed.

(** A product of a fraction and an integer. *)
Lemma double_mul_fraction m T : 2 ^ 52 ≤ m < 2 ^ 53 → 0 < T < 2 ^ 40 →
  let e := Z.log2 (m * T) - 52 in
  0 ≤ e ≤ 41 ∧ 2 ^ (e + 52) ≤ m * T ∧ double_mul (m, -53) (double_of T) = (round_half_even (m * T) (2 ^ e), e - 53).
Proof.
  intros Hm HT e. assert (2 ^ 52 ≤ m * T < 2 ^ 93) as HP by nia.
  assert (52 ≤ Z.log2 (m * T) ≤ 92) as Hl.
  { split; [apply Z.log2_le_pow2; lia|]. pose proof (proj1 (Z.log2_lt_pow2 (m * T) 93 ltac:(lia)) ltac:(lia)). lia. }
  pose proof (Z.log2_spec (m * T) ltac:(lia)) as [Hs _]. split; [lia|]. split; [by replace (e + 52) with (Z.log2 (m * T)) by lia|].
  pose proof (log2_range T 40 HT ltac:(lia)) as HlT. rewrite double_of_exact by lia. unfold double_mul, double_quot. cbn [fst snd].
  set (k := 52 - Z.log2 T). rewrite Z.mul_assoc, Z.log2_mul_pow2 by lia. change (Z.log2 1) with 0.
  replace (k + Z.log2 (m * T) - 0 - 52) with (e + k) by lia. rewrite (Z.max_l 0 (- (e + k))), (Z.max_r 0 (e + k)) by lia.
  rewrite Z.pow_0_r, Z.mul_1_r, Z.mul_1_l.
  assert (0 < 2 ^ k) by (apply Z.pow_pos_nonneg; lia). assert (0 < 2 ^ e) by (apply Z.pow_pos_nonneg; lia).
  rewrite decide_False.
  2:{ rewrite Z.pow_add_r by lia. replace (Z.log2 (m * T)) with (52 + e) in Hs by lia. rewrite Z.pow_add_r in Hs by lia. nia. }
  unfold scaled_quot. rewrite (Z.max_l 0 (- (e + k))), (Z.max_r 0 (e + k)), Z.pow_0_r, Z.mul_1_r, Z.mul_1_l, Z.pow_add_r by lia.
  rewrite round_half_even_scale by lia. f_equal. lia.
Qed.

(** Rounding does not change which sums reach the target. *)
Lemma target_exact p eps m T s :
  2 ^ 52 ≤ m < 2 ^ 53 → 100 * m = p * 2 ^ 53 - eps → 0 ≤ eps ≤ 100 → 0 < T < 2 ^ 40 →
  at_least s (double_mul (m, -53) (double_of T)) = true ↔ p * T ≤ 100 * s.
Proof.
  intros Hm Hp Heps HT. destruct (double_mul_fraction m T Hm HT) as (He & Hlow & ->). set (e := Z.log2 (m * T) - 52) in *.
  unfold at_least. rewrite bool_decide_eq_true. cbn [fst snd]. rewrite (Z.max_l 0 (e - 53)), (Z.max_r 0 (- (e - 53))), Z.pow_0_r, Z.mul_1_r by lia.
  assert (0 < 2 ^ e) as Hpe by (apply Z.pow_pos_nonneg; lia).
  assert (s * 2 ^ (- (e - 53)) * 2 ^ e = s * 2 ^ 53) as E by (rewrite <- Z.mul_assoc, <- Z.pow_add_r by lia; do 2 f_equal; lia).
  split.
  - intros H. destruct (decide (p * T ≤ 100 * s)) as [|Hn]; [done|exfalso].
    pose proof (round_half_even_near (m * T) (2 ^ e) Hpe) as Hr. rewrite Z.pow_add_r in Hlow by lia. nia.
  - intros H. apply round_half_even_le; [done|]. rewrite E. nia.
Qed.

Lemma percentile_from_spec target goal counts : ∀ i seen,
  (∀ s, at_least s target = true ↔ goal ≤ 100 * s) → 100 * seen < goal ≤ 100 * (seen + sum_of counts) →
  ∃ j c, percentile_from target i seen counts = Some (i + j)%nat ∧ counts !! j = Some c ∧ 0 < c ∧
    100 * (seen + sum_of (take j counts)) < goal ≤ 100 * (seen + sum_of (take (S j) counts)).
Proof.
  induction counts as [|c counts IH]; intros i seen Ht Hg; [cbn in Hg; lia|]. cbn [percentile_from sum_of foldr] in *. fold (sum_of counts) in Hg.
  destruct (decide (goal ≤ 100 * (seen + c))) as [Hr|Hr].
  - rewrite (proj2 (Ht (seen + c)) Hr), bool_decide_true by lia. exists 0%nat, c. rewrite Nat.add_0_r.
    unfold sum_of. cbn [firstn foldr]. rewrite firstn_0. cbn [foldr]. split_and!; (done || lia).
  - destruct (at_least (seen + c) target) eqn:E; [by apply Ht in E|]. cbn [andb].
    destruct (IH (S i) (seen + c) Ht) as (j & c' & Hj & Hc & Hpos & Hlo & Hhi); [lia|].
    exists (S j), c'. rewrite Hj. replace (S i + j)%nat with (i + S j)%nat by lia. unfold sum_of in *. rewrite !firstn_cons. cbn [foldr]. split_and!; (done || lia).
Qed.

(** The percentile the bridge reports lies in the right bucket: fewer than [p]
    percent of the latencies are in the buckets below it, at least [p] percent in
    these and in it, and it is not empty.  The rounding of the target plays no
    part. *)
Theorem percentile_exact p counts :
  p ∈ [50; 95; 99] → 0 < sum_of counts < 2 ^ 40 →
  ∃ i c, percentile counts (percent p) = Some i ∧ counts !! i = Some c ∧ 0 < c ∧
    100 * sum_of (take i counts) < p * sum_of counts ≤ 100 * sum_of (take (S i) counts).
Proof.
  intros Hp Ht. assert (∃ m eps, percent p = (m, -53) ∧ 2 ^ 52 ≤ m < 2 ^ 53 ∧ 100 * m = p * 2 ^ 53 - eps ∧ 0 ≤ eps ≤ 100 ∧ 0 < p ≤ 100)
    as (m & eps & Eq & Hm & He & Heps & Hp').
  { apply elem_of_cons in Hp as [->|Hp]; [exists (2 ^ 52), 0; split; [by vm_compute|lia]|].
    apply elem_of_cons in Hp as [->|Hp]; [exists 8556839292003942, 40; split; [by vm_compute|lia]|].
    rewrite list_elem_of_singleton in Hp. subst p. exists 8917127262193582, 8. split; [by vm_compute|lia]. }
  unfold percentile. rewrite decide_False by lia. rewrite Eq.
  destruct (percentile_from_spec (double_mul (m, -53) (double_of (sum_of counts))) (p * sum_of counts) counts 0 0) as (j & c & -> & Hc & Hpos & Hj).
  - intros s. by eapply target_exact.
  - nia.
  - exists j, c. by rewrite !Z.add_0_l in Hj.
Qed.

(** ** Rates *)

Abbreviation sample := (Z * dict Z)%type.

Definition counter (c : dict Z) (key : string) : Z := default 0 (dict_get c key).

(** A counter has gone backwards. *)
Definition backwards (last counters : dict Z) : bool := existsb (λ '(k, v), bool_decide (counter counters k < v)) last.

(** [while len(samples) > 2 and samples[1][0] <= cutoff: samples.popleft()] *)
Fixpoint trim (cutoff : Z) (l : list sample) : list sample :=
  match l with
  | _ :: (b :: _ :: _) as rest => if decide (b.1 ≤ cutoff) then trim cutoff rest else l
  | _ => l
  end.

Definition rate_push (window : Z) (l : list sample) (s : sample) : list sample :=
  let l := match last l with Some s' => if backwards s'.2 s.2 then [] else l | None => l end in
  trim (s.1 - window) (l ++ [s]).

(** The difference and the time [rate] divides it by; [None] where it gives zero. *)
Definition rate (key : string) (l : list sample) : option (Z * Z) :=
  match l, last l with
  | s0 :: _ :: _, Some s1 =>
      let dt := s1.1 - s0.1 in
      if decide (dt ≤ 0) then None else Some (counter s1.2 key - counter s0.2 key, dt)
  | _, _ => None
  end.

(** *** The samples kept *)

Definition sample_ok (s : sample) : Prop := NoDup (keys s.2) ∧ Forall (λ kv, 0 ≤ kv.2) s.2.

Definition samples_ok (l : list sample) : Prop := Forall sample_ok l ∧ StronglySorted (λ s s', s.1 ≤ s'.1) l.

(** What [samples] is after the samples [l] have been pushed. *)
Record keeps (window : Z) (l samples : list sample) : Prop := {
  kp_suffix : ∃ pre, l = pre ++ samples ∧
    (∀ s s0, last pre = Some s → head samples = Some s0 → backwards s.2 s0.2 = true ∨ ∀ s1, last l = Some s1 → s0.1 ≤ s1.1 - window);
  kp_last : last samples = last l;
  kp_middle : ∀ i s s1, samples !! S i = Some s → (S (S i) < length samples)%nat → last l = Some s1 → s1.1 - window < s.1;
  kp_grow : ∀ i s s', samples !! i = Some s → samples !! S i = Some s' → backwards s.2 s'.2 = false;
}.

Lemma trim_cons cutoff a b c l : trim cutoff (a :: b :: c :: l) = if decide (b.1 ≤ cutoff) then trim cutoff (b :: c :: l) else a :: b :: c :: l.
Proof. done. Qed.

Lemma trim_suffix cutoff l : ∃ pre, l = pre ++ trim cutoff l ∧ last (trim cutoff l) = last l ∧
  (pre ≠ [] → ∀ s0, head (trim cutoff l) = Some s0 → s0.1 ≤ cutoff).
Proof.
  induction l as [|a l IH]; [by exists []|]. destruct l as [|b [|c l]]; [by exists []..|]. rewrite trim_cons. case_decide as Hb; [|by exists []].
  destruct IH as (pre & E & Hlast & Hpre). exists (a :: pre). split; [cbn; by f_equal|]. split; [exact Hlast|].
  intros _ s0 Hs0. destruct pre as [|p pre]; [|by apply Hpre]. cbn [app] in E. rewrite <- E in Hs0. by injection Hs0 as <-.
Qed.

Lemma trim_middle cutoff l : StronglySorted (λ s s', s.1 ≤ s'.1) l →
  ∀ i s, trim cutoff l !! S i = Some s → (S (S i) < length (trim cutoff l))%nat → cutoff < s.1.
Proof.
  induction l as [|a l IH]; intros Hs i s; [done|]. apply StronglySorted_cons in Hs as [Ha Hs].
  destruct l as [|b [|c l]]; [cbn; lia..|]. rewrite trim_cons. case_decide as Hb; [by apply IH|].
  intros Hi _. cbn in Hi. apply StronglySorted_cons in Hs as [Hbs _]. destruct i as [|i]; [injection Hi as <-; lia|].
  cbn in Hi. rewrite Forall_forall in Hbs. specialize (Hbs s (list_elem_of_lookup_2 _ _ _ Hi)). cbv beta in Hbs. lia.
Qed.

Lemma keeps_restart window l (s s' : sample) : last l = Some s' → backwards s'.2 s.2 = true → keeps window (l ++ [s]) [s].
Proof.
  intros Hl Hb. split.
  - exists l. split; [done|]. intros x s0 Hx [= <-]. left. congruence.
  - by rewrite last_snoc.
  - cbn. lia.
  - intros [|i] x x' _; cbn; done.
Qed.

(** The last sample joins the others. *)
Lemma grow_snoc samples (s : sample) :
  (∀ i (s s' : sample), samples !! i = Some s → samples !! S i = Some s' → backwards s.2 s'.2 = false) →
  (∀ s' : sample, last samples = Some s' → backwards s'.2 s.2 = false) →
  ∀ i (x x' : sample), (samples ++ [s]) !! i = Some x → (samples ++ [s]) !! S i = Some x' → backwards x.2 x'.2 = false.
Proof.
  intros Hgrow Hs i x x' Hx Hx'. destruct (decide (S i < length samples)%nat) as [Hi|Hi].
  - rewrite lookup_app_l in Hx, Hx' by lia. eauto.
  - assert (S i = length samples) as Hl.
    { apply lookup_lt_Some in Hx'. rewrite length_app in Hx'. cbn in Hx'. lia. }
    rewrite lookup_app_l in Hx by lia. rewrite Hl, list_lookup_middle in Hx' by done. injection Hx' as <-. apply Hs.
    rewrite last_lookup, <- Hl. done.
Qed.

Lemma keeps_push window l samples (s : sample) :
  samples_ok (l ++ [s]) → keeps window l samples → keeps window (l ++ [s]) (rate_push window samples s).
Proof.
  intros [_ Hsort] [(pre & E & Hpre) Hlast Hmid Hgrow].
  assert ((∃ s' : sample, last l = Some s' ∧ backwards s'.2 s.2 = true ∧ rate_push window samples s = [s]) ∨
    (∀ s' : sample, last samples = Some s' → backwards s'.2 s.2 = false) ∧ rate_push window samples s = trim (s.1 - window) (samples ++ [s]))
    as [(s' & Hl & Hb & ->)|[Hnb ->]].
  { unfold rate_push. destruct (last samples) as [s'|] eqn:Hls; [|right; split; [done|done]].
    destruct (backwards s'.2 s.2) eqn:Hb; [left; by exists s'|right; split; [by intros ? [= <-]|done]]. }
  { by eapply keeps_restart. }
  destruct (trim_suffix (s.1 - window) (samples ++ [s])) as (p & Ep & Hlt & Hp). split.
  - exists (pre ++ p). split; [by rewrite E, <- !app_assoc, Ep at 1|]. intros x s0 Hx Hs0. destruct p as [|y p].
    + rewrite app_nil_r in Hx. cbn [app] in Ep. rewrite <- Ep in Hs0. destruct samples as [|z samples].
      { cbn in Hlast. symmetry in Hlast. apply last_None in Hlast. rewrite app_nil_r in E. rewrite <- E, Hlast in Hx. done. }
      injection Hs0 as <-. destruct (Hpre x z Hx eq_refl) as [|Hold]; [by left|right]. intros s1. rewrite last_snoc. intros [= <-].
      destruct (last l) as [s'|] eqn:Hl; [|by rewrite E in Hl; apply last_None, app_eq_nil in Hl as [_ ?]].
      specialize (Hold s' eq_refl). apply last_Some in Hl as [l' ->]. apply StronglySorted_app in Hsort as (Hsort & _).
      specialize (Hsort s' s). cbv beta in Hsort. enough (s'.1 ≤ s.1) by lia. apply Hsort; set_solver.
    + right. intros s1. rewrite last_snoc. intros [= <-]. by apply Hp.
  - by rewrite Hlt, !last_snoc.
  - intros i x s1 Hx Hi. rewrite last_snoc. intros [= <-]. eapply trim_middle; [|exact Hx|exact Hi].
    rewrite E, <- app_assoc in Hsort. by apply StronglySorted_app_1_r in Hsort.
  - intros i x x' Hx Hx'. apply (grow_snoc samples s Hgrow Hnb (length p + i)); rewrite Ep, lookup_app_r by lia.
    + by replace (length p + i - length p)%nat with i by lia.
    + by replace (S (length p + i) - length p)%nat with (S i) by lia.
Qed.

Lemma counter_grows (s s' : sample) key : sample_ok s → sample_ok s' → backwards s.2 s'.2 = false → counter s.2 key ≤ counter s'.2 key.
Proof.
  intros [Hk _] [_ Hpos] Hb. unfold counter at 1. destruct (dict_get s.2 key) as [v|] eqn:E; cbn [default].
  - apply elem_of_dict in E; [|done]. unfold backwards in Hb. destruct (decide (v ≤ counter s'.2 key)) as [|Hv]; [done|].
    assert (existsb (λ '(k, v), bool_decide (counter s'.2 k < v)) s.2 = true) as Ht; [|congruence].
    apply existsb_exists. exists (key, v). split; [by apply list_elem_of_In|]. apply bool_decide_eq_true. lia.
  - unfold counter. destruct (dict_get s'.2 key) as [v|] eqn:E'; cbn; [|lia].
    assert ((key, v) ∈ s'.2) as Hin.
    { clear -E'. induction s'.2 as [|[k w] d IH]; cbn in E'; [done|]. case_decide; [injection E' as <-; subst; left|right; auto]. }
    rewrite Forall_forall in Hpos. apply (Hpos (key, v) Hin).
Qed.

Lemma counters_grow l key : Forall sample_ok l →
  (∀ i (s s' : sample), l !! i = Some s → l !! S i = Some s' → backwards s.2 s'.2 = false) →
  ∀ s0 s1, head l = Some s0 → last l = Some s1 → counter s0.2 key ≤ counter s1.2 key.
Proof.
  intros Hok. induction Hok as [|a l Ha Hl IH]; intros Hg s0 s1; [done|]. intros [= <-]. destruct l as [|b l]; [intros [= <-]; lia|].
  change (last (a :: b :: l)) with (last (b :: l)). intros Hlast. etrans.
  - apply counter_grows; [done| |exact (Hg 0%nat a b eq_refl eq_refl)]. by apply Forall_cons in Hl as [? _].
  - apply IH; [|done|done]. intros i s s' H1 H2. exact (Hg (S i) s s' H1 H2).
Qed.

(** A rate is taken between the last sample and a base: no counter has gone
    backwards in between, so it is never negative; every sample between them lies
    within the window; and the base is the first sample of all, the first one after
    a restart of the process, or at least [window] milliseconds old. *)
Theorem rate_window_base window l s :
  samples_ok (l ++ [s]) →
  ∃ pre samples s0, l ++ [s] = pre ++ samples ∧ foldl (rate_push window) [] (l ++ [s]) = samples ∧
    head samples = Some s0 ∧ last samples = Some s ∧
    (∀ key, match rate key samples with Some (d, dt) => d = counter s.2 key - counter s0.2 key ∧ 0 ≤ d ∧ dt = s.1 - s0.1 ∧ 0 < dt
            | None => length samples = 1%nat ∨ s.1 = s0.1 end) ∧
    (∀ i s', samples !! S i = Some s' → (S (S i) < length samples)%nat → s.1 - window < s'.1) ∧
    (pre = [] ∨ (∃ s', last pre = Some s' ∧ backwards s'.2 s0.2 = true) ∨ s0.1 ≤ s.1 - window).
Proof.
  intros Hok. assert (∀ l, samples_ok l → keeps window l (foldl (rate_push window) [] l)) as Hk.
  { clear. intros l. induction l as [|x l IH] using rev_ind; intros Hok.
    - split; [exists []; split; done|done|done|done].
    - rewrite foldl_snoc. apply keeps_push; [done|]. apply IH. destruct Hok as [H1 H2]. apply Forall_app in H1 as [H1 _].
      apply StronglySorted_app_1_l in H2. by split. }
  destruct (Hk _ Hok) as [(pre & E & Hpre) Hlast Hmid Hgrow]. set (samples := foldl _ _ _) in *. clearbody samples. rewrite last_snoc in Hlast.
  destruct samples as [|s0 samples]; [done|]. exists pre, (s0 :: samples), s0. split_and!; try done.
  - intros key. destruct Hok as [Hok Hsort]. rewrite E in Hok, Hsort. apply Forall_app in Hok as [_ Hok].
    destruct samples as [|b samples]; [by left|].
    change (rate key (s0 :: b :: samples)) with (s1 ← last (s0 :: b :: samples);
      if decide (s1.1 - s0.1 ≤ 0) then None else Some (counter s1.2 key - counter s0.2 key, s1.1 - s0.1)).
    rewrite Hlast. cbn [mbind option_bind]. apply StronglySorted_app_1_r, StronglySorted_cons in Hsort as [Hsort _].
    assert (s0.1 ≤ s.1) as Hle.
    { rewrite Forall_forall in Hsort. apply (Hsort s). apply last_Some in Hlast as [l' El]. destruct l' as [|y l']; [done|]. injection El as -> ->. set_solver. }
    case_decide; [right; lia|]. pose proof (counters_grow _ key Hok Hgrow s0 s eq_refl Hlast). lia.
  - intros i s' H1 H2. eapply Hmid; [exact H1|exact H2|by rewrite last_snoc].
  - destruct (last pre) as [s'|] eqn:Hp; [|left; by apply last_None in Hp]. right.
    destruct (Hpre s' s0 eq_refl eq_refl) as [|Hold]; [left; by exists s'|right]. apply Hold. by rewrite last_snoc.
Qed.

(** ** Samples *)

(** Three reports, of which the first is too old in the end. *)
Definition sample_batches : list batch := [(1000, [7; 7; 9]); (3000, [9; 12])].

Lemma latency_window_exact_witness :
  ∃ h w, @observe no_numerals 5000 (sample_batches ++ [(6500, [9])]) new_histogram new_latency_window = Ok (h, w) ∧
    lw_counts w !! 7%nat = Some 0 ∧ lw_counts w !! 9%nat = Some 2 ∧ lw_counts w !! 12%nat = Some 1.
Proof.
  destruct (@latency_window_exact no_numerals 5000 sample_batches (6500, [9])) as (h & w & E & Hw).
  - repeat constructor; cbn; lia.
  - repeat constructor; cbn; lia.
  - exists h, w. split; [exact E|]. split_and!; [apply (Hw 7)|apply (Hw 9)|apply (Hw 12)]; split; (lia || (unfold HIST_BUCKETS; lia)).
Defined.

Lemma percentile_exact_witness :
  ∃ i c, percentile [1; 17; 1; 0; 1] (percent 95) = Some i ∧ [1; 17; 1; 0; 1] !! i = Some c ∧ i = 2%nat.
Proof.
  destruct (percentile_exact 95 [1; 17; 1; 0; 1]) as (i & c & Hi & Hc & _).
  - by apply (bool_decide_unpack _); vm_compute.
  - vm_compute. done.
  - exists i, c. split; [exact Hi|]. split; [exact Hc|]. clear -Hi. vm_compute in Hi. by injection Hi as <-.
Defined.

(** The process restarts before the third sample. *)
Definition sample_counters : list sample := [(0, [("ok"%string, 5)]); (250, [("ok"%string, 9)]); (500, [("ok"%string, 1)])].

Lemma rate_window_base_witness :
  ∃ samples, foldl (rate_push 1000) [] (sample_counters ++ [(750, [("ok"%string, 4)])]) = samples ∧
    rate "ok" samples = Some (3, 250) ∧ last samples = Some (750, [("ok"%string, 4)]).
Proof.
  destruct (rate_window_base 1000 sample_counters (750, [("ok"%string, 4)])) as (pre & samples & s0 & _ & E & _ & Hl & _).
  - split.
    + repeat constructor; cbn; (lia || by apply not_elem_of_nil).
    + repeat constructor; cbn; lia.
  - exists samples. split; [exact E|]. split; [|exact Hl]. subst samples. by vm_compute.
Defined.
