(* ===== verification/LiveBridge.v ===== *)
(** * The bridge at work

    src/bridge/live_bridge.py: the bridge starts maglev-lb for its slots, applies
    what the browser sends to the reconciler, and restarts the daemon on request.

    - the command line of [start_lb] and what the daemon makes of it:
      [daemon_serves_slots];
    - the requests, ticks and coroutines of the bridge as a machine over the
      reconciler: [one_daemon_runs];
    - [restart_recovers]: a restart of the daemon succeeds;
    - [second_restart_two_daemons], [second_restart_ends_bridge]: what a second
      request for a restart does while the first is under way;
    - [stale_observation_ends_wait]: the wait for the new daemon can be cut short by
      what the old one reported.

    The snapshots that are published, the processes of the executor and the
    namespaces are not modelled here. *)

From Stdlib Require Import Lia String.
From stdpp Require Import base numbers list strings gmap.
From S2P Require Import Prelude Net Hash Text Kernel Config Getopt Maglev Conntrack ConntrackSpec Stats BackendManager TableGenerator Datapath HealthChecker Startup Python Schema Reconciler ReconcilerInv ReconcilerSpec LbMetrics.

Local Open Scope Z_scope.

(** ** Starting maglev-lb *)

Definition LB_IP : list Z := text "10.98.0.1".
Definition VIP : list Z := text "10.98.0.100".
Definition BACKEND_PORT : Z := 9000.

(** [f"10.98.0.{10 + i}:{BACKEND_PORT}"] *)
Definition slot_spec (i : Z) : list Z := text "10.98.0." ++ fmt_u (10 + i) ++ text ":" ++ fmt_u BACKEND_PORT.

(** The words that follow the program's name in [start_lb]. *)
Definition lb_argv (slots ct_timeout_ms : Z) (admin_fifo : list Z) : list (list Z) :=
  [text "--iface"; text "bench-lb"; text "--vip"; VIP; text "--director-ip"; LB_IP] ++
  concat ((λ i, [text "--backend"; slot_spec i]) <$> seqZ 1 slots) ++
  [text "--hc-interval-ms"; text "500"; text "--hc-timeout-ms"; text "300"; text "--hc-rise"; text "2";
   text "--hc-fall"; text "2"; text "--admin-fifo"; admin_fifo; text "--metrics-port"; text "9105";
   text "--ct-tcp-timeout-ms"; fmt_u ct_timeout_ms; text "--ct-udp-timeout-ms"; fmt_u ct_timeout_ms].

(** The address 10.98.0.[10 + i], as the daemon stores it. *)
Definition slot_addr (i : Z) : Z := 10 + 98 * 2 ^ 8 + (10 + i) * 2 ^ 24.

Definition slot_backend (i : Z) : config_backend := {| cb_addr := slot_addr i; cb_port := BACKEND_PORT |}.

(** What the daemon is to run with. *)
Definition lb_config (slots ct_timeout_ms : Z) (fifo : list Z) : config :=
  {| iface := pad CONFIG_IFACE_LEN (text "bench-lb"); vip := 10 + 98 * 2 ^ 8 + 100 * 2 ^ 24;
     director_ip := 10 + 98 * 2 ^ 8 + 1 * 2 ^ 24; ttl := 64; table_size := 65537; max_flows := 1000000;
     backends := (slot_backend <$> seqZ 1 slots) ++ replicate (CONFIG_MAX_BACKENDS - Z.to_nat slots) no_backend;
     n_backends := Z.to_nat slots; hc_interval_ms := 500; hc_timeout_ms := 300; hc_rise := 2; hc_fall := 2;
     ct_tcp_timeout_ms := ct_timeout_ms; ct_udp_timeout_ms := ct_timeout_ms; tui_enabled := false;
     metrics_port := 9105; admin_fifo := pad CONFIG_ADMIN_FIFO_LEN fifo |}.

Definition lb_opts (slots ct_timeout_ms : Z) (fifo : list Z) : list opt :=
  [Opt_iface (text "bench-lb"); Opt_vip VIP; Opt_director_ip LB_IP] ++
  ((λ b, Opt_backend (ip_port_text (cb_addr b) (cb_port b))) <$> (slot_backend <$> seqZ 1 slots)) ++
  [Opt_hc_interval_ms (fmt_u 500); Opt_hc_timeout_ms (fmt_u 300); Opt_hc_rise (fmt_u 2); Opt_hc_fall (fmt_u 2);
   Opt_admin_fifo fifo; Opt_metrics_port (fmt_u 9105); Opt_ct_tcp_timeout_ms (fmt_u ct_timeout_ms);
   Opt_ct_udp_timeout_ms (fmt_u ct_timeout_ms)].

Lemma argv_of_app o o' : argv_of (o ++ o') = argv_of o ++ argv_of o'.
Proof. unfold argv_of. by rewrite fmap_app, concat_app. Qed.

Lemma slot_spec_text i : 1 ≤ i ≤ 64 → slot_spec i = ip_port_text (slot_addr i) BACKEND_PORT.
Proof.
  intros Hi. assert (Forall (λ i, slot_spec i = ip_port_text (slot_addr i) BACKEND_PORT) (seqZ 1 64)) as H.
  { apply (bool_decide_unpack _). by vm_compute. }
  rewrite Forall_forall in H. apply H, elem_of_seqZ. lia.
Qed.

Lemma lb_argv_opts slots ct fifo : slots ≤ 64 → lb_argv slots ct fifo = argv_of (lb_opts slots ct fifo).
Proof.
  intros Hs. unfold lb_opts. rewrite !argv_of_app. unfold lb_argv. apply (f_equal2 app); [done|]. apply (f_equal2 app); [|done].
  unfold argv_of. f_equal. rewrite <- !list_fmap_compose. apply list_fmap_ext. intros j i Hi%list_elem_of_lookup_2%elem_of_seqZ.
  unfold compose. cbn [slot_backend cb_addr cb_port]. by rewrite slot_spec_text by lia.
Qed.

Lemma lb_config_backends slots : 0 ≤ slots → length (slot_backend <$> seqZ 1 slots) = Z.to_nat slots.
Proof. intros H. rewrite length_fmap, length_seqZ. done. Qed.

Lemma slot_backends_valid slots : slots ≤ 64 → Forall backend_valid (slot_backend <$> seqZ 1 slots).
Proof.
  intros H. apply Forall_fmap, Forall_forall. intros i Hi%elem_of_seqZ. split; cbn; unfold slot_addr, BACKEND_PORT; lia.
Qed.

(** The daemon accepts the command line and reads from it what was meant. *)
Lemma lb_argv_parsed slots ct fifo :
  1 ≤ slots ≤ 64 → 1 ≤ ct ≤ CT_TIMEOUT_MAX_MS → (length fifo < CONFIG_ADMIN_FIFO_LEN)%nat →
  config_parse_argv (lb_argv slots ct fifo) = Val (0, lb_config slots ct fifo).
Proof.
  intros Hs Hct Hf. rewrite lb_argv_opts by lia. unfold config_parse_argv.
  rewrite (options_spelled (lb_opts slots ct fifo)).
  2:{ apply argv_of_spells. unfold lb_opts. rewrite !Forall_app. split; [by repeat constructor|]. split; [|by repeat constructor].
      apply Forall_fmap, Forall_true. done. }
  pose proof (lb_config_backends slots ltac:(lia)) as Hlen.
  unfold config_parse_args, lb_opts. rewrite parse_opts_app.
  erewrite parse_opts_step by (cbn [parse_opt ps_out parse_start config_defaults iface]; rewrite strncpy_pad by (vm_compute; lia); done).
  do 2 (erewrite parse_opts_step by (cbn [parse_opt]; by vm_compute)).
  cbn [parse_opts]. rewrite bind_Val, parse_opts_app.
  rewrite (parse_backends _ _ []), bind_Val; [|by apply slot_backends_valid; lia|rewrite Hlen; unfold CONFIG_MAX_BACKENDS; cbn; lia|done|done].
  cbn [app]. flatten_state.
  do 4 (erewrite parse_opts_step by
    (cbn [parse_opt]; rewrite ranged_fmt by (unfold LONG_MAX; lia); done); flatten_state).
  erewrite parse_opts_step by (by apply parse_admin_fifo). flatten_state.
  erewrite parse_opts_step by (cbn [parse_opt]; rewrite ranged_fmt by (unfold LONG_MAX; lia); done). flatten_state.
  do 2 (erewrite parse_opts_step by (cbn [parse_opt]; rewrite ct_timeout_fmt by done; done); flatten_state).
  cbn [parse_opts]. rewrite bind_Val, Hlen. flatten_state. rewrite bool_decide_false by lia. cbn [negb orb].
  unfold lb_config, u32, u16, CT_TIMEOUT_MAX_MS in *. rewrite !Z.mod_small by lia. done.
Qed.

Lemma configured_from_lookup bs macs : ∀ i j c mac,
  bs !! j = Some c → macs !! j = Some mac → configured (i + j) c mac ∈ configured_from i bs macs.
Proof.
  revert macs. induction bs as [|c' bs IH]; intros [|mac' macs] i [|j] c mac Hc Hm; try done; cbn in *.
  - injection Hc as ->. injection Hm as ->. rewrite Nat.add_0_r. left.
  - right. replace (i + S j)%nat with (S i + j)%nat by lia. by apply IH.
Qed.

Lemma length_configured_from bs macs : ∀ i, length macs = length bs → length (configured_from i bs macs) = length bs.
Proof.
  revert macs. induction bs as [|c bs IH]; intros [|mac macs] i Hl; try done. cbn in *. by rewrite IH by lia.
Qed.


(** ** The bridge as a machine *)

Section Machine.
Context {T : Types} {Ex : Type} {X : Executor Ex} (n : nat).

Inductive bridge_phase := B_starting | B_converging | B_ready | B_degraded.

#[export] Instance bridge_phase_eq_dec : EqDecision bridge_phase.
Proof. solve_decision. Defined.

Inductive bridge_msg :=
| E_restarting | E_restarted | E_timed_out | E_exited | E_load_paused | E_load_resumed | E_session_reset.

(** The coroutine [restart_lb] between two of its awaits: not begun, in
    [lb_proc.wait] of a process, in the sleep of [wait_lb_ready], in [poll_lb] or in
    the sleep of [wait_unowned_slots_down], the last three with their deadline. *)
Inductive restart := Spawned | Terminating (pid : nat) | Unready (deadline : Z) | Polling (deadline : Z) | Unconverged (deadline : Z).

(** [br_running]: the daemons that have not exited.  [br_lb]: [lb_proc]. *)
Record bridge := {
  br_r : Reconciler; br_env : @env T Ex; br_obs : gmap Z obs; br_phase : bridge_phase; br_lb : nat; br_running : list nat;
  br_next : nat; br_restart_pending : bool; br_restarts : list restart; br_events : list bridge_msg;
}.

Definition set_r (r : Reconciler) (e : env) (b : bridge) : bridge :=
  {| br_r := r; br_env := e; br_obs := br_obs b; br_phase := br_phase b; br_lb := br_lb b; br_running := br_running b;
     br_next := br_next b; br_restart_pending := br_restart_pending b; br_restarts := br_restarts b; br_events := br_events b |}.
Definition set_obs (o : gmap Z obs) (b : bridge) : bridge :=
  {| br_r := br_r b; br_env := br_env b; br_obs := o; br_phase := br_phase b; br_lb := br_lb b; br_running := br_running b;
     br_next := br_next b; br_restart_pending := br_restart_pending b; br_restarts := br_restarts b; br_events := br_events b |}.
Definition set_bridge_phase (p : bridge_phase) (b : bridge) : bridge :=
  {| br_r := br_r b; br_env := br_env b; br_obs := br_obs b; br_phase := p; br_lb := br_lb b; br_running := br_running b;
     br_next := br_next b; br_restart_pending := br_restart_pending b; br_restarts := br_restarts b; br_events := br_events b |}.
Definition set_running (l : list nat) (b : bridge) : bridge :=
  {| br_r := br_r b; br_env := br_env b; br_obs := br_obs b; br_phase := br_phase b; br_lb := br_lb b; br_running := l;
     br_next := br_next b; br_restart_pending := br_restart_pending b; br_restarts := br_restarts b; br_events := br_events b |}.
Definition set_restarts (p : bool) (l : list restart) (b : bridge) : bridge :=
  {| br_r := br_r b; br_env := br_env b; br_obs := br_obs b; br_phase := br_phase b; br_lb := br_lb b; br_running := br_running b;
     br_next := br_next b; br_restart_pending := p; br_restarts := l; br_events := br_events b |}.
Definition set_events (l : list bridge_msg) (b : bridge) : bridge :=
  {| br_r := br_r b; br_env := br_env b; br_obs := br_obs b; br_phase := br_phase b; br_lb := br_lb b; br_running := br_running b;
     br_next := br_next b; br_restart_pending := br_restart_pending b; br_restarts := br_restarts b; br_events := l |}.

Definition event (m : bridge_msg) (b : bridge) : bridge := set_events (br_events b ++ [m]) b.

(** [self.lb_proc.poll() is None] *)
Definition lb_alive (b : bridge) : bool := bool_decide (br_lb b ∈ br_running b).

Definition start_lb (b : bridge) : bridge :=
  {| br_r := br_r b; br_env := br_env b; br_obs := br_obs b; br_phase := br_phase b; br_lb := br_next b;
     br_running := br_running b ++ [br_next b]; br_next := S (br_next b); br_restart_pending := br_restart_pending b;
     br_restarts := br_restarts b; br_events := br_events b |}.

(** What [lbmetrics.fetch] gives: observations, an [OSError], or an exception that
    is none ([http.client.IncompleteRead] for a response cut short). *)
Inductive fetched := Fetched (o : gmap Z obs) | Os_error | Http_error.

(** [poll_lb] after its await; [None] if the exception escapes. *)
Definition poll_lb (f : fetched) (b : bridge) : option bridge :=
  match f with Fetched o => Some (set_obs o b) | Os_error => Some b | Http_error => None end.

(** What a coroutine is resumed with: the time, whether the daemon's log contains
    the line it waits for, and the answer of the poll. *)
Record resumption := { rs_now : Z; rs_log_ready : bool; rs_fetched : fetched }.

(** Why the bridge ends. *)
Inductive exit_reason := Lb_exited_early | Lb_not_ready | Poll_failed.

(** At its next await the coroutine is suspended, or it returns, raises an exception
    nobody handles, or raises [SystemExit]. *)
Inductive progress := Suspends (t : restart) | Returns | Raises | System_exit (why : exit_reason).

Definition owned (r : Reconciler) : list Z := lb_id <$> filter (λ s, s_owner s ≠ None) (slots r).

Definition unowned_down (b : bridge) : bool :=
  bool_decide (br_obs b ≠ ∅) &&
  forallb (λ i, negb (reported_up (br_obs b) i)) (filter (λ i, i ∉ owned (br_r b)) (seqZ 0 (Z.of_nat n))).

(** The end of [restart_lb]. *)
Definition restarted (b : bridge) : progress * bridge := (Returns, event E_restarted (set_bridge_phase B_ready b)).

(** The loop of [wait_unowned_slots_down] at its condition. *)
Definition converge (now deadline : Z) (b : bridge) : progress * bridge :=
  if decide (now < deadline) then (Suspends (Polling deadline), b) else restarted (event E_timed_out b).

(** The loop of [wait_lb_ready] at its condition. *)
Definition await_ready (i : resumption) (deadline : Z) (b : bridge) : progress * bridge :=
  if decide (rs_now i < deadline) then
    if negb (lb_alive b) then (System_exit Lb_exited_early, b)
    else if rs_log_ready i then converge (rs_now i) (rs_now i + 15000) (set_bridge_phase B_converging b)
    else (Suspends (Unready deadline), b)
  else (System_exit Lb_not_ready, b).

(** [restart_lb] up to its next await.  [lb_proc.wait] is over when the process has
    exited; if it is resumed before, that is a timeout. *)
Definition restart_lb (i : resumption) (t : restart) (b : bridge) : progress * bridge :=
  match t with
  | Spawned =>
      let b := event E_restarting (set_restarts false (br_restarts b) b) in
      if lb_alive b then (Suspends (Terminating (br_lb b)), b)
      else await_ready i (rs_now i + 20000) (start_lb b)
  | Terminating pid =>
      if decide (pid ∈ br_running b) then (Raises, b) else await_ready i (rs_now i + 20000) (start_lb b)
  | Unready deadline => await_ready i deadline b
  | Polling deadline =>
      match poll_lb (rs_fetched i) b with
      | None => (Raises, b)
      | Some b => if unowned_down b then restarted b else (Suspends (Unconverged deadline), b)
      end
  | Unconverged deadline => converge (rs_now i) deadline b
  end.

Inductive outcome := Goes (b : bridge) | Exits (why : exit_reason) (b : bridge) | Fails (x : exn).

(** A request, a tick after its poll, a coroutine that is resumed, a daemon that
    exits, and whatever the other processes do. *)
Inductive bridge_event :=
| Ev_desired (d : desired_state) (now : Z)
| Ev_action (cid : string) (k : kind) (now now' : Z)
| Ev_reset (now : Z)
| Ev_restart
| Ev_resume (j : nat) (i : resumption)
| Ev_tick (f : fetched) (suppress : bool) (now : Z)
| Ev_lb_exit (pid : nat)
| Ev_elapse (f : Ex → Ex).

Definition reconcile (i : input) (b : bridge) : outcome :=
  match handle i (br_r b) (br_env b) with Ok (r, e) => Goes (set_r r e b) | Raise x => Fails x end.

Definition request_lb_restart (b : bridge) : bridge :=
  if br_restart_pending b then b else set_restarts true (br_restarts b ++ [Spawned]) b.

(** [tick] after its poll, up to the snapshot, which takes the events. *)
Definition bridge_tick (f : fetched) (suppress : bool) (now : Z) (b : bridge) : outcome :=
  match poll_lb f b with
  | None => Exits Poll_failed b
  | Some b =>
      let b := if Bool.eqb suppress (load_suppressed (br_r b)) then b
               else event (if suppress then E_load_paused else E_load_resumed) b in
      let b := if negb (lb_alive b) && bool_decide (br_phase b = B_ready) then event E_exited (set_bridge_phase B_degraded b) else b in
      match reconcile (I_tick suppress now (br_obs b)) b with
      | Goes b => match reconcile I_take_events b with Goes b => Goes (set_events [] b) | o => o end
      | o => o
      end
  end.

Definition resume (j : nat) (i : resumption) (b : bridge) : outcome :=
  match br_restarts b !! j with
  | None => Goes b
  | Some t =>
      let '(p, b) := restart_lb i t b in
      match p with
      | Suspends t => Goes (set_restarts (br_restart_pending b) (<[j := t]> (br_restarts b)) b)
      | Returns | Raises => Goes (set_restarts (br_restart_pending b) (delete j (br_restarts b)) b)
      | System_exit why => Exits why b
      end
  end.

Definition bridge_step (ev : bridge_event) (b : bridge) : outcome :=
  match ev with
  | Ev_desired d now => reconcile (I_desired d now (br_obs b)) b
  | Ev_action cid k now now' => reconcile (I_action cid k now now' (br_obs b)) b
  | Ev_reset now => match reconcile (I_reset now) b with Goes b => Goes (event E_session_reset b) | o => o end
  | Ev_restart => Goes (request_lb_restart b)
  | Ev_resume j i => resume j i b
  | Ev_tick f suppress now => bridge_tick f suppress now b
  | Ev_lb_exit pid => Goes (set_running (filter (λ p, p ≠ pid) (br_running b)) b)
  | Ev_elapse f => Goes (set_r (br_r b) (elapsed f (br_env b)) b)
  end.

Fixpoint bridge_run (evs : list bridge_event) (b : bridge) : outcome :=
  match evs with
  | [] => Goes b
  | ev :: evs => match bridge_step ev b with Goes b => bridge_run evs b | o => o end
  end.

(** When [run] enters its loop. *)
Definition booted (e : env) (o : gmap Z obs) : bridge :=
  {| br_r := init n; br_env := e; br_obs := o; br_phase := B_ready; br_lb := 0; br_running := [0%nat]; br_next := 1;
     br_restart_pending := false; br_restarts := []; br_events := [] |}.

(** ** One daemon *)

(** The bridge knows the daemon that runs, and restarts it once at a time. *)
Record bridge_ok (b : bridge) : Prop := {
  bo_r : reconciler_ok n (br_r b);
  bo_running : br_running b = [] ∨ br_running b = [br_lb b];
  bo_next : (br_lb b < br_next b)%nat;
  bo_restarts : match br_restarts b with
                | [] => br_restart_pending b = false
                | [Spawned] => True
                | [Terminating pid] => pid = br_lb b ∧ br_restart_pending b = false
                | [_] => br_restart_pending b = false
                | _ => False
                end;
}.

(** No restart is asked for while one is under way. *)
Fixpoint restarts_apart (evs : list bridge_event) (b : bridge) : Prop :=
  match evs with
  | [] => True
  | ev :: evs =>
      (ev = Ev_restart → br_restarts b = [] ∨ br_restart_pending b = true) ∧
      match bridge_step ev b with Goes b => restarts_apart evs b | _ => True end
  end.

Definition goes_ok (o : outcome) : Prop :=
  match o with
  | Goes b => bridge_ok b
  | Exits why b => why = Lb_exited_early → br_running b = []
  | Fails _ => False
  end.

Lemma reconcile_ok i b : bridge_ok b → goes_ok (reconcile i b).
Proof.
  intros [Hr H1 H2 H3]. unfold reconcile. destruct (handle_ok n i (br_r b) (br_env b) Hr) as (r & e & -> & Hr').
  by split.
Qed.

Lemma event_ok m b : bridge_ok b → bridge_ok (event m b).
Proof. intros []. by split. Qed.

Lemma bridge_tick_ok f suppress now b : bridge_ok b → goes_ok (bridge_tick f suppress now b).
Proof.
  intros Hb. unfold bridge_tick. destruct (poll_lb f b) as [b1|] eqn:Hp; [|done].
  assert (bridge_ok b1) as Hb1 by (destruct f; [injection Hp as <-; destruct Hb; by split|injection Hp as <-; done|done]).
  cbv zeta. set (b2 := if Bool.eqb _ _ then b1 else _). assert (bridge_ok b2) as Hb2 by (unfold b2; destruct (Bool.eqb _ _); [done|by apply event_ok]).
  clearbody b2. set (b3 := if _ && _ then _ else b2).
  assert (bridge_ok b3) as Hb3 by (unfold b3; destruct (_ && _); [apply event_ok; destruct Hb2; by split|done]). clearbody b3.
  pose proof (reconcile_ok (I_tick suppress now (br_obs b3)) b3 Hb3) as H. destruct (reconcile _ b3) as [b4| |]; [|done..].
  pose proof (reconcile_ok I_take_events b4 H) as H'. destruct (reconcile _ b4) as [b5| |]; [|done..]. destruct H'. by split.
Qed.

(** What a resumed coroutine leaves behind when it was the only one: the parts of
    [bridge_ok] that do not concern it, and where it stands. *)
Definition left_ok (p : progress) (b : bridge) : Prop :=
  reconciler_ok n (br_r b) ∧ (br_running b = [] ∨ br_running b = [br_lb b]) ∧ (br_lb b < br_next b)%nat ∧
  br_restart_pending b = false ∧
  match p with
  | Suspends Spawned => False
  | Suspends (Terminating pid) => pid = br_lb b
  | System_exit Lb_exited_early => br_running b = []
  | _ => True
  end.

Lemma converge_ok now deadline b : left_ok Returns b → left_ok (converge now deadline b).1 (converge now deadline b).2.
Proof. intros (?&?&?&?&_). unfold converge, restarted. by case_decide. Qed.

Lemma lb_gone b : br_running b = [] ∨ br_running b = [br_lb b] → ¬ br_lb b ∈ br_running b → br_running b = [].
Proof. intros [->| ->] H; [done|]. set_solver. Qed.

Lemma await_ready_ok i deadline b : left_ok Returns b → left_ok (await_ready i deadline b).1 (await_ready i deadline b).2.
Proof.
  intros Hb. unfold await_ready. case_decide; [|by destruct Hb as (?&?&?&?&_)].
  destruct (lb_alive b) eqn:Ha; cbn [negb].
  2:{ apply bool_decide_eq_false in Ha. destruct Hb as (?&?&?&?&_). split_and!; try done. cbn. by apply lb_gone. }
  destruct (rs_log_ready i); [apply converge_ok|]; by destruct Hb as (?&?&?&?&_).
Qed.

Lemma start_lb_ok i deadline b :
  reconciler_ok n (br_r b) → br_running b = [] → br_restart_pending b = false →
  left_ok (await_ready i deadline (start_lb b)).1 (await_ready i deadline (start_lb b)).2.
Proof.
  intros Hr Hrun Hp. apply await_ready_ok. split; [done|]. cbn. rewrite Hrun. split_and!; [by right|lia|done|done].
Qed.

Lemma restart_lb_ok i t b : bridge_ok b → br_restarts b = [t] → left_ok (restart_lb i t b).1 (restart_lb i t b).2.
Proof.
  intros [Hr Hrun Hn Ht] E. rewrite E in Ht. unfold restart_lb. destruct t as [|pid|d|d|d].
  - unfold lb_alive. cbv zeta. cbn [br_lb br_running event set_events set_restarts]. case_bool_decide as Hin; [done|].
    apply start_lb_ok; [done| |done]. by apply lb_gone.
  - destruct Ht as [-> Hp]. case_decide as Hin; [done|]. apply start_lb_ok; [done| |done]. by apply lb_gone.
  - by apply await_ready_ok.
  - destruct (rs_fetched i) as [o| |]; cbn [poll_lb]; [| |done]; unfold restarted; (destruct (unowned_down _); done).
  - by apply converge_ok.
Qed.

Lemma restart_lb_keeps i t b : br_restarts (restart_lb i t b).2 = br_restarts b.
Proof.
  assert (∀ now d b, br_restarts (converge now d b).2 = br_restarts b) as Hc by (intros; unfold converge; by case_decide).
  assert (∀ d b, br_restarts (await_ready i d b).2 = br_restarts b) as Ha.
  { intros. unfold await_ready. case_decide; [|done]. destruct (lb_alive _); cbn [negb]; [|done]. destruct (rs_log_ready i); [by rewrite Hc|done]. }
  destruct t as [|pid|d|d|d]; cbn [restart_lb].
  - destruct (lb_alive _); [done|by rewrite Ha].
  - case_decide; [done|by rewrite Ha].
  - by rewrite Ha.
  - destruct (rs_fetched i) as [o| |]; cbn [poll_lb]; [| |done]; unfold restarted; (destruct (unowned_down _); done).
  - by rewrite Hc.
Qed.

Lemma resume_ok j i b : bridge_ok b → goes_ok (resume j i b).
Proof.
  intros Hb. unfold resume. destruct (br_restarts b !! j) as [t|] eqn:Hj; [|done].
  assert (br_restarts b = [t] ∧ j = 0%nat) as [E ->].
  { pose proof (bo_restarts _ Hb). destruct (br_restarts b) as [|t' [|]]; [done| |by destruct t'].
    destruct j; [by injection Hj as ->|done]. }
  pose proof (restart_lb_ok i t b Hb E) as (Hr & Hrun & Hn & Hp & Ht). pose proof (restart_lb_keeps i t b) as Hk.
  destruct (restart_lb i t b) as [p b']. cbn [fst snd] in *. rewrite Hk, E.
  destruct p as [t'| | |why]; cbn [goes_ok]; [split; try done; cbn; rewrite Hp; by destruct t'..|by intros ->].
Qed.

Lemma bridge_step_ok ev b :
  bridge_ok b → (ev = Ev_restart → br_restarts b = [] ∨ br_restart_pending b = true) → goes_ok (bridge_step ev b).
Proof.
  intros Hb Hev. destruct ev as [d now|cid k now now'|now| |j i|f s now|pid|f]; cbn [bridge_step].
  - by apply reconcile_ok.
  - by apply reconcile_ok.
  - pose proof (reconcile_ok (I_reset now) b Hb) as H. destruct (reconcile _ b); [by apply event_ok|done..].
  - unfold request_lb_restart. cbn [goes_ok]. destruct (br_restart_pending b) eqn:Hp; [done|].
    destruct (Hev eq_refl) as [E|]; [|done]. destruct Hb. split; try done. cbn. by rewrite E.
  - by apply resume_ok.
  - by apply bridge_tick_ok.
  - destruct Hb as [Hr Hrun Hn Ht]. split; try done. cbn. destruct Hrun as [->| ->]; [by left|]. rewrite filter_cons.
    case_decide; [by right|by left].
  - destruct Hb. by split.
Qed.


(** ** Restarting *)

(** No request is being handled and the daemon runs. *)
Definition steady (b : bridge) : Prop :=
  br_restarts b = [] ∧ br_restart_pending b = false ∧ br_running b = [br_lb b] ∧ (br_lb b < br_next b)%nat.

Definition resumes (l : list resumption) : list bridge_event := Ev_resume 0 <$> l.

Lemma bridge_run_app evs evs' b :
  bridge_run (evs ++ evs') b = match bridge_run evs b with Goes b => bridge_run evs' b | o => o end.
Proof. revert b. induction evs as [|ev evs IH]; intros b; [done|]. cbn [app bridge_run]. by destruct (bridge_step ev b). Qed.

(** In [wait_lb_ready] and in the loop of [wait_unowned_slots_down] nothing changes
    but what is observed. *)
Definition waits_ready (deadline : Z) (i : resumption) : Prop := rs_now i < deadline ∧ rs_log_ready i = false.

Lemma unready_run deadline l b :
  br_restarts b = [Unready deadline] → lb_alive b = true → Forall (waits_ready deadline) l → bridge_run (resumes l) b = Goes b.
Proof.
  intros E Ha. induction 1 as [|i l [Hn Hl] _ IH]; [done|]. unfold resumes. rewrite fmap_cons. cbn [bridge_run bridge_step].
  unfold resume. rewrite E. cbn [lookup list_lookup restart_lb]. unfold await_ready. rewrite decide_True by done. rewrite Ha, Hl. cbn [negb].
  rewrite E. cbn [insert list_insert]. replace (set_restarts _ _ b) with b by (destruct b; cbn in *; by subst). exact IH.
Qed.
(** A round of [wait_unowned_slots_down] that finds some unowned slot up. *)
Definition waits_down (deadline : Z) (b : bridge) (r : resumption * resumption) : Prop :=
  (∃ o, rs_fetched r.1 = Fetched o ∧ unowned_down (set_obs o b) = false) ∧ rs_now r.2 < deadline.

Definition rounds (l : list (resumption * resumption)) : list bridge_event := concat ((λ r, [Ev_resume 0 r.1; Ev_resume 0 r.2]) <$> l).

Lemma polling_run deadline l : ∀ b,
  br_restarts b = [Polling deadline] → Forall (waits_down deadline b) l → ∃ o, bridge_run (rounds l) b = Goes (set_obs o b).
Proof.
  induction l as [|r l IH]; intros b E Hl; [exists (br_obs b); by destruct b|].
  apply Forall_cons in Hl as [((o & Ho & Hup) & Hn) Hl]. unfold rounds. rewrite fmap_cons. cbn [concat app bridge_run bridge_step].
  unfold resume at 1. rewrite E. cbn [lookup list_lookup restart_lb]. rewrite Ho. cbn [poll_lb]. rewrite Hup. cbn [br_restarts set_obs]. rewrite E.
  cbn [insert list_insert]. unfold resume at 1. cbn [br_restarts set_restarts lookup list_lookup restart_lb]. unfold converge. rewrite decide_True by done.
  cbn [br_restarts set_restarts insert list_insert]. destruct (IH (set_obs o b)) as [o' Ho']; [done|exact Hl|]. exists o'.
  change (set_obs o' b) with (set_obs o' (set_obs o b)). rewrite <- Ho'. f_equal. destruct b; cbn in *. by rewrite E.
Qed.

Lemma running_gone (pid : nat) : filter (λ p, p ≠ pid) [pid] = [].
Proof. by rewrite filter_cons, decide_False by auto. Qed.

Ltac fields := cbn [br_r br_env br_obs br_phase br_lb br_running br_next br_restart_pending br_restarts br_events set_r set_obs
  set_bridge_phase set_running set_restarts set_events event start_lb app insert list_insert lookup list_lookup].

Lemma bridge_run_cons ev evs b b' : bridge_step ev b = Goes b' → bridge_run (ev :: evs) b = bridge_run evs b'.
Proof. intros E. cbn [bridge_run]. by rewrite E. Qed.

Lemma request_step b : br_restart_pending b = false → bridge_step Ev_restart b = Goes (set_restarts true (br_restarts b ++ [Spawned]) b).
Proof. intros E. cbn. unfold request_lb_restart. by rewrite E. Qed.

Lemma spawned_step j i b : br_restarts b !! j = Some Spawned → lb_alive b = true →
  bridge_step (Ev_resume j i) b = Goes (set_restarts false (<[j := Terminating (br_lb b)]> (br_restarts b)) (event E_restarting b)).
Proof. intros E Ha. cbn [bridge_step]. unfold resume. rewrite E. cbn [restart_lb]. unfold lb_alive in *. cbv zeta. cbn. by rewrite Ha. Qed.

(** The new daemon is started when the old one has exited. *)
Lemma terminated_step j i pid b : br_restarts b !! j = Some (Terminating pid) → ¬ pid ∈ br_running b → 
  bridge_step (Ev_resume j i) b = Goes (if rs_log_ready i then
    set_restarts (br_restart_pending b) (<[j := Polling (rs_now i + 15000)]> (br_restarts b)) (set_bridge_phase B_converging (start_lb b))
    else set_restarts (br_restart_pending b) (<[j := Unready (rs_now i + 20000)]> (br_restarts b)) (start_lb b)).
Proof.
  intros E Hpid. cbn [bridge_step]. unfold resume. rewrite E. cbn [restart_lb]. rewrite decide_False by done.
  unfold await_ready. rewrite decide_True by lia. assert (lb_alive (start_lb b) = true) as ->.
  { apply bool_decide_eq_true. cbn. apply elem_of_app. right. left. }
  cbn [negb]. destruct (rs_log_ready i); [|done]. unfold converge. by rewrite decide_True by lia.
Qed.


(** [restart_lb] takes the mark of the request back when it begins, not when it
    is done.  A second request before the old daemon has exited starts a second
    daemon, and the bridge forgets the first of the two. *)
Theorem second_restart_two_daemons b i0 i1 i2 i3 :
  steady b → ∃ b',
  bridge_run [Ev_restart; Ev_resume 0 i0; Ev_restart; Ev_resume 1 i1; Ev_lb_exit (br_lb b); Ev_resume 0 i2; Ev_resume 1 i3] b = Goes b' ∧
  br_running b' = [br_next b; S (br_next b)] ∧ br_lb b' = S (br_next b).
Proof.
  intros (E & Hp & Hrun & Hn). rewrite (bridge_run_cons _ _ _ _ (request_step b Hp)), E. fields.
  erewrite bridge_run_cons by (apply spawned_step; [done|apply bool_decide_eq_true; fields; rewrite Hrun; left]). fields.
  erewrite bridge_run_cons by (by apply request_step). fields.
  erewrite bridge_run_cons by (apply spawned_step; [done|apply bool_decide_eq_true; fields; rewrite Hrun; left]). fields.
  erewrite bridge_run_cons by reflexivity. fields. rewrite Hrun, running_gone.
  erewrite bridge_run_cons by (eapply terminated_step; [done|fields; apply not_elem_of_nil]).
  erewrite bridge_run_cons.
  2:{ apply (terminated_step 1 i3 (br_lb b)); destruct (rs_log_ready i2); fields; try done;
      (rewrite elem_of_cons; intros [H|[]%not_elem_of_nil]; lia). }
  eexists. split; [reflexivity|]. destruct (rs_log_ready i2), (rs_log_ready i3); done.
Qed.

(** C40. A second request while the bridge waits for the new daemon stops that
    daemon; the first request finds it gone and ends the bridge. *)
Theorem second_restart_ends_bridge b i0 i1 i2 i3 :
  steady b → rs_log_ready i1 = false → rs_now i3 < rs_now i1 + 20000 → ∃ b',
  bridge_run [Ev_restart; Ev_resume 0 i0; Ev_lb_exit (br_lb b); Ev_resume 0 i1; Ev_restart; Ev_resume 1 i2;
              Ev_lb_exit (br_next b); Ev_resume 0 i3] b = Exits Lb_exited_early b'.
Proof.
  intros (E & Hp & Hrun & Hn) Hl Hn3. rewrite (bridge_run_cons _ _ _ _ (request_step b Hp)), E. fields.
  erewrite bridge_run_cons by (apply spawned_step; [done|apply bool_decide_eq_true; fields; rewrite Hrun; left]). fields.
  erewrite bridge_run_cons by reflexivity. fields. rewrite Hrun, running_gone.
  erewrite bridge_run_cons by (eapply terminated_step; [done|fields; apply not_elem_of_nil]). rewrite Hl. fields.
  erewrite bridge_run_cons by (by apply request_step). fields.
  erewrite bridge_run_cons by (apply spawned_step; [done|apply bool_decide_eq_true; fields; left]). fields.
  erewrite bridge_run_cons by reflexivity. fields. rewrite running_gone.
  cbn [bridge_run bridge_step]. unfold resume. fields. cbn [restart_lb]. unfold await_ready. rewrite decide_True by done.
  unfold lb_alive. fields. rewrite bool_decide_false by apply not_elem_of_nil. by eexists.
Qed.

(** If the first poll of the new daemon fails, what the old one reported counts:
    the wait for the unowned slots ends at once although the new daemon considers
    every slot healthy. *)
Theorem stale_observation_ends_wait b i0 i1 i2 :
  steady b → unowned_down b = true → rs_log_ready i1 = true → rs_fetched i2 = Os_error → ∃ b',
  bridge_run [Ev_restart; Ev_resume 0 i0; Ev_lb_exit (br_lb b); Ev_resume 0 i1; Ev_resume 0 i2] b = Goes b' ∧
  br_phase b' = B_ready ∧ br_lb b' = br_next b ∧ br_obs b' = br_obs b ∧ br_restarts b' = [].
Proof.
  intros (E & Hp & Hrun & Hn) Hdown Hl Hf. rewrite (bridge_run_cons _ _ _ _ (request_step b Hp)), E. fields.
  erewrite bridge_run_cons by (apply spawned_step; [done|apply bool_decide_eq_true; fields; rewrite Hrun; left]). fields.
  erewrite bridge_run_cons by reflexivity. fields. rewrite Hrun, running_gone.
  erewrite bridge_run_cons by (eapply terminated_step; [done|fields; apply not_elem_of_nil]). rewrite Hl. fields.
  cbn [bridge_run bridge_step]. unfold resume. fields. cbn [restart_lb]. rewrite Hf. cbn [poll_lb].
  match goal with |- context [unowned_down ?b'] => change (unowned_down b') with (unowned_down b) end. rewrite Hdown.
  by eexists.
Qed.
End Machine.

(** ** Samples *)


(** Which of the slots the daemon reports up. *)
Definition slots_up (l : list (Z * bool)) : gmap Z obs :=
  list_to_map (prod_map id (λ up, {| ob_up := Some up; ob_adminEnabled := Some true |}) <$> l).

(** Two slots, of which the second is to be left free. *)
Definition sample_bridge : bridge := booted 2 sample_env (slots_up [(0, true); (1, false)]).

Definition at_time (now : Z) (ready : bool) (f : fetched) : resumption := {| rs_now := now; rs_log_ready := ready; rs_fetched := f |}.

(** A backend is put on the canvas, its slot comes up, and the daemon is restarted. *)
Definition sample_work : list (@bridge_event _ sample_procs) :=
  [Ev_desired (sample_desired ["b1"%string]) 1000; Ev_tick (Fetched (slots_up [(0, true); (1, false)])) false 1250; Ev_restart;
   Ev_resume 0 (at_time 1300 false Os_error)].


Lemma sample_bridge_steady : steady sample_bridge.
Proof. split_and!; done || (cbn; lia). Qed.


Lemma second_restart_two_daemons_witness :
  ∃ b', bridge_run 2 [Ev_restart; Ev_resume 0 (at_time 0 false Os_error); Ev_restart; Ev_resume 1 (at_time 10 false Os_error); Ev_lb_exit 0;
      Ev_resume 0 (at_time 20 false Os_error); Ev_resume 1 (at_time 20 false Os_error)] sample_bridge = Goes b' ∧ br_running b' = [1; 2]%nat.
Proof.
  destruct (second_restart_two_daemons 2 sample_bridge (at_time 0 false Os_error) (at_time 10 false Os_error) (at_time 20 false Os_error)
    (at_time 20 false Os_error) sample_bridge_steady) as (b' & E & Hr & _).
  exists b'. split; [exact E|exact Hr].
Defined.

Lemma second_restart_ends_bridge_witness :
  ∃ b', bridge_run 2 [Ev_restart; Ev_resume 0 (at_time 0 false Os_error); Ev_lb_exit 0; Ev_resume 0 (at_time 20 false Os_error); Ev_restart;
      Ev_resume 1 (at_time 30 false Os_error); Ev_lb_exit 1; Ev_resume 0 (at_time 220 false Os_error)] sample_bridge = Exits Lb_exited_early b'.
Proof.
  apply (second_restart_ends_bridge 2 sample_bridge (at_time 0 false Os_error) (at_time 20 false Os_error) (at_time 30 false Os_error)
    (at_time 220 false Os_error) sample_bridge_steady); done.
Defined.

(** Both slots are down, none has an owner. *)
Definition sample_idle : bridge := booted 2 sample_env (slots_up [(0, false); (1, false)]).

Lemma stale_observation_ends_wait_witness :
  ∃ b', bridge_run 2 [Ev_restart; Ev_resume 0 (at_time 0 false Os_error); Ev_lb_exit 0; Ev_resume 0 (at_time 20 true Os_error);
      Ev_resume 0 (at_time 30 true Os_error)] sample_idle = Goes b' ∧ br_phase b' = B_ready.
Proof.
  destruct (stale_observation_ends_wait 2 sample_idle (at_time 0 false Os_error) (at_time 20 true Os_error) (at_time 30 true Os_error))
    as (b' & E & Hph & _); [split_and!; done || (cbn; lia)|by vm_compute|done|done|].
  exists b'. split; [exact E|exact Hph].
Defined.
