(* ===== verification/Snapshot.v ===== *)
(** * What a snapshot shows of the slots

    [build_snapshot] of src/bridge/live_bridge.py, as far as it says which backend is
    where: every backend of the canvas with its slot and phase, and the slots whose
    backend is off the canvas but not yet gone.  What it adds from the processes and
    the daemon (rates, latencies, counters) is not modelled.

    [snapshot_complete]: the snapshot of a tick accounts for every slot in use, once,
    and calls an attached backend detached only in the step that has freed its
    slot. *)

From Stdlib Require Import Lia String.
From stdpp Require Import base numbers list strings gmap.
From S2P Require Import Prelude Python Reconciler ReconcilerInv ReconcilerSpec.

Local Open Scope Z_scope.

Section Snapshot.
Context {T : Types} {Ex : Type} {X : Executor Ex}.
Implicit Types (s : Slot) (r : Reconciler) (e : @env T Ex).

Inductive shown_backend := V_pending | V_detached | V_placed (slot lbId : Z) (p : phase).

Definition view_backend r (cid : string) : shown_backend :=
  match slot_of r cid with
  | None => if decide (cid ∈ pending r) then V_pending else V_detached
  | Some s => V_placed (s_n s) (lb_id s) (s_phase s)
  end.

(** [snap["backends"]] *)
Definition snapshot_backends r : dict shown_backend :=
  dict_of ((λ b, (db_id b, view_backend r (db_id b))) <$> d_backends (desired r)).

Record retiree := { rt_slot : Z; rt_formerId : string; rt_phase : phase }.

(** [snap["retiring"]] *)
Definition snapshot_retiring r : list retiree :=
  let attached := db_id <$> d_backends (desired r) in
  omap (λ s, match s_owner s with
             | Some o => if decide (s_removing s = true ∧ ¬ o ∈ attached)
                         then Some {| rt_slot := s_n s; rt_formerId := o; rt_phase := s_phase s |} else None
             | None => None
             end) (slots r).

(** ** Slots off the canvas are being removed *)

Lemma remove_slot_marks active now s e :
  slot_ok s → wp (remove_slot active now s) (λ s' _, ∀ o, s_owner s' = Some o → o ∈ active ∨ s_removing s' = true) e.
Proof.
  intros _. unfold remove_slot, _begin_stop. destruct (s_owner s) as [o|] eqn:Ho; [|apply wp_ret; congruence].
  repeat wp_step; intros o'; cbn; rewrite ?Ho; intros [= <-]; try (by right).
  - left. naive_solver.
  - destruct (decide (o ∈ active)); [by left|right]. destruct (s_removing s); naive_solver.
Qed.

Lemma progress_slot_removing want lb now s e :
  slot_ok s → wp (progress_slot want lb now s) (λ s' _, s_owner s' ≠ None → s_removing s' = s_removing s) e.
Proof.
  intros Hs. unfold progress_slot. destruct (s_owner s) as [o|] eqn:Ho; [|by apply wp_ret].
  apply wp_bind, wp_alive. intros a ex Ha. destruct (running (s_phase s) && negb a && negb (s_removing s)).
  { destruct (s_fault (set_phase Crashed s)); repeat wp_step; done. }
  apply wp_bind. apply (wp_mono _ (λ s' _, s_owner s' ≠ None → s_removing s' = s_removing s)).
  - unfold advance_phase. cbv zeta. destruct (s_phase s) eqn:Hp; try (repeat wp_step; done).
    + destruct (s_removing s) eqn:Hr; [|by apply wp_ret]. unfold drain_slot, _begin_stop.
      assert (is_Some (s_drain_since s)) as Hds by (unfold slot_ok in Hs; rewrite Ho, Hp in Hs; naive_solver).
      apply wp_bind, wp_latest. intros st ex' Hst. cbv beta zeta.
      repeat first [apply wp_not_none; [exact Hds|intros ? _]|wp_step]; intros _; exact Hr.
    + unfold stop_slot. assert (is_Some (s_stop_since s)) as Hss by (unfold slot_ok in Hs; rewrite Ho, Hp in Hs; naive_solver).
      repeat first [apply wp_not_none; [exact Hss|intros ? _]|wp_step]; (done || by intros []).
  - intros s1 e1 _ H1. unfold update_config. repeat wp_step; cbn; done.
Qed.

Lemma off_canvas_removing n now lb r r' e e' :
  reconciler_ok n r → step now lb r e = Ok (r', e') →
  ∀ s o, s ∈ slots r' → s_owner s = Some o → o ∈ active_of (desired_backends (desired r)) ∨ s_removing s = true.
Proof.
  intros Hr Hstep s3 o Hin Ho. destruct (step_passes n now lb r e Hr) as (r2 & e2 & r1 & e1 & Heq & _ & _ & _ & _ & _ & Hs1 & Hd1 & Hpass).
  rewrite Hstep in Heq. injection Heq as <- <-. destruct Hpass as (l1 & w & ea & eb & Ha & _ & Hpr & _ & Hok1 & _ & Hok2 & Hadd & _).
  rewrite Hs1, Hd1 in *. set (active := active_of _) in *. apply list_elem_of_lookup in Hin as [i Hi].
  assert (Forall2 (λ s s', s_owner s' ≠ None → s_removing s' = s_removing s ∧ s_owner s' = s_owner s) (al_slots w) (slots r')) as Hprog.
  { refine (wp_eq _ (λ l' _, Forall2 _ (al_slots w) l') _ _ _ _ Hpr).
    apply (wp_mapM _ slot_ok (λ s s' _, s_owner s' ≠ None → s_removing s' = s_removing s ∧ s_owner s' = s_owner s) _ eb); [done| |done|apply Hok2].
    intros s e3 Hs _. eapply wp_mono; [apply wp_and; [by apply progress_slot_removing|by apply progress_slot_ok]|].
    intros s' e4 _ [H1 (_ & _ & H2)] Hn. split; [by apply H1|]. naive_solver. }
  assert (Forall (λ s, ∀ o, s_owner s = Some o → o ∈ active ∨ s_removing s = true) l1) as Hrem.
  { apply Forall_forall. intros s Hs. assert (Forall2 (λ _ s', ∀ o, s_owner s' = Some o → o ∈ active ∨ s_removing s' = true) (slots r) l1) as H.
    { refine (wp_eq _ (λ l' _, Forall2 _ (slots r) l') _ _ _ _ Ha).
      apply (wp_mapM _ slot_ok (λ _ s' _, ∀ o, s_owner s' = Some o → o ∈ active ∨ s_removing s' = true) _ e1); [done| |done|apply Hr].
      intros s0 e3 Hs0 _. by apply remove_slot_marks. }
    apply list_elem_of_lookup in Hs as [j Hj]. destruct (Forall2_lookup_r _ _ _ _ _ H Hj) as (s0 & _ & H0). exact H0. }
  destruct (Forall2_lookup_r _ _ _ _ _ Hprog Hi) as (s2 & Hi2 & H2). destruct H2 as [Hr2 Ho2]; [congruence|].
  destruct (Forall2_lookup_r _ _ _ _ _ Hadd Hi2) as (s1 & Hi1 & [->|(_ & c & b & h & Hc & _ & ->)]).
  - rewrite Hr2. eapply Forall_lookup_1 in Hrem; [|exact Hi1]. apply Hrem. congruence.
  - left. cbn in Ho2. rewrite Ho in Ho2. injection Ho2 as ->. rewrite elem_of_sorted in Hc. exact Hc.
Qed.

(** ** The snapshot *)

Lemma dict_of_keyed {A B} (f : A → string) (v : string → B) (l : list A) k :
  dict_get (dict_of ((λ a, (f a, v (f a))) <$> l)) k = if decide (k ∈ f <$> l) then Some (v k) else None.
Proof.
  induction l as [|a l IH] using rev_ind; [done|]. rewrite !fmap_app. cbn [fmap list_fmap]. rewrite dict_of_snoc, dict_get_set, IH.
  destruct (decide (k = f a)) as [->|Hne]; [rewrite decide_True by set_solver; done|].
  destruct (decide (k ∈ f <$> l)); [rewrite decide_True by set_solver|rewrite decide_False by set_solver]; done.
Qed.

Lemma active_attached d cid : cid ∈ active_of (desired_backends d) → cid ∈ db_id <$> d_backends d.
Proof.
  unfold active_of, desired_backends, keys. intros ([k b] & -> & [_ Hin]%list_elem_of_filter)%list_elem_of_fmap.
  assert (k ∈ keys (dict_of ((λ b, (db_id b, b)) <$> d_backends d))) as Hk by (apply list_elem_of_fmap; by exists (k, b)).
  rewrite elem_of_dict_of, <- list_fmap_compose in Hk. exact Hk.
Qed.

(** A slot is found by its owner. *)
Lemma find_owner_unique l cid s : NoDup (owners l) → s ∈ l → s_owner s = Some cid → find_owner cid l = Some s.
Proof.
  intros Hd Hin Ho. apply list_elem_of_split in Hin as (l1 & l2 & ->). unfold owners in Hd. rewrite omap_app in Hd. cbn in Hd. rewrite Ho in Hd.
  apply NoDup_app in Hd as (_ & Hd & _). apply find_app_mid; [|by apply bool_decide_eq_true].
  apply find_owner_None. intros Hin. apply (Hd cid Hin). left.
Qed.

(** The snapshot of a step accounts for every slot in use exactly once: under the
    backend of the canvas that owns it, with its number in the daemon and its phase,
    or among the retiring ones if the owner is off the canvas.  An attached backend
    is shown as detached only in the step that has freed the slot it was stopping
    in. *)
Theorem snapshot_complete n now lb r e :
  reconciler_ok n r →
  ∃ r' e', step now lb r e = Ok (r', e') ∧
    (∀ s o, s ∈ slots r' → s_owner s = Some o →
       let shown := {| rt_slot := s_n s; rt_formerId := o; rt_phase := s_phase s |} in
       if decide (o ∈ db_id <$> d_backends (desired r))
       then dict_get (snapshot_backends r') o = Some (V_placed (s_n s) (lb_id s) (s_phase s)) ∧ ¬ shown ∈ snapshot_retiring r'
       else dict_get (snapshot_backends r') o = None ∧ shown ∈ snapshot_retiring r') ∧
    (∀ cid, cid ∈ active_of (desired_backends (desired r)) → dict_get (snapshot_backends r') cid = Some V_detached →
       ∃ s, s ∈ slots r ∧ s_owner s = Some cid ∧ s_phase s = Stopping).
Proof.
  intros Hr. destruct (step_places n now lb r e Hr) as (r' & e' & Hstep & Hd & Hall & _).
  assert (desired r' = desired r) as Hdesired.
  { destruct (step_passes n now lb r e Hr) as (r2 & e2 & _ & _ & Heq & _ & Hde & _). congruence. }
  exists r', e'. split; [done|]. pose proof (off_canvas_removing n now lb r r' e e' Hr Hstep) as Hoff. split.
  - intros s o Hin Ho shown. unfold snapshot_backends. rewrite dict_of_keyed, Hdesired. case_decide as Hon.
    + split.
      * f_equal. unfold view_backend, slot_of. by rewrite (find_owner_unique (slots r') o s).
      * unfold snapshot_retiring. rewrite Hdesired. intros (s' & _ & Hs')%list_elem_of_omap.
        destruct (s_owner s') as [o'|]; [|done]. case_decide as Hc; [|done]. injection Hs' as _ -> _. tauto.
    + split; [done|]. unfold snapshot_retiring. rewrite Hdesired. apply list_elem_of_omap. exists s. split; [done|].
      rewrite Ho, decide_True; [done|]. split; [|done]. destruct (Hoff s o Hin Ho) as [Hact|]; [|done]. destruct Hon. by apply active_attached.
  - intros cid Hact. unfold snapshot_backends. rewrite dict_of_keyed, Hdesired, decide_True by (by apply active_attached).
    intros [= Hv]. unfold view_backend, slot_of in Hv. destruct (find_owner cid (slots r')) as [s|] eqn:Hf; [done|].
    case_decide as Hp; [done|]. apply find_owner_None in Hf. destruct (Hall cid Hact) as [|[|]]; done.
Qed.
End Snapshot.
